(* ===== verification/_CoqProject ===== *)
-Q . S2P
Prelude.v
GoStd.v
GoTime.v
Errors.v
Api.v
Heap.v
DeepCopy.v
Notifier.v
Composite.v
Trace.v
Effects.v
Retries.v
RetryLocks.v
Base64.v
Dot.v
Float64.v
Net.v
Dane.v
Regex.v
ErrText.v
Json.v
Drivers.v
Smtp.v
Notifiers.v
Email.v
Reconcile.v
SimCluster.v
ReconcileProps.v
Keys.v
Ladder.v
Rollups.v
RollupProps.v
Valkey.v
Store.v
StoreProps.v
Incidents.v
IncidentProps.v
IncidentCover.v
Sla.v
Latency.v
Runner.v
RunnerProps.v
BackfillProps.v
Process.v
Resp.v
ValkeyNotifier.v
HttpChecks.v
ConnChecks.v
Factory.v
Databases.v
DbChecks.v
Monitors.v
ValkeyServer.v
Connections.v
EndToEnd.v
Servers.v
StoreServers.v
Pipeline.v
RunnerServers.v
PassServers.v
ExpireServers.v
FillServers.v
UptimeServers.v
BackfillServers.v
Flags.v
Wiring.v
E2E.v
Middleware.v
Config.v
Server.v
ServerProps.v
Handler.v
Dashboard.v
