(* ===== verification/Prelude.v ===== *)
(** * Endpoint monitoring operator and dashboard: verification library

    The repository holds two programs that meet in Valkey servers.  The
    operator (src/api, src/internal, src/pkg, src/cmd) checks the endpoints of
    EndpointMonitor resources, stores the outcome in their status, and sends
    alerts, among them to a Valkey server per location.  The dashboard
    (src/dashboard) reads those servers, condenses the checks into hourly and
    daily rollups on one primary server, and shows status, uptime, incidents
    and latency.  This root file holds the notations, tactics, hints and
    generic lemmas; the others model one part each.

    ** How the code is modelled

    Pure Go functions are Rocq functions.  Code with effects is a computation
    of Trace: it threads a world - everything outside the process - and
    records, in order, the actions others can observe.  What the world answers
    is given by a type class per interface ([Cluster], [Notifying],
    [Driving], [Conns], [HttpClients], [Resolvers], [Databases], [Secrets],
    [Valkey], [Context] ...), and a theorem about such code holds for every
    instance, that is whatever servers, clocks and libraries answer.
    SimCluster, ValkeyServer and Servers are executable instances.  Errors are values:
    [result] for Go's value-and-error pairs, Errors for the trees [errors.Is]
    and [errors.As] search; an index out of range or another panic is [None],
    or [Panicked] in Resp, and is proved absent where it matters.  Integers
    wrap at 64 bits ([wrap64]); strings are byte strings; instants and
    durations are nanoseconds; float64 is IEEE binary64, computed.  A Go map
    is a [gmap]; where its iteration order could show, the definitions take
    the entries as a list and theorems state that the order does not matter.

    ** Files

    Foundations: GoStd, GoTime, Float64, Errors, Trace, Base64 (encoding/base64),
    Dot (net/textproto's mail data), Regex (regexp), Net (connections, replies,
    clocks).

    The operator:
    - Api: api/v1alpha1/endpointmonitor_types.go; Heap, DeepCopy: the same types
      as they lie in memory, and api/v1alpha1/zz_generated.deepcopy.go.
    - Notifier: internal/notifier/notifier.go and internal/driver/driver.go,
      as type classes.
    - Reconcile, Effects: internal/controller/endpointmonitor_controller.go;
      Retries, RetryLocks: internal/controller/retry.go.  ReconcileProps has
      the theorems about the reconciler, SimCluster a world to run it in.
    - Composite, Factory: pkg/factory/factory.go and the two-family driver of
      internal/driver/family.go; Monitors: the drivers and notifiers as
      instances of the interfaces.
    - Flags: the flag package; Wiring: cmd/main.go with
      internal/controller/options.go, the scheme of
      api/v1alpha1/groupversion_info.go and SetupWithManager.
    - Drivers: every constructor of internal/driver, with endpoint.go.
    - HttpChecks and Json (http.go, httpjson.go, trino.go, opensearch.go),
      ConnChecks (tcp.go, ping.go, tls.go, dns.go, redis.go, smtp.go),
      Databases and DbChecks (mysql.go, postgres.go, mongodb.go, scylladb.go):
      the checks themselves; ErrText: errtext.go.
    - Dane: internal/common/dane.go; Smtp: internal/common/smtpAuth/smtpAuth.go
      and the SMTP client it runs in.
    - Notifiers: slack.go, discord.go, webhook.go, and the constructors;
      Email: email.go; Resp and ValkeyNotifier: internal/notifier/valkey.

    The dashboard:
    - Keys, Ladder: dashboard/internal/keys and status.
    - Rollups, Valkey, Store, Incidents, Sla: dashboard/internal/store/store.go;
      Latency: latency.go; RollupProps, StoreProps, IncidentProps and
      IncidentCover have the theorems.
    - Runner, RunnerProps, BackfillProps: dashboard/internal/rollup/rollup.go.
    - Server, ServerProps, Middleware, Handler:
      dashboard/internal/server/server.go.
    - Config: dashboard/internal/config/config.go; Dashboard and Process:
      dashboard/cmd/dashboard/main.go, its start-up and the goroutines it
      leaves running.
    - ValkeyServer: the commands of dashboard/internal/valkeytest/valkeytest.go,
      the server of the tests of both programs; Connections: its accept loop
      and connections, and what the tests set and read.

    Both together: EndToEnd sends an alert over the wire to such a server.
    Servers makes one of them per location and a primary the world the store
    reads; StoreServers says what the store's operations do there, RunnerServers
    and ExpireServers what the runner's do; Pipeline goes from failed checks to
    incidents, PassServers and BackfillServers (with FillServers) from samples
    to the rollups a pass or a backfill leaves, UptimeServers on to the uptime.

    E2E: test/utils/utils.go, the helpers of the end-to-end tests.

    A definition has the name of the Go function or type it models, with the
    loops of a function named beside it; a method that clashes with another
    carries its type ([composite_SendAlert], [smtp_Check]).

    ** What the theorems show

    - Alerts (ReconcileProps, Composite, Retries, RetryLocks): alerts follow
      saved statuses; change alerts are exactly the transitions of the
      observed status; every notifier is tried; each failure that can be
      retried gets one goroutine, which waits and reads the monitor before
      each try and reports how it ended, unless the monitor is gone; a [Stop]
      under way can always go on, or waits for a goroutine that can, and after
      it a monitor's goroutines write no more.
    - Copies (Heap, DeepCopy): the copy of a monitor that a retry goroutine is
      given shares no cell with the original, so each can change unseen by the
      other.
    - Checks (HttpChecks, Databases, Json, Dane, ErrText, DbChecks, Monitors):
      each verdict is characterised by the answers; every driver gives a well
      formed result, so the action after every check saves its outcome, and a
      run whose save fails ends with an error; numbers are compared exactly
      within the limits exactNumber sets, by their text beyond; texts do not
      change with addresses or the order of attempts, so they can be compared.
    - Safety of credentials and mails (Smtp, ConnChecks, Email): credentials
      go over verified TLS to the host they belong to; a mail arrives as its
      parts, with nothing smuggled in.
    - Rollups (RollupProps, StoreProps): the one pass over the samples equals
      a reference definition, for any order of the entries; an hour's field is
      only written after it was read, and what is written over it never loses
      counts; fields expire as they should.
    - Incidents, uptime, latency (IncidentProps, Sla, Latency): incidents are
      the connected components of the failure runs, each with the locations,
      span and counts of its runs ([summarises]), and count each failure once;
      uptime counts each day once; charts conserve counts and keep to their
      limit.
    - The runner (RunnerProps, BackfillProps, Process): a pass makes exactly
      the calls of its dashboards, services and hours, notes each one that
      fails before it makes the next, and ends as the abstract step of what
      the calls answered; one backfill at a time; a noted failure leads to a
      backfill, which reaches every gap of its window; however the goroutines
      interleave, the process stops on a signal.
    - The wire and the whole (Resp, Connections, EndToEnd, Pipeline,
      PassServers, BackfillServers, UptimeServers): commands round-trip; the
      answers to interleaved connections are those of one sequence of
      commands; an alert sent over the wire is what the dashboard shows, at
      the time the notifier's clock showed; a failed check is in an incident
      that spans this time, before its hour is rolled up and after; a pass and
      a backfill leave exactly the rollups of the samples, and the sums of the
      finished days; the uptime is the same from a day's sum as from its
      hours.
    - The start (Wiring, Flags): the manager and its servers are set up with
      the values of the flags, each read by its name, and each server uses its
      own certificate as long as append leaves no room to share
      ([webhook_watcher]); flags are read back as written.
    - The helpers of the tests (E2E): no command reaches another cluster.
    - The web server (ServerProps, Middleware, Handler, Dashboard): answers
      arrive through the compressing middleware unchanged, to be read by the
      package that wrote them (compress/flate, whose raw DEFLATE is not what
      HTTP calls deflate); a dashboard that started with a valid configuration
      never panics in a request.

    ** Fuel

    [readReply], [readCommand], the replies of Net, [replace_from], the
    repetition of Regex and [blocks] take the bytes left as fuel: each round
    reads at least one, and [readReply_ends], [readCommand_ends],
    [replace_from_fuel], [star_loop_complete] and [blocks_last] state that
    this is enough. [serve] reads at most one command per round. [hours_until]
    has the number of the hours. An SMTP server may prolong an authentication
    without end, so [auth_loop] takes the number of its rounds as a parameter,
    and the theorems hold for any number. The retry loop is bounded by
    [Tries], as in the code.

    ** Not modelled

    - Other packages are parameters or interfaces: the JSON and YAML codecs,
      html/template and text/template, gzip and flate, the database, DNS,
      Valkey and SES clients, TLS and HTTP transport, controller-runtime.  So
      are parts of the standard library with large tables or grammars:
      net/url, netip, time.ParseDuration, strconv.Quote and ParseFloat, mime
      types, hashes, [%.1f], the local time zone; case folding and
      [TrimSpace] are modelled for ASCII.
    - What controller-runtime does once the manager runs: that it reconciles
      one key at a time is what RetryLocks relies on.
    - Requests whose path is encoded (RawPath), logging, [time.Unix] beyond its
      range; how long Shutdown waits.
    - The warnings of test/utils.  Outside DeepCopy a monitor is a value: that
      no goroutine sees another's writes to it is what DeepCopy shows.

    ** Hypotheses

    Those of DeepCopy ask that the DeepCopyInto methods of ObjectMeta, ListMeta
    and Time make deep copies ([Copies]) of what their views read ([Local]).

    Theorems about working servers ask for servers that no test made fail
    ([healthy]), for codecs that read back what they wrote, or that write every
    rollup without NaN and infinities ([all_finite]; encoding/json refuses
    those), which the rollups of the hours concerned are then asked to be, for
    clocks between 1970 and 2262 ([plausible]), and for names without a colon,
    which the keys separate by.  That of the backfill is for a retention of up
    to a year, as daily rollups are kept for one, and leaves out the last
    second of an hour, when an hour of the window may expire in less than the
    second a TTL can say.  Wiring asks of [append] what the language says, room
    for at least the elements it is given.  Handler asks that compress/gzip
    and compress/flate read back what they wrote ([readers_invert]). *)

From Stdlib Require Export Ascii String.
From stdpp Require Export base list gmap strings pretty sorting.
From Stdlib Require Export ZArith Lia.

#[global] Open Scope string_scope.
#[global] Open Scope list_scope.
#[global] Open Scope Z_scope.

#[global] Arguments String.append !_ _ / : simpl nomatch.

(** ** Results of fallible Go calls

    A Go function returning [(T, error)] becomes a function into
    [result E T]. *)

Inductive result (E A : Type) : Type :=
| Ok (a : A)
| Err (e : E).
Arguments Ok {E A} a.
Arguments Err {E A} e.

#[export] Instance result_ret {E} : MRet (result E) := @Ok E.
#[export] Instance result_bind {E} : MBind (result E) :=
  λ _ _ f m, match m with Ok a => f a | Err e => Err e end.
#[export] Instance result_fmap {E} : FMap (result E) :=
  λ _ _ f m, match m with Ok a => Ok (f a) | Err e => Err e end.

Definition is_ok {E A} (r : result E A) : bool :=
  match r with Ok _ => true | Err _ => false end.

(** [err == nil] *)
Definition is_None_b {A} (o : option A) : bool :=
  match o with None => true | Some _ => false end.

(** ** Machine integers

    Go's [int] and [int64] are 64 bits wide on the platforms the images are
    built for; their arithmetic wraps around. *)

Definition wrap64 (z : Z) : Z := (z + 2 ^ 63) `mod` 2 ^ 64 - 2 ^ 63.

Definition is_int64 (z : Z) : Prop := - 2 ^ 63 ≤ z < 2 ^ 63.

#[global] Arguments wrap64 : simpl never.

Declare Scope go_scope.
Delimit Scope go_scope with go.
Notation "x +i y" := (wrap64 (x + y)) (at level 50, left associativity) : go_scope.
Notation "x -i y" := (wrap64 (x - y)) (at level 50, left associativity) : go_scope.
Notation "x *i y" := (wrap64 (x * y)) (at level 40, left associativity) : go_scope.

Create HintDb go discriminated.

Lemma wrap64_id z : is_int64 z → wrap64 z = z.
Proof.
  unfold is_int64, wrap64. intros H. rewrite Z.mod_small; lia.
Qed.

Lemma wrap64_range z : is_int64 (wrap64 z).
Proof.
  unfold is_int64, wrap64.
  pose proof (Z.mod_pos_bound (z + 2 ^ 63) (2 ^ 64)). lia.
Qed.

Lemma wrap64_idemp_l x y : wrap64 (wrap64 x + y) = wrap64 (x + y).
Proof.
  unfold wrap64.
  replace ((x + 2 ^ 63) `mod` 2 ^ 64 - 2 ^ 63 + y + 2 ^ 63)
    with ((x + 2 ^ 63) `mod` 2 ^ 64 + y) by lia.
  rewrite Zplus_mod_idemp_l. do 2 f_equal. lia.
Qed.

Lemma wrap64_idemp_r x y : wrap64 (x + wrap64 y) = wrap64 (x + y).
Proof. rewrite !(Z.add_comm x). apply wrap64_idemp_l. Qed.

#[export] Hint Resolve wrap64_range : go.

(** Equality of what a wrapped counter holds. *)
Definition eqm (x y : Z) : Prop := wrap64 x = wrap64 y.

#[export] Instance eqm_equiv : Equivalence eqm.
Proof. split; [done|by intros x y|intros x y z; unfold eqm; congruence]. Qed.

#[export] Instance eqm_add : Proper (eqm ==> eqm ==> eqm) Z.add.
Proof.
  intros x x' Hx y y' Hy. unfold eqm in *.
  by rewrite <-wrap64_idemp_l, Hx, wrap64_idemp_l, <-wrap64_idemp_r, Hy, wrap64_idemp_r.
Qed.

Lemma eqm_wrap x : eqm (wrap64 x) x.
Proof. apply wrap64_id, wrap64_range. Qed.

(** ** Sums over lists *)

Fixpoint zsum (l : list Z) : Z :=
  match l with [] => 0 | x :: l => x + zsum l end.

Lemma zsum_app l1 l2 : zsum (l1 ++ l2) = zsum l1 + zsum l2.
Proof. induction l1 as [|x l1 IH]; simpl; lia. Qed.

Lemma zsum_snoc l x : zsum (l ++ [x]) = zsum l + x.
Proof. rewrite zsum_app. simpl. lia. Qed.

Lemma zsum_nonneg l : Forall (λ x, 0 ≤ x) l → 0 ≤ zsum l.
Proof. induction 1; simpl; lia. Qed.

#[export] Instance zsum_Permutation : Proper ((≡ₚ) ==> (=)) zsum.
Proof. induction 1; simpl; lia. Qed.

(** ** Lists *)

(** Go slices have [int] lengths. *)
Definition len {A} (l : list A) : Z := Z.of_nat (length l).

Lemma len_nonneg {A} (l : list A) : 0 ≤ len l.
Proof. unfold len. lia. Qed.

Lemma len_app {A} (l1 l2 : list A) : len (l1 ++ l2) = len l1 + len l2.
Proof. unfold len. rewrite length_app. lia. Qed.

Lemma len_cons {A} (x : A) l : len (x :: l) = 1 + len l.
Proof. unfold len. simpl. lia. Qed.

#[export] Instance len_Permutation {A} : Proper ((≡ₚ) ==> (=)) (@len A).
Proof. intros l1 l2 H. unfold len. by rewrite H. Qed.

Lemma elem_of_concat {A} (x : A) ls : x ∈ concat ls ↔ ∃ l, x ∈ l ∧ l ∈ ls.
Proof.
  rewrite list_elem_of_In, in_concat. setoid_rewrite list_elem_of_In. naive_solver.
Qed.

#[export] Instance concat_Permutation {A} : Proper ((≡ₚ) ==> (≡ₚ)) (@concat A).
Proof.
  induction 1 as [|l ls1 ls2 _ IH|l1 l2 ls|ls1 ls2 ls3 _ IH1 _ IH2]; simpl.
  - done.
  - by rewrite IH.
  - by rewrite !(assoc app), (comm app l2 l1).
  - by rewrite IH1.
Qed.

Definition is_nil {A} (l : list A) : bool := match l with [] => true | _ => false end.

(** [countb p l] is the number of elements of [l] that satisfy [p]. *)
Definition countb {A} (p : A → bool) (l : list A) : Z :=
  zsum (map (λ x, if p x then 1 else 0) l).

Lemma countb_nonneg {A} (p : A → bool) l : 0 ≤ countb p l.
Proof.
  unfold countb. apply zsum_nonneg, Forall_map, Forall_true.
  intros x. simpl. destruct (p x); lia.
Qed.

Lemma countb_le_len {A} (p : A → bool) l : countb p l ≤ len l.
Proof.
  induction l as [|x l IH]; [done|]. rewrite len_cons. unfold countb in *.
  simpl. destruct (p x); lia.
Qed.

Lemma countb_app {A} (p : A → bool) l1 l2 :
  countb p (l1 ++ l2) = countb p l1 + countb p l2.
Proof. unfold countb. by rewrite map_app, zsum_app. Qed.

Lemma countb_negb {A} (p : A → bool) l :
  countb p l + countb (λ x, negb (p x)) l = len l.
Proof.
  induction l as [|x l IH]; [done|]. rewrite len_cons. unfold countb in *.
  simpl. destruct (p x); simpl; lia.
Qed.

#[export] Instance countb_Permutation {A} (p : A → bool) :
  Proper ((≡ₚ) ==> (=)) (countb p).
Proof. intros l1 l2 H. unfold countb. by rewrite H. Qed.

Lemma countb_full {A} (p : A → bool) l :
  countb p l = len l ↔ Forall (λ x, p x = true) l.
Proof.
  induction l as [|x l IH]; [by split|].
  pose proof (countb_le_len p l). rewrite Forall_cons, len_cons.
  unfold countb in *. simpl. rewrite <-IH.
  destruct (p x); split; [intros; split; [done|lia]|intros [_ ?]; lia
    |intros; lia|by intros [? _]].
Qed.

Lemma countb_pos {A} (p : A → bool) l :
  0 < countb p l ↔ Exists (λ x, p x = true) l.
Proof.
  induction l as [|x l IH].
  { unfold countb. simpl. split; [lia | by intros H%Exists_nil]. }
  pose proof (countb_nonneg p l). rewrite Exists_cons.
  unfold countb in *. simpl. rewrite <-IH.
  destruct (p x); split; [by left|lia|right; lia|intros [?|?]; [done|lia]].
Qed.

#[export] Hint Resolve len_nonneg countb_nonneg zsum_nonneg : go.

Lemma countb_cons {A} (p : A → bool) x l : countb p (x :: l) = (if p x then 1 else 0) + countb p l.
Proof. done. Qed.

(** A fold of a commutative operation takes its seed in at either end. *)
Lemma foldr_min_seed x m l : foldr Z.min (Z.min m x) l = Z.min x (foldr Z.min m l).
Proof. induction l as [|y l IH]; simpl; lia. Qed.

Lemma foldr_max_seed x m l : foldr Z.max (Z.max m x) l = Z.max x (foldr Z.max m l).
Proof. induction l as [|y l IH]; simpl; lia. Qed.

(** ** Sorting

    [sort.Slice] and [sort.Strings] return a sorted permutation of their
    input; for elements the comparison does not order they promise no more.
    The models sort with stdpp's [merge_sort]; where the code's result must
    not depend on the order of equal elements, a theorem says so. *)

Section key_order.
Context {A K : Type} (R : relation K) `{!RelDecision R} (key : A → K).

Definition by_key : relation A := λ x y, R (key x) (key y).

#[export] Instance by_key_dec : RelDecision by_key := λ x y, decide (R (key x) (key y)).

#[export] Instance by_key_total `{!Total R} : Total by_key.
Proof. intros x y. unfold by_key. apply (total R). Qed.

#[export] Instance by_key_trans `{!Transitive R} : Transitive by_key.
Proof. intros x y z. unfold by_key. apply transitivity. Qed.
End key_order.

(** Two sorted permutations of a list with distinct keys are equal. *)
Lemma sorted_by_key_unique {A K} (R : relation K) (key : A → K)
    `{!AntiSymm (=) R} (l1 l2 : list A) :
  NoDup (key <$> l1) → l1 ≡ₚ l2 →
  StronglySorted (by_key R key) l1 → StronglySorted (by_key R key) l2 → l1 = l2.
Proof.
  intros Hnd Hp H1 H2. apply (StronglySorted_unique_strong (by_key R key)); [|done..].
  intros x y Hx Hy Hxy Hyx.
  assert (key x = key y) as Hk by by apply (anti_symm R).
  clear H1 H2 Hxy Hyx. rewrite <-Hp in Hy. clear Hp.
  induction l1 as [|z l1 IH]; [by apply elem_of_nil in Hx|].
  rewrite fmap_cons, NoDup_cons in Hnd. destruct Hnd as [Hz Hnd].
  rewrite elem_of_cons in Hx, Hy.
  destruct Hx as [->|Hx], Hy as [->|Hy]; [done| | |by apply IH];
    destruct Hz; apply list_elem_of_fmap; naive_solver.
Qed.

(** A function of sorted lists that does not tell neighbours with equal keys
    apart gives equal results on sorted permutations: what an unstable sort
    may do does not show. *)
Lemma move_to_front {A B} (P : A → Prop) (key : A → Z) (f : list A → B) :
  (∀ a x y b, Forall P (a ++ x :: y :: b) → key x = key y → f (a ++ x :: y :: b) = f (a ++ y :: x :: b)) →
  ∀ a pre x b, Forall P (pre ++ a ++ x :: b) → Forall (λ y, key y = key x) a →
    f (pre ++ a ++ x :: b) = f (pre ++ x :: a ++ b).
Proof.
  intros Hswap a. induction a as [|y a IH]; intros pre x b HP Ha; [done|].
  apply Forall_cons in Ha as [Hy Ha].
  assert (∀ l, pre ++ y :: l = (pre ++ [y]) ++ l) as Hl by (intros l; by rewrite <-(assoc app)).
  change ((y :: a) ++ x :: b) with (y :: (a ++ x :: b)) in *. rewrite Hl in HP |- *.
  rewrite IH by done. rewrite <-Hl. apply Hswap; [|done].
  rewrite Hl. revert HP. rewrite !Forall_app, !Forall_cons, Forall_app. tauto.
Qed.

Lemma sorted_invariant {A B} (P : A → Prop) (key : A → Z) (f : list A → B) :
  (∀ a x y b, Forall P (a ++ x :: y :: b) → key x = key y → f (a ++ x :: y :: b) = f (a ++ y :: x :: b)) →
  ∀ l1 l2, Forall P l1 → l1 ≡ₚ l2 →
    StronglySorted (by_key Z.le key) l1 → StronglySorted (by_key Z.le key) l2 → f l1 = f l2.
Proof.
  intros Hswap l1 l2 HP Hp H1 H2.
  cut (∀ pre, Forall P pre → f (pre ++ l1) = f (pre ++ l2)); [intros H; by apply (H [])|].
  revert l2 HP Hp H2. induction H1 as [|x l1 H1 IH Hx]; intros l2 HP Hp H2 pre Hpre.
  { by apply Permutation_nil_l in Hp as ->. }
  assert (x ∈ l2) as (a & b & ->)%list_elem_of_split by (rewrite <-Hp; left).
  assert (l1 ≡ₚ a ++ b) as Hp' by (by apply (Permutation_cons_app_inv _ _ (a:=x))).
  apply Forall_cons in HP as [HPx HP].
  assert (Forall (λ y, key y = key x) a) as Ha.
  { apply Forall_forall. intros y Hy.
    assert (key x ≤ key y).
    { rewrite Forall_forall in Hx. apply Hx. rewrite Hp'. set_solver. }
    apply StronglySorted_app in H2 as (Hab & _ & _).
    specialize (Hab y x Hy ltac:(left)). unfold by_key in *. lia. }
  assert (StronglySorted (by_key Z.le key) (a ++ b)) as Hab.
  { apply StronglySorted_app in H2 as (Hab & Hsa & Hsb).
    apply StronglySorted_cons in Hsb as [_ Hsb].
    apply StronglySorted_app. split_and!; [|done..]. intros. apply Hab; [done|by right]. }
  rewrite (move_to_front P key f Hswap a pre x b); [| |done].
  2:{ rewrite Hp' in HP. rewrite !Forall_app, Forall_cons in *. tauto. }
  assert (∀ l, pre ++ x :: l = (pre ++ [x]) ++ l) as Hl by (intros l; by rewrite <-(assoc app)).
  rewrite (Hl l1), (Hl (a ++ b)). apply IH; [done..|].
  apply Forall_app. by split; [|apply Forall_singleton].
Qed.

Section sort.
Context {A} (R : relation A) `{!RelDecision R, !Total R, !Transitive R}.

Lemma merge_sort_elem_of x l : x ∈ merge_sort R l ↔ x ∈ l.
Proof. by rewrite merge_sort_Permutation. Qed.

Lemma merge_sort_sorted l : StronglySorted R (merge_sort R l).
Proof. apply StronglySorted_merge_sort; apply _. Qed.
End sort.

(** Integer keys. *)
#[export] Instance Z_le_total : Total Z.le.
Proof. intros x y. lia. Qed.

(** ** Tactics *)

(** Case analysis on the scrutinees of the goal and of the hypotheses. *)
Ltac case_all :=
  repeat first
    [ progress simplify_eq/=
    | case_match
    | case_bool_decide
    | case_decide ].

(** Boolean integer comparisons become propositions. *)
Ltac zb :=
  repeat match goal with
  | H : (_ <? _)%Z = true |- _ => apply Z.ltb_lt in H
  | H : (_ <? _)%Z = false |- _ => apply Z.ltb_ge in H
  | H : (_ <=? _)%Z = true |- _ => apply Z.leb_le in H
  | H : (_ <=? _)%Z = false |- _ => apply Z.leb_gt in H
  | H : (_ =? _)%Z = true |- _ => apply Z.eqb_eq in H
  | H : (_ =? _)%Z = false |- _ => apply Z.eqb_neq in H
  | H : (_ && _)%bool = true |- _ => apply andb_true_iff in H as [? ?]
  | H : (_ || _)%bool = false |- _ => apply orb_false_iff in H as [? ?]
  | H : negb _ = true |- _ => apply negb_true_iff in H
  | H : negb _ = false |- _ => apply negb_false_iff in H
  end.

(** [lia] with the defining equations of division and remainder. *)
Ltac dlia := intros; Z.div_mod_to_equations; lia.
