(* ===== verification/GoStd.v ===== *)
(** * The parts of Go's standard library the code uses

    Byte strings ([strings]), decimal numbers ([strconv]) and network
    addresses ([net.SplitHostPort], [net.JoinHostPort]), each defined the way
    the documentation of the package describes it, on Go's byte strings
    (Rocq's [string], a sequence of 8-bit characters). *)

From S2P Require Import Prelude.

(** ** Byte strings *)

Definition LF : ascii := "010".
Definition CR : ascii := "013".
Definition CRLF : string := String CR (String LF "").

Definition is_char (c d : ascii) : bool := bool_decide (d = c).

Definition slen (s : string) : Z := Z.of_nat (String.length s).

(** [strings.Contains(s, c)] for a one-byte [c], and
    [strings.IndexByte(s, c) >= 0]. *)
Fixpoint has_byte (c : ascii) (s : string) : bool :=
  match s with
  | "" => false
  | String d s => (if decide (c = d) then true else has_byte c s)
  end.

(** [strings.Cut(s, c)] for a one-byte separator. *)
Fixpoint cut (c : ascii) (s : string) : option (string * string) :=
  match s with
  | "" => None
  | String d s =>
      if decide (c = d) then Some ("", s)
      else match cut c s with
           | Some (a, b) => Some (String d a, b)
           | None => None
           end
  end.

(** The split at the last [c]: [s[:i]] and [s[i+1:]] for
    [i = strings.LastIndexByte(s, c)]. *)
Fixpoint cut_last (c : ascii) (s : string) : option (string * string) :=
  match s with
  | "" => None
  | String d s =>
      match cut_last c s with
      | Some (a, b) => Some (String d a, b)
      | None => if decide (c = d) then Some ("", s) else None
      end
  end.

(** [strings.Split(s, c)] for a one-byte separator; never empty. *)
Fixpoint split (c : ascii) (s : string) : list string :=
  match s with
  | "" => [""]
  | String d s =>
      if decide (c = d) then "" :: split c s
      else match split c s with
           | w :: ws => String d w :: ws
           | [] => [String d ""]
           end
  end.

(** [strings.ReplaceAll(s, c, r)] for a one-byte [c]. *)
Fixpoint replace_byte (c : ascii) (r : string) (s : string) : string :=
  match s with
  | "" => ""
  | String d s =>
      if decide (c = d) then r +:+ replace_byte c r s
      else String d (replace_byte c r s)
  end.

(** The first [n] bytes, [s[:n]]. *)
Fixpoint stake (n : nat) (s : string) : string :=
  match n, s with
  | S n, String d s => String d (stake n s)
  | _, _ => ""
  end.

(** [s[n:]]. *)
Fixpoint sdrop (n : nat) (s : string) : string :=
  match n, s with
  | 0%nat, _ => s
  | S n, String _ s => sdrop n s
  | _, "" => ""
  end.

Definition has_prefix (p s : string) : bool := String.prefix p s.

Definition has_suffix (p s : string) : bool :=
  (String.length p <=? String.length s)%nat &&
  bool_decide (sdrop (String.length s - String.length p) s = p).

(** [strings.TrimSuffix], [strings.TrimPrefix]. *)
Definition trim_suffix (p s : string) : string :=
  if has_suffix p s then stake (String.length s - String.length p) s else s.

Definition trim_prefix (p s : string) : string :=
  if has_prefix p s then sdrop (String.length p) s else s.

(** [strings.Contains(s, sub)]. *)
Fixpoint contains (sub s : string) : bool :=
  String.prefix sub s ||
  match s with "" => false | String _ s => contains sub s end.

(** [strings.Replace(s, old, r, 1)] for a text to replace that is not empty. *)
Fixpoint replace_first (old r s : string) : string :=
  if has_prefix old s then r +:+ sdrop (String.length old) s
  else match s with "" => "" | String c s => String c (replace_first old r s) end.

(** [strings.Join(l, sep)]. *)
Fixpoint join (sep : string) (l : list string) : string :=
  match l with
  | [] => ""
  | [s] => s
  | s :: l => s +:+ sep +:+ join sep l
  end.

(** [strings.ToUpper] and [strings.ToLower] on ASCII letters.  Go also maps
    letters beyond ASCII; the code compares the results with ASCII words
    only. *)
Definition ascii_in (lo hi c : ascii) : bool :=
  (N_of_ascii lo <=? N_of_ascii c)%N && (N_of_ascii c <=? N_of_ascii hi)%N.

Definition upper_byte (c : ascii) : ascii :=
  if ascii_in "a" "z" c then ascii_of_N (N_of_ascii c - 32) else c.

Definition lower_byte (c : ascii) : ascii :=
  if ascii_in "A" "Z" c then ascii_of_N (N_of_ascii c + 32) else c.

Fixpoint smap (f : ascii → ascii) (s : string) : string :=
  match s with "" => "" | String c s => String (f c) (smap f s) end.

Definition to_upper : string → string := smap upper_byte.
Definition to_lower : string → string := smap lower_byte.

(** [strings.TrimRight(s, cutset)], with the cutset as a predicate. *)
Fixpoint trim_right (p : ascii → bool) (s : string) : string :=
  match s with
  | "" => ""
  | String c s =>
      match trim_right p s with
      | "" => if p c then "" else String c ""
      | t => String c t
      end
  end.

(** [strings.TrimSpace] on ASCII white space. *)
Definition is_space (c : ascii) : bool :=
  bool_decide (c ∈ [ "009"; "010"; "011"; "012"; "013"; " "]%char).

Fixpoint trim_left (p : ascii → bool) (s : string) : string :=
  match s with
  | "" => ""
  | String c s' => if p c then trim_left p s' else s
  end.

Definition trim_space (s : string) : string :=
  trim_right is_space (trim_left is_space s).

(** [base64.StdEncoding.EncodeToString]. *)
Definition base64_alphabet : string :=
  "ABCDEFGHIJKLMNOPQRSTUVWXYZabcdefghijklmnopqrstuvwxyz0123456789+/".

Definition base64_char (n : N) : ascii :=
  default "="%char (String.get (N.to_nat (n `mod` 64)) base64_alphabet).

Fixpoint base64 (s : string) : string :=
  match s with
  | "" => ""
  | String a "" =>
      let n := (N_of_ascii a * 16)%N in
      String (base64_char (n / 64)) (String (base64_char n) "==")
  | String a (String b "") =>
      let n := ((N_of_ascii a * 256 + N_of_ascii b) * 4)%N in
      String (base64_char (n / 4096)) (String (base64_char (n / 64)) (String (base64_char n) "="))
  | String a (String b (String c s)) =>
      let n := ((N_of_ascii a * 256 + N_of_ascii b) * 256 + N_of_ascii c)%N in
      String (base64_char (n / 262144)) (String (base64_char (n / 4096))
        (String (base64_char (n / 64)) (String (base64_char n) (base64 s))))
  end.

Example base64_rfc4648 :
  base64 <$> [""; "f"; "fo"; "foo"; "foob"; "fooba"; "foobar"] =
  [""; "Zg=="; "Zm8="; "Zm9v"; "Zm9vYg=="; "Zm9vYmE="; "Zm9vYmFy"].
Proof. reflexivity. Qed.

(** Lemmas. *)

Lemma sapp_nil_r s : s +:+ "" = s.
Proof. induction s as [|c s IH]; simpl; [done | by rewrite IH]. Qed.

Lemma sapp_assoc s1 s2 s3 : s1 +:+ (s2 +:+ s3) = (s1 +:+ s2) +:+ s3.
Proof. induction s1 as [|c s1 IH]; simpl; [done | by rewrite IH]. Qed.

Lemma slength_app s1 s2 :
  String.length (s1 +:+ s2) = (String.length s1 + String.length s2)%nat.
Proof. induction s1 as [|c s1 IH]; simpl; [done | by rewrite IH]. Qed.


Definition sforall (p : ascii → Prop) (s : string) : Prop := ∀ c, has_byte c s = true → p c.

Lemma sforall_cons p c s : sforall p (String c s) ↔ p c ∧ sforall p s.
Proof.
  unfold sforall. simpl. split.
  - intros H. split; [apply H; by rewrite decide_True|]. intros d Hd. apply H. by case_decide.
  - intros [Hc Hs] d. case_decide; [by subst|apply Hs].
Qed.

Lemma has_byte_app c s1 s2 : has_byte c (s1 +:+ s2) = has_byte c s1 || has_byte c s2.
Proof. induction s1 as [|d s1 IH]; simpl; [done|]. by case_decide. Qed.

Lemma stake_app s1 s2 : stake (String.length s1) (s1 +:+ s2) = s1.
Proof. induction s1 as [|c s1 IH]; simpl; [by destruct s2 | by rewrite IH]. Qed.

Lemma sdrop_length n s : String.length (sdrop n s) = (String.length s - n)%nat.
Proof. revert s. induction n as [|n IH]; intros [|c s]; simpl; try done. Qed.

Lemma sdrop_app s1 s2 : sdrop (String.length s1) (s1 +:+ s2) = s2.
Proof. induction s1 as [|c s1 IH]; simpl; [done | by rewrite IH]. Qed.

Lemma cut_app c s1 s2 : has_byte c s1 = false → cut c (s1 +:+ String c s2) = Some (s1, s2).
Proof.
  induction s1 as [|d s1 IH]; simpl; [by rewrite decide_True|].
  case_decide; [done|]. intros Hb. by rewrite IH.
Qed.

Lemma split_ne_nil c s : split c s ≠ [].
Proof. destruct s as [|d s]; simpl; [done|]. case_decide; [done|]. by destruct (split c s). Qed.

Lemma split_cons c s1 s2 :
  has_byte c s1 = false → split c (s1 +:+ String c s2) = s1 :: split c s2.
Proof.
  induction s1 as [|d s1 IH]; simpl; [by rewrite decide_True|].
  case_decide; [done|]. intros Hb. by rewrite IH.
Qed.

Lemma split_plain c s : has_byte c s = false → split c s = [s].
Proof.
  induction s as [|d s IH]; simpl; [done|]. case_decide; [done|]. intros Hb. by rewrite IH.
Qed.

Lemma cut_none c s : cut c s = None ↔ has_byte c s = false.
Proof.
  induction s as [|d s IH]; simpl; [done|]. case_decide; [done|].
  destruct (cut c s) as [[??]|]; rewrite <-IH; split; done.
Qed.

Lemma cut_last_none c s : cut_last c s = None ↔ has_byte c s = false.
Proof.
  induction s as [|d s IH]; simpl; [done|].
  destruct (cut_last c s) as [[??]|]; case_decide; rewrite <-?IH; split; done.
Qed.

Lemma cut_last_app c s1 s2 :
  has_byte c s2 = false → cut_last c (s1 +:+ String c s2) = Some (s1, s2).
Proof.
  intros H. induction s1 as [|d s1 IH]; simpl.
  - apply cut_last_none in H as ->. by rewrite decide_True.
  - by rewrite IH.
Qed.

Lemma trim_right_id p s c : p c = false → trim_right p (s +:+ String c "") = s +:+ String c "".
Proof.
  intros Hc. induction s as [|d s IH]; simpl; [by rewrite Hc|].
  rewrite IH. by destruct s.
Qed.

(** ** Decimal numbers *)

(** [strconv.Itoa], [strconv.FormatInt(z, 10)] and [%d]. *)
Definition FormatInt (z : Z) : string := pretty z.

Inductive num_error := ErrSyntax | ErrRange.

Definition digit_value (c : ascii) : option Z :=
  if ascii_in "0" "9" c then Some (Z.of_N (N_of_ascii c) - 48) else None.

Fixpoint digits_value (acc : Z) (s : string) : option Z :=
  match s with
  | "" => Some acc
  | String c s => d ← digit_value c; digits_value (10 * acc + d) s
  end.

(** [strconv.ParseUint(s, 10, 64)] on a nonempty [s]: the digits are read from
    the left, and the first one that is wrong or too many ends the reading. *)
Definition MaxUint64 : Z := 2 ^ 64 - 1.

Fixpoint ParseUint (acc : Z) (s : string) : Z * option num_error :=
  match s with
  | "" => (acc, None)
  | String c s =>
      match digit_value c with
      | None => (0, Some ErrSyntax)
      | Some d =>
          let n := 10 * acc + d in
          if MaxUint64 <? n then (MaxUint64, Some ErrRange) else ParseUint n s
      end
  end.

(** [strconv.ParseInt(s, 10, 64)] and [strconv.Atoi(s)]: an optional sign and
    at least one digit; a number out of range gives the nearest int64 together
    with [ErrRange], anything else 0 with [ErrSyntax]. *)
Definition parse_digits (neg : bool) (s : string) : Z * option num_error :=
  match s with
  | "" => (0, Some ErrSyntax)
  | _ =>
      match ParseUint 0 s with
      | (_, Some ErrSyntax) => (0, Some ErrSyntax)
      | (v, _) =>
          if neg then if 2 ^ 63 <? v then (- 2 ^ 63, Some ErrRange) else (- v, None)
          else if 2 ^ 63 - 1 <? v then (2 ^ 63 - 1, Some ErrRange) else (v, None)
      end
  end.

Definition ParseInt (s : string) : Z * option num_error :=
  match s with
  | String c s' =>
      if decide (c = "-"%char) then parse_digits true s'
      else if decide (c = "+"%char) then parse_digits false s'
      else parse_digits false s
  | "" => (0, Some ErrSyntax)
  end.

Lemma digit_value_char (d : N) :
  (d < 10)%N → digit_value (pretty_N_char d) = Some (Z.of_N d).
Proof.
  intros Hd. destruct d as [|p]; [done|].
  do 4 (try destruct p as [p|p|]); first [done | exfalso; lia].
Qed.

Lemma digits_value_pretty_go (x : N) s :
  digits_value 0 (pretty_N_go x s) = digits_value (Z.of_N x) s.
Proof.
  revert s. induction (N.lt_wf_0 x) as [x _ IH]. intros s.
  destruct (decide (x = 0%N)) as [->|Hx]; [by rewrite pretty_N_go_0|].
  rewrite pretty_N_go_step by lia.
  rewrite IH by (apply N.div_lt; lia). simpl.
  rewrite digit_value_char by (apply N.mod_lt; lia). simpl. f_equal.
  rewrite N2Z.inj_div, N2Z.inj_mod. symmetry. apply Z.div_mod. lia.
Qed.

Lemma pretty_N_digits (x : N) : digits_value 0 (pretty x) = Some (Z.of_N x).
Proof.
  unfold pretty, pretty_N. case_decide as H; [by subst|].
  by rewrite digits_value_pretty_go.
Qed.

Lemma pretty_N_ne_nil (x : N) : pretty x ≠ "".
Proof.
  intros H. unfold pretty, pretty_N in H. case_decide as H0; [done|].
  revert H. rewrite pretty_N_go_step by lia. generalize (pretty_N_char (x `mod` 10)).
  generalize (x / 10)%N. clear. intros x c.
  generalize (@eq_refl _ (String c "")). generalize (String c "") at 1 3.
  intros s Hs. assert (s ≠ "") as Hne by by subst. clear Hs c. revert s Hne.
  induction (N.lt_wf_0 x) as [x _ IH]. intros s Hne.
  destruct (decide (x = 0%N)) as [->|Hx]; [by rewrite pretty_N_go_0|].
  rewrite pretty_N_go_step by lia. apply IH; [apply N.div_lt; lia|done].
Qed.

Lemma digits_value_no_sign c s v :
  digits_value 0 (String c s) = Some v → c ≠ "-"%char ∧ c ≠ "+"%char.
Proof. simpl. intros H. split; intros ->; by destruct s. Qed.

Lemma digit_value_nonneg c d : digit_value c = Some d → 0 ≤ d.
Proof.
  unfold digit_value, ascii_in. destruct (_ <=? _)%N eqn:E; [|done]. simpl.
  apply N.leb_le in E. change (N_of_ascii "0") with 48%N in E.
  destruct (_ <=? _)%N; [intros [= <-]; lia|done].
Qed.

Lemma digits_value_le acc s v : 0 ≤ acc → digits_value acc s = Some v → acc ≤ v.
Proof.
  revert acc. induction s as [|c s IH]; intros acc Hacc; cbn [digits_value]; [intros [= ->]; lia|].
  destruct (digit_value c) as [d|] eqn:E; [|done]. apply digit_value_nonneg in E.
  cbn [mbind option_bind]. intros H. apply IH in H; lia.
Qed.

Lemma ParseUint_digits acc s v :
  0 ≤ acc ≤ MaxUint64 → digits_value acc s = Some v →
  ParseUint acc s = if MaxUint64 <? v then (MaxUint64, Some ErrRange) else (v, None).
Proof.
  revert acc. induction s as [|c s IH]; intros acc Hacc; cbn [digits_value ParseUint].
  { intros [= ->]. by rewrite (proj2 (Z.ltb_ge _ _)) by lia. }
  destruct (digit_value c) as [d|] eqn:E; [|done]. apply digit_value_nonneg in E.
  cbn [mbind option_bind]. intros H. destruct (MaxUint64 <? 10 * acc + d) eqn:El; zb.
  - apply digits_value_le in H; [|lia]. by rewrite (proj2 (Z.ltb_lt _ _)) by lia.
  - apply IH; [lia|done].
Qed.

Lemma parse_digits_value neg s v :
  s ≠ "" → digits_value 0 s = Some v →
  parse_digits neg s =
  if neg then if 2 ^ 63 <? v then (- 2 ^ 63, Some ErrRange) else (- v, None)
  else if 2 ^ 63 - 1 <? v then (2 ^ 63 - 1, Some ErrRange) else (v, None).
Proof.
  intros Hs Hv. unfold parse_digits. destruct s as [|c s]; [done|].
  rewrite (ParseUint_digits 0 _ v) by done.
  unfold MaxUint64. destruct (2 ^ 64 - 1 <? v) eqn:El; [|done]. zb.
  rewrite (proj2 (Z.ltb_lt (2 ^ 63) (2 ^ 64 - 1))), (proj2 (Z.ltb_lt (2 ^ 63 - 1) (2 ^ 64 - 1))),
    (proj2 (Z.ltb_lt (2 ^ 63) _)), (proj2 (Z.ltb_lt (2 ^ 63 - 1) _)) by lia. done.
Qed.

Lemma parse_digits_pretty neg (x : N) :
  parse_digits neg (pretty x) =
  if neg then if 2 ^ 63 <? Z.of_N x then (- 2 ^ 63, Some ErrRange) else (- Z.of_N x, None)
  else if 2 ^ 63 - 1 <? Z.of_N x then (2 ^ 63 - 1, Some ErrRange) else (Z.of_N x, None).
Proof. apply parse_digits_value; [apply pretty_N_ne_nil|apply pretty_N_digits]. Qed.

Lemma ParseInt_pretty (x : N) : ParseInt (pretty x) = parse_digits false (pretty x).
Proof.
  pose proof (pretty_N_ne_nil x). pose proof (pretty_N_digits x) as Hd.
  destruct (pretty x) as [|c s]; [done|]. apply digits_value_no_sign in Hd as [??].
  unfold ParseInt. by rewrite !decide_False.
Qed.

(** Printing an int64 and parsing the text gives the number back. *)
Lemma ParseInt_FormatInt z : is_int64 z → ParseInt (FormatInt z) = (z, None).
Proof.
  unfold is_int64, FormatInt. intros Hz. destruct z as [|p|p]; [done|..].
  - change (pretty (Z.pos p)) with (pretty (N.pos p)).
    rewrite ParseInt_pretty, parse_digits_pretty. simpl Z.of_N.
    by replace (_ <? _) with false by (symmetry; apply Z.ltb_ge; lia).
  - change (pretty (Z.neg p)) with (String "-" (pretty (N.pos p))).
    unfold ParseInt. rewrite decide_True, parse_digits_pretty by done. simpl Z.of_N.
    by replace (_ <? _) with false by (symmetry; apply Z.ltb_ge; lia).
Qed.

Lemma ParseUint_nonneg acc s : 0 ≤ acc → 0 ≤ (ParseUint acc s).1.
Proof.
  revert acc. induction s as [|c s IH]; intros acc Hacc; cbn [ParseUint]; [done|].
  destruct (digit_value c) as [d|] eqn:E; [|done]. apply digit_value_nonneg in E.
  case_match; [done|]. apply IH. lia.
Qed.

Lemma parse_digits_int64 neg s : is_int64 (parse_digits neg s).1.
Proof.
  unfold parse_digits. destruct s as [|c s]; [done|].
  pose proof (ParseUint_nonneg 0 (String c s) ltac:(done)) as Hn.
  destruct (ParseUint 0 (String c s)) as [v e]. cbn [fst] in Hn.
  assert (is_int64 (if neg then if 2 ^ 63 <? v then (- 2 ^ 63, Some ErrRange) else (- v, None)
    else if 2 ^ 63 - 1 <? v then (2 ^ 63 - 1, Some ErrRange) else (v, None)).1) as H.
  { unfold is_int64. destruct neg; (case_match; cbn [fst]; zb; lia). }
  destruct e as [[]|]; done.
Qed.

(** Whatever the text, the number parsed is an int64. *)
Lemma ParseInt_int64 s : is_int64 (ParseInt s).1.
Proof. destruct s as [|c s]; cbn [ParseInt]; repeat case_decide; try apply parse_digits_int64; done. Qed.

Lemma FormatInt_no_byte c z :
  digit_value c = None → c ≠ "-"%char → has_byte c (FormatInt z) = false.
Proof.
  intros Hd Hm.
  assert (∀ s v, digits_value v s ≠ None → has_byte c s = false) as Hs.
  { induction s as [|d s IH]; intros v; simpl; [done|].
    destruct (digit_value d) eqn:E; simpl; [|done].
    intros ?. case_decide; [by simplify_eq|]. by eapply IH. }
  assert (∀ x : N, has_byte c (pretty x) = false) as HN.
  { intros x. apply (Hs _ 0). by rewrite pretty_N_digits. }
  unfold FormatInt. destruct z as [|p|p].
  - apply (Hs _ 0). done.
  - apply HN.
  - change (pretty (Z.neg p)) with ("-" +:+ pretty (N.pos p)).
    rewrite has_byte_app, HN. simpl. by case_decide.
Qed.

(** ** Network addresses *)

Inductive addr_error :=
| ErrMissingPort | ErrTooManyColons | ErrMissingBracket | ErrUnexpectedOpen | ErrUnexpectedClose.

(** [net.SplitHostPort]. *)
Definition SplitHostPort (hostport : string) : result addr_error (string * string) :=
  match cut_last ":" hostport with
  | None => Err ErrMissingPort
  | Some (before, port) =>
      match hostport with
      | String "[" s =>
          match cut "]" s with
          | None => Err ErrMissingBracket
          | Some (host, rest) =>
              match rest with
              | "" => Err ErrMissingPort
              | String ":" p =>
                  if has_byte ":" p then Err ErrTooManyColons
                  else if has_byte "[" s then Err ErrUnexpectedOpen
                  else if has_byte "]" rest then Err ErrUnexpectedClose
                  else Ok (host, p)
              | _ => Err ErrMissingPort
              end
          end
      | _ =>
          if has_byte ":" before then Err ErrTooManyColons
          else if has_byte "[" hostport then Err ErrUnexpectedOpen
          else if has_byte "]" hostport then Err ErrUnexpectedClose
          else Ok (before, port)
      end
  end.

(** [net.JoinHostPort]. *)
Definition JoinHostPort (host port : string) : string :=
  if has_byte ":" host then "[" +:+ host +:+ "]:" +:+ port else host +:+ ":" +:+ port.
