(* ===== verification/GoTime.v ===== *)
(** * Instants, durations and UTC dates

    Go's [time.Time] is modelled by its wall clock reading, the number of
    nanoseconds since the Unix epoch; the zero [time.Time] is the start of
    year 1.  A [time.Duration] is an int64 number of nanoseconds. *)

From S2P Require Import Prelude GoStd.

Definition time := Z.
Definition duration := Z.

Definition Nanosecond : duration := 1.
Definition Second : duration := 10 ^ 9.
Definition Minute : duration := 60 * Second.
Definition Hour : duration := 60 * Minute.
Definition Day : duration := 24 * Hour.

(** 0001-01-01 00:00:00 UTC. *)
Definition zero_time : time := - 62135596800 * Second.

Definition IsZero (t : time) : bool := t =? zero_time.
Definition Before (t u : time) : bool := t <? u.
Definition After (t u : time) : bool := u <? t.
Definition Add (t : time) (d : duration) : time := t + d.

(** [t.Sub(u)] saturates at the bounds of int64. *)
Definition Sub (t u : time) : duration := Z.max (- 2 ^ 63) (Z.min (2 ^ 63 - 1) (t - u)).

(** [t.Truncate(d)] rounds down to a multiple of [d] since the zero time. *)
Definition Truncate (t : time) (d : duration) : time :=
  if d <=? 0 then t else t - (t - zero_time) `mod` d.

Definition Unix (t : time) : Z := t `div` Second.
Definition of_Unix (sec : Z) : time := sec * Second.

(** [t.AddDate(0, 0, n)] in UTC. *)
Definition AddDays (t : time) (n : Z) : time := t + n * Day.

(** [d.Round(m)] for [m > 0]: to the nearest multiple, halves away from zero. *)
Definition Round (d m : duration) : duration :=
  if m <=? 0 then d
  else if d <? 0 then - ((- d + m / 2) / m * m)
  else (d + m / 2) / m * m.

Lemma Truncate_le t d : 0 < d → Truncate t d ≤ t < Truncate t d + d.
Proof.
  unfold Truncate. intros Hd. rewrite (proj2 (Z.leb_gt _ _)) by done.
  pose proof (Z.mod_pos_bound (t - zero_time) d Hd). lia.
Qed.

(** The zero time is a whole number of days, and so of hours, from the
    epoch. *)
Lemma Truncate_day t : Truncate t Day = t `div` Day * Day.
Proof.
  unfold Truncate. change (Day <=? 0) with false. cbv iota.
  replace (t - zero_time) with (t + 719162 * Day) by (unfold zero_time, Day, Hour, Minute, Second; lia).
  rewrite Z.mod_add by done. pose proof (Z.div_mod t Day ltac:(done)). lia.
Qed.

Lemma Truncate_hour t : Truncate t Hour = t `div` Hour * Hour.
Proof.
  unfold Truncate. change (Hour <=? 0) with false. cbv iota.
  replace (t - zero_time) with (t + (719162 * 24) * Hour) by (unfold zero_time, Hour, Minute, Second; lia).
  rewrite Z.mod_add by done. pose proof (Z.div_mod t Hour ltac:(done)). lia.
Qed.

Lemma Truncate_mono d t u : 0 < d → t ≤ u → Truncate t d ≤ Truncate u d.
Proof.
  unfold Truncate. intros Hd Htu. rewrite (proj2 (Z.leb_gt _ _)) by done.
  pose proof (Z.div_mod (t - zero_time) d ltac:(lia)).
  pose proof (Z.div_mod (u - zero_time) d ltac:(lia)).
  assert ((t - zero_time) `div` d ≤ (u - zero_time) `div` d) by (apply Z.div_le_mono; lia).
  nia.
Qed.

(** ** The Gregorian calendar *)

Record date := Date { year : Z; month : Z; day : Z }.

(** Years run from March, so that the leap day ends them; an era is 400
    years, 146097 days: four centuries of 36524 days and one day more, each
    century of 4-year groups of 1461 days.  The result is the year of the era
    and the day of that year. *)
Definition year_of_era_day (doe : Z) : Z * Z :=
  let c := Z.min 3 (doe / 36524) in
  let doc := doe - 36524 * c in
  let q := doc / 1461 in
  let doq := doc - 1461 * q in
  let y := Z.min 3 (doq / 365) in
  (100 * c + 4 * q + y, doq - 365 * y).

(** Month and day of the month, from the day of the year. *)
Definition month_day (doy : Z) : Z * Z :=
  let mp := (5 * doy + 2) / 153 in
  (if mp <? 10 then mp + 3 else mp - 9, doy - (153 * mp + 2) / 5 + 1).

Definition date_of_era_day (doe : Z) : Z * Z * Z :=
  let '(yoe, doy) := year_of_era_day doe in
  let '(m, d) := month_day doy in
  (yoe + (if m <=? 2 then 1 else 0), m, d).

(** The date [n] days after 1970-01-01. *)
Definition civil (n : Z) : date :=
  let '(y, m, d) := date_of_era_day ((n + 719468) `mod` 146097) in
  Date (y + 400 * ((n + 719468) `div` 146097)) m d.

Definition era_day_of_date (y m d : Z) : Z :=
  let y' := if m <=? 2 then y - 1 else y in
  let yoe := y' `mod` 400 in
  let doy := (153 * (if m <=? 2 then m + 9 else m - 3) + 2) / 5 + d - 1 in
  yoe * 365 + yoe / 4 - yoe / 100 + doy.

Definition days_of_civil (c : date) : Z :=
  let y' := if month c <=? 2 then year c - 1 else year c in
  era_day_of_date (year c) (month c) (day c) + 146097 * (y' `div` 400) - 719468.

Definition is_leap (y : Z) : bool :=
  (y `mod` 4 =? 0) && (negb (y `mod` 100 =? 0) || (y `mod` 400 =? 0)).

Definition days_in (m y : Z) : Z :=
  if m =? 2 then if is_leap y then 29 else 28
  else if (m =? 4) || (m =? 6) || (m =? 9) || (m =? 11) then 30 else 31.

Definition valid_date (c : date) : bool :=
  (1 <=? month c) && (month c <=? 12) && (1 <=? day c) && (day c <=? days_in (month c) (year c)).

(** A property of every era day, checked by evaluation. *)
Fixpoint check_below (p : Z → bool) (n : nat) (z : Z) : bool :=
  match n with O => true | S n => p z && check_below p n (z + 1) end.

Lemma check_below_spec p n z :
  check_below p n z = true → ∀ x, z ≤ x < z + Z.of_nat n → p x = true.
Proof.
  revert z. induction n as [|n IH]; intros z; simpl; [lia|].
  intros [Hp Hc]%andb_true_iff x Hx. destruct (decide (x = z)) as [->|]; [done|].
  apply (IH (z + 1)); [done|lia].
Qed.

Lemma year_of_era_day_spec doe yoe doy :
  0 ≤ doe < 146097 → year_of_era_day doe = (yoe, doy) →
  0 ≤ yoe < 400 ∧ 0 ≤ doy ≤ 365 ∧ doe = yoe * 365 + yoe / 4 - yoe / 100 + doy ∧
  (doy = 365 → is_leap (yoe + 1) = true).
Proof.
  unfold year_of_era_day. intros Hd [= <- <-].
  set (c := Z.min 3 (doe / 36524)). set (q := (doe - 36524 * c) / 1461).
  set (y := Z.min 3 ((doe - 36524 * c - 1461 * q) / 365)).
  assert (0 ≤ c ≤ 3) by (unfold c; dlia).
  assert (0 ≤ doe - 36524 * c ≤ 36524 ∧ (doe - 36524 * c = 36524 → c = 3)) by (unfold c; dlia).
  assert (0 ≤ q ≤ 24) by (unfold q; dlia).
  assert (0 ≤ doe - 36524 * c - 1461 * q ≤ 1460) by (unfold q; dlia).
  assert (0 ≤ y ≤ 3) by (unfold y; dlia).
  assert (0 ≤ doe - 36524 * c - 1461 * q - 365 * y ≤ 365 ∧
          (doe - 36524 * c - 1461 * q - 365 * y = 365 → y = 3)) by (unfold y; dlia).
  clearbody y q c.
  assert ((100 * c + 4 * q + y) / 4 = 25 * c + q) as -> by dlia.
  assert ((100 * c + 4 * q + y) / 100 = c) as -> by dlia.
  repeat split; [lia..|]. intros H365.
  unfold is_leap. destruct (decide (q = 24)) as [->|].
  - assert (c = 3 ∧ y = 3) as [-> ->] by lia. done.
  - assert (y = 3) as -> by lia. apply andb_true_iff. split; [apply Z.eqb_eq; dlia|].
    apply orb_true_iff. left. apply negb_true_iff, Z.eqb_neq. dlia.
Qed.

(** The twelve months of the March-based year, checked day by day. *)
Definition month_day_ok (doy : Z) : bool :=
  let '(m, d) := month_day doy in
  (1 <=? m) && (m <=? 12) && (1 <=? d) &&
  ((153 * (if m <=? 2 then m + 9 else m - 3) + 2) / 5 + d - 1 =? doy) &&
  (d <=? (if m =? 2 then if doy =? 365 then 29 else 28
          else days_in m 1)).

Lemma month_day_ok_all doy : 0 ≤ doy ≤ 365 → month_day_ok doy = true.
Proof.
  intros H. apply (check_below_spec month_day_ok 366 0); [by vm_compute|lia].
Qed.

Lemma days_in_other m y y' : m ≠ 2 → days_in m y = days_in m y'.
Proof. intros H. unfold days_in. by rewrite (proj2 (Z.eqb_neq _ _) H). Qed.

Definition era_ok (doe : Z) : bool :=
  let '(y, m, d) := date_of_era_day doe in
  valid_date (Date y m d) && (era_day_of_date y m d =? doe) &&
  ((if m <=? 2 then y - 1 else y) `div` 400 =? 0).

Lemma era_ok_all doe : 0 ≤ doe < 146097 → era_ok doe = true.
Proof.
  intros H. unfold era_ok, date_of_era_day.
  destruct (year_of_era_day doe) as [yoe doy] eqn:E.
  destruct (year_of_era_day_spec _ _ _ H E) as (Hy & Hdoy & -> & Hleap).
  pose proof (month_day_ok_all _ Hdoy) as Hm. unfold month_day_ok in Hm.
  destruct (month_day doy) as [m d]. zb.
  unfold valid_date, era_day_of_date. cbn [year month day].
  replace (if m <=? 2 then yoe + (if m <=? 2 then 1 else 0) - 1
           else yoe + (if m <=? 2 then 1 else 0)) with yoe by (destruct (m <=? 2); lia).
  rewrite (Z.mod_small yoe 400), (Z.div_small yoe 400) by lia.
  rewrite !andb_true_iff, !Z.leb_le, !Z.eqb_eq. repeat split; try lia.
  destruct (Z.eqb_spec m 2) as [->|Hm2].
  - unfold days_in. simpl. destruct (Z.eqb_spec doy 365) as [->|]; [by rewrite Hleap|].
    destruct (is_leap _); lia.
  - by rewrite (days_in_other _ _ 1).
Qed.

Lemma era_day_of_date_shift y m d k :
  era_day_of_date (y + 400 * k) m d = era_day_of_date y m d.
Proof.
  unfold era_day_of_date.
  replace (if m <=? 2 then y + 400 * k - 1 else y + 400 * k)
    with ((if m <=? 2 then y - 1 else y) + k * 400) by (destruct (m <=? 2); lia).
  by rewrite Z.mod_add.
Qed.

Lemma is_leap_shift y k : is_leap (y + 400 * k) = is_leap y.
Proof.
  unfold is_leap.
  replace (y + 400 * k) with (y + (100 * k) * 4) at 1 by lia.
  replace (y + 400 * k) with (y + (4 * k) * 100) at 1 by lia.
  replace (y + 400 * k) with (y + k * 400) by lia.
  by rewrite !Z.mod_add.
Qed.

Lemma civil_spec n : valid_date (civil n) = true ∧ days_of_civil (civil n) = n.
Proof.
  unfold civil, days_of_civil.
  pose proof (Z.mod_pos_bound (n + 719468) 146097 ltac:(lia)) as Hb.
  pose proof (Z.div_mod (n + 719468) 146097 ltac:(lia)) as Hdm.
  apply era_ok_all in Hb. unfold era_ok in Hb.
  destruct (date_of_era_day _) as [[y m] d]. simpl.
  set (k := (n + 719468) `div` 146097) in *.
  zb. rewrite era_day_of_date_shift.
  replace (if m <=? 2 then y + 400 * k - 1 else y + 400 * k)
    with ((if m <=? 2 then y - 1 else y) + k * 400) by (destruct (m <=? 2); lia).
  rewrite Z.div_add by done. split; [|lia].
  unfold valid_date, days_in in *. simpl in *. by rewrite is_leap_shift.
Qed.

(** ** The layout 2006-01-02 *)

(** [FormatInt] padded with zeros to width [w]. *)
Definition pad (w : nat) (z : Z) : string :=
  let s := FormatInt z in
  String.concat "" (replicate (w - String.length s) "0") +:+ s.

Definition format_civil (c : date) : string :=
  pad 4 (year c) +:+ "-" +:+ pad 2 (month c) +:+ "-" +:+ pad 2 (day c).

(** [t.UTC().Format("2006-01-02")]. *)
Definition FormatDate (t : time) : string := format_civil (civil (t `div` Day)).

Definition all_digits (s : string) : bool :=
  match digits_value 0 s with Some _ => true | None => false end.

(** [time.Parse("2006-01-02", s)]: midnight UTC of the date, or an error when
    the text has another form or names no day of the calendar. *)
Definition ParseDate (s : string) : option time :=
  match s with
  | String y1 (String y2 (String y3 (String y4 (String "-"
      (String m1 (String m2 (String "-" (String d1 (String d2 ""))))))))) =>
      y ← digits_value 0 (String y1 (String y2 (String y3 (String y4 ""))));
      m ← digits_value 0 (String m1 (String m2 ""));
      d ← digits_value 0 (String d1 (String d2 ""));
      if valid_date (Date y m d) then Some (days_of_civil (Date y m d) * Day) else None
  | _ => None
  end.

Definition four_digits (z : Z) : bool :=
  match pad 4 z with
  | String a (String b (String c (String d ""))) =>
      bool_decide (digits_value 0 (String a (String b (String c (String d "")))) = Some z)
  | _ => false
  end.

Definition two_digits (z : Z) : bool :=
  match pad 2 z with
  | String a (String b "") =>
      bool_decide (digits_value 0 (String a (String b "")) = Some z)
  | _ => false
  end.

Lemma four_digits_all z : 0 ≤ z < 10000 → four_digits z = true.
Proof.
  intros H. apply (check_below_spec four_digits (Z.to_nat 10000) 0); [by vm_compute|lia].
Qed.

Lemma two_digits_all z : 0 ≤ z < 100 → two_digits z = true.
Proof.
  intros H. apply (check_below_spec two_digits (Z.to_nat 100) 0); [by vm_compute|lia].
Qed.

Lemma pad_four z :
  0 ≤ z < 10000 → ∃ a b c d, pad 4 z = String a (String b (String c (String d ""))) ∧
    digits_value 0 (pad 4 z) = Some z.
Proof.
  intros H%four_digits_all. unfold four_digits in H.
  destruct (pad 4 z) as [|a [|b [|c [|d [|??]]]]]; try done.
  apply bool_decide_eq_true in H. eauto 10.
Qed.

Lemma pad_two z :
  0 ≤ z < 100 → ∃ a b, pad 2 z = String a (String b "") ∧
    digits_value 0 (pad 2 z) = Some z.
Proof.
  intros H%two_digits_all. unfold two_digits in H.
  destruct (pad 2 z) as [|a [|b [|??]]]; try done.
  apply bool_decide_eq_true in H. eauto 10.
Qed.

(** The dates whose year has four digits. *)
Definition four_digit_year (t : time) : Prop := 0 ≤ year (civil (t `div` Day)) < 10000.

Lemma valid_date_bounds c :
  valid_date c = true → 1 ≤ month c ≤ 12 ∧ 1 ≤ day c ≤ 31.
Proof.
  unfold valid_date, days_in. intros H. zb. split; [lia|].
  repeat case_match; lia.
Qed.

(** Formatting a date and parsing it gives the midnight that begins the day. *)
(** The years 1600 to 2400 and more. *)
Lemma four_digit_near t : - 400 * Day ≤ t < 2 ^ 63 → four_digit_year t.
Proof.
  intros Ht. unfold four_digit_year, civil.
  assert (- 400 ≤ t `div` Day < 110000) as Hn.
  { split; [apply Z.div_le_lower_bound; [done|lia]|apply Z.div_lt_upper_bound; [done|]]. unfold Day, Hour, Minute, Second in *. lia. }
  pose proof (Z.mod_pos_bound (t `div` Day + 719468) 146097 ltac:(lia)) as Hb. apply era_ok_all in Hb. unfold era_ok in Hb.
  destruct (date_of_era_day _) as [[y m] d]. cbn [year] in *. zb.
  assert (4 ≤ (t `div` Day + 719468) `div` 146097 < 6) as Hk.
  { split; [apply Z.div_le_lower_bound; lia|apply Z.div_lt_upper_bound; lia]. }
  assert (0 ≤ y ≤ 400); [|lia]. destruct (m <=? 2); dlia.
Qed.

Lemma ParseDate_FormatDate t :
  four_digit_year t → ParseDate (FormatDate t) = Some (Truncate t Day).
Proof.
  unfold four_digit_year, FormatDate, format_civil. intros Hy.
  destruct (civil_spec (t `div` Day)) as [Hv Hd].
  destruct (valid_date_bounds _ Hv) as [Hm Hdd].
  destruct (pad_four _ Hy) as (a & b & c & d & E4 & V4). rewrite E4 in *.
  destruct (pad_two (month (civil (t `div` Day)))) as (m1 & m2 & Em & Vm); [lia|].
  destruct (pad_two (day (civil (t `div` Day)))) as (d1 & d2 & Ed & Vd); [lia|].
  rewrite Em, Ed in *. cbn [String.append ParseDate].
  rewrite V4, Vm, Vd. cbn [mbind option_bind].
  destruct (civil _) as [y m dd]. cbn [year month day] in *.
  rewrite Hv, Hd, Truncate_day. done.
Qed.

Lemma FormatDate_inj t u :
  four_digit_year t → four_digit_year u →
  FormatDate t = FormatDate u → Truncate t Day = Truncate u Day.
Proof.
  intros Ht Hu H. apply (inj Some). by rewrite <-!ParseDate_FormatDate, H.
Qed.

(** Dates and instants are reasoned about by their lemmas, not by computing. *)
#[global] Arguments FormatDate : simpl never.
#[global] Arguments ParseDate : simpl never.
#[global] Arguments of_Unix : simpl never.
#[global] Arguments Unix : simpl never.
#[global] Arguments Truncate : simpl never.
#[global] Arguments AddDays : simpl never.
