(* ===== verification/Errors.v ===== *)
(** * Go error values

    An error is a tree of wrappers around leaf errors, which [errors.Is] and
    [errors.As] search. *)

From S2P Require Import Prelude GoStd.

(** What the code asks of an error that comes from outside the repository. *)
Inductive ext_kind :=
| KNotFound            (* apierrors.IsNotFound *)
| KConflict            (* apierrors.IsConflict *)
| KNoRows              (* pgx.ErrNoRows *)
| KMySQL (number : Z)  (* *mysql.MySQLError *)
| KReply (code : Z)    (* *textproto.Error *)
| KURLParse            (* a *url.Error whose Op is "parse" *)
| KDeadline            (* context.DeadlineExceeded *)
| KOther.

#[export] Instance ext_kind_eq_dec : EqDecision ext_kind.
Proof. solve_decision. Defined.

Inductive error : Type :=
| ENew (text : string)                    (* errors.New, fmt.Errorf without %w *)
| EWrap (prefix : string) (err : error)   (* fmt.Errorf(prefix + "%w", err) *)
| ERetryable (err : error)                (* *notifier.RetryableError *)
| EText (text : string) (err : error)     (* *driver.textError *)
| EJoin (errs : list error)               (* errors.Join *)
| EExt (kind : ext_kind) (text : string). (* an error of another package *)

(** [err.Error()] *)
Fixpoint error_text (e : error) : string :=
  match e with
  | ENew t | EText t _ | EExt _ t => t
  | EWrap p e => p +:+ error_text e
  | ERetryable e => error_text e
  | EJoin es => join (String LF "") (map error_text es)
  end.

(** [errors.As(err, &temporary)] for a [*RetryableError]. *)
Fixpoint is_retryable (e : error) : bool :=
  match e with
  | ERetryable _ => true
  | EWrap _ e | EText _ e => is_retryable e
  | EJoin es => existsb is_retryable es
  | ENew _ | EExt _ _ => false
  end.

(** [errors.Is] and [errors.As] for an error of another package. *)
Fixpoint has_kind (k : ext_kind) (e : error) : bool :=
  match e with
  | EExt k' _ => bool_decide (k = k')
  | ERetryable e | EWrap _ e | EText _ e => has_kind k e
  | EJoin es => existsb (has_kind k) es
  | ENew _ => false
  end.

(** [apierrors.IsNotFound], [client.IgnoreNotFound]. *)
Definition IsNotFound : error → bool := has_kind KNotFound.
Definition IsConflict : error → bool := has_kind KConflict.

Definition IgnoreNotFound (e : error) : option error :=
  if IsNotFound e then None else Some e.

(** [errors.Join(errs...)]: nil when there is none. *)
Definition errors_Join (es : list error) : option error :=
  match es with [] => None | _ => Some (EJoin es) end.
