(* ===== verification/Api.v ===== *)
(** * The EndpointMonitor resource (api/v1alpha1/endpointmonitor_types.go)

    The specification and status of a monitor as Go structs; a pointer field
    is an option, a map a finite map, and [metav1.Time] an instant. *)

From S2P Require Import Prelude GoStd GoTime.

Record SecretRef := { secretName : string }.

Record HttpJsonCheck := {
  ExpectedStatusCode : Z;
  JsonAssertions : gmap string string }.

Record HttpCheck := { BodyContains : string }.

Record SmtpCheck := {
  smtp_Helo : string;
  smtp_Tls : bool;
  smtp_StartTls : bool;
  smtp_EmailSecretRef : SecretRef;
  smtp_VerifyAssertion : string;
  smtp_FromAssertion : string;
  smtp_ToAssertion : string }.

Record DnsCheck := {
  dns_Tls : bool;
  dns_Verify : string;
  dns_Server : string;
  dns_Type : string }.

Record RedisCheck := {
  redis_Tls : bool;
  redis_SecretRef : SecretRef }.

Record TlsCheck := {
  DaysToExpire : Z;
  tls_Host : string }.

Record MysqlCheck := {
  mysql_SecretRef : SecretRef;
  mysql_MaxSecondsBehindMaster : option Z }.

Record PostgresCheck := {
  postgres_SecretRef : SecretRef;
  postgres_Database : string;
  postgres_MaxSecondsBehindMaster : option Z }.

Record MongodbCheck := {
  mongodb_Tls : bool;
  mongodb_SecretRef : SecretRef;
  mongodb_MaxSecondsBehindMaster : option Z }.

Record ScylladbCheck := { scylladb_SecretRef : SecretRef }.

(** The largest checkInterval, in seconds, the CRD accepts. *)
Definition MaxCheckInterval : Z := 31536000.

(** ** Notifier configuration *)

Record ValkeyConfig := {
  valkey_Enabled : bool;
  valkey_Endpoint : string;
  valkey_Tls : bool;
  valkey_SecretRef : SecretRef;
  valkey_Dashboards : list string;
  valkey_Name : string;
  valkey_RetentionDays : option Z;
  valkey_DB : Z }.

Record WebhookConfig := {
  webhook_Enabled : bool;
  webhook_WebhookURL : string;
  webhook_Authorization : SecretRef;
  webhook_ContentType : string;
  webhook_Contents : string;
  webhook_AlertOn : list string }.

Record SlackConfig := {
  slack_Enabled : bool;
  slack_WebhookURL : string;
  slack_AlertOn : list string }.

Record EmailConfig := {
  email_Enabled : bool;
  email_From : string;
  email_To : list string;
  email_EmailProvider : string;
  email_EmailSecretRef : SecretRef;
  email_Host : string;
  email_Subject : string;
  email_Body : string;
  email_AlertOn : list string }.

Record DiscordConfig := {
  discord_Enabled : bool;
  discord_WebhookURL : string;
  discord_AlertOn : list string }.

Record NotifyConfig := {
  Slack : option SlackConfig;
  Email : option EmailConfig;
  Discord : option DiscordConfig;
  Webhook : option WebhookConfig;
  Valkey : option ValkeyConfig }.

(** ** IpFamilies

    The JSON decoder hands [UnmarshalJSON] the raw value of the field. *)

Inductive json :=
| JNull
| JBool (b : bool)
| JNumber (text : string)
| JString (s : string)
| JArray (l : list json)
| JObject (m : list (string * json)).

(** [json.Unmarshal] into a [[]string]: [null] leaves the target unchanged,
    both for the list and for each element. *)
Definition unmarshal_string (v : json) : option string :=
  match v with JString s => Some s | JNull => Some "" | _ => None end.

Definition unmarshal_strings (v : json) : option (list string) :=
  match v with
  | JNull => Some []
  | JArray l => mapM unmarshal_string l
  | _ => None
  end.

Definition FamilyIPv4 : string := "ipv4".
Definition FamilyIPv6 : string := "ipv6".

(** [func (f *IpFamilies) UnmarshalJSON]: a list, or a single string as older
    objects have it; [None] is an error. *)
Definition IpFamilies_UnmarshalJSON (data : json) : option (list string) :=
  match unmarshal_strings data with
  | Some l => Some l
  | None =>
      single ← unmarshal_string data;
      Some (if decide (single = "") then []
            else if decide (single = "all") then [FamilyIPv4; FamilyIPv6]
            else [single])
  end.

(** ** Spec and status *)

Record EndpointMonitorSpec := {
  spec_Driver : string;
  spec_Endpoint : string;
  spec_CheckInterval : Z;
  spec_Notify : NotifyConfig;
  spec_HttpCheck : option HttpCheck;
  spec_HttpJsonCheck : option HttpJsonCheck;
  spec_SmtpCheck : option SmtpCheck;
  spec_RedisCheck : option RedisCheck;
  spec_TlsCheck : option TlsCheck;
  spec_DnsCheck : option DnsCheck;
  spec_MysqlCheck : option MysqlCheck;
  spec_PostgresCheck : option PostgresCheck;
  spec_MongodbCheck : option MongodbCheck;
  spec_ScylladbCheck : option ScylladbCheck;
  spec_IpFamily : list string }.

Record EndpointMonitorStatus := {
  LastCheckedTime : time;
  LastStatus : string;
  LastStatusChange : time;
  LastNotifiedStatus : option string;
  LastNotifiedStatusChange : time;
  ObservedGeneration : Z }.

Record NamespacedName := { nn_Namespace : string; nn_Name : string }.

#[export] Instance NamespacedName_eq_dec : EqDecision NamespacedName.
Proof. solve_decision. Defined.

#[export] Instance NamespacedName_countable : Countable NamespacedName.
Proof.
  refine (inj_countable' (λ n, (nn_Namespace n, nn_Name n))
            (λ p, {| nn_Namespace := p.1; nn_Name := p.2 |}) _); by intros [].
Defined.

(** The object: its metadata (what the code reads of it), spec and status. *)
Record EndpointMonitor := {
  meta_key : NamespacedName;
  Generation : Z;
  Spec : EndpointMonitorSpec;
  Status : EndpointMonitorStatus }.

Definition with_Status (m : EndpointMonitor) (s : EndpointMonitorStatus) : EndpointMonitor :=
  {| meta_key := meta_key m; Generation := Generation m; Spec := Spec m; Status := s |}.

(** The status of an object just created. *)
Definition empty_Status : EndpointMonitorStatus :=
  {| LastCheckedTime := zero_time; LastStatus := ""; LastStatusChange := zero_time;
     LastNotifiedStatus := None; LastNotifiedStatusChange := zero_time;
     ObservedGeneration := 0 |}.
