(* ===== verification/Heap.v ===== *)
(** * Memory with pointers

    A heap of typed cells, the Go operations on pointers, slices and maps that
    allocate and share, and what it means for a computation to make a deep
    copy.  A value in memory is read by a view: what it stands for, once every
    pointer in it is followed, and its footprint, the cells that were read. *)

From S2P Require Import Prelude GoStd.

#[local] Open Scope nat_scope.

Definition loc := nat.

(** The value a Go declaration without initialiser has. *)
Class Zero (A : Type) := zero : A.

#[export] Instance zero_bool : Zero bool := false.
#[export] Instance zero_Z : Zero Z := 0%Z.
#[export] Instance zero_string : Zero string := "".
#[export] Instance zero_pointer {A} : Zero (option A) := None.

(** The header of a slice: where its array is, and the part of it the slice
    shows.  A slice is nil or has one. *)
Record header := { h_array : loc; h_off : nat; h_len : nat }.
Notation slice := (option header).

Definition len (s : slice) : nat := match s with None => 0 | Some s => h_len s end.

(** A type whose values are kept in cells of the heap. *)
Class Cell (cell A : Type) := {
  to_cell : A → cell;
  of_cell : cell → option A;
  of_to_cell x : of_cell (to_cell x) = Some x }.

Notation heap cell := (gmap loc cell).

Section Heap.
Context {cell : Type}.

(** A computation on the heap; [None] is a crash. *)
Definition C (A : Type) : Type := heap cell → option (A * heap cell).

#[global] Instance C_ret : MRet C := λ A x h, Some (x, h).
#[global] Instance C_bind : MBind C := λ A B k c h,
  match c h with Some (x, h') => k x h' | None => None end.

Definition crash {A} : C A := λ _, None.

Definition peek `{Cell cell A} (h : heap cell) (l : loc) : option A := h !! l ≫= of_cell.

Definition alloc `{Cell cell A} (x : A) : C loc := λ h,
  let l := fresh (dom h) in Some (l, <[l := to_cell x]> h).

Definition load `{Cell cell A} (l : loc) : C A := λ h,
  match peek h l with Some x => Some (x, h) | None => None end.

Definition store `{Cell cell A} (l : loc) (x : A) : C () := λ h,
  match h !! l with Some _ => Some ((), <[l := to_cell x]> h) | None => None end.

(** ** Slices and maps *)

(** The elements a slice shows. *)
Definition shown {A} (s : header) (xs : list A) : option (list A) :=
  if decide (h_off s + h_len s ≤ length xs) then Some (take (h_len s) (drop (h_off s) xs)) else None.

Definition elements `{Cell cell (list A)} (h : heap cell) (s : slice) : option (list A) :=
  match s with
  | None => Some []
  | Some s => peek h (h_array s) ≫= shown s
  end.

(** [s[i]], for reading and for writing. *)
Definition index `{Cell cell (list A)} (s : slice) (i : nat) : C A := λ h,
  match elements h s ≫= (.!! i) with Some x => Some (x, h) | None => None end.

Definition set_index `{Cell cell (list A)} (s : slice) (i : nat) (x : A) : C () :=
  match s with
  | None => crash
  | Some s =>
      xs ← load (h_array s);
      if decide (i < h_len s) then store (h_array s) (<[h_off s + i := x]> xs) else crash
  end.

(** [make([]A, n)] *)
Definition make `{Cell cell (list A)} `{Zero A} (n : nat) : C slice :=
  l ← alloc (replicate n zero);
  mret (Some {| h_array := l; h_off := 0; h_len := n |}).

(** [copy(dst, src)]: as many elements as the shorter of the two has. *)
Definition copy `{Cell cell (list A)} (dst src : slice) : C () := λ h,
  match elements h src, dst with
  | None, _ => None
  | Some _, None => Some ((), h)
  | Some xs, Some d =>
      (old ← load (h_array d);
       let n := Nat.min (h_len d) (length xs) in
       store (h_array d) (take (h_off d) old ++ take n xs ++ drop (h_off d + n) old)) h
  end.

(** An assignment to a key of a map, and the body of a [range] over entries. *)
Definition set_key `{Cell cell (gmap string string)} (l : loc) (k v : string) : C () :=
  m ← load l;
  store l (<[k := v]> m : gmap string string).

Fixpoint each {A} (body : A → C ()) (xs : list A) : C () :=
  match xs with
  | [] => mret ()
  | x :: xs => body x ≫= λ _, each body xs
  end.

(** ** The copies of fields *)

(** [*out = make([]A, len( *in)); copy( *out, *in)] *)
Definition clone `{Cell cell (list A)} `{Zero A} (i : slice) : C slice :=
  out ← make (A:=A) (len i);
  copy (A:=A) out i ≫= λ _,
  mret out.

(** The same, behind [if in != nil]. *)
Definition copy_slice `{Cell cell (list A)} `{Zero A} (i : slice) : C slice :=
  match i with None => mret None | Some _ => clone (A:=A) i end.

(** [if in != nil { *out = make(map[string]string, len( *in)); for key, val :=
    range *in { ( *out)[key] = val } }] *)
Definition copy_map `{Cell cell (gmap string string)} (i : option loc) : C (option loc) :=
  match i with
  | None => mret None
  | Some l =>
      out ← alloc (∅ : gmap string string);
      m ← load l;
      each (λ kv, set_key out kv.1 kv.2) (map_to_list (m : gmap string string)) ≫= λ _,
      mret (Some out)
  end.

(** [if in != nil { *out = new(A); ( *in).DeepCopyInto( *out) }] *)
Definition copy_pointer `{Cell cell A} `{Zero A} (into : A → C A) (i : option loc) : C (option loc) :=
  match i with
  | None => mret None
  | Some l =>
      out ← alloc (zero : A);
      x ← load l;
      y ← into x;
      store out y ≫= λ _,
      mret (Some out)
  end.

(** [if in != nil { *out = make([]A, len( *in)); for i := range *in {
    ( *in)[i].DeepCopyInto(&( *out)[i]) } }] *)
Definition copy_items `{Cell cell (list A)} `{Zero A} (into : A → C A) (i : slice) : C slice :=
  match i with
  | None => mret None
  | Some _ =>
      out ← make (A:=A) (len i);
      each (λ k, x ← index i k; y ← into x; set_index out k y) (seq 0 (len i)) ≫= λ _,
      mret out
  end.

(** ** Views *)

Definition View (M V : Type) : Type := heap cell → M → option (V * gset loc).

(** A value without pointers. *)
Definition plain {M} : View M M := λ _ x, Some (x, ∅).

Definition vpure {M V} (x : V) : View M V := λ _ _, Some (x, ∅).

Definition vap {M V W} (f : View M (V → W)) (x : View M V) : View M W := λ h m,
  match f h m, x h m with
  | Some (g, s), Some (y, t) => Some (g y, s ∪ t)
  | _, _ => None
  end.

Definition field {M N V} (get : M → N) (v : View N V) : View M V := λ h m, v h (get m).

(** What a pointer points to, a map, and the elements of a slice; nil reads as
    the empty map or slice, which the code does not tell apart from it. *)
Definition pointer_view `{Cell cell M} {V} (v : View M V) : View (option loc) (option V) := λ h p,
  match p with
  | None => Some (None, ∅)
  | Some l => x ← peek h l; '(y, s) ← v h x; Some (Some y, {[l]} ∪ s)
  end.

Definition map_view `{Cell cell (gmap string string)} : View (option loc) (gmap string string) := λ h p,
  match p with
  | None => Some (∅, ∅)
  | Some l => m ← peek h l; Some (m, {[l]})
  end.

Definition slice_view `{Cell cell (list M)} {V} (v : View M V) : View slice (list V) := λ h s,
  xs ← elements h s;
  ys ← mapM (v h) xs;
  Some (ys.*1, match s with None => ∅ | Some s => {[h_array s]} end ∪ ⋃ ys.*2).

(** What a view reads depends on its footprint only. *)
Class Local {M V} (v : View M V) := {
  local_dom h m y s : v h m = Some (y, s) → s ⊆ dom h;
  local_agree h h' m y s : v h m = Some (y, s) → (∀ l, l ∈ s → h' !! l = h !! l) → v h' m = Some (y, s) }.

(** A deep copy: it never crashes, every cell that was there stays as it is,
    and the copy reads as the same value in cells that are all new. *)
Class Copies {M V} (v : View M V) (into : M → C M) := {
  copies h m y s : v h m = Some (y, s) →
    ∃ m' h' t, into m h = Some (m', h') ∧ h ⊆ h' ∧ v h' m' = Some (y, t) ∧ t ## dom h }.

End Heap.

Arguments C cell A : clear implicits.
Arguments View cell M V : clear implicits.

#[export] Hint Mode Cell - ! : typeclass_instances.
Infix "<.>" := vap (at level 61, left associativity).

(** ** Reading is local *)

Section Views.
Context {cell : Type}.
Implicit Types h : heap cell.

Lemma peek_dom `{Cell cell A} h l (x : A) : peek h l = Some x → l ∈ dom h.
Proof. unfold peek. destruct (h !! l) eqn:E; [intros _; by apply elem_of_dom|done]. Qed.

Lemma peek_agree `{Cell cell A} h h' l : h' !! l = h !! l → peek (A:=A) h' l = peek h l.
Proof. unfold peek. by intros ->. Qed.

Lemma peek_subseteq `{Cell cell A} h h' l (x : A) : peek h l = Some x → h ⊆ h' → peek h' l = Some x.
Proof.
  unfold peek. intros E S. destruct (h !! l) eqn:F; [|done].
  by rewrite (lookup_weaken _ _ _ _ F S).
Qed.

Lemma elements_dom `{Cell cell (list A)} h s (xs : list A) :
  elements h (Some s) = Some xs → h_array s ∈ dom h.
Proof. simpl. intros (ys & E & _)%bind_Some. by apply peek_dom in E. Qed.

Lemma elements_agree `{Cell cell (list A)} h h' (s : slice) :
  (∀ d, s = Some d → h' !! h_array d = h !! h_array d) → elements (A:=A) h' s = elements h s.
Proof. destruct s as [d|]; [|done]. intros E. simpl. by rewrite (peek_agree h h') by auto. Qed.

#[global] Instance plain_local {M} : Local (cell:=cell) (@plain cell M).
Proof. constructor; unfold plain; [intros ???? [= <- <-]; set_solver|naive_solver]. Qed.

#[global] Instance vpure_local {M V} (x : V) : Local (cell:=cell) (@vpure cell M V x).
Proof. constructor; unfold vpure; [intros ???? [= <- <-]; set_solver|naive_solver]. Qed.

Lemma vap_Some {M V W} (f : View cell M (V → W)) x h m z u :
  (f <.> x) h m = Some (z, u) ↔
  ∃ g s y t, f h m = Some (g, s) ∧ x h m = Some (y, t) ∧ z = g y ∧ u = s ∪ t.
Proof.
  unfold vap. destruct (f h m) as [[g s]|], (x h m) as [[y t]|]; split; try naive_solver.
Qed.

#[global] Instance vap_local {M V W} (f : View cell M (V → W)) x : Local f → Local x → Local (f <.> x).
Proof.
  intros F X. constructor.
  - intros h m z u (g & s & y & t & E1 & E2 & -> & ->)%vap_Some.
    apply local_dom in E1, E2. set_solver.
  - intros h h' m z u (g & s & y & t & E1 & E2 & -> & ->)%vap_Some A. apply vap_Some.
    exists g, s, y, t. split_and!; try done; eapply local_agree; eauto; set_solver.
Qed.

#[global] Instance field_local {M N V} (get : M → N) (v : View cell N V) : Local v → Local (field get v).
Proof. intros L. constructor; unfold field; intros; [by eapply local_dom|by eapply local_agree]. Qed.

Lemma pointer_view_Some `{Cell cell M} {V} (v : View cell M V) h l y s :
  pointer_view v h (Some l) = Some (y, s) ↔
  ∃ x z t, peek h l = Some x ∧ v h x = Some (z, t) ∧ y = Some z ∧ s = {[l]} ∪ t.
Proof.
  simpl. split.
  - intros (x & E & ([z t] & F & [= <- <-])%bind_Some)%bind_Some. by exists x, z, t.
  - intros (x & z & t & -> & F & -> & ->). simpl. by rewrite F.
Qed.

#[global] Instance pointer_view_local `{Cell cell M} {V} (v : View cell M V) : Local v → Local (pointer_view v).
Proof.
  intros L. constructor.
  - intros h [l|] y s E; [|injection E as <- <-; set_solver].
    apply pointer_view_Some in E as (x & z & t & P & F & -> & ->).
    apply peek_dom in P. apply local_dom in F. set_solver.
  - intros h h' [l|] y s E A; [|done].
    apply pointer_view_Some in E as (x & z & t & P & F & -> & ->). apply pointer_view_Some.
    exists x, z, t. rewrite (peek_agree h h') by (apply A; set_solver).
    split_and!; try done. eapply local_agree; [done|set_solver].
Qed.

#[global] Instance map_view_local `{Cell cell (gmap string string)} : Local (@map_view cell _).
Proof.
  constructor.
  - intros h [l|] y s E; simpl in E; [|injection E as <- <-; set_solver].
    apply bind_Some in E as (m & P & [= <- <-]). apply peek_dom in P. set_solver.
  - intros h h' [l|] y s E A; simpl in *; [|done].
    apply bind_Some in E as (m & P & [= <- <-]).
    rewrite (peek_agree h h') by (apply A; set_solver). by rewrite P.
Qed.

Lemma slice_view_Some `{Cell cell (list M)} {V} (v : View cell M V) h s r t :
  slice_view v h s = Some (r, t) ↔
  ∃ xs ys, elements h s = Some xs ∧ mapM (v h) xs = Some ys ∧ r = ys.*1 ∧
    t = match s with None => ∅ | Some s => {[h_array s]} end ∪ ⋃ ys.*2.
Proof.
  unfold slice_view. split.
  - intros (xs & E & (ys & F & [= <- <-])%bind_Some)%bind_Some. by exists xs, ys.
  - intros (xs & ys & E & F & -> & ->). rewrite E. simpl. by rewrite F.
Qed.

(** The elements of a list are read one by one. *)
Lemma mapM_local_agree {M V} (v : View cell M V) `{!Local v} h h' xs ys :
  mapM (v h) xs = Some ys → (∀ l, l ∈ ⋃ ys.*2 → h' !! l = h !! l) → mapM (v h') xs = Some ys.
Proof.
  rewrite !mapM_Some. induction 1 as [|x [y s] xs ys E _ IH]; intros A; constructor; simpl in A.
  - eapply local_agree; [done|set_solver].
  - apply IH. set_solver.
Qed.

Lemma mapM_local_dom {M V} (v : View cell M V) `{!Local v} h xs ys :
  mapM (v h) xs = Some ys → ⋃ ys.*2 ⊆ dom h.
Proof.
  rewrite mapM_Some. induction 1 as [|x [y s] xs ys E _ IH]; simpl; [set_solver|].
  apply local_dom in E. set_solver.
Qed.

#[global] Instance slice_view_local `{Cell cell (list M)} {V} (v : View cell M V) : Local v → Local (slice_view v).
Proof.
  intros L. constructor.
  - intros h s r t (xs & ys & E & F & -> & ->)%slice_view_Some.
    apply mapM_local_dom in F; [|done]. destruct s; [apply elements_dom in E|]; set_solver.
  - intros h h' s r t (xs & ys & E & F & -> & ->)%slice_view_Some A. apply slice_view_Some.
    exists xs, ys. rewrite (elements_agree h h') by (intros d ->; apply A; set_solver).
    split_and!; try done. apply (mapM_local_agree v h); [done|set_solver].
Qed.

(** Cells that are still there keep what is read through them; what is in new
    cells is kept while those are. *)
Lemma local_subseteq {M V} (v : View cell M V) `{!Local v} h h' m y s :
  v h m = Some (y, s) → h ⊆ h' → v h' m = Some (y, s).
Proof.
  intros E S. eapply local_agree; [done|]. intros l I. apply local_dom in E.
  apply E, elem_of_dom in I as [c F]. by rewrite F, (lookup_weaken _ _ _ _ F S).
Qed.

End Views.

(** ** The operations *)

Section Operations.
Context {cell : Type}.
Implicit Types h : heap cell.

Lemma bind_run {A B} (c : C cell A) (k : A → C cell B) h x h' :
  c h = Some (x, h') → (c ≫= k) h = k x h'.
Proof. intros E. unfold mbind, C_bind. by rewrite E. Qed.

Lemma peek_insert `{Cell cell A} h l (x : A) : peek (<[l := to_cell x]> h) l = Some x.
Proof. unfold peek. rewrite lookup_insert_eq. apply of_to_cell. Qed.

Lemma peek_insert_ne `{Cell cell A} h l k c : k ≠ l → peek (A:=A) (<[l := c]> h) k = peek h k.
Proof. intros N. apply peek_agree. by rewrite lookup_insert_ne. Qed.

Lemma alloc_grows `{Cell cell A} h (x : A) : h ⊆ <[fresh (dom h) := to_cell x]> h.
Proof. apply insert_subseteq, not_elem_of_dom, is_fresh. Qed.

Lemma store_new `{Cell cell A} h l (x y : A) :
  store l y (<[l := to_cell x]> h) = Some ((), <[l := to_cell y]> h).
Proof. unfold store. by rewrite lookup_insert_eq, insert_insert_eq. Qed.

Lemma elements_length `{Cell cell (list A)} h s (xs : list A) :
  elements h s = Some xs → length xs = len s.
Proof.
  destruct s as [s|]; simpl; [|by intros [= <-]].
  intros (ys & _ & E)%bind_Some. unfold shown in E.
  destruct (decide _); [|done]. injection E as <-. rewrite length_take, length_drop. lia.
Qed.

Lemma elements_subseteq `{Cell cell (list A)} h hk i (xs : list A) :
  elements h i = Some xs → h ⊆ hk → elements hk i = Some xs.
Proof.
  intros E S. rewrite (elements_agree h); [done|]. intros d ->.
  apply elements_dom, elem_of_dom in E as [c F].
  by rewrite F, (lookup_weaken _ _ _ _ F S).
Qed.

Lemma elements_whole `{Cell cell (list A)} h l (xs : list A) n :
  peek h l = Some xs → n = length xs → elements h (Some {| h_array := l; h_off := 0; h_len := n |}) = Some xs.
Proof.
  intros E ->. simpl. rewrite E. unfold shown. simpl. rewrite decide_True by lia.
  by rewrite drop_0, firstn_all.
Qed.

(** [clone] leaves the elements of the slice in a new array of their own. *)
Lemma clone_spec `{Cell cell (list A)} `{Zero A} h i (xs : list A) :
  elements h i = Some xs →
  clone (A:=A) i h = Some (Some {| h_array := fresh (dom h); h_off := 0; h_len := len i |},
                           <[fresh (dom h) := to_cell xs]> h).
Proof.
  intros E. pose proof (elements_length _ _ _ E) as L.
  unfold clone, make, alloc, mbind, C_bind, mret, C_ret, copy.
  rewrite (elements_agree h), E.
  2:{ intros d ->. apply elements_dom in E. rewrite lookup_insert_ne; [done|].
      intros F. rewrite <- F in E. by apply is_fresh in E. }
  unfold load, mbind, C_bind. simpl. rewrite peek_insert. simpl.
  rewrite store_new, drop_ge by (rewrite length_replicate; lia).
  by rewrite L, Nat.min_id, app_nil_r, <- L, firstn_all.
Qed.

Lemma mapM_plain h {M} (xs : list M) : mapM (plain h) xs = Some ((λ x, (x, ∅)) <$> xs).
Proof. induction xs as [|x xs IH]; [done|]. simpl. by rewrite IH. Qed.

Lemma strings_view_Some `{Cell cell (list M)} h s r t :
  slice_view (plain (M:=M)) h s = Some (r, t) ↔
  elements h s = Some r ∧ t = match s with None => ∅ | Some s => {[h_array s]} end.
Proof.
  rewrite slice_view_Some. setoid_rewrite mapM_plain.
  assert (∀ xs : list M, ((λ x, (x, ∅ : gset loc)) <$> xs).*1 = xs) as F.
  { intros xs. rewrite <- list_fmap_compose. apply list_fmap_id. }
  assert (∀ xs : list M, ⋃ ((λ x, (x, ∅ : gset loc)) <$> xs).*2 = ∅) as G.
  { intros xs. induction xs; simpl; set_solver. }
  split.
  - intros (xs & ys & E & [= <-] & -> & ->). rewrite F, G. split; [done|]. destruct s; set_solver.
  - intros [E ->]. exists r, ((λ x, (x, ∅)) <$> r). rewrite F, G.
    split_and!; try done. destruct s; set_solver.
Qed.

Lemma fresh_disjoint h (X : gset loc) : X ⊆ {[fresh (dom h)]} → X ## dom h.
Proof. intros S l I J. apply S in I. apply elem_of_singleton in I as ->. by apply is_fresh in J. Qed.

#[global] Instance clone_copies `{Cell cell (list A)} `{Zero A} :
  Copies (slice_view (plain (M:=A))) (clone (A:=A)).
Proof.
  constructor. intros h i r s (E & ->)%strings_view_Some.
  eexists _, _, _. split; [by apply clone_spec|]. split; [apply alloc_grows|]. split.
  - apply strings_view_Some. split; [|done].
    apply elements_whole; [apply peek_insert|]. symmetry. by eapply elements_length.
  - by apply fresh_disjoint.
Qed.

#[global] Instance copy_slice_copies `{Cell cell (list A)} `{Zero A} :
  Copies (slice_view (plain (M:=A))) (copy_slice (A:=A)).
Proof.
  constructor. intros h [i|] r s E; [exact (copies (into:=clone (A:=A)) _ _ _ _ E)|].
  exists None, h, s. split_and!; try done. apply strings_view_Some in E as [_ ->]. set_solver.
Qed.

#[global] Instance plain_copies {M} : Copies (cell:=cell) plain (λ x : M, mret x).
Proof. constructor. intros h m y s [= <- <-]. exists m, h, ∅. by split_and!. Qed.

(** *** Maps *)

Lemma set_keys `{Cell cell (gmap string string)} h l (m : gmap string string) kvs :
  each (λ kv, set_key l kv.1 kv.2) kvs (<[l := to_cell m]> h) =
  Some ((), <[l := to_cell (foldl (λ m kv, <[kv.1 := kv.2]> m) m kvs)]> h).
Proof.
  revert m. induction kvs as [|[k v] kvs IH]; intros m; simpl; [done|].
  unfold mbind, C_bind at 1, set_key, load, mbind, C_bind. simpl.
  rewrite peek_insert, store_new. apply IH.
Qed.

Lemma foldl_entries (m0 : gmap string string) kvs :
  NoDup kvs.*1 → (∀ k, k ∈ kvs.*1 → m0 !! k = None) →
  foldl (λ m kv, <[kv.1 := kv.2]> m) m0 kvs = list_to_map kvs ∪ m0.
Proof.
  revert m0. induction kvs as [|[k v] kvs IH]; intros m0 N D; simpl; [by rewrite map_empty_union|].
  apply NoDup_cons in N as [K N]. simpl in *. rewrite IH; [|done|].
  - rewrite <- insert_union_r; [apply insert_union_l|]. by apply not_elem_of_list_to_map.
  - intros k' I. rewrite lookup_insert_ne by set_solver. apply D. set_solver.
Qed.

Lemma foldl_map_to_list (m : gmap string string) :
  foldl (λ m kv, <[kv.1 := kv.2]> m) ∅ (map_to_list m) = m.
Proof.
  rewrite foldl_entries; [|apply NoDup_fst_map_to_list|done].
  by rewrite map_union_empty, list_to_map_to_list.
Qed.

#[global] Instance copy_map_copies `{Cell cell (gmap string string)} :
  Copies map_view copy_map.
Proof.
  constructor. intros h [l|] r s E; simpl in E; [|injection E as <- <-; exists None, h, ∅; set_solver].
  apply bind_Some in E as (m & P & [= -> <-]).
  exists (Some (fresh (dom h))), (<[fresh (dom h) := to_cell r]> h), {[fresh (dom h)]}.
  split_and!; [|apply alloc_grows| |by apply fresh_disjoint].
  - unfold copy_map, alloc, load, mbind, C_bind.
    rewrite (peek_subseteq _ _ _ _ P (alloc_grows h ∅)). by rewrite set_keys, foldl_map_to_list.
  - simpl. by rewrite peek_insert.
Qed.

(** *** Pointers *)

#[global] Instance copy_pointer_copies `{Cell cell M} `{Zero M} {V} (v : View cell M V) into :
  Local v → Copies v into → Copies (pointer_view v) (copy_pointer into).
Proof.
  intros L K. constructor. intros h [l|] r s E; [|injection E as <- <-; exists None, h, ∅; set_solver].
  apply pointer_view_Some in E as (x & y & t & P & F & -> & ->).
  pose proof (alloc_grows h (zero : M)) as G.
  destruct (copies (into:=into) _ _ _ _ (local_subseteq v _ _ _ _ _ F G)) as (x' & h' & t' & E & G' & F' & D).
  set (o := fresh (dom h)) in *.
  assert (o ∉ t') as N. { intros I. apply (D _ I), elem_of_dom. by rewrite lookup_insert_eq. }
  exists (Some o), (<[o := to_cell x']> h'), ({[o]} ∪ t'). split_and!.
  - unfold copy_pointer, alloc, load, mbind, C_bind. fold o.
    rewrite (peek_subseteq _ _ _ _ P G), E. unfold store.
    by rewrite (lookup_weaken _ _ o (to_cell (zero : M)) (lookup_insert_eq _ _ _) G').
  - apply insert_subseteq_r; [apply not_elem_of_dom, is_fresh|]. by etrans.
  - apply pointer_view_Some. exists x', y, t'. rewrite peek_insert. split_and!; try done.
    eapply local_agree; [done|]. intros k I. by rewrite lookup_insert_ne by set_solver.
  - rewrite dom_insert in D. assert ({[o]} ## dom h) by by apply fresh_disjoint. set_solver.
Qed.

(** *** Slices of structs

    After [k] rounds the new array holds [k] copies, which read as the first
    [k] elements in cells that are neither the array nor of the old heap. *)

Section Items.
Context `{Cell cell (list M)} `{Zero M} {V : Type} (v : View cell M V) `{!Local v}.
Context (into : M → C cell M) `{!Copies v into}.
Context (h : heap cell) (i : slice) (xs : list M) (a : loc).

Record filled (done : list M) (ys : list (V * gset loc)) (hk : heap cell) : Prop := {
  fi_old : h ⊆ hk;
  fi_array : peek hk a = Some (done ++ replicate (length xs - length done) zero);
  fi_reads : mapM (v hk) done = Some ys;
  fi_fresh : ⋃ ys.*2 ## {[a]} ∪ dom h }.

Let body (k : nat) : C cell () :=
  x ← index i k; y ← into x; set_index (Some {| h_array := a; h_off := 0; h_len := len i |}) k y.

Context (Helements : elements h i = Some xs) (Ha : a ∉ dom h).

Lemma filled_step done ys hk x y s :
  filled done ys hk → xs !! length done = Some x → v h x = Some (y, s) →
  ∃ x' t h', body (length done) hk = Some ((), h') ∧ filled (done ++ [x']) (ys ++ [(y, t)]) h'.
Proof.
  intros [O A R F] X Y. pose proof (lookup_lt_Some _ _ _ X) as LX.
  destruct (copies (into:=into) _ _ _ _ (local_subseteq v _ _ _ _ _ Y O)) as (x' & h' & t & E & G & Y' & D).
  pose proof (elements_length _ _ _ Helements) as L.
  exists x', t, (<[a := to_cell (done ++ x' :: replicate (length xs - S (length done)) zero)]> h'). split.
  - unfold body, mbind, C_bind, index. rewrite (elements_subseteq _ _ _ _ Helements O). simpl. rewrite X, E.
    unfold load, mbind, C_bind. simpl. rewrite (peek_subseteq _ _ _ _ A G), decide_True by lia.
    unfold store. pose proof (peek_dom _ _ _ (peek_subseteq _ _ _ _ A G)) as [c Ec]%elem_of_dom.
    rewrite Ec. do 4 f_equal. rewrite insert_app_r_alt, Nat.sub_diag by lia. f_equal.
    by replace (length xs - length done) with (S (length xs - S (length done))) by lia.
  - assert (a ∈ dom hk) as Ia by (by eapply peek_dom).
    assert (∀ l, l ∈ t ∪ ⋃ ys.*2 → l ≠ a) as N by set_solver.
    constructor.
    + apply insert_subseteq_r; [by apply not_elem_of_dom|]. by etrans.
    + rewrite peek_insert, length_app, <- app_assoc. simpl. do 4 f_equal. lia.
    + apply mapM_Some, Forall2_app; [apply mapM_Some|constructor; [|done]].
      * apply (mapM_local_agree v hk); [done|]. intros l I.
        rewrite lookup_insert_ne by (symmetry; set_solver).
        apply mapM_local_dom in R; [|done]. apply R, elem_of_dom in I as [c' Ec'].
        by rewrite Ec', (lookup_weaken _ _ _ _ Ec' G).
      * eapply local_agree; [done|]. intros l I. by rewrite lookup_insert_ne by (symmetry; set_solver).
    + apply subseteq_dom in O. rewrite fmap_app, union_list_app. simpl. set_solver.
Qed.

Lemma filled_all done rest ys zs hk :
  filled done ys hk → drop (length done) xs = rest → mapM (v h) rest = Some zs →
  ∃ done' ys' h', each body (seq (length done) (length rest)) hk = Some ((), h') ∧
    filled done' ys' h' ∧ ys'.*1 = ys.*1 ++ zs.*1 ∧ length done' = length done + length rest.
Proof.
  revert done ys zs hk. induction rest as [|x rest IH]; intros done ys zs hk F X Z.
  - injection Z as <-. exists done, ys, hk. rewrite app_nil_r. by split_and!.
  - apply mapM_Some, Forall2_cons_inv_l in Z as ([y s] & zs' & Y & Z%mapM_Some & ->).
    assert (xs !! length done = Some x) as Xi.
    { by rewrite <- (Nat.add_0_r (length done)), <- lookup_drop, X. }
    destruct (filled_step _ _ _ _ _ _ F Xi Y) as (x' & t & h' & B & F').
    destruct (IH (done ++ [x']) (ys ++ [(y, t)]) zs' h') as (done' & ys' & h'' & E & F'' & W & LD);
      [done| |done|].
    { rewrite length_app. simpl. by rewrite <- drop_drop, X. }
    rewrite length_app in E, LD. simpl in E, LD. rewrite Nat.add_1_r in E, LD.
    exists done', ys', h''. split_and!; [|done| |simpl; lia].
    + simpl. unfold mbind, C_bind at 1. by rewrite B.
    + by rewrite W, fmap_app, <- app_assoc.
Qed.

End Items.

#[global] Instance copy_items_copies `{Cell cell (list M)} `{Zero M} {V} (v : View cell M V) into :
  Local v → Copies v into → Copies (slice_view v) (copy_items into).
Proof.
  intros L K. constructor. intros h [d|] r s E.
  2:{ exists None, h, ∅. apply slice_view_Some in E as (xs & ys & [= <-] & [= <-] & -> & ->).
      split_and!; done. }
  apply slice_view_Some in E as (xs & zs & E & F & -> & ->).
  pose proof (elements_length _ _ _ E) as N. simpl in N.
  set (a := fresh (dom h)) in *.
  assert (a ∉ dom h) as Ha by apply is_fresh.
  destruct (filled_all v into h (Some d) xs a E Ha [] xs [] zs (<[a := to_cell (replicate (h_len d) (zero : M))]> h))
    as (ds & ys & h' & B & [O A R D] & W & LD); [|done|done|].
  { constructor; [by apply alloc_grows| |done|set_solver].
    rewrite peek_insert. simpl. by rewrite Nat.sub_0_r, N. }
  exists (Some {| h_array := a; h_off := 0; h_len := h_len d |}), h', ({[a]} ∪ ⋃ ys.*2).
  simpl in LD, W. split_and!; [|done| |set_solver].
  - rewrite N in B. etrans; [by apply bind_run|]. by etrans; [apply (bind_run _ _ _ _ _ B)|].
  - apply slice_view_Some. exists ds, ys. rewrite W. split_and!; try done.
    apply elements_whole; [|lia]. rewrite A, LD, Nat.sub_diag. simpl. by rewrite app_nil_r.
Qed.

End Operations.

(** ** Structs

    A [DeepCopyInto] assigns the whole struct and then the copy of each field
    that holds a pointer.  [copies_step] runs one such copy: the old heap [h0]
    is kept, and what the new field reads as will still be so in every larger
    heap. *)

Section Structs.
Context {cell : Type}.
Implicit Types h : heap cell.

Definition reads_new h0 h {M V} (v : View cell M V) (m : M) (y : V) : Prop :=
  ∃ t, v h m = Some (y, t) ∧ t ## dom h0.

Definition leads {A} (c : C cell A) h (Q : A → heap cell → Prop) : Prop :=
  ∃ x h', c h = Some (x, h') ∧ Q x h'.

Lemma copies_step {M V A} (v : View cell M V) `{!Local v} into `{!Copies v into} (k : M → C cell A) h0 h m y s Q :
  v h0 m = Some (y, s) → h0 ⊆ h →
  (∀ m' h', h ⊆ h' → h0 ⊆ h' → reads_new h0 h' v m' y → leads (k m') h' Q) →
  leads (into m ≫= k) h Q.
Proof.
  intros E S K.
  destruct (copies (into:=into) _ _ _ _ (local_subseteq v _ _ _ _ _ E S)) as (m' & h' & t & R & S' & E' & D).
  destruct (K m' h') as (x & h'' & Kx & HQ); [done|by etrans| |].
  { exists t. split; [done|]. apply subseteq_dom in S. set_solver. }
  exists x, h''. split; [|done]. by rewrite (bind_run _ _ _ _ _ R).
Qed.

Lemma leads_mret {A} (x : A) h Q : Q x h → leads (mret x) h Q.
Proof. intros. by exists x, h. Qed.

Lemma copies_intro {M V} (v : View cell M V) into :
  (∀ h m y s, v h m = Some (y, s) → leads (into m) h (λ m' h', h ⊆ h' ∧ reads_new h h' v m' y)) →
  Copies v into.
Proof.
  intros K. constructor. intros h m y s E.
  destruct (K _ _ _ _ E) as (m' & h' & R & S & t & E' & D). by exists m', h', t.
Qed.

Lemma reads_new_mono {M V} (v : View cell M V) `{!Local v} h0 h h' m y :
  reads_new h0 h v m y → h ⊆ h' → reads_new h0 h' v m y.
Proof. intros (t & E & D) S. exists t. split; [by eapply local_subseteq|done]. Qed.

Lemma reads_new_plain {M} h0 h (x : M) : reads_new h0 h plain x x.
Proof. by exists ∅. Qed.

Lemma reads_new_vpure {M V} h0 h (m : M) (x : V) : reads_new h0 h (vpure x) m x.
Proof. by exists ∅. Qed.

Lemma reads_new_vap {M V W} (f : View cell M (V → W)) x h0 h m g y :
  reads_new h0 h f m g → reads_new h0 h x m y → reads_new h0 h (f <.> x) m (g y).
Proof.
  intros (s & E & D) (t & E' & D'). exists (s ∪ t). split; [|set_solver].
  apply vap_Some. by exists g, s, y, t.
Qed.

Lemma reads_new_field {M N V} (get : M → N) (v : View cell N V) h0 h m y :
  reads_new h0 h v (get m) y → reads_new h0 h (field get v) m y.
Proof. done. Qed.

End Structs.

(** Cells of a deep copy are in no old struct and no old cell is in the copy:
    changes of either are not seen through the other. *)
Lemma copies_independent {cell M V} (v : View cell M V) `{!Local v} into `{!Copies v into} h m y s :
  v h m = Some (y, s) →
  ∃ m' h', into m h = Some (m', h') ∧ h ⊆ h' ∧
    (∀ h'', (∀ l, l ∉ dom h → h'' !! l = h' !! l) → ∃ t, v h'' m' = Some (y, t)) ∧
    (∀ h'', (∀ l, l ∈ dom h → h'' !! l = h' !! l) → v h'' m = Some (y, s)).
Proof.
  intros E. destruct (copies (into:=into) _ _ _ _ E) as (m' & h' & t & R & S & E' & D).
  exists m', h'. split_and!; [done..| |].
  - intros h'' A. exists t. eapply local_agree; [done|]. intros l I. apply A. set_solver.
  - intros h'' A. eapply local_agree; [done|]. intros l I.
    apply local_dom in E. rewrite A by auto. apply E, elem_of_dom in I as [c F].
    by rewrite F, (lookup_weaken _ _ _ _ F S).
Qed.

(** For the copy of a pointer, as every [DeepCopy] method makes it. *)
Lemma DeepCopy_independent `{Cell cell M} `{Zero M} {V} (v : View cell M V) `{!Local v} into `{!Copies v into} h p o s :
  pointer_view v h (Some p) = Some (Some o, s) →
  ∃ q h', copy_pointer into (Some p) h = Some (Some q, h') ∧ q ∉ dom h ∧ h ⊆ h' ∧
    (∀ h'', (∀ l, l ∉ dom h → h'' !! l = h' !! l) → ∃ t, pointer_view v h'' (Some q) = Some (Some o, t)) ∧
    (∀ h'', (∀ l, l ∈ dom h → h'' !! l = h' !! l) → pointer_view v h'' (Some p) = Some (Some o, s)).
Proof.
  intros E. destruct (copies (into:=copy_pointer into) _ _ _ _ E) as ([q|] & h1 & t & R & _ & F & D); [|done].
  destruct (copies_independent _ (copy_pointer into) _ _ _ _ E) as (m & h' & R' & S & A & B).
  rewrite R in R'. injection R' as <- <-. exists q, h1. split_and!; try done.
  apply pointer_view_Some in F as (? & ? & ? & _ & _ & _ & ->). set_solver.
Qed.

(** The proof that a struct's [DeepCopyInto] copies: read the fields, run the
    copies in order, and put the struct together. *)
Ltac growing :=
  solve [eassumption | reflexivity | etrans; [eassumption|growing]].

Ltac read_fields :=
  repeat match goal with
  | E : (_ <.> _) _ _ = Some _ |- _ => apply vap_Some in E as (? & ? & ? & ? & E & ? & -> & ->)
  | E : field _ _ _ _ = Some _ |- _ => unfold field in E; cbv beta in E
  | E : vpure _ _ _ = Some _ |- _ => injection E as <- <-
  | E : plain _ _ = Some _ |- _ => injection E as <- <-
  end.

Ltac new_field :=
  apply reads_new_field; cbn;
  first [ apply reads_new_plain | eapply reads_new_mono; [apply _|eassumption|growing] ].

Ltac struct_copy :=
  apply copies_intro; intros h i y s E; read_fields;
  repeat match goal with
  | E : ?v ?h0 ?m = Some _ |- leads (?into ?m ≫= _) _ _ =>
      eapply (copies_step v into _ h0); [exact E|growing|intros ? ? ? ? ?; cbv beta]
  end;
  apply leads_mret; split; [growing|];
  repeat apply reads_new_vap; first [apply reads_new_vpure | new_field].
