(* ===== verification/DeepCopy.v ===== *)
(** * Deep copies (api/v1alpha1/zz_generated.deepcopy.go)

    The API types as they lie in memory - a pointer or a map is a location, a
    slice a header - and the [DeepCopyInto], [DeepCopy] and [DeepCopyObject]
    methods on the heap of Heap.  [X_DeepCopyInto i] runs the method with [i]
    in [*in] and answers with what it leaves in [*out], another struct; a
    struct without pointers is its Api record.  The metadata types and
    [Time] belong to apimachinery: what they stand for and their own
    [DeepCopyInto] are variables. *)

From S2P Require Import Prelude GoStd GoTime Api Heap.

(** ** Structs with pointers *)

#[export] Instance zero_SecretRef : Zero SecretRef := Build_SecretRef zero.
#[export] Instance zero_HttpCheck : Zero HttpCheck := Build_HttpCheck zero.
#[export] Instance zero_SmtpCheck : Zero SmtpCheck := Build_SmtpCheck zero zero zero zero zero zero zero.
#[export] Instance zero_DnsCheck : Zero DnsCheck := Build_DnsCheck zero zero zero zero.
#[export] Instance zero_RedisCheck : Zero RedisCheck := Build_RedisCheck zero zero.
#[export] Instance zero_TlsCheck : Zero TlsCheck := Build_TlsCheck zero zero.
#[export] Instance zero_ScylladbCheck : Zero ScylladbCheck := Build_ScylladbCheck zero.

Record mSlackConfig := {
  mslack_Enabled : bool;
  mslack_WebhookURL : string;
  mslack_AlertOn : slice }.
#[export] Instance zero_mSlackConfig : Zero mSlackConfig := Build_mSlackConfig zero zero zero.

Record mEmailConfig := {
  memail_Enabled : bool;
  memail_From : string;
  memail_To : slice;
  memail_EmailProvider : string;
  memail_EmailSecretRef : SecretRef;
  memail_Host : string;
  memail_Subject : string;
  memail_Body : string;
  memail_AlertOn : slice }.
#[export] Instance zero_mEmailConfig : Zero mEmailConfig := Build_mEmailConfig zero zero zero zero zero zero zero zero zero.

Record mDiscordConfig := {
  mdiscord_Enabled : bool;
  mdiscord_WebhookURL : string;
  mdiscord_AlertOn : slice }.
#[export] Instance zero_mDiscordConfig : Zero mDiscordConfig := Build_mDiscordConfig zero zero zero.

Record mWebhookConfig := {
  mwebhook_Enabled : bool;
  mwebhook_WebhookURL : string;
  mwebhook_Authorization : SecretRef;
  mwebhook_ContentType : string;
  mwebhook_Contents : string;
  mwebhook_AlertOn : slice }.
#[export] Instance zero_mWebhookConfig : Zero mWebhookConfig := Build_mWebhookConfig zero zero zero zero zero zero.

Record mValkeyConfig := {
  mvalkey_Enabled : bool;
  mvalkey_Endpoint : string;
  mvalkey_Tls : bool;
  mvalkey_SecretRef : SecretRef;
  mvalkey_Dashboards : slice;
  mvalkey_Name : string;
  mvalkey_RetentionDays : option loc;
  mvalkey_DB : Z }.
#[export] Instance zero_mValkeyConfig : Zero mValkeyConfig := Build_mValkeyConfig zero zero zero zero zero zero zero zero.

Record mNotifyConfig := {
  mnotify_Slack : option loc;
  mnotify_Email : option loc;
  mnotify_Discord : option loc;
  mnotify_Webhook : option loc;
  mnotify_Valkey : option loc }.
#[export] Instance zero_mNotifyConfig : Zero mNotifyConfig := Build_mNotifyConfig zero zero zero zero zero.

Record mHttpJsonCheck := {
  mhttpjson_ExpectedStatusCode : Z;
  mhttpjson_JsonAssertions : option loc }.
#[export] Instance zero_mHttpJsonCheck : Zero mHttpJsonCheck := Build_mHttpJsonCheck zero zero.

Record mMysqlCheck := {
  mmysql_SecretRef : SecretRef;
  mmysql_MaxSecondsBehindMaster : option loc }.
#[export] Instance zero_mMysqlCheck : Zero mMysqlCheck := Build_mMysqlCheck zero zero.

Record mPostgresCheck := {
  mpostgres_SecretRef : SecretRef;
  mpostgres_Database : string;
  mpostgres_MaxSecondsBehindMaster : option loc }.
#[export] Instance zero_mPostgresCheck : Zero mPostgresCheck := Build_mPostgresCheck zero zero zero.

Record mMongodbCheck := {
  mmongodb_Tls : bool;
  mmongodb_SecretRef : SecretRef;
  mmongodb_MaxSecondsBehindMaster : option loc }.
#[export] Instance zero_mMongodbCheck : Zero mMongodbCheck := Build_mMongodbCheck zero zero zero.

Record mEndpointMonitorSpec := {
  mspec_Driver : string;
  mspec_Endpoint : string;
  mspec_CheckInterval : Z;
  mspec_Notify : mNotifyConfig;
  mspec_HttpCheck : option loc;
  mspec_HttpJsonCheck : option loc;
  mspec_SmtpCheck : option loc;
  mspec_RedisCheck : option loc;
  mspec_TlsCheck : option loc;
  mspec_DnsCheck : option loc;
  mspec_MysqlCheck : option loc;
  mspec_PostgresCheck : option loc;
  mspec_MongodbCheck : option loc;
  mspec_ScylladbCheck : option loc;
  mspec_IpFamily : slice }.
#[export] Instance zero_mEndpointMonitorSpec : Zero mEndpointMonitorSpec := Build_mEndpointMonitorSpec zero zero zero zero zero zero zero zero zero zero zero zero zero zero zero.


Section DeepCopy.
Context {TypeMeta ObjectMeta ListMeta Time Other : Type}.
Context `{!Zero TypeMeta, !Zero ObjectMeta, !Zero ListMeta, !Zero Time}.

Record mEndpointMonitorStatus := {
  mstatus_LastCheckedTime : Time;
  mstatus_LastStatus : string;
  mstatus_LastStatusChange : Time;
  mstatus_LastNotifiedStatus : option loc;
  mstatus_LastNotifiedStatusChange : Time;
  mstatus_ObservedGeneration : Z }.
#[export] Instance zero_mEndpointMonitorStatus : Zero mEndpointMonitorStatus := Build_mEndpointMonitorStatus zero zero zero zero zero zero.

Record mEndpointMonitor := {
  m_TypeMeta : TypeMeta;
  m_ObjectMeta : ObjectMeta;
  m_Spec : mEndpointMonitorSpec;
  m_Status : mEndpointMonitorStatus }.

#[export] Instance zero_mEndpointMonitor : Zero mEndpointMonitor :=
  Build_mEndpointMonitor zero zero zero zero.

Record mEndpointMonitorList := {
  ml_TypeMeta : TypeMeta;
  ml_ListMeta : ListMeta;
  ml_Items : slice }.

#[export] Instance zero_mEndpointMonitorList : Zero mEndpointMonitorList :=
  Build_mEndpointMonitorList zero zero zero.

(** What a location can hold: an array, a map, a struct, a string or an int;
    [COther] is for what only apimachinery knows of. *)
Inductive cell :=
| CStrings (x : list string)
| CMonitors (x : list mEndpointMonitor)
| CMap (x : gmap string string)
| CInt (x : Z)
| CString (x : string)
| CIpFamilies (x : slice)
| CSecretRef (x : SecretRef)
| CHttpCheck (x : HttpCheck)
| CSmtpCheck (x : SmtpCheck)
| CDnsCheck (x : DnsCheck)
| CRedisCheck (x : RedisCheck)
| CTlsCheck (x : TlsCheck)
| CScylladbCheck (x : ScylladbCheck)
| CSlackConfig (x : mSlackConfig)
| CEmailConfig (x : mEmailConfig)
| CDiscordConfig (x : mDiscordConfig)
| CWebhookConfig (x : mWebhookConfig)
| CValkeyConfig (x : mValkeyConfig)
| CNotifyConfig (x : mNotifyConfig)
| CHttpJsonCheck (x : mHttpJsonCheck)
| CMysqlCheck (x : mMysqlCheck)
| CPostgresCheck (x : mPostgresCheck)
| CMongodbCheck (x : mMongodbCheck)
| CEndpointMonitorSpec (x : mEndpointMonitorSpec)
| CEndpointMonitorStatus (x : mEndpointMonitorStatus)
| CEndpointMonitor (x : mEndpointMonitor)
| CEndpointMonitorList (x : mEndpointMonitorList)
| COther (x : Other).

#[global] Instance CStrings_cell : Cell cell (list string) :=
  {| to_cell := CStrings; of_cell c := match c with CStrings x => Some x | _ => None end; of_to_cell _ := eq_refl |}.
#[global] Instance CMonitors_cell : Cell cell (list mEndpointMonitor) :=
  {| to_cell := CMonitors; of_cell c := match c with CMonitors x => Some x | _ => None end; of_to_cell _ := eq_refl |}.
#[global] Instance CMap_cell : Cell cell (gmap string string) :=
  {| to_cell := CMap; of_cell c := match c with CMap x => Some x | _ => None end; of_to_cell _ := eq_refl |}.
#[global] Instance CInt_cell : Cell cell Z :=
  {| to_cell := CInt; of_cell c := match c with CInt x => Some x | _ => None end; of_to_cell _ := eq_refl |}.
#[global] Instance CString_cell : Cell cell string :=
  {| to_cell := CString; of_cell c := match c with CString x => Some x | _ => None end; of_to_cell _ := eq_refl |}.
#[global] Instance CIpFamilies_cell : Cell cell slice :=
  {| to_cell := CIpFamilies; of_cell c := match c with CIpFamilies x => Some x | _ => None end; of_to_cell _ := eq_refl |}.
#[global] Instance CSecretRef_cell : Cell cell SecretRef :=
  {| to_cell := CSecretRef; of_cell c := match c with CSecretRef x => Some x | _ => None end; of_to_cell _ := eq_refl |}.
#[global] Instance CHttpCheck_cell : Cell cell HttpCheck :=
  {| to_cell := CHttpCheck; of_cell c := match c with CHttpCheck x => Some x | _ => None end; of_to_cell _ := eq_refl |}.
#[global] Instance CSmtpCheck_cell : Cell cell SmtpCheck :=
  {| to_cell := CSmtpCheck; of_cell c := match c with CSmtpCheck x => Some x | _ => None end; of_to_cell _ := eq_refl |}.
#[global] Instance CDnsCheck_cell : Cell cell DnsCheck :=
  {| to_cell := CDnsCheck; of_cell c := match c with CDnsCheck x => Some x | _ => None end; of_to_cell _ := eq_refl |}.
#[global] Instance CRedisCheck_cell : Cell cell RedisCheck :=
  {| to_cell := CRedisCheck; of_cell c := match c with CRedisCheck x => Some x | _ => None end; of_to_cell _ := eq_refl |}.
#[global] Instance CTlsCheck_cell : Cell cell TlsCheck :=
  {| to_cell := CTlsCheck; of_cell c := match c with CTlsCheck x => Some x | _ => None end; of_to_cell _ := eq_refl |}.
#[global] Instance CScylladbCheck_cell : Cell cell ScylladbCheck :=
  {| to_cell := CScylladbCheck; of_cell c := match c with CScylladbCheck x => Some x | _ => None end; of_to_cell _ := eq_refl |}.
#[global] Instance CSlackConfig_cell : Cell cell mSlackConfig :=
  {| to_cell := CSlackConfig; of_cell c := match c with CSlackConfig x => Some x | _ => None end; of_to_cell _ := eq_refl |}.
#[global] Instance CEmailConfig_cell : Cell cell mEmailConfig :=
  {| to_cell := CEmailConfig; of_cell c := match c with CEmailConfig x => Some x | _ => None end; of_to_cell _ := eq_refl |}.
#[global] Instance CDiscordConfig_cell : Cell cell mDiscordConfig :=
  {| to_cell := CDiscordConfig; of_cell c := match c with CDiscordConfig x => Some x | _ => None end; of_to_cell _ := eq_refl |}.
#[global] Instance CWebhookConfig_cell : Cell cell mWebhookConfig :=
  {| to_cell := CWebhookConfig; of_cell c := match c with CWebhookConfig x => Some x | _ => None end; of_to_cell _ := eq_refl |}.
#[global] Instance CValkeyConfig_cell : Cell cell mValkeyConfig :=
  {| to_cell := CValkeyConfig; of_cell c := match c with CValkeyConfig x => Some x | _ => None end; of_to_cell _ := eq_refl |}.
#[global] Instance CNotifyConfig_cell : Cell cell mNotifyConfig :=
  {| to_cell := CNotifyConfig; of_cell c := match c with CNotifyConfig x => Some x | _ => None end; of_to_cell _ := eq_refl |}.
#[global] Instance CHttpJsonCheck_cell : Cell cell mHttpJsonCheck :=
  {| to_cell := CHttpJsonCheck; of_cell c := match c with CHttpJsonCheck x => Some x | _ => None end; of_to_cell _ := eq_refl |}.
#[global] Instance CMysqlCheck_cell : Cell cell mMysqlCheck :=
  {| to_cell := CMysqlCheck; of_cell c := match c with CMysqlCheck x => Some x | _ => None end; of_to_cell _ := eq_refl |}.
#[global] Instance CPostgresCheck_cell : Cell cell mPostgresCheck :=
  {| to_cell := CPostgresCheck; of_cell c := match c with CPostgresCheck x => Some x | _ => None end; of_to_cell _ := eq_refl |}.
#[global] Instance CMongodbCheck_cell : Cell cell mMongodbCheck :=
  {| to_cell := CMongodbCheck; of_cell c := match c with CMongodbCheck x => Some x | _ => None end; of_to_cell _ := eq_refl |}.
#[global] Instance CEndpointMonitorSpec_cell : Cell cell mEndpointMonitorSpec :=
  {| to_cell := CEndpointMonitorSpec; of_cell c := match c with CEndpointMonitorSpec x => Some x | _ => None end; of_to_cell _ := eq_refl |}.
#[global] Instance CEndpointMonitorStatus_cell : Cell cell mEndpointMonitorStatus :=
  {| to_cell := CEndpointMonitorStatus; of_cell c := match c with CEndpointMonitorStatus x => Some x | _ => None end; of_to_cell _ := eq_refl |}.
#[global] Instance CEndpointMonitor_cell : Cell cell mEndpointMonitor :=
  {| to_cell := CEndpointMonitor; of_cell c := match c with CEndpointMonitor x => Some x | _ => None end; of_to_cell _ := eq_refl |}.
#[global] Instance CEndpointMonitorList_cell : Cell cell mEndpointMonitorList :=
  {| to_cell := CEndpointMonitorList; of_cell c := match c with CEndpointMonitorList x => Some x | _ => None end; of_to_cell _ := eq_refl |}.
#[global] Instance COther_cell : Cell cell Other :=
  {| to_cell := COther; of_cell c := match c with COther x => Some x | _ => None end; of_to_cell _ := eq_refl |}.

Context (ObjectMeta_DeepCopyInto : ObjectMeta → C cell ObjectMeta).
Context (ListMeta_DeepCopyInto : ListMeta → C cell ListMeta).
Context (Time_DeepCopyInto : Time → C cell Time).

(** ** DeepCopyInto: [*out = *in], then field by field *)

Definition SecretRef_DeepCopyInto (i : SecretRef) : C cell SecretRef := mret i.

Definition HttpCheck_DeepCopyInto (i : HttpCheck) : C cell HttpCheck := mret i.

Definition SmtpCheck_DeepCopyInto (i : SmtpCheck) : C cell SmtpCheck :=
  mret {| smtp_Helo := smtp_Helo i;
          smtp_Tls := smtp_Tls i;
          smtp_StartTls := smtp_StartTls i;
          smtp_EmailSecretRef := smtp_EmailSecretRef i;
          smtp_VerifyAssertion := smtp_VerifyAssertion i;
          smtp_FromAssertion := smtp_FromAssertion i;
          smtp_ToAssertion := smtp_ToAssertion i |}.

Definition DnsCheck_DeepCopyInto (i : DnsCheck) : C cell DnsCheck := mret i.

Definition RedisCheck_DeepCopyInto (i : RedisCheck) : C cell RedisCheck :=
  mret {| redis_Tls := redis_Tls i;
          redis_SecretRef := redis_SecretRef i |}.

Definition TlsCheck_DeepCopyInto (i : TlsCheck) : C cell TlsCheck := mret i.

Definition ScylladbCheck_DeepCopyInto (i : ScylladbCheck) : C cell ScylladbCheck :=
  mret {| scylladb_SecretRef := scylladb_SecretRef i |}.

Definition SlackConfig_DeepCopyInto (i : mSlackConfig) : C cell mSlackConfig :=
  alertOn ← copy_slice (A:=string) (mslack_AlertOn i);
  mret {| mslack_Enabled := mslack_Enabled i;
          mslack_WebhookURL := mslack_WebhookURL i;
          mslack_AlertOn := alertOn |}.

Definition EmailConfig_DeepCopyInto (i : mEmailConfig) : C cell mEmailConfig :=
  to ← copy_slice (A:=string) (memail_To i);
  alertOn ← copy_slice (A:=string) (memail_AlertOn i);
  mret {| memail_Enabled := memail_Enabled i;
          memail_From := memail_From i;
          memail_To := to;
          memail_EmailProvider := memail_EmailProvider i;
          memail_EmailSecretRef := memail_EmailSecretRef i;
          memail_Host := memail_Host i;
          memail_Subject := memail_Subject i;
          memail_Body := memail_Body i;
          memail_AlertOn := alertOn |}.

Definition DiscordConfig_DeepCopyInto (i : mDiscordConfig) : C cell mDiscordConfig :=
  alertOn ← copy_slice (A:=string) (mdiscord_AlertOn i);
  mret {| mdiscord_Enabled := mdiscord_Enabled i;
          mdiscord_WebhookURL := mdiscord_WebhookURL i;
          mdiscord_AlertOn := alertOn |}.

Definition WebhookConfig_DeepCopyInto (i : mWebhookConfig) : C cell mWebhookConfig :=
  alertOn ← copy_slice (A:=string) (mwebhook_AlertOn i);
  mret {| mwebhook_Enabled := mwebhook_Enabled i;
          mwebhook_WebhookURL := mwebhook_WebhookURL i;
          mwebhook_Authorization := mwebhook_Authorization i;
          mwebhook_ContentType := mwebhook_ContentType i;
          mwebhook_Contents := mwebhook_Contents i;
          mwebhook_AlertOn := alertOn |}.

Definition ValkeyConfig_DeepCopyInto (i : mValkeyConfig) : C cell mValkeyConfig :=
  dashboards ← copy_slice (A:=string) (mvalkey_Dashboards i);
  retentionDays ← copy_pointer (A:=Z) (λ x, mret x) (mvalkey_RetentionDays i);
  mret {| mvalkey_Enabled := mvalkey_Enabled i;
          mvalkey_Endpoint := mvalkey_Endpoint i;
          mvalkey_Tls := mvalkey_Tls i;
          mvalkey_SecretRef := mvalkey_SecretRef i;
          mvalkey_Dashboards := dashboards;
          mvalkey_Name := mvalkey_Name i;
          mvalkey_RetentionDays := retentionDays;
          mvalkey_DB := mvalkey_DB i |}.

Definition NotifyConfig_DeepCopyInto (i : mNotifyConfig) : C cell mNotifyConfig :=
  slack ← copy_pointer SlackConfig_DeepCopyInto (mnotify_Slack i);
  email ← copy_pointer EmailConfig_DeepCopyInto (mnotify_Email i);
  discord ← copy_pointer DiscordConfig_DeepCopyInto (mnotify_Discord i);
  webhook ← copy_pointer WebhookConfig_DeepCopyInto (mnotify_Webhook i);
  valkey ← copy_pointer ValkeyConfig_DeepCopyInto (mnotify_Valkey i);
  mret {| mnotify_Slack := slack;
          mnotify_Email := email;
          mnotify_Discord := discord;
          mnotify_Webhook := webhook;
          mnotify_Valkey := valkey |}.

Definition HttpJsonCheck_DeepCopyInto (i : mHttpJsonCheck) : C cell mHttpJsonCheck :=
  jsonAssertions ← copy_map (mhttpjson_JsonAssertions i);
  mret {| mhttpjson_ExpectedStatusCode := mhttpjson_ExpectedStatusCode i;
          mhttpjson_JsonAssertions := jsonAssertions |}.

Definition MysqlCheck_DeepCopyInto (i : mMysqlCheck) : C cell mMysqlCheck :=
  maxSecondsBehindMaster ← copy_pointer (A:=Z) (λ x, mret x) (mmysql_MaxSecondsBehindMaster i);
  mret {| mmysql_SecretRef := mmysql_SecretRef i;
          mmysql_MaxSecondsBehindMaster := maxSecondsBehindMaster |}.

Definition PostgresCheck_DeepCopyInto (i : mPostgresCheck) : C cell mPostgresCheck :=
  maxSecondsBehindMaster ← copy_pointer (A:=Z) (λ x, mret x) (mpostgres_MaxSecondsBehindMaster i);
  mret {| mpostgres_SecretRef := mpostgres_SecretRef i;
          mpostgres_Database := mpostgres_Database i;
          mpostgres_MaxSecondsBehindMaster := maxSecondsBehindMaster |}.

Definition MongodbCheck_DeepCopyInto (i : mMongodbCheck) : C cell mMongodbCheck :=
  maxSecondsBehindMaster ← copy_pointer (A:=Z) (λ x, mret x) (mmongodb_MaxSecondsBehindMaster i);
  mret {| mmongodb_Tls := mmongodb_Tls i;
          mmongodb_SecretRef := mmongodb_SecretRef i;
          mmongodb_MaxSecondsBehindMaster := maxSecondsBehindMaster |}.

Definition EndpointMonitorSpec_DeepCopyInto (i : mEndpointMonitorSpec) : C cell mEndpointMonitorSpec :=
  notify ← NotifyConfig_DeepCopyInto (mspec_Notify i);
  httpCheck ← copy_pointer (A:=HttpCheck) (λ x, mret x) (mspec_HttpCheck i);
  httpJsonCheck ← copy_pointer HttpJsonCheck_DeepCopyInto (mspec_HttpJsonCheck i);
  smtpCheck ← copy_pointer (A:=SmtpCheck) (λ x, mret x) (mspec_SmtpCheck i);
  redisCheck ← copy_pointer (A:=RedisCheck) (λ x, mret x) (mspec_RedisCheck i);
  tlsCheck ← copy_pointer (A:=TlsCheck) (λ x, mret x) (mspec_TlsCheck i);
  dnsCheck ← copy_pointer (A:=DnsCheck) (λ x, mret x) (mspec_DnsCheck i);
  mysqlCheck ← copy_pointer MysqlCheck_DeepCopyInto (mspec_MysqlCheck i);
  postgresCheck ← copy_pointer PostgresCheck_DeepCopyInto (mspec_PostgresCheck i);
  mongodbCheck ← copy_pointer MongodbCheck_DeepCopyInto (mspec_MongodbCheck i);
  scylladbCheck ← copy_pointer (A:=ScylladbCheck) (λ x, mret x) (mspec_ScylladbCheck i);
  ipFamily ← copy_slice (A:=string) (mspec_IpFamily i);
  mret {| mspec_Driver := mspec_Driver i;
          mspec_Endpoint := mspec_Endpoint i;
          mspec_CheckInterval := mspec_CheckInterval i;
          mspec_Notify := notify;
          mspec_HttpCheck := httpCheck;
          mspec_HttpJsonCheck := httpJsonCheck;
          mspec_SmtpCheck := smtpCheck;
          mspec_RedisCheck := redisCheck;
          mspec_TlsCheck := tlsCheck;
          mspec_DnsCheck := dnsCheck;
          mspec_MysqlCheck := mysqlCheck;
          mspec_PostgresCheck := postgresCheck;
          mspec_MongodbCheck := mongodbCheck;
          mspec_ScylladbCheck := scylladbCheck;
          mspec_IpFamily := ipFamily |}.

Definition EndpointMonitorStatus_DeepCopyInto (i : mEndpointMonitorStatus) : C cell mEndpointMonitorStatus :=
  lastCheckedTime ← Time_DeepCopyInto (mstatus_LastCheckedTime i);
  lastStatusChange ← Time_DeepCopyInto (mstatus_LastStatusChange i);
  lastNotifiedStatus ← copy_pointer (A:=string) (λ x, mret x) (mstatus_LastNotifiedStatus i);
  lastNotifiedStatusChange ← Time_DeepCopyInto (mstatus_LastNotifiedStatusChange i);
  mret {| mstatus_LastCheckedTime := lastCheckedTime;
          mstatus_LastStatus := mstatus_LastStatus i;
          mstatus_LastStatusChange := lastStatusChange;
          mstatus_LastNotifiedStatus := lastNotifiedStatus;
          mstatus_LastNotifiedStatusChange := lastNotifiedStatusChange;
          mstatus_ObservedGeneration := mstatus_ObservedGeneration i |}.

Definition EndpointMonitor_DeepCopyInto (i : mEndpointMonitor) : C cell mEndpointMonitor :=
  objectMeta ← ObjectMeta_DeepCopyInto (m_ObjectMeta i);
  spec ← EndpointMonitorSpec_DeepCopyInto (m_Spec i);
  status ← EndpointMonitorStatus_DeepCopyInto (m_Status i);
  mret {| m_TypeMeta := m_TypeMeta i;
          m_ObjectMeta := objectMeta;
          m_Spec := spec;
          m_Status := status |}.

Definition EndpointMonitorList_DeepCopyInto (i : mEndpointMonitorList) : C cell mEndpointMonitorList :=
  listMeta ← ListMeta_DeepCopyInto (ml_ListMeta i);
  items ← copy_items EndpointMonitor_DeepCopyInto (ml_Items i);
  mret {| ml_TypeMeta := ml_TypeMeta i;
          ml_ListMeta := listMeta;
          ml_Items := items |}.

(** The slice type has methods of its own; this one makes an array even for a
    nil slice. *)
Definition IpFamilies_DeepCopyInto (i : slice) : C cell slice := clone (A:=string) i.

(** ** DeepCopy: nil for nil, or a new struct filled by [DeepCopyInto] *)

Definition SecretRef_DeepCopy : option loc → C cell (option loc) :=
  copy_pointer SecretRef_DeepCopyInto.
Definition HttpCheck_DeepCopy : option loc → C cell (option loc) :=
  copy_pointer HttpCheck_DeepCopyInto.
Definition SmtpCheck_DeepCopy : option loc → C cell (option loc) :=
  copy_pointer SmtpCheck_DeepCopyInto.
Definition DnsCheck_DeepCopy : option loc → C cell (option loc) :=
  copy_pointer DnsCheck_DeepCopyInto.
Definition RedisCheck_DeepCopy : option loc → C cell (option loc) :=
  copy_pointer RedisCheck_DeepCopyInto.
Definition TlsCheck_DeepCopy : option loc → C cell (option loc) :=
  copy_pointer TlsCheck_DeepCopyInto.
Definition ScylladbCheck_DeepCopy : option loc → C cell (option loc) :=
  copy_pointer ScylladbCheck_DeepCopyInto.
Definition SlackConfig_DeepCopy : option loc → C cell (option loc) :=
  copy_pointer SlackConfig_DeepCopyInto.
Definition EmailConfig_DeepCopy : option loc → C cell (option loc) :=
  copy_pointer EmailConfig_DeepCopyInto.
Definition DiscordConfig_DeepCopy : option loc → C cell (option loc) :=
  copy_pointer DiscordConfig_DeepCopyInto.
Definition WebhookConfig_DeepCopy : option loc → C cell (option loc) :=
  copy_pointer WebhookConfig_DeepCopyInto.
Definition ValkeyConfig_DeepCopy : option loc → C cell (option loc) :=
  copy_pointer ValkeyConfig_DeepCopyInto.
Definition NotifyConfig_DeepCopy : option loc → C cell (option loc) :=
  copy_pointer NotifyConfig_DeepCopyInto.
Definition HttpJsonCheck_DeepCopy : option loc → C cell (option loc) :=
  copy_pointer HttpJsonCheck_DeepCopyInto.
Definition MysqlCheck_DeepCopy : option loc → C cell (option loc) :=
  copy_pointer MysqlCheck_DeepCopyInto.
Definition PostgresCheck_DeepCopy : option loc → C cell (option loc) :=
  copy_pointer PostgresCheck_DeepCopyInto.
Definition MongodbCheck_DeepCopy : option loc → C cell (option loc) :=
  copy_pointer MongodbCheck_DeepCopyInto.
Definition EndpointMonitorSpec_DeepCopy : option loc → C cell (option loc) :=
  copy_pointer EndpointMonitorSpec_DeepCopyInto.
Definition EndpointMonitorStatus_DeepCopy : option loc → C cell (option loc) :=
  copy_pointer EndpointMonitorStatus_DeepCopyInto.
Definition EndpointMonitor_DeepCopy : option loc → C cell (option loc) :=
  copy_pointer EndpointMonitor_DeepCopyInto.
Definition EndpointMonitorList_DeepCopy : option loc → C cell (option loc) :=
  copy_pointer EndpointMonitorList_DeepCopyInto.

Definition IpFamilies_DeepCopy (i : slice) : C cell slice :=
  match i with
  | None => mret None
  | Some _ =>
      out ← alloc (zero : slice);
      y ← IpFamilies_DeepCopyInto i;
      store out y ≫= λ _,
      load out
  end.

(** A [runtime.Object] interface that is not nil holds a typed pointer. *)
Inductive Object :=
| OEndpointMonitor (p : loc)
| OEndpointMonitorList (p : loc).

Definition EndpointMonitor_DeepCopyObject (i : option loc) : C cell (option Object) :=
  c ← EndpointMonitor_DeepCopy i;
  mret (match c with Some p => Some (OEndpointMonitor p) | None => None end).

Definition EndpointMonitorList_DeepCopyObject (i : option loc) : C cell (option Object) :=
  c ← EndpointMonitorList_DeepCopy i;
  mret (match c with Some p => Some (OEndpointMonitorList p) | None => None end).

(** ** What the structs stand for *)

Context {Meta ListMetadata : Type}.
Context (ObjectMeta_view : View cell ObjectMeta Meta) (ListMeta_view : View cell ListMeta ListMetadata).
Context (Time_view : View cell Time time).

Definition SlackConfig_view : View cell mSlackConfig SlackConfig :=
  vpure Build_SlackConfig
  <.> field mslack_Enabled plain
  <.> field mslack_WebhookURL plain
  <.> field mslack_AlertOn (slice_view (plain (M:=string))).

Definition EmailConfig_view : View cell mEmailConfig EmailConfig :=
  vpure Build_EmailConfig
  <.> field memail_Enabled plain
  <.> field memail_From plain
  <.> field memail_To (slice_view (plain (M:=string)))
  <.> field memail_EmailProvider plain
  <.> field memail_EmailSecretRef plain
  <.> field memail_Host plain
  <.> field memail_Subject plain
  <.> field memail_Body plain
  <.> field memail_AlertOn (slice_view (plain (M:=string))).

Definition DiscordConfig_view : View cell mDiscordConfig DiscordConfig :=
  vpure Build_DiscordConfig
  <.> field mdiscord_Enabled plain
  <.> field mdiscord_WebhookURL plain
  <.> field mdiscord_AlertOn (slice_view (plain (M:=string))).

Definition WebhookConfig_view : View cell mWebhookConfig WebhookConfig :=
  vpure Build_WebhookConfig
  <.> field mwebhook_Enabled plain
  <.> field mwebhook_WebhookURL plain
  <.> field mwebhook_Authorization plain
  <.> field mwebhook_ContentType plain
  <.> field mwebhook_Contents plain
  <.> field mwebhook_AlertOn (slice_view (plain (M:=string))).

Definition ValkeyConfig_view : View cell mValkeyConfig ValkeyConfig :=
  vpure Build_ValkeyConfig
  <.> field mvalkey_Enabled plain
  <.> field mvalkey_Endpoint plain
  <.> field mvalkey_Tls plain
  <.> field mvalkey_SecretRef plain
  <.> field mvalkey_Dashboards (slice_view (plain (M:=string)))
  <.> field mvalkey_Name plain
  <.> field mvalkey_RetentionDays (pointer_view (plain (M:=Z)))
  <.> field mvalkey_DB plain.

Definition NotifyConfig_view : View cell mNotifyConfig NotifyConfig :=
  vpure Build_NotifyConfig
  <.> field mnotify_Slack (pointer_view SlackConfig_view)
  <.> field mnotify_Email (pointer_view EmailConfig_view)
  <.> field mnotify_Discord (pointer_view DiscordConfig_view)
  <.> field mnotify_Webhook (pointer_view WebhookConfig_view)
  <.> field mnotify_Valkey (pointer_view ValkeyConfig_view).

Definition HttpJsonCheck_view : View cell mHttpJsonCheck HttpJsonCheck :=
  vpure Build_HttpJsonCheck
  <.> field mhttpjson_ExpectedStatusCode plain
  <.> field mhttpjson_JsonAssertions map_view.

Definition MysqlCheck_view : View cell mMysqlCheck MysqlCheck :=
  vpure Build_MysqlCheck
  <.> field mmysql_SecretRef plain
  <.> field mmysql_MaxSecondsBehindMaster (pointer_view (plain (M:=Z))).

Definition PostgresCheck_view : View cell mPostgresCheck PostgresCheck :=
  vpure Build_PostgresCheck
  <.> field mpostgres_SecretRef plain
  <.> field mpostgres_Database plain
  <.> field mpostgres_MaxSecondsBehindMaster (pointer_view (plain (M:=Z))).

Definition MongodbCheck_view : View cell mMongodbCheck MongodbCheck :=
  vpure Build_MongodbCheck
  <.> field mmongodb_Tls plain
  <.> field mmongodb_SecretRef plain
  <.> field mmongodb_MaxSecondsBehindMaster (pointer_view (plain (M:=Z))).

Definition EndpointMonitorSpec_view : View cell mEndpointMonitorSpec EndpointMonitorSpec :=
  vpure Build_EndpointMonitorSpec
  <.> field mspec_Driver plain
  <.> field mspec_Endpoint plain
  <.> field mspec_CheckInterval plain
  <.> field mspec_Notify NotifyConfig_view
  <.> field mspec_HttpCheck (pointer_view (plain (M:=HttpCheck)))
  <.> field mspec_HttpJsonCheck (pointer_view HttpJsonCheck_view)
  <.> field mspec_SmtpCheck (pointer_view (plain (M:=SmtpCheck)))
  <.> field mspec_RedisCheck (pointer_view (plain (M:=RedisCheck)))
  <.> field mspec_TlsCheck (pointer_view (plain (M:=TlsCheck)))
  <.> field mspec_DnsCheck (pointer_view (plain (M:=DnsCheck)))
  <.> field mspec_MysqlCheck (pointer_view MysqlCheck_view)
  <.> field mspec_PostgresCheck (pointer_view PostgresCheck_view)
  <.> field mspec_MongodbCheck (pointer_view MongodbCheck_view)
  <.> field mspec_ScylladbCheck (pointer_view (plain (M:=ScylladbCheck)))
  <.> field mspec_IpFamily (slice_view (plain (M:=string))).

Definition EndpointMonitorStatus_view : View cell mEndpointMonitorStatus EndpointMonitorStatus :=
  vpure Build_EndpointMonitorStatus
  <.> field mstatus_LastCheckedTime Time_view
  <.> field mstatus_LastStatus plain
  <.> field mstatus_LastStatusChange Time_view
  <.> field mstatus_LastNotifiedStatus (pointer_view (plain (M:=string)))
  <.> field mstatus_LastNotifiedStatusChange Time_view
  <.> field mstatus_ObservedGeneration plain.

(** An object and a list of them, as values. *)
Record monitor := {
  o_TypeMeta : TypeMeta;
  o_ObjectMeta : Meta;
  o_Spec : EndpointMonitorSpec;
  o_Status : EndpointMonitorStatus }.

Record monitor_list := {
  l_TypeMeta : TypeMeta;
  l_ListMeta : ListMetadata;
  l_Items : list monitor }.

Definition EndpointMonitor_view : View cell mEndpointMonitor monitor :=
  vpure Build_monitor
  <.> field m_TypeMeta plain
  <.> field m_ObjectMeta ObjectMeta_view
  <.> field m_Spec EndpointMonitorSpec_view
  <.> field m_Status EndpointMonitorStatus_view.

Definition EndpointMonitorList_view : View cell mEndpointMonitorList monitor_list :=
  vpure Build_monitor_list
  <.> field ml_TypeMeta plain
  <.> field ml_ListMeta ListMeta_view
  <.> field ml_Items (slice_view EndpointMonitor_view).

(** ** Every method makes a deep copy, if those of apimachinery do *)

Context `{!Local ObjectMeta_view, !Copies ObjectMeta_view ObjectMeta_DeepCopyInto}.
Context `{!Local ListMeta_view, !Copies ListMeta_view ListMeta_DeepCopyInto}.
Context `{!Local Time_view, !Copies Time_view Time_DeepCopyInto}.

#[local] Instance SlackConfig_local : Local SlackConfig_view.
Proof. unfold SlackConfig_view. apply _. Qed.
#[local] Instance SlackConfig_copies : Copies SlackConfig_view SlackConfig_DeepCopyInto.
Proof. unfold SlackConfig_view, SlackConfig_DeepCopyInto. struct_copy. Qed.

#[local] Instance EmailConfig_local : Local EmailConfig_view.
Proof. unfold EmailConfig_view. apply _. Qed.
#[local] Instance EmailConfig_copies : Copies EmailConfig_view EmailConfig_DeepCopyInto.
Proof. unfold EmailConfig_view, EmailConfig_DeepCopyInto. struct_copy. Qed.

#[local] Instance DiscordConfig_local : Local DiscordConfig_view.
Proof. unfold DiscordConfig_view. apply _. Qed.
#[local] Instance DiscordConfig_copies : Copies DiscordConfig_view DiscordConfig_DeepCopyInto.
Proof. unfold DiscordConfig_view, DiscordConfig_DeepCopyInto. struct_copy. Qed.

#[local] Instance WebhookConfig_local : Local WebhookConfig_view.
Proof. unfold WebhookConfig_view. apply _. Qed.
#[local] Instance WebhookConfig_copies : Copies WebhookConfig_view WebhookConfig_DeepCopyInto.
Proof. unfold WebhookConfig_view, WebhookConfig_DeepCopyInto. struct_copy. Qed.

#[local] Instance ValkeyConfig_local : Local ValkeyConfig_view.
Proof. unfold ValkeyConfig_view. apply _. Qed.
#[local] Instance ValkeyConfig_copies : Copies ValkeyConfig_view ValkeyConfig_DeepCopyInto.
Proof. unfold ValkeyConfig_view, ValkeyConfig_DeepCopyInto. struct_copy. Qed.

#[local] Instance NotifyConfig_local : Local NotifyConfig_view.
Proof. unfold NotifyConfig_view. apply _. Qed.
#[local] Instance NotifyConfig_copies : Copies NotifyConfig_view NotifyConfig_DeepCopyInto.
Proof. unfold NotifyConfig_view, NotifyConfig_DeepCopyInto. struct_copy. Qed.

#[local] Instance HttpJsonCheck_local : Local HttpJsonCheck_view.
Proof. unfold HttpJsonCheck_view. apply _. Qed.
#[local] Instance HttpJsonCheck_copies : Copies HttpJsonCheck_view HttpJsonCheck_DeepCopyInto.
Proof. unfold HttpJsonCheck_view, HttpJsonCheck_DeepCopyInto. struct_copy. Qed.

#[local] Instance MysqlCheck_local : Local MysqlCheck_view.
Proof. unfold MysqlCheck_view. apply _. Qed.
#[local] Instance MysqlCheck_copies : Copies MysqlCheck_view MysqlCheck_DeepCopyInto.
Proof. unfold MysqlCheck_view, MysqlCheck_DeepCopyInto. struct_copy. Qed.

#[local] Instance PostgresCheck_local : Local PostgresCheck_view.
Proof. unfold PostgresCheck_view. apply _. Qed.
#[local] Instance PostgresCheck_copies : Copies PostgresCheck_view PostgresCheck_DeepCopyInto.
Proof. unfold PostgresCheck_view, PostgresCheck_DeepCopyInto. struct_copy. Qed.

#[local] Instance MongodbCheck_local : Local MongodbCheck_view.
Proof. unfold MongodbCheck_view. apply _. Qed.
#[local] Instance MongodbCheck_copies : Copies MongodbCheck_view MongodbCheck_DeepCopyInto.
Proof. unfold MongodbCheck_view, MongodbCheck_DeepCopyInto. struct_copy. Qed.

#[local] Instance EndpointMonitorSpec_local : Local EndpointMonitorSpec_view.
Proof. unfold EndpointMonitorSpec_view. apply _. Qed.
#[local] Instance EndpointMonitorSpec_copies : Copies EndpointMonitorSpec_view EndpointMonitorSpec_DeepCopyInto.
Proof. unfold EndpointMonitorSpec_view, EndpointMonitorSpec_DeepCopyInto. struct_copy. Qed.

#[local] Instance EndpointMonitorStatus_local : Local EndpointMonitorStatus_view.
Proof. unfold EndpointMonitorStatus_view. apply _. Qed.
#[local] Instance EndpointMonitorStatus_copies : Copies EndpointMonitorStatus_view EndpointMonitorStatus_DeepCopyInto.
Proof. unfold EndpointMonitorStatus_view, EndpointMonitorStatus_DeepCopyInto. struct_copy. Qed.

#[local] Instance EndpointMonitor_local : Local EndpointMonitor_view.
Proof. unfold EndpointMonitor_view. apply _. Qed.
#[local] Instance EndpointMonitor_copies : Copies EndpointMonitor_view EndpointMonitor_DeepCopyInto.
Proof. unfold EndpointMonitor_view, EndpointMonitor_DeepCopyInto. struct_copy. Qed.

#[local] Instance EndpointMonitorList_local : Local EndpointMonitorList_view.
Proof. unfold EndpointMonitorList_view. apply _. Qed.
#[local] Instance EndpointMonitorList_copies : Copies EndpointMonitorList_view EndpointMonitorList_DeepCopyInto.
Proof. unfold EndpointMonitorList_view, EndpointMonitorList_DeepCopyInto. struct_copy. Qed.
(** ** Independence *)

(** C21: A deep copy of an EndpointMonitor never crashes, leaves everything that
    was in memory as it was, and is a new object that reads as the same
    monitor.  From then on each goes its own way: whatever is done later to the
    cells that existed before - the original, its arrays, maps and nested
    structs - the copy still reads as the monitor it was made from, and
    whatever is done to the copy's cells the original does too. *)
Theorem EndpointMonitor_DeepCopy_independent h p o s :
  pointer_view (EndpointMonitor_view) h (Some p) = Some (Some o, s) →
  ∃ q h', EndpointMonitor_DeepCopy (Some p) h = Some (Some q, h') ∧ q ∉ dom h ∧ h ⊆ h' ∧
    (∀ h'', (∀ l, l ∉ dom h → h'' !! l = h' !! l) →
      ∃ t, pointer_view EndpointMonitor_view h'' (Some q) = Some (Some o, t)) ∧
    (∀ h'', (∀ l, l ∈ dom h → h'' !! l = h' !! l) →
      pointer_view EndpointMonitor_view h'' (Some p) = Some (Some o, s)).
Proof. intros E. exact (DeepCopy_independent EndpointMonitor_view EndpointMonitor_DeepCopyInto _ _ _ _ E). Qed.

(** The same of a list of monitors, through the interface the client library
    copies objects by: the answer is a list again, never a typed nil. *)
Theorem EndpointMonitorList_DeepCopyObject_independent h p o s :
  pointer_view EndpointMonitorList_view h (Some p) = Some (Some o, s) →
  ∃ q h', EndpointMonitorList_DeepCopyObject (Some p) h = Some (Some (OEndpointMonitorList q), h') ∧
    q ∉ dom h ∧ h ⊆ h' ∧
    (∀ h'', (∀ l, l ∉ dom h → h'' !! l = h' !! l) →
      ∃ t, pointer_view EndpointMonitorList_view h'' (Some q) = Some (Some o, t)) ∧
    (∀ h'', (∀ l, l ∈ dom h → h'' !! l = h' !! l) →
      pointer_view EndpointMonitorList_view h'' (Some p) = Some (Some o, s)).
Proof.
  intros E. destruct (DeepCopy_independent EndpointMonitorList_view
    EndpointMonitorList_DeepCopyInto _ _ _ _ E) as (q & h' & R & K).
  exists q, h'. split; [|done]. etrans; [by apply bind_run|done].
Qed.

(** A nil pointer copies to nil, and as an object to the nil interface. *)
Lemma DeepCopyObject_nil h :
  EndpointMonitor_DeepCopyObject None h = Some (None, h) ∧
  EndpointMonitorList_DeepCopyObject None h = Some (None, h).
Proof. done. Qed.

(** The slice type: [DeepCopy] keeps nil apart from empty, [DeepCopyInto] does
    not. *)
Lemma IpFamilies_DeepCopy_nil h : IpFamilies_DeepCopy None h = Some (None, h).
Proof. done. Qed.

Lemma IpFamilies_DeepCopyInto_nil h :
  ∃ d h', IpFamilies_DeepCopyInto None h = Some (Some d, h') ∧ elements (A:=string) h' (Some d) = Some [].
Proof.
  eexists _, _. split; [by apply (clone_spec h None [])|].
  apply elements_whole; [apply peek_insert|done].
Qed.

(** For any other slice both leave the same elements in an array that is new. *)
Lemma IpFamilies_DeepCopy_spec h d xs :
  elements (A:=string) h (Some d) = Some xs →
  ∃ e h', IpFamilies_DeepCopy (Some d) h = Some (Some e, h') ∧
    elements h' (Some e) = Some xs ∧ h_array e ∉ dom h ∧ h ⊆ h'.
Proof.
  intros E. set (h1 := <[fresh (dom h) := to_cell (zero : slice)]> h).
  assert (h ⊆ h1) as S by apply alloc_grows.
  assert (elements h1 (Some d) = Some xs) as E1 by by eapply elements_subseteq.
  set (e := {| h_array := fresh (dom h1); h_off := 0; h_len := h_len d |}).
  set (h2 := <[h_array e := to_cell xs]> h1).
  assert (h1 ⊆ h2) as S1 by apply alloc_grows.
  assert (h_array e ∉ dom h1) as N by apply is_fresh.
  assert (fresh (dom h) ≠ h_array e) as N'.
  { intros F. apply N. rewrite <- F. apply elem_of_dom. unfold h1. by rewrite lookup_insert_eq. }
  exists e, (<[fresh (dom h) := to_cell (Some e : slice)]> h2). split_and!.
  - etrans; [by apply bind_run|]. etrans; [apply bind_run, (clone_spec h1 (Some d) xs E1)|].
    etrans; [apply bind_run|].
    + unfold store. change (<[fresh (dom h1) := to_cell xs]> h1) with h2.
      by rewrite (lookup_weaken _ h2 _ (to_cell (zero : slice)) (lookup_insert_eq _ _ _) S1).
    + unfold load. by rewrite peek_insert.
  - apply elements_whole; [|symmetry; exact (elements_length _ _ _ E)].
    rewrite peek_insert_ne by done. apply peek_insert.
  - intros I. apply N. by apply subseteq_dom in S; apply S.
  - apply insert_subseteq_r; [apply not_elem_of_dom, is_fresh|]. by etrans.
Qed.

End DeepCopy.

(** ** A monitor in memory

    Metadata with a map of labels, a Slack notifier with its own array, and
    one address family. *)

#[local] Open Scope nat_scope.

Definition example_meta_copy `{Cell c (gmap string string)} (m : string * option loc) :
    C c (string * option loc) :=
  labels ← copy_map m.2;
  mret (m.1, labels).

Definition example_meta_view `{Cell c (gmap string string)} :
    View c (string * option loc) (string * gmap string string) :=
  vpure pair <.> field fst plain <.> field snd map_view.

#[local] Instance example_meta_local `{Cell c (gmap string string)} : Local example_meta_view.
Proof. unfold example_meta_view. apply _. Qed.

#[local] Instance example_meta_copies `{Cell c (gmap string string)} :
  Copies example_meta_view example_meta_copy.
Proof. unfold example_meta_view, example_meta_copy. struct_copy. Qed.

#[local] Instance example_zero_unit : Zero () := ().
#[local] Instance example_zero_meta : Zero (string * option loc) := ("", None).
#[local] Instance example_zero_time : Zero time := zero_time.

Definition example_cell : Type :=
  cell (TypeMeta:=()) (ObjectMeta:=string * option loc) (ListMeta:=()) (Time:=time) (Other:=Empty_set).

Definition example_status : EndpointMonitorStatus :=
  {| LastCheckedTime := zero_time; LastStatus := "failure"; LastStatusChange := zero_time;
     LastNotifiedStatus := None; LastNotifiedStatusChange := zero_time; ObservedGeneration := 1%Z |}.

Definition example_in_memory : mEndpointMonitor :=
  {| m_TypeMeta := (); m_ObjectMeta := ("web", Some 4);
     m_Spec := {| mspec_Driver := "http"; mspec_Endpoint := "https://example.com"; mspec_CheckInterval := 60%Z;
       mspec_Notify := {| mnotify_Slack := Some 1; mnotify_Email := None; mnotify_Discord := None;
         mnotify_Webhook := None; mnotify_Valkey := None |};
       mspec_HttpCheck := None; mspec_HttpJsonCheck := None; mspec_SmtpCheck := None;
       mspec_RedisCheck := None; mspec_TlsCheck := None; mspec_DnsCheck := None; mspec_MysqlCheck := None;
       mspec_PostgresCheck := None; mspec_MongodbCheck := None; mspec_ScylladbCheck := None;
       mspec_IpFamily := Some {| h_array := 3; h_off := 0; h_len := 1 |} |};
     m_Status := {| mstatus_LastCheckedTime := zero_time; mstatus_LastStatus := "failure";
       mstatus_LastStatusChange := zero_time; mstatus_LastNotifiedStatus := None;
       mstatus_LastNotifiedStatusChange := zero_time; mstatus_ObservedGeneration := 1%Z |} |}.

Definition example_heap : heap example_cell :=
  {[ 0 := CEndpointMonitor example_in_memory;
     1 := CSlackConfig {| mslack_Enabled := true; mslack_WebhookURL := "https://hooks.example";
            mslack_AlertOn := Some {| h_array := 2; h_off := 0; h_len := 2 |} |};
     2 := CStrings ["failure"; "success"];
     3 := CStrings ["ipv4"];
     4 := CMap {[ "team" := "web" ]} ]}.

(** The monitor with the given AlertOn and labels. *)
Definition example_monitor (alertOn : list string) : monitor (TypeMeta:=()) (Meta:=string * gmap string string) :=
  {| o_TypeMeta := (); o_ObjectMeta := ("web", {[ "team" := "web" ]});
     o_Spec := {| spec_Driver := "http"; spec_Endpoint := "https://example.com"; spec_CheckInterval := 60%Z;
       spec_Notify := {| Slack := Some {| slack_Enabled := true; slack_WebhookURL := "https://hooks.example";
           slack_AlertOn := alertOn |};
         Email := None; Discord := None; Webhook := None; Valkey := None |};
       spec_HttpCheck := None; spec_HttpJsonCheck := None; spec_SmtpCheck := None; spec_RedisCheck := None;
       spec_TlsCheck := None; spec_DnsCheck := None; spec_MysqlCheck := None; spec_PostgresCheck := None;
       spec_MongodbCheck := None; spec_ScylladbCheck := None; spec_IpFamily := ["ipv4"] |};
     o_Status := example_status |}.

Definition example_view : View example_cell (option loc) (option monitor) :=
  pointer_view (EndpointMonitor_view example_meta_view plain).

(** The monitor is in the five cells.  Its AlertOn array is overwritten after
    the copy: the original shows it, the copy does not. *)
Lemma EndpointMonitor_DeepCopy_independent_witness :
  (∃ s, example_view example_heap (Some 0) = Some (Some (example_monitor ["failure"; "success"]), s)) ∧
  ∃ q h' t,
    EndpointMonitor_DeepCopy example_meta_copy (λ t, mret t) (Some 0) example_heap = Some (Some q, h') ∧
    let h'' := <[2 := CStrings ["change"; "change"]]> h' in
    (example_view h'' (Some q) = Some (Some (example_monitor ["failure"; "success"]), t)) ∧
    (fst <$> example_view h'' (Some 0) = Some (Some (example_monitor ["change"; "change"]))).
Proof.
  assert (∃ s, example_view example_heap (Some 0) =
               Some (Some (example_monitor ["failure"; "success"]), s)) as [s E].
  { eexists. vm_compute. reflexivity. }
  split; [by exists s|].
  destruct (EndpointMonitor_DeepCopy_independent example_meta_copy (λ t, mret t) example_meta_view plain
              example_heap 0 _ s E) as (q & h' & R & N & S & K & _).
  destruct (K (<[2 := CStrings ["change"; "change"]]> h')) as [t Et].
  { intros l L. apply lookup_insert_ne. intros <-. by apply L, elem_of_dom. }
  exists q, h', t. split; [exact R|]. split; [exact Et|].
  vm_compute in R. injection R as _ <-. vm_compute. reflexivity.
Defined.
