(* ===== verification/Notifier.v ===== *)
(** * Notifiers and drivers as interfaces (internal/notifier/notifier.go,
    internal/driver/driver.go)

    [Notifying] and [Driving] are the Go interfaces [Notifier] and [Driver]
    over a world [W]: everything outside the process that a call reads or
    changes.  Clients are proved against the interfaces, for every world. *)

From S2P Require Import Prelude GoStd GoTime Errors.

Record NoticeValues := {
  nv_Status : string;
  nv_Endpoint : string;
  nv_Driver : string;
  nv_Healthy : string;
  nv_Name : string;
  nv_Response : string;
  nv_ResponseTimeMs : Z;
  nv_LastStatus : string;
  nv_LastChecked : string;
  nv_LastStatusChange : string;
  nv_CurrentTime : string;
  nv_StatusTime : string;
  nv_Message : string;
  nv_Namespace : string;
  nv_AlertMessage : string }.

(** [notifier.Notifier]: [SendAlert] returns nil or an error. *)
Class Notifying (N W : Type) :=
  SendAlert : N → string → NoticeValues → W → option error * W.

(** [driver.CheckResult]. *)
Record CheckResult := {
  Success : bool;
  ResponseTime : duration;
  res_Error : option error;
  res_Message : string }.

(** [driver.Driver]. *)
Class Driving (D W : Type) := {
  Check : D → W → result error CheckResult * W;
  GetEndpoint : D → string;
  GetType : D → string }.

(** [notifier.ShouldAlert]. *)
Definition ShouldAlert (allowed : list string) (status : string) : bool :=
  match allowed with
  | [] => bool_decide (status = "failure")
  | _ => existsb (λ a, bool_decide (a = status)) allowed
  end.

Lemma ShouldAlert_spec allowed status :
  ShouldAlert allowed status = true ↔
  status ∈ allowed ∨ (allowed = [] ∧ status = "failure").
Proof.
  unfold ShouldAlert. destruct allowed as [|a l].
  - rewrite bool_decide_eq_true. split; [by right|intros [H|[_ H]]; [by apply elem_of_nil in H|done]].
  - rewrite existsb_exists. setoid_rewrite bool_decide_eq_true.
    setoid_rewrite <-list_elem_of_In. naive_solver.
Qed.

(** Formatting of the standard library that the model leaves open: the
    theorems hold whatever text it produces. *)
(** What [url.Parse] finds in a URL with user information: its [String]
    without query and fragment, and of its [User] the [String], the [Username]
    and whether there is a password. *)
Record URL := { u_Bare : string; u_User : string; u_Username : string; u_hasPassword : bool }.

Class GoText := {
  time_String : time → string;          (* time.Time.String *)
  duration_String : duration → string;  (* time.Duration.String *)
  url_Parse : string → option URL       (* net/url *)
}.

(** [notifier.DisplayEndpoint]. *)
Definition DisplayEndpoint `{!GoText} (endpoint : string) : string :=
  let trimmed := trim_space endpoint in
  if negb (contains "://" trimmed) && negb (has_prefix "//" trimmed) then endpoint
  else
    match url_Parse trimmed with
    | None => "(invalid URL)"
    | Some u =>
        if u_hasPassword u then replace_first (u_User u +:+ "@") (u_Username u +:+ ":***@") (u_Bare u) else u_Bare u
    end.
