(* ===== verification/Composite.v ===== *)
(** * The composite notifier (pkg/factory/factory.go)

    [CompositeNotifier.SendAlert] sends one alert through every configured
    notifier and collects the failures. *)

From S2P Require Import Prelude GoStd Errors Notifier.

Section composite.
Context {N W : Type} `{!Notifying N W}.

(** [namedNotifier] and [CompositeNotifier]. *)
Record namedNotifier := { nn_name : string; nn_Notifier : N }.

Definition CompositeNotifier := list namedNotifier.

(** [SendError]: three slices, one entry per notifier that failed. *)
Record SendError := {
  se_Notifiers : list string;
  se_Errs : list error;
  se_Failed : list N }.

Definition no_failure : SendError :=
  {| se_Notifiers := []; se_Errs := []; se_Failed := [] |}.

(** One [append] to each slice. *)
Definition add_failure (f : SendError) (n : namedNotifier) (e : error) : SendError :=
  {| se_Notifiers := se_Notifiers f ++ [nn_name n];
     se_Errs := se_Errs f ++ [e];
     se_Failed := se_Failed f ++ [nn_Notifier n] |}.

(** The loop of [SendAlert]. *)
Fixpoint send_loop (failed : SendError) (c : CompositeNotifier)
    (status : string) (v : NoticeValues) (w : W) : SendError * W :=
  match c with
  | [] => (failed, w)
  | n :: c =>
      let '(err, w) := SendAlert (nn_Notifier n) status v w in
      match err with
      | Some e => send_loop (add_failure failed n e) c status v w
      | None => send_loop failed c status v w
      end
  end.

Definition composite_SendAlert (c : CompositeNotifier) (status : string)
    (v : NoticeValues) (w : W) : option SendError * W :=
  let '(failed, w) := send_loop no_failure c status v w in
  (match se_Errs failed with [] => None | _ => Some failed end, w).

(** ** Reference: try every notifier once, in order *)

(** What each notifier answered, and the world after the last one. *)
Fixpoint send_each (c : CompositeNotifier) (status : string) (v : NoticeValues) (w : W)
  : list (namedNotifier * option error) * W :=
  match c with
  | [] => ([], w)
  | n :: c =>
      let '(err, w) := SendAlert (nn_Notifier n) status v w in
      let '(rest, w) := send_each c status v w in ((n, err) :: rest, w)
  end.

(** The notifiers that failed, with their errors. *)
Definition failures (l : list (namedNotifier * option error)) : list (namedNotifier * error) :=
  omap (λ p, match p.2 with Some e => Some (p.1, e) | None => None end) l.

(** A [SendError] that lists exactly the failures [l]. *)
Definition send_error_of (l : list (namedNotifier * error)) : SendError :=
  {| se_Notifiers := (λ p, nn_name p.1) <$> l;
     se_Errs := snd <$> l;
     se_Failed := (λ p, nn_Notifier p.1) <$> l |}.

Lemma add_failure_of l n e :
  add_failure (send_error_of l) n e = send_error_of (l ++ [(n, e)]).
Proof. unfold add_failure, send_error_of. simpl. by rewrite !fmap_app. Qed.

Lemma send_loop_each l c status v w :
  send_loop (send_error_of l) c status v w =
  let '(outs, w') := send_each c status v w in (send_error_of (l ++ failures outs), w').
Proof.
  revert l w. induction c as [|n c IH]; intros l w; simpl.
  { by rewrite app_nil_r. }
  destruct (SendAlert (nn_Notifier n) status v w) as [[e|] w1].
  - rewrite add_failure_of, IH. destruct (send_each c status v w1) as [outs w'].
    by rewrite <-(assoc_L (++)).
  - rewrite IH. by destruct (send_each c status v w1) as [outs w'].
Qed.

Lemma send_each_fst c status v w : map fst (send_each c status v w).1 = c.
Proof.
  revert w. induction c as [|n c IH]; intros w; simpl; [done|].
  destruct (SendAlert _ status v w) as [err w1]. specialize (IH w1).
  destruct (send_each c status v w1) as [outs w']. simpl in *. by rewrite IH.
Qed.

Lemma composite_SendAlert_each c status v w :
  composite_SendAlert c status v w =
  let '(outs, w') := send_each c status v w in
  (match failures outs with [] => None | l => Some (send_error_of l) end, w').
Proof.
  unfold composite_SendAlert. change no_failure with (send_error_of []).
  rewrite send_loop_each. destruct (send_each c status v w) as [outs w']. simpl.
  by destruct (failures outs).
Qed.

(** The three slices of a [SendError] have the same length, so index [i] of
    one is in range in the others. *)
Definition aligned (e : SendError) : Prop :=
  length (se_Notifiers e) = length (se_Errs e) ∧ length (se_Failed e) = length (se_Errs e).

Lemma send_error_of_aligned l : aligned (send_error_of l).
Proof. unfold aligned. simpl. by rewrite !length_fmap. Qed.

Lemma composite_SendAlert_aligned c status v w e w' :
  composite_SendAlert c status v w = (Some e, w') → aligned e ∧ se_Errs e ≠ [].
Proof.
  rewrite composite_SendAlert_each. destruct (send_each c status v w) as [outs w1].
  destruct (failures outs) as [|f l] eqn:E; intros H; simplify_eq.
  split; [apply send_error_of_aligned|done].
Qed.
End composite.

Arguments namedNotifier : clear implicits.
Arguments CompositeNotifier : clear implicits.
Arguments SendError : clear implicits.

(** C9: the composite notifier tries every notifier exactly once, in the
    configured order, whatever the earlier ones answered; it returns nil only
    when none failed, and otherwise an error whose three slices list the
    failed notifiers' names, errors and notifiers in that order. *)
Theorem composite_SendAlert_fans_out {N W} `{!Notifying N W}
    (c : CompositeNotifier N) (status : string) (v : NoticeValues) (w : W) :
  let '(outs, w') := send_each c status v w in
  map fst outs = c ∧
  composite_SendAlert c status v w =
    (match failures outs with [] => None | l => Some (send_error_of l) end, w').
Proof.
  pose proof (send_each_fst c status v w) as Hf.
  pose proof (composite_SendAlert_each c status v w) as He.
  by destruct (send_each c status v w).
Qed.
