(* ===== verification/Trace.v ===== *)
(** * Computations with a trace

    The operator and the dashboard run against a world [W] they do not
    control: an API server, a clock, a Valkey server.  A computation passes
    the world on and records, in order, the calls others can observe; [spec]
    states what every run of a computation returns and does, whatever the
    world answers. *)

From S2P Require Import Prelude.

(** A computation: from a world to a result, the next world and the actions
    performed. *)
Definition M (T W A : Type) : Type := W → A * W * list T.

#[export] Instance M_ret {T W} : MRet (M T W) := λ _ a w, (a, w, []).
#[export] Instance M_bind {T W} : MBind (M T W) :=
  λ _ _ f m w,
    let '(a, w, t) := m w in
    let '(b, w, t') := f a w in (b, w, t ++ t').

Definition log {T W} (a : T) : M T W () := λ w, ((), w, [a]).
Definition lift {T W A} (f : W → A * W) : M T W A := λ w, let '(a, w) := f w in (a, w, []).

(** ** What a computation may do, whatever the world answers *)

Section spec.
Context {T W : Type}.

(** Every run of [m] returns an [a] and performs actions [t] with [Q a t]. *)
Definition spec {A} (m : M T W A) (Q : A → list T → Prop) : Prop :=
  ∀ w, Q (m w).1.1 (m w).2.

Lemma spec_ret {A} (a : A) (Q : A → list T → Prop) : Q a [] → spec (mret a) Q.
Proof. intros H w. exact H. Qed.

Lemma spec_bind {A B} (m : M T W A) (f : A → M T W B) Q R :
  spec m Q → (∀ a t, Q a t → spec (f a) (λ b t', R b (t ++ t'))) → spec (m ≫= f) R.
Proof.
  intros Hm Hf w. specialize (Hm w). unfold mbind, M_bind.
  destruct (m w) as [[a w1] t]. simpl in *. specialize (Hf a t Hm w1).
  by destruct (f a w1) as [[b w2] t'].
Qed.

Lemma spec_mono {A} (m : M T W A) (Q R : A → list T → Prop) :
  spec m Q → (∀ a t, Q a t → R a t) → spec m R.
Proof. intros Hm HQ w. apply HQ, Hm. Qed.

Lemma spec_and {A} (m : M T W A) (Q R : A → list T → Prop) :
  spec m Q → spec m R → spec m (λ a t, Q a t ∧ R a t).
Proof. intros HQ HR w. by split. Qed.

(** Computations that perform no action. *)
Lemma spec_lift {A} (f : W → A * W) : spec (lift (T:=T) f) (λ _ t, t = []).
Proof. intros w. unfold lift. by destruct (f w). Qed.

Lemma spec_log (a : T) : spec (log a) (λ _ t, t = [a]).
Proof. intros w. done. Qed.

Lemma spec_bind_silent {A B} (m : M T W A) (f : A → M T W B) R :
  spec m (λ _ t, t = []) → (∀ a, spec (f a) R) → spec (m ≫= f) R.
Proof.
  intros Hm Hf. eapply spec_bind; [exact Hm|]. intros a t ->. apply Hf.
Qed.
End spec.

(** [step_silent]: one call without an action; [step_act]: one call with its
    action. *)
Ltac step_silent := eapply spec_bind_silent; [by auto with go|intros ?].
Ltac step_act := eapply spec_bind; [by auto with go|intros ? ? ->; rewrite ?app_nil_r].

#[export] Hint Resolve spec_lift spec_log : go.
