(* ===== verification/Effects.v ===== *)
(** * Effects of the controller

    The controller's code runs against a world [W]: the API server, the clock,
    the endpoints, the notification services and the goroutines it started.
    [Cluster] lists the calls it makes; a world answers them as it likes.  A
    computation also records, in order, the calls that others can observe. *)

From S2P Require Import Prelude GoStd GoTime Errors Api Notifier Composite Trace.

(** [announced]: the change a change alert reports. *)
Record announced := { an_status : string; an_since : time }.

(** One goroutine that [queueRetries] starts: the arguments of [retryAlert]. *)
Record RetryRun (N : Type) := {
  rr_monitor : EndpointMonitor;
  rr_name : string;
  rr_notifier : N;
  rr_alert : string;
  rr_values : NoticeValues;
  rr_change : option announced;
  rr_err : error }.
Arguments rr_monitor {N}. Arguments rr_name {N}. Arguments rr_notifier {N}.
Arguments rr_alert {N}. Arguments rr_values {N}. Arguments rr_change {N}.
Arguments rr_err {N}. Arguments Build_RetryRun {N}.

Inductive action (N : Type) :=
| ACheck (r : result error CheckResult)                  (* driver.Check, with its answer *)
| AUpdate (m : EndpointMonitor) (ok : bool)              (* Status().Update *)
| AAlert (alert : string) (v : NoticeValues) (ok : bool) (* CompositeNotifier.SendAlert *)
| ARetry (n : N) (alert : string) (v : NoticeValues) (ok : bool) (* a notifier's SendAlert on retry *)
| AQueue (r : RetryRun N)                                (* go r.retryAlert *)
| AEvent (key : NamespacedName) (reason note : string)   (* Recorder.Eventf, a warning *)
| AStop (key : NamespacedName)                           (* Retries.Stop *)
| ANoteWrite (key : NamespacedName).                     (* Retries.noteWrite *)
Arguments ACheck {N}. Arguments AUpdate {N}. Arguments AAlert {N}. Arguments ARetry {N}.
Arguments AQueue {N}. Arguments AEvent {N}. Arguments AStop {N}. Arguments ANoteWrite {N}.

(** The calls a world answers. *)
Class Cluster (W : Type) := {
  cl_Get : NamespacedName → W → result error EndpointMonitor * W;      (* r.Get *)
  cl_Read : NamespacedName → W → result error EndpointMonitor * W;     (* APIReader.Get *)
  cl_StatusUpdate : EndpointMonitor → W → result error EndpointMonitor * W;
  cl_Now : W → time * W;
  cl_Stop : NamespacedName → W → bool * W;         (* the retries' Stop, with the goroutines it waits for *)
  cl_SelectStop : W → bool * W;                    (* select: true when run.stop is chosen *)
  (** [retry.RetryOnConflict(retry.DefaultRetry, fn)] runs [fn] some number
      of times. *)
  cl_RetrySteps : nat }.

Section calls.
Context {N W : Type} `{!Cluster W, !Notifying N W}.

Definition Get (nn : NamespacedName) : M (action N) W (result error EndpointMonitor) := lift (cl_Get nn).

(** [r.reader().Get]: past the cache when there is an APIReader. *)
Definition reader_Get (has_APIReader : bool) (nn : NamespacedName)
  : M (action N) W (result error EndpointMonitor) :=
  lift (if has_APIReader then cl_Read nn else cl_Get nn).

Definition Now : M (action N) W time := lift cl_Now.

(** [r.Status().Update(ctx, &m)]: on success [m] holds the server's answer. *)
Definition StatusUpdate (m : EndpointMonitor) : M (action N) W (result error EndpointMonitor) :=
  λ w, let '(r, w) := cl_StatusUpdate m w in (r, w, [AUpdate m (is_ok r)]).

Definition Event (m : EndpointMonitor) (reason note : string) : M (action N) W () :=
  log (AEvent (meta_key m) reason note).

Definition Alert (c : CompositeNotifier N) (alert : string) (v : NoticeValues)
  : M (action N) W (option (SendError N)) :=
  λ w, let '(r, w) := composite_SendAlert c alert v w in
       (r, w, [AAlert alert v (is_None_b r)]).

Definition Resend (n : N) (alert : string) (v : NoticeValues) : M (action N) W (option error) :=
  λ w, let '(r, w) := SendAlert n alert v w in
       (r, w, [ARetry n alert v (is_None_b r)]).
End calls.

(** ** What each call does *)

Section spec_calls.
Context {N W : Type} `{!Cluster W, !Notifying N W}.

Lemma spec_Get nn : spec (Get (N:=N) (W:=W) nn) (λ _ t, t = []).
Proof. apply spec_lift. Qed.

Lemma spec_reader_Get b nn : spec (reader_Get (N:=N) (W:=W) b nn) (λ _ t, t = []).
Proof. apply spec_lift. Qed.

Lemma spec_Now : spec (Now (N:=N) (W:=W)) (λ _ t, t = []).
Proof. apply spec_lift. Qed.

Lemma spec_StatusUpdate m :
  spec (StatusUpdate (N:=N) (W:=W) m) (λ r t, t = [AUpdate m (is_ok r)]).
Proof. intros w. unfold StatusUpdate. by destruct (cl_StatusUpdate m w). Qed.

Lemma spec_Alert c alert v :
  spec (Alert (W:=W) c alert v) (λ r t, t = [AAlert alert v (is_None_b r)] ∧
    ∀ e, r = Some e → ∃ l, e = send_error_of l ∧ l ≠ []).
Proof.
  intros w. unfold Alert. rewrite composite_SendAlert_each.
  destruct (send_each c alert v w) as [outs w1].
  destruct (failures outs) as [|x l] eqn:E; (split; [done|]); intros e [= <-].
  by exists (x :: l).
Qed.

Lemma spec_Resend (n : N) alert v :
  spec (Resend (W:=W) n alert v) (λ r t, t = [ARetry n alert v (is_None_b r)]).
Proof. intros w. unfold Resend. by destruct (SendAlert n alert v w). Qed.
End spec_calls.

#[export] Hint Resolve spec_Get spec_reader_Get spec_Now spec_StatusUpdate
  spec_Alert spec_Resend : go.
