(* ===== verification/Retries.v ===== *)
(** * Resending alerts (internal/controller/retry.go)

    [queueRetries] splits the failures of an alert into those a later try may
    deliver, each handed to a goroutine that runs [retryAlert], and those to
    report now.  The structure [AlertRetries] that the goroutines share is in
    the file RetryLocks. *)

From S2P Require Import Prelude GoStd GoTime Errors Api Notifier Composite Trace Effects.

Section retries.
Context {N W : Type} `{!Cluster W, !Notifying N W}.

(** What the reconciler holds: [r.Retries] (nil, or its [Tries]) and whether
    [r.APIReader] is set. *)
Record Reconciler := { Retries : option Z; has_APIReader : bool }.

Context (r : Reconciler).

(** ** alertFailed *)

(** The error a failed alert carries: a [*SendError], or another error. *)
Inductive alert_error :=
| AESend (e : SendError N)
| AEOther (e : error).

Definition alertFailed_note (alert : string) (err : alert_error) : string :=
  alert +:+ " alert was not sent by " +:+
  (match err with AESend e => join ", " (se_Notifiers e) | AEOther _ => "a notifier" end)
  +:+ "; the operator log has the error".

Definition alertFailed (m : EndpointMonitor) (alert : string) (err : alert_error) : M (action N) W () :=
  Event m "AlertFailed" (alertFailed_note alert err).

(** ** queueRetries *)

(** The loop over [sendErr.Errs]: names and errors to report, and the
    indices to retry.  [None] is an index out of range, a panic. *)
Fixpoint split_failures (names : list string) (nfailed i : nat) (errs : list error)
  : option (list string * list error * list nat) :=
  match errs with
  | [] => Some ([], [], [])
  | e :: errs =>
      if is_retryable e && (i <? nfailed)%nat then
        '(ns, es, idx) ← split_failures names nfailed (S i) errs;
        Some (ns, es, i :: idx)
      else
        n ← names !! i;
        '(ns, es, idx) ← split_failures names nfailed (S i) errs;
        Some (n :: ns, e :: es, idx)
  end.

(** [go r.retryAlert(...)] for each index.  The monitor is a value: the code
    hands each goroutine a deep copy (DeepCopy). *)
Definition retry_run (m : EndpointMonitor) (alert : string) (v : NoticeValues)
    (sendErr : SendError N) (change : option announced) (i : nat) : option (RetryRun N) :=
  name ← se_Notifiers sendErr !! i;
  n ← se_Failed sendErr !! i;
  e ← se_Errs sendErr !! i;
  Some (Build_RetryRun m name n alert v change e).

Definition queueRetries (m : EndpointMonitor) (alert : string) (v : NoticeValues)
    (err : alert_error) (change : option announced)
  : option (option alert_error * list (RetryRun N)) :=
  match Retries r, err with
  | Some tries, AESend sendErr =>
      if tries <? 2 then Some (Some err, []) else
      '(ns, es, retried) ← split_failures (se_Notifiers sendErr) (length (se_Failed sendErr)) 0
                            (se_Errs sendErr);
      let change :=
        if (0 <? length es)%nat || (1 <? length retried)%nat then None else change in
      runs ← mapM (retry_run m alert v sendErr change) retried;
      Some (match es with
            | [] => None
            | _ => Some (AESend {| se_Notifiers := ns; se_Errs := es; se_Failed := [] |})
            end, runs)
  | _, _ => Some (Some err, [])
  end.

(** ** markAnnounced *)

(** [metav1.Time.Equal] on two non-nil times. *)
Definition same_change (s : EndpointMonitorStatus) (c : announced) : bool :=
  bool_decide (LastStatus s = an_status c) && (LastStatusChange s =? an_since c).

Definition mark_status (s : EndpointMonitorStatus) (status : string) : EndpointMonitorStatus :=
  {| LastCheckedTime := LastCheckedTime s; LastStatus := LastStatus s;
     LastStatusChange := LastStatusChange s;
     LastNotifiedStatus := Some status;
     LastNotifiedStatusChange := LastStatusChange s;
     ObservedGeneration := ObservedGeneration s |}.

(** The function handed to [retry.RetryOnConflict]. *)
Definition mark_once (nn : NamespacedName) (c : announced) : M (action N) W (option error) :=
  got ← reader_Get (has_APIReader r) nn;
  match got with
  | Err e => mret (IgnoreNotFound e)
  | Ok m =>
      if negb (same_change (Status m) c) then mret None
      else
        upd ← StatusUpdate (with_Status m (mark_status (Status m) (an_status c)));
        mret (match upd with Ok _ => None | Err e => Some e end)
  end.

(** [RetryOnConflict]: at most [n] more tries after a conflict. *)
Fixpoint on_conflict (n : nat) (fn : M (action N) W (option error)) : M (action N) W (option error) :=
  err ← fn;
  match n, err with
  | S n, Some e => if IsConflict e then on_conflict n fn else mret err
  | _, _ => mret err
  end.

Definition markAnnounced (nn : NamespacedName) (c : announced) : M (action N) W (option error) :=
  on_conflict cl_RetrySteps (mark_once nn c).

(** ** retryAlert *)

(** The monitor to report about: the current one when it can be read. *)
Inductive current := Gone | Use (m : EndpointMonitor).

Definition refresh (nn : NamespacedName) (m : EndpointMonitor) : M (action N) W current :=
  got ← reader_Get (has_APIReader r) nn;
  mret (match got with
        | Err e => if IsNotFound e then Gone else Use m
        | Ok m => Use m
        end).

Definition one_failure (name : string) (err : error) : alert_error :=
  AESend {| se_Notifiers := [name]; se_Errs := [err]; se_Failed := [] |}.

Definition delivered (nn : NamespacedName) (change : option announced) : M (action N) W () :=
  match change with
  | None => mret ()
  | Some c =>
      err ← markAnnounced nn c;
      match err with Some _ => mret () | None => log (ANoteWrite nn) end
  end.

(** The loop [for try := 2; try <= Tries; try++], with [n] tries left. *)
Fixpoint retry_loop (n : nat) (run : RetryRun N) (m : EndpointMonitor) (err : error) : M (action N) W () :=
  let nn := meta_key (rr_monitor run) in
  match n with
  | O => alertFailed m (rr_alert run) (one_failure (rr_name run) err)
  | S n =>
      stop ← lift cl_SelectStop;
      cur ← refresh nn m;
      match cur with
      | Gone => mret ()
      | Use m =>
          if (stop : bool) then alertFailed m (rr_alert run) (one_failure (rr_name run) err)
          else
            sent ← Resend (rr_notifier run) (rr_alert run) (rr_values run);
            match sent with
            | None => delivered nn (rr_change run)
            | Some e =>
                if is_retryable e then retry_loop n run m e
                else alertFailed m (rr_alert run) (one_failure (rr_name run) e)
            end
      end
  end.

Definition retryAlert (tries : Z) (run : RetryRun N) : M (action N) W () :=
  retry_loop (Z.to_nat (tries - 1)) run (rr_monitor run) (rr_err run).
End retries.

Arguments alert_error : clear implicits.

(** ** Properties of queueRetries *)

Section queue_props.
Context {N : Type}.
Implicit Types (l : list (namedNotifier N * error)).

Definition retryable_failure (p : namedNotifier N * error) : bool := is_retryable p.2.

(** The indices, from [i] on, of the elements that satisfy [p]. *)
Fixpoint index_list (p : namedNotifier N * error → bool) l (i : nat) : list nat :=
  match l with
  | [] => []
  | x :: l => (if p x then [i] else []) ++ index_list p l (S i)
  end.

Lemma split_failures_of pre l nf :
  (length pre + length l ≤ nf)%nat →
  split_failures (se_Notifiers (send_error_of (pre ++ l))) nf (length pre) (snd <$> l) =
  Some ((λ p, nn_name p.1) <$> List.filter (λ p, negb (retryable_failure p)) l,
        snd <$> List.filter (λ p, negb (retryable_failure p)) l,
        index_list retryable_failure l (length pre)).
Proof.
  revert pre. induction l as [|[n e] l IH]; intros pre Hnf; [done|].
  specialize (IH (pre ++ [(n, e)])). rewrite <-(assoc_L (++)) in IH.
  rewrite length_app, Nat.add_1_r in IH. simpl in Hnf, IH. specialize (IH ltac:(lia)).
  rewrite fmap_cons. cbn [split_failures List.filter index_list snd].
  rewrite (proj2 (Nat.ltb_lt _ _)), andb_true_r by lia.
  change (retryable_failure (n, e)) with (is_retryable e).
  destruct (is_retryable e); simpl; [by rewrite IH|].
  unfold send_error_of in *. simpl in *.
  by rewrite list_lookup_fmap, list_lookup_middle, IH by done.
Qed.

Lemma retry_run_of m alert v change pre x l :
  retry_run m alert v (send_error_of (pre ++ x :: l)) change (length pre) =
  Some (Build_RetryRun m (nn_name x.1) (nn_Notifier x.1) alert v change x.2).
Proof.
  unfold retry_run, send_error_of. simpl.
  by rewrite !list_lookup_fmap, !(list_lookup_middle pre l x _ eq_refl).
Qed.

Lemma retry_runs_of m alert v change pre l :
  mapM (retry_run m alert v (send_error_of (pre ++ l)) change)
    (index_list retryable_failure l (length pre)) =
  Some ((λ p, Build_RetryRun m (nn_name p.1) (nn_Notifier p.1) alert v change p.2) <$>
          List.filter retryable_failure l).
Proof.
  revert pre. induction l as [|x l IH]; intros pre; [done|].
  specialize (IH (pre ++ [x])). rewrite <-(assoc_L (++)) in IH.
  rewrite length_app, Nat.add_1_r in IH. simpl in IH.
  cbn [index_list List.filter]. destruct (retryable_failure x); [|done]. simpl.
  rewrite retry_run_of. simpl. by rewrite IH.
Qed.

Lemma index_list_length p l i : length (index_list p l i) = length (List.filter p l).
Proof.
  revert i. induction l as [|x l IH]; intros i; [done|].
  simpl. rewrite length_app, IH. by destruct (p x).
Qed.
End queue_props.

(** The failures that are kept for a later try, and the goroutine each gets. *)
Definition runs_of {N} (m : EndpointMonitor) (alert : string) (v : NoticeValues)
    (change : option announced) (l : list (namedNotifier N * error)) : list (RetryRun N) :=
  (λ p, Build_RetryRun m (nn_name p.1) (nn_Notifier p.1) alert v change p.2) <$> l.

(** C8: on the failures of a composite notifier, with at least two tries,
    queueRetries never indexes out of range and loses nothing: every
    retryable failure gets exactly one goroutine, with its own notifier, name
    and error, and the error to report now lists exactly the other failures,
    both in order.  The change to record is handed on only when the alert's
    one failure is retried. *)
Theorem queueRetries_partition {N} (r : Reconciler) (tries : Z) (m : EndpointMonitor)
    (alert : string) (v : NoticeValues) (change : option announced)
    (l : list (namedNotifier N * error)) :
  Retries r = Some tries → 2 ≤ tries →
  let again := List.filter retryable_failure l in
  let now := List.filter (λ p, negb (retryable_failure p)) l in
  queueRetries r m alert v (AESend (send_error_of l)) change =
  Some (match now with
        | [] => None
        | _ => Some (AESend {| se_Notifiers := (λ p, nn_name p.1) <$> now;
                               se_Errs := snd <$> now; se_Failed := [] |})
        end,
        runs_of m alert v (match now, again with [], [_] => change | _, _ => None end) again).
Proof.
  intros Hr Ht again now. unfold queueRetries. rewrite Hr.
  rewrite (proj2 (Z.ltb_ge _ _)) by done.
  pose proof (split_failures_of [] l (length (se_Failed (send_error_of l)))) as Hs.
  cbn [app length] in Hs. change (se_Errs (send_error_of l)) with (snd <$> l).
  rewrite Hs by (simpl; rewrite length_fmap; lia). clear Hs. simpl. rewrite length_fmap, index_list_length.
  fold again now.
  pose proof (λ c, retry_runs_of m alert v c [] l) as Hruns. simpl in Hruns.
  rewrite Hruns. simpl. fold again. unfold runs_of.
  destruct now as [|x now'], again as [|y [|z again']]; reflexivity.
Qed.

(** ** Properties of retryAlert *)

Definition resent {N} (a : action N) : bool := match a with ARetry _ _ _ _ => true | _ => false end.
Definition resent_ok {N} (a : action N) : bool :=
  match a with ARetry _ _ _ ok => ok | _ => false end.
Definition event {N} (a : action N) : bool := match a with AEvent _ _ _ => true | _ => false end.

Section retry_props.
Context {N W : Type} `{!Cluster W, !Notifying N W}.
Implicit Types (t : list (action N)).

(** An update that [markAnnounced] may send for the change [c]: the status
    still is the announced one, and only the notified fields change. *)
Definition marks (c : announced) (a : action N) : Prop :=
  match a with
  | AUpdate m _ =>
      ∃ s, Status m = mark_status s (an_status c) ∧
           LastStatus s = an_status c ∧ LastStatusChange s = an_since c
  | _ => False
  end.

(** A successful status update. *)
Definition wrote (a : action N) : bool := match a with AUpdate _ ok => ok | _ => false end.

(** At most one update, and whether it succeeded is what the caller sees. *)
Definition one_update (err : option error) t : Prop :=
  t = [] ∨ ∃ m, t = [AUpdate m (is_None_b err)].

Lemma one_update_count err t :
  one_update err t → len t ≤ 1 ∧ countb wrote t ≤ (if is_None_b err then 1 else 0).
Proof. by intros [->|[m ->]]; destruct err. Qed.

Lemma spec_mark_once r nn c :
  spec (mark_once (N:=N) (W:=W) r nn c) (λ err t, Forall (marks c) t ∧ one_update err t).
Proof.
  unfold mark_once. step_silent. destruct a as [m|e]; [|apply spec_ret; split; [constructor|by left]].
  destruct (same_change (Status m) c) eqn:E; simpl; [|apply spec_ret; split; [constructor|by left]].
  step_act. apply spec_ret. apply andb_true_iff in E as [E1 E2].
  apply bool_decide_eq_true in E1. apply Z.eqb_eq in E2.
  split; [|right; exists (with_Status m (mark_status (Status m) (an_status c))); by destruct a].
  repeat constructor. by exists (Status m).
Qed.

Lemma spec_on_conflict n (fn : M (action N) W (option error)) (P : action N → Prop) :
  spec fn (λ err t, Forall P t ∧ one_update err t) →
  spec (on_conflict n fn)
    (λ err t, Forall P t ∧ len t ≤ 1 + Z.of_nat n ∧
              countb wrote t ≤ (if is_None_b err then 1 else 0)).
Proof.
  intros Hfn. induction n as [|n IH]; simpl; (eapply spec_bind; [exact Hfn|]);
    intros err t (HP & Hu); pose proof (one_update_count _ _ Hu) as [Hl Hc].
  { apply spec_ret. rewrite app_nil_r. split; [done|]. lia. }
  assert (spec (W:=W) (mret err) (λ err t', Forall P (t ++ t') ∧
     len (t ++ t') ≤ 1 + Z.of_nat (S n) ∧
     countb wrote (t ++ t') ≤ (if is_None_b err then 1 else 0))) as Hret.
  { apply spec_ret. rewrite app_nil_r. split; [done|]. lia. }
  destruct err as [e|]; [|exact Hret]. destruct (IsConflict e); [|exact Hret].
  eapply spec_mono; [exact IH|]. intros err t' (HP' & Hl' & Hc').
  rewrite len_app, countb_app. simpl in Hc. split; [by apply Forall_app|].
  pose proof (countb_nonneg wrote t). lia.
Qed.

Lemma spec_markAnnounced r nn c :
  spec (markAnnounced (N:=N) (W:=W) r nn c)
    (λ err t, Forall (marks c) t ∧ len t ≤ 1 + Z.of_nat cl_RetrySteps ∧
              countb wrote t ≤ (if is_None_b err then 1 else 0)).
Proof. apply spec_on_conflict, spec_mark_once. Qed.

(** ** retryAlert *)

(** Before each try the goroutine waits, unless it is stopped, and reads its
    monitor: what it is asked and answered. *)
Definition looks (r : Reconciler) (run : RetryRun N) (w : W) (stop : bool)
    (got : result error EndpointMonitor) (w' : W) : Prop :=
  ∃ w1, cl_SelectStop w = (stop, w1) ∧
    (let nn := meta_key (rr_monitor run) in if has_APIReader r then cl_Read nn w1 else cl_Get nn w1) = (got, w').

(** The monitor to report about after the read, [m] before; [None]: it is
    gone. *)
Definition seen (m : EndpointMonitor) (got : result error EndpointMonitor) : option EndpointMonitor :=
  match got with
  | Ok m' => Some m'
  | Err e => if IsNotFound e then None else Some m
  end.

Definition try_of (run : RetryRun N) (ok : bool) : action N :=
  ARetry (rr_notifier run) (rr_alert run) (rr_values run) ok.

(** [k] tries that failed and may be repeated, from the world [w] with the
    monitor [m] to report about, to [w'] and [m']. *)
Inductive tried (r : Reconciler) (run : RetryRun N) : nat → EndpointMonitor → W → EndpointMonitor → W → Prop :=
| tried_none m w : tried r run 0 m w m w
| tried_more k m w got m1 w1 e w2 m' w' :
    looks r run w false got w1 → seen m got = Some m1 →
    SendAlert (rr_notifier run) (rr_alert run) (rr_values run) w1 = (Some e, w2) → is_retryable e = true →
    tried r run k m1 w2 m' w' → tried r run (S k) m w m' w'.

(** The one event that reports the failure, about the monitor. *)
Definition failure_event (run : RetryRun N) (m : EndpointMonitor) : action N :=
  AEvent (meta_key m) "AlertFailed"
    (rr_alert run +:+ " alert was not sent by " +:+ rr_name run +:+ "; the operator log has the error").

(** How a goroutine ends that has [left] tries left, with what it then does. *)
Inductive retry_end (r : Reconciler) (run : RetryRun N) (left : nat) (m : EndpointMonitor) (w : W)
  : list (action N) → Prop :=
| end_exhausted : left = 0%nat → retry_end r run left m w [failure_event run m]
| end_gone stop got w1 :
    left ≠ 0%nat → looks r run w stop got w1 → seen m got = None → retry_end r run left m w []
| end_stopped got w1 m1 :
    left ≠ 0%nat → looks r run w true got w1 → seen m got = Some m1 → retry_end r run left m w [failure_event run m1]
| end_refused got w1 m1 e w2 :
    left ≠ 0%nat → looks r run w false got w1 → seen m got = Some m1 →
    SendAlert (rr_notifier run) (rr_alert run) (rr_values run) w1 = (Some e, w2) → is_retryable e = false →
    retry_end r run left m w [try_of run false; failure_event run m1]
| end_delivered got w1 m1 w2 t :
    left ≠ 0%nat → looks r run w false got w1 → seen m got = Some m1 →
    SendAlert (rr_notifier run) (rr_alert run) (rr_values run) w1 = (None, w2) →
    match rr_change run with
    | None => t = []
    | Some c => ∃ t', Forall (marks c) t' ∧ countb wrote t' ≤ 1 ∧
                      (t = t' ∨ t = t' ++ [ANoteWrite (meta_key (rr_monitor run))])
    end →
    retry_end r run left m w (try_of run true :: t).

Lemma spec_delivered r nn change :
  spec (delivered (N:=N) (W:=W) r nn change)
    (λ _ t, match change with
            | None => t = []
            | Some c => ∃ t', Forall (marks c) t' ∧ countb wrote t' ≤ 1 ∧
                              (t = t' ∨ t = t' ++ [ANoteWrite nn])
            end).
Proof.
  unfold delivered. destruct change as [c|]; [|by apply spec_ret].
  eapply spec_bind; [apply spec_markAnnounced|]. intros err t (HP & _ & Hc).
  assert (countb wrote t ≤ 1) by (destruct err; simpl in Hc; lia).
  destruct err as [e|]; [apply spec_ret; rewrite app_nil_r; eauto|].
  eapply spec_mono; [apply spec_log|]. intros _ ? ->. eauto 10.
Qed.

Lemma retry_loop_ends r n run m e (w : W) :
  ∃ k m' w' t_end, tried r run k m w m' w' ∧ (k ≤ n)%nat ∧ retry_end r run (n - k) m' w' t_end ∧
    (retry_loop r n run m e w).2 = replicate k (try_of run false) ++ t_end.
Proof.
  revert m e w. induction n as [|n IH]; intros m e w.
  { exists 0%nat, m, w, [failure_event run m]. by split_and!; [constructor|lia|constructor|]. }
  cbn [retry_loop]. unfold mbind, M_bind, refresh, reader_Get, lift at 1.
  destruct (cl_SelectStop w) as [stop w1] eqn:Es. unfold lift, mbind, M_bind. cbn [fst snd].
  set (nn := meta_key (rr_monitor run)).
  destruct ((if has_APIReader r then cl_Read nn else cl_Get nn) w1) as [got w2] eqn:Eg.
  assert (looks r run w stop got w2) as Hl by (exists w1; split; [done|]; by destruct (has_APIReader r)).
  assert (match got with Err e => if IsNotFound e then Gone else Use m | Ok m => Use m end =
    match seen m got with None => Gone | Some m1 => Use m1 end) as ->
    by (destruct got as [?|e']; [done|]; simpl; by destruct (IsNotFound e')).
  destruct (seen m got) as [m1|] eqn:Em; cbn [mret M_ret app].
  2:{ exists 0%nat, m, w, []. split_and!; [constructor|lia|by eapply end_gone|done]. }
  destruct stop.
  { exists 0%nat, m, w, [failure_event run m1]. split_and!; [constructor|lia|by eapply end_stopped|done]. }
  unfold Resend. destruct (SendAlert _ _ _ w2) as [[e'|] w3] eqn:Ew; cbn [is_None_b].
  - destruct (is_retryable e') eqn:Er.
    + destruct (IH m1 e' w3) as (k & m' & w' & t_end & Ht & Hk & He & Htr).
      destruct (retry_loop r n run m1 e' w3) as [[? ?] t]. simpl in Htr |- *. subst t.
      exists (S k), m', w', t_end. split_and!; [by econstructor|lia|exact He|done].
    + exists 0%nat, m, w, [try_of run false; failure_event run m1].
      split_and!; [constructor|lia|by eapply end_refused|done].
  - pose proof (spec_delivered r (meta_key (rr_monitor run)) (rr_change run) w3) as Hd.
    destruct (delivered r _ _ w3) as [[? ?] t]. simpl in Hd |- *.
    exists 0%nat, m, w, (try_of run true :: t). split_and!; [constructor|lia|by eapply end_delivered|done].
Qed.
End retry_props.

(** C20: one retry goroutine, whatever the world answers: before each try it
    waits and reads its monitor; it first makes some tries that fail and may
    be repeated, each through its own notifier with the alert and values it
    was started for, and then ends in exactly one way - a read finds the
    monitor gone and it reports nothing; or it reports one AlertFailed event,
    about the monitor as it last read it and naming its notifier, because its
    tries are used up, because it was asked to stop, or because a try failed
    in a way that cannot be repeated; or a try delivered the alert, after
    which it only records the change it was asked to record and sends nothing
    more.  It makes at most [Tries - 1] tries. *)
Theorem retryAlert_tries_then_ends {N W} `{!Cluster W, !Notifying N W}
    (r : Reconciler) (tries : Z) (run : RetryRun N) (w : W) :
  let most := Z.to_nat (tries - 1) in
  ∃ k m w' t_end, tried r run k (rr_monitor run) w m w' ∧ (k ≤ most)%nat ∧
    retry_end r run (most - k) m w' t_end ∧
    (retryAlert r tries run w).2 = replicate k (try_of run false) ++ t_end.
Proof. apply retry_loop_ends. Qed.

(** recording a delivered change writes the status at most once, and only
    onto a status whose value and start are still the ones announced; it then
    changes the notified fields alone, to that same status and start. *)
Theorem markAnnounced_only_current {N W} `{!Cluster W, !Notifying N W}
    (r : Reconciler) (nn : NamespacedName) (c : announced) (w : W) :
  let '(err, _, t) := markAnnounced (N:=N) r nn c w in
  Forall (marks c) t ∧ countb wrote t ≤ (if is_None_b err then 1 else 0).
Proof.
  pose proof (spec_markAnnounced (N:=N) r nn c w) as (Hm & _ & Hc).
  by destruct (markAnnounced r nn c w) as [[err w'] t].
Qed.
