(* ===== verification/RetryLocks.v ===== *)
(** * The structure the retry goroutines share (internal/controller/retry.go)

    [AlertRetries] with its mutex, the goroutines [retryAlert] and the callers
    of [Stop], as a transition system: every critical section, channel
    operation and call to the outside is one step, and the steps of all
    goroutines interleave.  What a goroutine sends and when it ends is in the
    file Retries; here its tries may end in any way the code allows.

    controller-runtime reconciles one key at a time, so at most one [Stop] of
    a monitor runs, and no retry of that monitor is added meanwhile. *)

From S2P Require Import Prelude GoStd GoTime Errors Api.

(** An [*alertRetry], by its identity. *)
Definition run_id := nat.

Definition for_key {A} (m : gmap NamespacedName (list A)) (nn : NamespacedName) : list A :=
  default [] (m !! nn).

(** The fields the mutex guards; a nil map is empty. *)
Record AlertRetries := {
  pending : gmap NamespacedName (list run_id);
  wrote_keys : gset NamespacedName }.

(** ** The critical sections *)

Definition add (a : AlertRetries) (nn : NamespacedName) (run : run_id) : AlertRetries :=
  {| pending := <[nn := for_key (pending a) nn ++ [run]]> (pending a); wrote_keys := wrote_keys a |}.

Definition remove (a : AlertRetries) (nn : NamespacedName) (run : run_id) : AlertRetries :=
  let runs := List.filter (λ r, negb (bool_decide (r = run))) (for_key (pending a) nn) in
  {| pending := if is_nil runs then delete nn (pending a) else <[nn := runs]> (pending a);
     wrote_keys := wrote_keys a |}.

Definition noteWrite (a : AlertRetries) (nn : NamespacedName) : AlertRetries :=
  {| pending := pending a; wrote_keys := {[nn]} ∪ wrote_keys a |}.

(** The two critical sections of [Stop]. *)
Definition stop_take (a : AlertRetries) (nn : NamespacedName) : list run_id * bool * AlertRetries :=
  (for_key (pending a) nn, bool_decide (nn ∈ wrote_keys a),
   {| pending := delete nn (pending a); wrote_keys := wrote_keys a |}).

Definition stop_end (a : AlertRetries) (nn : NamespacedName) : AlertRetries :=
  {| pending := pending a; wrote_keys := wrote_keys a ∖ {[nn]} |}.

(** ** Goroutines *)

(** Where a [retryAlert] stands. *)
Inductive phase :=
| PSelect (try : Z)  (* in the select before the try *)
| PTry (try : Z)     (* the delay has passed; about to read the monitor and send *)
| PMark              (* delivered; in markAnnounced *)
| PNote              (* markAnnounced returned nil; noteWrite is next *)
| PReport            (* about to report AlertFailed *)
| PLeave             (* the body has returned; remove is next *)
| PClose             (* close(run.done) is next *)
| PDone.

#[export] Instance phase_eq_dec : EqDecision phase.
Proof. solve_decision. Defined.

Record retry := { r_key : NamespacedName; r_stopped : bool; r_phase : phase }.

Definition at_phase (r : retry) (p : phase) : retry :=
  {| r_key := r_key r; r_stopped := r_stopped r; r_phase := p |}.

Definition close_stop (r : retry) : retry :=
  {| r_key := r_key r; r_stopped := true; r_phase := r_phase r |}.

(** A call of [Stop] between its two critical sections: the runs still to
    wait for, whether the first one's channel is closed, and what it will
    report. *)
Record stopper := { s_runs : list run_id; s_closed : bool; s_any : bool; s_wrote : bool }.

Record system := {
  shared : AlertRetries;
  retries : gmap run_id retry;
  stoppers : gmap NamespacedName stopper;
  (** the monitors whose status a retry has written since the last Stop
      returned; not in the code *)
  unseen : gset NamespacedName }.

Definition set_retry (st : system) (id : run_id) (r : retry) : system :=
  {| shared := shared st; retries := <[id := r]> (retries st); stoppers := stoppers st; unseen := unseen st |}.

Definition set_shared (st : system) (a : AlertRetries) : system :=
  {| shared := a; retries := retries st; stoppers := stoppers st; unseen := unseen st |}.

Definition set_stopper (st : system) (nn : NamespacedName) (s : stopper) : system :=
  {| shared := shared st; retries := retries st; stoppers := <[nn := s]> (stoppers st); unseen := unseen st |}.

(** The loop's condition before [try]. *)
Definition next_try (tries try : Z) : phase := if try <=? tries then PSelect try else PReport.

(** What others can see of a step. *)
Inductive label :=
| LAdd (nn : NamespacedName) (id : run_id)    (* add, and go r.retryAlert *)
| LQuiet                                      (* a step of a goroutine alone *)
| LSend (id : run_id)                         (* n.SendAlert *)
| LWrite (id : run_id)                        (* the status update of markAnnounced *)
| LReport (id : run_id)                       (* the AlertFailed event *)
| LStop (nn : NamespacedName)                 (* Stop begins *)
| LStopped (nn : NamespacedName) (b : bool).  (* Stop returns b *)

(** Where a phase may go, with what others see of it; removing the run from
    the shared structure and noting a write are separate rules below. *)
Inductive advance (tries : Z) (id : run_id) (stopped : bool) : phase → label → phase → Prop :=
| adv_stopped_gone try : stopped = true → advance tries id stopped (PSelect try) LQuiet PLeave
| adv_stopped try : stopped = true → advance tries id stopped (PSelect try) LQuiet PReport
| adv_timer try : advance tries id stopped (PSelect try) LQuiet (PTry try)
| adv_gone try : advance tries id stopped (PTry try) LQuiet PLeave
| adv_delivered try : advance tries id stopped (PTry try) (LSend id) PLeave
| adv_delivered_change try : advance tries id stopped (PTry try) (LSend id) PMark
| adv_failed try : advance tries id stopped (PTry try) (LSend id) PReport
| adv_again try : advance tries id stopped (PTry try) (LSend id) (next_try tries (try + 1))
| adv_moved_on : advance tries id stopped PMark LQuiet PNote
| adv_mark_failed : advance tries id stopped PMark LQuiet PLeave
| adv_write : advance tries id stopped PMark (LWrite id) PNote
| adv_report : advance tries id stopped PReport (LReport id) PLeave
| adv_close : advance tries id stopped PClose LQuiet PDone.

Inductive lstep (tries : Z) (st : system) : label → system → Prop :=
| step_add nn id :
    retries st !! id = None → stoppers st !! nn = None →
    lstep tries st (LAdd nn id)
      (set_retry (set_shared st (add (shared st) nn id)) id
         {| r_key := nn; r_stopped := false; r_phase := next_try tries 2 |})
| step_advance id r l p :
    retries st !! id = Some r → advance tries id (r_stopped r) (r_phase r) l p → (∀ i, l ≠ LWrite i) →
    lstep tries st l (set_retry st id (at_phase r p))
| step_write id r :
    retries st !! id = Some r → r_phase r = PMark →
    lstep tries st (LWrite id)
      {| shared := shared st; retries := <[id := at_phase r PNote]> (retries st);
         stoppers := stoppers st; unseen := {[r_key r]} ∪ unseen st |}
| step_note id r :
    retries st !! id = Some r → r_phase r = PNote →
    lstep tries st LQuiet
      (set_retry (set_shared st (noteWrite (shared st) (r_key r))) id (at_phase r PLeave))
| step_remove id r :
    retries st !! id = Some r → r_phase r = PLeave →
    lstep tries st LQuiet
      (set_retry (set_shared st (remove (shared st) (r_key r) id)) id (at_phase r PClose))
| step_stop nn :
    stoppers st !! nn = None →
    let '(runs, wrote, a) := stop_take (shared st) nn in
    lstep tries st (LStop nn)
      (set_stopper (set_shared st a) nn
         {| s_runs := runs; s_closed := false; s_any := negb (is_nil runs); s_wrote := wrote |})
| step_close nn s id rest r :
    stoppers st !! nn = Some s → s_runs s = id :: rest → s_closed s = false →
    retries st !! id = Some r →
    lstep tries st LQuiet
      (set_stopper (set_retry st id (close_stop r)) nn
         {| s_runs := id :: rest; s_closed := true; s_any := s_any s; s_wrote := s_wrote s |})
| step_wait nn s id rest r :
    stoppers st !! nn = Some s → s_runs s = id :: rest → s_closed s = true →
    retries st !! id = Some r → r_phase r = PDone →
    lstep tries st LQuiet
      (set_stopper st nn {| s_runs := rest; s_closed := false; s_any := s_any s; s_wrote := s_wrote s |})
| step_stopped nn s :
    stoppers st !! nn = Some s → s_runs s = [] →
    lstep tries st (LStopped nn (s_any s || s_wrote s))
      {| shared := stop_end (shared st) nn; retries := retries st;
         stoppers := delete nn (stoppers st); unseen := unseen st ∖ {[nn]} |}.

(** [NewAlertRetries], before anything is queued. *)
Definition no_retries : system :=
  {| shared := {| pending := ∅; wrote_keys := ∅ |}; retries := ∅; stoppers := ∅; unseen := ∅ |}.

Inductive reachable_from (tries : Z) : system → list label → Prop :=
| reach_none : reachable_from tries no_retries []
| reach_step st ls l st' :
    reachable_from tries st ls → lstep tries st l st' → reachable_from tries st' (ls ++ [l]).

(** ** What every reachable state satisfies *)

(** A run whose [remove] is still to come. *)
Definition live (p : phase) : bool := match p with PClose | PDone => false | _ => true end.

Definition held (p : gmap NamespacedName (list run_id)) (ss : gmap NamespacedName stopper)
    (nn : NamespacedName) (id : run_id) : Prop :=
  id ∈ for_key p nn ∨ ∃ s, ss !! nn = Some s ∧ id ∈ s_runs s.

(** A run that [Stop] has yet to close the channel of: the run at position
    [i] of its list. *)
Definition to_close (s : stopper) (i : nat) : Prop := i ≠ 0%nat ∨ s_closed s = false.

Record lists (p : gmap NamespacedName (list run_id)) (rs : gmap run_id retry)
    (ss : gmap NamespacedName stopper) : Prop := {
  pending_run nn id : id ∈ for_key p nn →
    ∃ r, rs !! id = Some r ∧ r_key r = nn ∧ r_stopped r = false ∧ live (r_phase r) = true;
  pending_once nn : NoDup (for_key p nn);
  stopper_takes_all nn s : ss !! nn = Some s → for_key p nn = [];
  stopper_any nn s : ss !! nn = Some s → s_runs s ≠ [] → s_any s = true;
  stopper_once nn s : ss !! nn = Some s → NoDup (s_runs s);
  stopper_run nn s i id : ss !! nn = Some s → s_runs s !! i = Some id →
    ∃ r, rs !! id = Some r ∧ r_key r = nn ∧ (to_close s i → r_stopped r = false);
  live_held id r : rs !! id = Some r → live (r_phase r) = true → held p ss (r_key r) id }.

(** A write that no [Stop] has reported yet is on record, or its [noteWrite]
    comes next; and a [Stop] under way will report it. *)
Record unseen_noted (w : gset NamespacedName) (rs : gmap run_id retry)
    (ss : gmap NamespacedName stopper) (u : gset NamespacedName) : Prop := {
  unseen_on_record nn : nn ∈ u → nn ∈ w ∨ ∃ id r, rs !! id = Some r ∧ r_key r = nn ∧ r_phase r = PNote;
  unseen_reported nn s : nn ∈ u → ss !! nn = Some s → s_any s || s_wrote s = true }.

Definition inv (st : system) : Prop :=
  lists (pending (shared st)) (retries st) (stoppers st) ∧
  unseen_noted (wrote_keys (shared st)) (retries st) (stoppers st) (unseen st).

Section inv.
Implicit Types (p : gmap NamespacedName (list run_id)) (rs : gmap run_id retry)
  (ss : gmap NamespacedName stopper).

Lemma for_key_insert {A} (m : gmap NamespacedName (list A)) nn l nn' :
  for_key (<[nn := l]> m) nn' = if decide (nn = nn') then l else for_key m nn'.
Proof.
  unfold for_key. case_decide as E; [subst; by rewrite lookup_insert_eq|by rewrite lookup_insert_ne].
Qed.

Lemma for_key_delete {A} (m : gmap NamespacedName (list A)) nn nn' :
  for_key (delete nn m) nn' = if decide (nn = nn') then [] else for_key m nn'.
Proof.
  unfold for_key. case_decide as E; [subst; by rewrite lookup_delete_eq|by rewrite lookup_delete_ne].
Qed.

Lemma for_key_remove a nn id nn' :
  for_key (pending (remove a nn id)) nn' =
  if decide (nn = nn') then List.filter (λ r, negb (bool_decide (r = id))) (for_key (pending a) nn)
  else for_key (pending a) nn'.
Proof.
  unfold remove. cbn [pending]. destruct (is_nil _) eqn:E.
  - rewrite for_key_delete. case_decide; [|done]. by destruct (List.filter _ _).
  - by rewrite for_key_insert.
Qed.

Lemma elem_of_remove a nn id nn' id' :
  id' ∈ for_key (pending (remove a nn id)) nn' ↔
  id' ∈ for_key (pending a) nn' ∧ (nn = nn' → id' ≠ id).
Proof.
  rewrite for_key_remove. case_decide as E; [subst nn'|naive_solver].
  rewrite !list_elem_of_In, filter_In, negb_true_iff, bool_decide_eq_false. naive_solver.
Qed.

(** A run changes its phase, and nothing else of it that the lists depend on. *)
Lemma lists_update p rs ss id r r' :
  lists p rs ss → rs !! id = Some r → r_key r' = r_key r → r_stopped r' = r_stopped r →
  live (r_phase r') = live (r_phase r) → lists p (<[id := r']> rs) ss.
Proof.
  intros H Hid Hk Hs Hl.
  assert (∀ id' r0, rs !! id' = Some r0 → ∃ r1, <[id := r']> rs !! id' = Some r1 ∧
    r_key r1 = r_key r0 ∧ r_stopped r1 = r_stopped r0 ∧ live (r_phase r1) = live (r_phase r0)) as Hnew.
  { intros id' r0 Hr0. destruct (decide (id = id')) as [<-|Hne].
    - exists r'. rewrite lookup_insert_eq. naive_solver.
    - exists r0. by rewrite lookup_insert_ne. }
  split; try apply H.
  - intros nn id' Hin. destruct (pending_run _ _ _ H nn id' Hin) as (r0 & Hr0 & ? & ? & ?).
    destruct (Hnew id' r0 Hr0) as (r1 & ? & ? & ? & ?). exists r1. split_and!; congruence.
  - intros nn s i id' Hs' Hi. destruct (stopper_run _ _ _ H nn s i id' Hs' Hi) as (r0 & Hr0 & ? & ?).
    destruct (Hnew id' r0 Hr0) as (r1 & ? & ? & Hst & ?). exists r1. rewrite Hst. split_and!; [done|congruence|done].
  - intros id' r1 H1 Hlive. destruct (decide (id = id')) as [<-|Hne].
    + rewrite lookup_insert_eq in H1. simplify_eq. rewrite Hk. apply (live_held _ _ _ H id r Hid). congruence.
    + rewrite lookup_insert_ne in H1 by done. by apply (live_held _ _ _ H id' r1 H1).
Qed.

Lemma lists_add p rs ss nn id ph :
  lists p rs ss → rs !! id = None → ss !! nn = None → live ph = true →
  lists (<[nn := for_key p nn ++ [id]]> p)
    (<[id := {| r_key := nn; r_stopped := false; r_phase := ph |}]> rs) ss.
Proof.
  intros H Hid Hs Hph.
  assert (∀ id' r0, rs !! id' = Some r0 → id ≠ id') as Hfresh by (intros; congruence).
  split.
  - intros nn' id' Hin. rewrite for_key_insert in Hin. case_decide as E; [subst nn'|].
    + apply elem_of_app in Hin as [Hin|Hin%list_elem_of_singleton].
      * destruct (pending_run _ _ _ H nn id' Hin) as (r0 & Hr0 & ?). exists r0.
        rewrite lookup_insert_ne by eauto. done.
      * subst id'. rewrite lookup_insert_eq. eauto.
    + destruct (pending_run _ _ _ H nn' id' Hin) as (r0 & Hr0 & ?). exists r0.
      rewrite lookup_insert_ne by eauto. done.
  - intros nn'. rewrite for_key_insert. case_decide; [|by apply H].
    apply NoDup_app. split_and!; [by apply H| |apply NoDup_singleton].
    intros id' Hin ->%list_elem_of_singleton.
    destruct (pending_run _ _ _ H nn id Hin) as (r0 & Hr0 & _). congruence.
  - intros nn' s Hs'. rewrite for_key_insert. case_decide; [congruence|by eapply H].
  - apply H.
  - apply H.
  - intros nn' s i id' Hs' Hi. destruct (stopper_run _ _ _ H nn' s i id' Hs' Hi) as (r0 & Hr0 & ?).
    exists r0. rewrite lookup_insert_ne by eauto. done.
  - intros id' r1 H1 Hlive. destruct (decide (id = id')) as [<-|Hne].
    + rewrite lookup_insert_eq in H1. simplify_eq/=. left. rewrite for_key_insert, decide_True by done.
      apply elem_of_app. right. by apply list_elem_of_singleton.
    + rewrite lookup_insert_ne in H1 by done. destruct (live_held _ _ _ H id' r1 H1 Hlive) as [Hin|?]; [|by right].
      left. rewrite for_key_insert. case_decide as E; [|done]. rewrite <-E in Hin. apply elem_of_app. by left.
Qed.

Lemma lists_remove a rs ss id r :
  lists (pending a) rs ss → rs !! id = Some r → live (r_phase r) = true →
  lists (pending (remove a (r_key r) id)) (<[id := at_phase r PClose]> rs) ss.
Proof.
  intros H Hid Hl. split.
  - intros nn id' [Hin Hne]%elem_of_remove.
    destruct (pending_run _ _ _ H nn id' Hin) as (r0 & Hr0 & Hk & ?).
    exists r0. rewrite lookup_insert_ne; [done|]. intros <-. simplify_eq. by apply Hne.
  - intros nn. rewrite for_key_remove. case_decide; [|by apply H].
    apply NoDup_ListNoDup, List.NoDup_filter, NoDup_ListNoDup. by apply H.
  - intros nn s Hs. rewrite for_key_remove, (stopper_takes_all _ _ _ H nn s Hs).
    case_decide as E; [|done]. rewrite E. by rewrite (stopper_takes_all _ _ _ H nn s Hs).
  - apply H.
  - apply H.
  - intros nn s i id' Hs' Hi. destruct (stopper_run _ _ _ H nn s i id' Hs' Hi) as (r0 & Hr0 & ? & ?).
    destruct (decide (id = id')) as [<-|Hne].
    + exists (at_phase r PClose). rewrite lookup_insert_eq. simplify_eq. done.
    + exists r0. by rewrite lookup_insert_ne.
  - intros id' r1 H1 Hlive. destruct (decide (id = id')) as [<-|Hne].
    + rewrite lookup_insert_eq in H1. by simplify_eq/=.
    + rewrite lookup_insert_ne in H1 by done.
      destruct (live_held _ _ _ H id' r1 H1 Hlive) as [Hin|?]; [left|by right].
      apply elem_of_remove. split; [done|congruence].
Qed.

Lemma lists_stop p rs ss nn wrote :
  lists p rs ss → ss !! nn = None →
  lists (delete nn p) rs
    (<[nn := {| s_runs := for_key p nn; s_closed := false; s_any := negb (is_nil (for_key p nn));
                s_wrote := wrote |}]> ss).
Proof.
  intros H Hs. set (s := {| s_runs := _ |}). split.
  - intros nn' id Hin. rewrite for_key_delete in Hin. case_decide; [by apply elem_of_nil in Hin|].
    by eapply H.
  - intros nn'. rewrite for_key_delete. case_decide; [constructor|by apply H].
  - intros nn' s' Hs'. rewrite for_key_delete. case_decide; [done|].
    rewrite lookup_insert_ne in Hs' by done. by eapply H.
  - intros nn' s' [[<- <-]|[_ Hs']]%lookup_insert_Some; [|by eapply H].
    subst s. simpl. by destruct (for_key p nn).
  - intros nn' s' [[<- <-]|[_ Hs']]%lookup_insert_Some; [by apply H|by eapply H].
  - intros nn' s' i id [[<- <-]|[_ Hs']]%lookup_insert_Some Hi; [|by eapply H].
    apply list_elem_of_lookup_2 in Hi.
    destruct (pending_run _ _ _ H nn id Hi) as (r & ? & ? & ? & _). exists r. naive_solver.
  - intros id r Hr Hl. destruct (live_held _ _ _ H id r Hr Hl) as [Hin|(s' & Hs' & Hin)].
    + destruct (decide (nn = r_key r)) as [->|Hne].
      * right. exists s. by rewrite lookup_insert_eq.
      * left. by rewrite for_key_delete, decide_False.
    + right. exists s'. rewrite lookup_insert_ne by congruence. done.
Qed.

Lemma lists_close p rs ss nn s id rest r :
  lists p rs ss → ss !! nn = Some s → s_runs s = id :: rest → s_closed s = false → rs !! id = Some r →
  lists p (<[id := close_stop r]> rs)
    (<[nn := {| s_runs := id :: rest; s_closed := true; s_any := s_any s; s_wrote := s_wrote s |}]> ss).
Proof.
  intros H Hs Hruns Hc Hid.
  assert (id ∈ s_runs s) as Hin by (rewrite Hruns; left).
  assert (r_key r = nn ∧ r_stopped r = false) as [Hk Hst].
  { destruct (stopper_run _ _ _ H nn s 0 id Hs) as (r0 & Hr0 & ? & Ho); [by rewrite Hruns|].
    simplify_eq. split; [done|]. apply Ho. by right. }
  split.
  - intros nn' id' Hp. destruct (pending_run _ _ _ H nn' id' Hp) as (r0 & Hr0 & Hk0 & ?).
    exists r0. rewrite lookup_insert_ne; [done|]. intros <-. simplify_eq.
    by rewrite (stopper_takes_all _ _ _ H _ s Hs) in Hp; apply elem_of_nil in Hp.
  - apply H.
  - intros nn' s' [[<- <-]|[_ Hs']]%lookup_insert_Some; by eapply H.
  - intros nn' s' [[<- <-]|[_ Hs']]%lookup_insert_Some; [|by eapply H].
    simpl. intros _. eapply (stopper_any _ _ _ H nn s Hs). by rewrite Hruns.
  - intros nn' s' [[<- <-]|[_ Hs']]%lookup_insert_Some; [|by eapply H].
    simpl. rewrite <-Hruns. by eapply H.
  - intros nn' s' i id' [[<- <-]|[Hne Hs']]%lookup_insert_Some Hi.
    + cbn [s_runs] in Hi. rewrite <-Hruns in Hi.
      destruct (stopper_run _ _ _ H nn s i id' Hs Hi) as (r0 & Hr0 & Hk0 & Ho).
      destruct (decide (id = id')) as [<-|Hid'].
      * exists (close_stop r). rewrite lookup_insert_eq. split_and!; [done|done|].
        intros [Hi0|[=]]. exfalso. apply Hi0.
        eapply (NoDup_lookup (s_runs s) i 0 id); [by eapply H|done|by rewrite Hruns].
      * exists r0. rewrite lookup_insert_ne by done. split_and!; [done|done|].
        intros [?|[=]]. apply Ho. by left.
    + destruct (stopper_run _ _ _ H nn' s' i id' Hs' Hi) as (r0 & Hr0 & Hk0 & Ho).
      exists r0. rewrite lookup_insert_ne; [done|]. intros <-. simplify_eq.
  - intros id' r1 H1 Hl.
    assert (held p ss (r_key r1) id') as [?|(s' & Hs' & Hin')].
    { destruct (decide (id = id')) as [<-|Hne].
      - rewrite lookup_insert_eq in H1. simplify_eq/=. by apply (live_held _ _ _ H id r).
      - rewrite lookup_insert_ne in H1 by done. by apply (live_held _ _ _ H id' r1). }
    { by left. }
    right. destruct (decide (nn = r_key r1)) as [E|Hne].
    + rewrite <-E in *. simplify_eq. eexists. rewrite lookup_insert_eq. split; [done|].
      simpl. by rewrite <-Hruns.
    + exists s'. by rewrite lookup_insert_ne.
Qed.

Lemma lists_wait p rs ss nn s id rest r :
  lists p rs ss → ss !! nn = Some s → s_runs s = id :: rest → rs !! id = Some r → r_phase r = PDone →
  lists p rs (<[nn := {| s_runs := rest; s_closed := false; s_any := s_any s; s_wrote := s_wrote s |}]> ss).
Proof.
  intros H Hs Hruns Hid Hd. split.
  - apply H.
  - apply H.
  - intros nn' s' [[<- <-]|[_ Hs']]%lookup_insert_Some; by eapply H.
  - intros nn' s' [[<- <-]|[_ Hs']]%lookup_insert_Some; [|by eapply H].
    simpl. intros _. eapply (stopper_any _ _ _ H nn s Hs). by rewrite Hruns.
  - intros nn' s' [[<- <-]|[_ Hs']]%lookup_insert_Some; [|by eapply H].
    simpl. pose proof (stopper_once _ _ _ H nn s Hs) as Hnd. rewrite Hruns in Hnd.
    by apply NoDup_cons in Hnd as [_ ?].
  - intros nn' s' i id' [[<- <-]|[Hne Hs']]%lookup_insert_Some Hi; [|by eapply H].
    cbn [s_runs] in Hi.
    destruct (stopper_run _ _ _ H nn s (S i) id' Hs) as (r0 & Hr0 & Hk0 & Ho); [by rewrite Hruns|].
    exists r0. split_and!; [done|done|]. intros _. apply Ho. by left.
  - intros id' r1 H1 Hl. destruct (live_held _ _ _ H id' r1 H1 Hl) as [?|(s' & Hs' & Hin)]; [by left|].
    right. destruct (decide (nn = r_key r1)) as [E|Hne]; [|exists s'; by rewrite lookup_insert_ne].
    rewrite <-E in *. simplify_eq. eexists. rewrite lookup_insert_eq. split; [done|]. simpl.
    rewrite Hruns in Hin. apply elem_of_cons in Hin as [->|?]; [|done]. simplify_eq. by rewrite Hd in Hl.
Qed.

Lemma lists_stopped p rs ss nn s :
  lists p rs ss → ss !! nn = Some s → s_runs s = [] → lists p rs (delete nn ss).
Proof.
  intros H Hs Hruns. split; try apply H.
  - intros nn' s' [_ Hs']%lookup_delete_Some. by eapply H.
  - intros nn' s' [_ Hs']%lookup_delete_Some. by eapply H.
  - intros nn' s' [_ Hs']%lookup_delete_Some. by eapply H.
  - intros nn' s' i id [_ Hs']%lookup_delete_Some. by eapply H.
  - intros id r Hr Hl. destruct (live_held _ _ _ H id r Hr Hl) as [?|(s' & Hs' & Hin)]; [by left|].
    right. exists s'. rewrite lookup_delete_ne; [done|]. intros E. rewrite <-E in *. simplify_eq.
    rewrite Hruns in Hin. by apply elem_of_nil in Hin.
Qed.
End inv.

Section steps.
Implicit Types (rs : gmap run_id retry) (ss : gmap NamespacedName stopper).

Lemma advance_live tries id stopped p l p' : advance tries id stopped p l p' → live p' = live p.
Proof. destruct 1; try done. unfold next_try. by destruct (_ <=? _). Qed.

(** A run changes; it was not about to note a write, or has noted it now. *)
Lemma unseen_update w w' rs ss u id r r' :
  unseen_noted w rs ss u → rs !! id = Some r → w ⊆ w' →
  (r_phase r = PNote → r_key r ∈ w' ∨ (r_key r' = r_key r ∧ r_phase r' = PNote)) →
  unseen_noted w' (<[id := r']> rs) ss u.
Proof.
  intros H Hid Hw Hn. split; [|by eapply H].
  intros nn Hu. destruct (unseen_on_record _ _ _ _ H nn Hu) as [?|(id' & r0 & Hr0 & Hk & Hp)].
  { left. set_solver. }
  destruct (decide (id = id')) as [<-|Hne].
  - simplify_eq. destruct (Hn Hp) as [?|[Hk' Hp']]; [by left|].
    right. exists id, r'. rewrite lookup_insert_eq. done.
  - right. exists id', r0. rewrite lookup_insert_ne by done. done.
Qed.

(** The status was written by a run that is about to note it. *)
Lemma unseen_write p w rs ss u id r :
  lists p rs ss → unseen_noted w rs ss u → rs !! id = Some r → r_phase r = PMark →
  unseen_noted w (<[id := at_phase r PNote]> rs) ss ({[r_key r]} ∪ u).
Proof.
  intros Hl H Hid Hp.
  assert (unseen_noted w (<[id := at_phase r PNote]> rs) ss u) as H'.
  { apply (unseen_update w w rs ss u id r); [done..|]. intros Hp'. congruence. }
  split.
  - intros nn [->%elem_of_singleton|Hu]%elem_of_union; [|by apply (unseen_on_record _ _ _ _ H')].
    right. exists id, (at_phase r PNote). by rewrite lookup_insert_eq.
  - intros nn s [->%elem_of_singleton|Hu]%elem_of_union Hs; [|by eapply H'].
    destruct (live_held _ _ _ Hl id r Hid ltac:(by rewrite Hp)) as [Hin|(s' & Hs' & Hin)].
    + rewrite (stopper_takes_all _ _ _ Hl _ s Hs) in Hin. by apply elem_of_nil in Hin.
    + simplify_eq. rewrite (stopper_any _ _ _ Hl _ s Hs); [done|]. intros E.
      rewrite E in Hin. by apply elem_of_nil in Hin.
Qed.

(** A [Stop] that begins will report every write it does not see. *)
Lemma unseen_stop p w rs ss u nn :
  lists p rs ss → unseen_noted w rs ss u → ss !! nn = None →
  unseen_noted w rs (<[nn := {| s_runs := for_key p nn; s_closed := false;
      s_any := negb (is_nil (for_key p nn)); s_wrote := bool_decide (nn ∈ w) |}]> ss) u.
Proof.
  intros Hl H Hs. split; [apply H|].
  intros nn' s Hu [[<- <-]|[_ Hs']]%lookup_insert_Some; [|by eapply H]. simpl.
  destruct (unseen_on_record _ _ _ _ H nn Hu) as [Hw|(id & r & Hr & Hk & Hp)].
  - by rewrite (bool_decide_eq_true_2 _ Hw), orb_true_r.
  - destruct (live_held _ _ _ Hl id r Hr ltac:(by rewrite Hp)) as [Hin|(s' & Hs' & _)]; [|congruence].
    rewrite Hk in Hin. destruct (for_key p nn); [by apply elem_of_nil in Hin|done].
Qed.

Lemma unseen_stoppers w rs ss u nn s s' :
  unseen_noted w rs ss u → ss !! nn = Some s → s_any s' = s_any s → s_wrote s' = s_wrote s →
  unseen_noted w rs (<[nn := s']> ss) u.
Proof.
  intros H Hs Ha Hw. split; [apply H|].
  intros nn' s0 Hu [[<- <-]|[_ Hs']]%lookup_insert_Some; [|by eapply H].
  rewrite Ha, Hw. by eapply H.
Qed.

Lemma inv_step tries st l st' : inv st → lstep tries st l st' → inv st'.
Proof.
  intros [Hl Hu] Hstep. destruct Hstep as [nn id Hid Hs|id r l p Hid Hadv Hnw|id r Hid Hp|id r Hid Hp
    |id r Hid Hp|nn Hs|nn s id rest r Hs Hruns Hc Hid|nn s id rest r Hs Hruns Hc Hid Hd|nn s Hs Hruns];
    unfold inv; cbn -[insert delete lookup remove].
  - split.
    + apply lists_add; [done..|]. unfold next_try. by destruct (_ <=? _).
    + split; [|by eapply Hu]. intros nn' Hin.
      destruct (unseen_on_record _ _ _ _ Hu nn' Hin) as [?|(id' & r & Hr & ?)]; [by left|].
      right. exists id', r. rewrite lookup_insert_ne by congruence. done.
  - split.
    + eapply lists_update; [done..|by eapply advance_live].
    + eapply unseen_update; [done..|]. intros Hp. rewrite Hp in Hadv. by inversion Hadv.
  - split; [|by eapply unseen_write].
    eapply lists_update; [done..|]. simpl. by rewrite Hp.
  - split.
    + eapply lists_update; [done..|]. simpl. by rewrite Hp.
    + eapply unseen_update; [done..|set_solver|]. intros _. left. set_solver.
  - split.
    + apply lists_remove; [done..|]. by rewrite Hp.
    + eapply unseen_update; [done..|]. congruence.
  - split; [by apply lists_stop|]. by eapply unseen_stop.
  - split; [by eapply lists_close|].
    eapply unseen_stoppers; [|done..]. eapply unseen_update; [done..|]. naive_solver.
  - split; [by eapply lists_wait|]. by eapply unseen_stoppers.
  - split; [by eapply lists_stopped|]. split.
    + intros nn' [Hin Hne]%elem_of_difference.
      destruct (unseen_on_record _ _ _ _ Hu nn' Hin) as [?|?]; [left; set_solver|by right].
    + intros nn' s' [Hin _]%elem_of_difference [_ Hs']%lookup_delete_Some. by eapply Hu.
Qed.

Lemma reachable_inv tries st ls : reachable_from tries st ls → inv st.
Proof.
  induction 1 as [|st ls l st' _ IH Hstep]; [|by eapply inv_step].
  split; split; cbn -[lookup].
  all: unfold for_key; setoid_rewrite lookup_empty; try done; try (intros; constructor).
  all: try (intros ?? H; by apply elem_of_nil in H). all: set_solver.
Qed.
End steps.

(** ** Executions *)

(** What a run shows to the outside. *)
Definition shows (id : run_id) (l : label) : Prop := l = LSend id ∨ l = LWrite id ∨ l = LReport id.

(** The run has left the shared structure. *)
Definition gone (st : system) (id : run_id) : Prop :=
  ∃ r, retries st !! id = Some r ∧ live (r_phase r) = false.

Section executions.
Context (tries : Z).

Lemma reachable_snoc st ls l :
  reachable_from tries st (ls ++ [l]) →
  ∃ st0, reachable_from tries st0 ls ∧ lstep tries st0 l st.
Proof.
  intros H. remember (ls ++ [l]) as ls' eqn:E.
  destruct H as [|st0 ls0 l0 st' H0 Hstep]; [by destruct ls|].
  apply app_inj_tail in E as [-> ->]. eauto.
Qed.

(** What happens to a run in one step. *)
Lemma step_run st l st' id r :
  retries st !! id = Some r → lstep tries st l st' →
  ∃ r', retries st' !! id = Some r' ∧ r_key r' = r_key r ∧
        (live (r_phase r) = false → live (r_phase r') = false ∧ ¬ shows id l).
Proof.
  intros Hid Hstep.
  assert (∀ rs id' r0 r', retries st !! id' = Some r0 → rs = <[id' := r']> (retries st) →
    r_key r' = r_key r0 → (live (r_phase r0) = false → live (r_phase r') = false ∧ ¬ shows id' l) →
    (id ≠ id' → ¬ shows id l) →
    ∃ r', rs !! id = Some r' ∧ r_key r' = r_key r ∧
        (live (r_phase r) = false → live (r_phase r') = false ∧ ¬ shows id l)) as Hupd.
  { intros rs id' r0 r' H0 -> Hk Hd Hother. destruct (decide (id' = id)) as [->|Hne].
    - simplify_eq. exists r'. by rewrite lookup_insert_eq.
    - exists r. rewrite lookup_insert_ne by done. naive_solver. }
  assert (∀ l, l = LQuiet → ¬ shows id l) as Hq by (intros ? -> [|[|]]; done).
  destruct Hstep as [nn id' Hid' Hs|id' r0 l p Hid' Hadv Hnw|id' r0 Hid' Hp|id' r0 Hid' Hp
    |id' r0 Hid' Hp|nn Hs|nn s id' rest r0 Hs Hruns Hc Hid'|nn s id' rest r0 Hs Hruns Hc Hid' Hd|nn s Hs Hruns];
    cbn -[insert delete lookup remove].
  - exists r. rewrite lookup_insert_ne by congruence. split_and!; [done|done|].
    intros Hl. split; [done|]. intros [|[|]]; done.
  - eapply (Hupd _ id' r0); [done|done|done| |].
    + intros Hl. split; [cbn; rewrite (advance_live _ _ _ _ _ _ Hadv); done|].
      destruct (r_phase r0); try done; inversion Hadv; subst; by intros [|[|]].
    + intros Hne [ -> | [ -> | -> ] ]; inversion Hadv; naive_solver.
  - eapply (Hupd _ id' r0); [done|done|done|by rewrite Hp|]. intros Hne [|[|]]; naive_solver.
  - eapply (Hupd _ id' r0); [done|done|done|by rewrite Hp|by auto].
  - eapply (Hupd _ id' r0); [done|done|done|by rewrite Hp|by auto].
  - exists r. split_and!; [done|done|]. intros Hl. split; [done|]. intros [|[|]]; done.
  - eapply (Hupd _ id' r0); [done|done|done| |by auto]. intros Hl. split; [done|]. intros [|[|]]; done.
  - exists r. split_and!; [done|done|]. auto.
  - exists r. split_and!; [done|done|]. intros Hl. split; [done|]. intros [|[|]]; done.
Qed.

Lemma added_run st ls nn id :
  reachable_from tries st ls → LAdd nn id ∈ ls → ∃ r, retries st !! id = Some r ∧ r_key r = nn.
Proof.
  induction 1 as [|st ls l st' _ IH Hstep]; intros Hin; [by apply elem_of_nil in Hin|].
  apply elem_of_app in Hin as [Hin|<-%list_elem_of_singleton].
  - destruct (IH Hin) as (r & Hr & <-).
    destruct (step_run st l st' id r Hr Hstep) as (r' & Hr' & Hk & _). eauto.
  - inversion Hstep; subst; [eexists; split; [apply lookup_insert_eq|done]|].
    match goal with H : advance _ _ _ _ _ _ |- _ => inversion H end.
Qed.

Lemma gone_step st l st' id : gone st id → lstep tries st l st' → gone st' id ∧ ¬ shows id l.
Proof.
  intros (r & Hr & Hl) Hstep. destruct (step_run st l st' id r Hr Hstep) as (r' & Hr' & _ & H).
  destruct (H Hl). split; [by exists r'|done].
Qed.

(** When [Stop] returns, every run of the monitor has left. *)
Lemma stopped_gone st ls nn b st' id r :
  reachable_from tries st ls → lstep tries st (LStopped nn b) st' →
  retries st !! id = Some r → r_key r = nn → gone st' id.
Proof.
  intros Hr%reachable_inv Hstep Hid <-. destruct Hr as [Hl _].
  inversion Hstep as [| ? ? ? ? ? Hadv | | | | | | |nn s Hs Hruns E]; subst; [by inversion Hadv|].
  exists r. split; [done|]. destruct (live (r_phase r)) eqn:Hlive; [|done].
  destruct (live_held _ _ _ Hl id r Hid Hlive) as [Hin|(s' & Hs' & Hin)].
  - rewrite (stopper_takes_all _ _ _ Hl _ s Hs) in Hin. by apply elem_of_nil in Hin.
  - simplify_eq. rewrite Hruns in Hin. by apply elem_of_nil in Hin.
Qed.
End executions.

Lemma reachable_gone tries st ls1 l ls2 id :
  reachable_from tries st (ls1 ++ l :: ls2) →
  (∀ st0 st', reachable_from tries st0 ls1 → lstep tries st0 l st' → gone st' id) →
  gone st id ∧ Forall (λ l, ¬ shows id l) ls2.
Proof.
  intros H Hl. revert st H. induction ls2 as [|l' ls2 IH] using rev_ind; intros st H.
  - destruct (reachable_snoc _ _ _ _ H) as (st0 & H0 & Hstep). split; [by eapply Hl|constructor].
  - change (ls1 ++ l :: ls2 ++ [l']) with (ls1 ++ (l :: ls2) ++ [l']) in H. rewrite (assoc_L app) in H.
    destruct (reachable_snoc _ _ _ _ H) as (st0 & H0 & Hstep). destruct (IH st0 H0) as [Hg HF].
    destruct (gone_step _ _ _ _ _ Hg Hstep). split; [done|]. apply Forall_app. by repeat constructor.
Qed.

(** C6: once Stop has returned for a monitor, no retry queued before sends an
    alert, writes the status or reports an event any more, however the
    goroutines interleave. *)
Theorem silent_after_Stop (tries : Z) (st : system) (ls1 ls2 : list label) (nn : NamespacedName)
    (b : bool) (id : run_id) :
  reachable_from tries st (ls1 ++ LStopped nn b :: ls2) → LAdd nn id ∈ ls1 →
  Forall (λ l, ¬ shows id l) ls2.
Proof.
  intros H Hadd. eapply (reachable_gone tries st ls1 (LStopped nn b) ls2 id H).
  intros st0 st' H0 Hstep. destruct (added_run tries st0 ls1 nn id H0 Hadd) as (r & Hr & Hk).
  by eapply stopped_gone.
Qed.

Lemma unseen_until_Stop tries st ls1 id ls2 nn :
  reachable_from tries st (ls1 ++ LWrite id :: ls2) → LAdd nn id ∈ ls1 →
  (∀ b, LStopped nn b ∉ ls2) → nn ∈ unseen st.
Proof.
  intros H Hadd. revert st H. induction ls2 as [|l' ls2 IH] using rev_ind; intros st H Hno.
  - destruct (reachable_snoc _ _ _ _ H) as (st0 & H0 & Hstep).
    destruct (added_run tries st0 ls1 nn id H0 Hadd) as (r & Hr & Hk).
    inversion Hstep as [|? ? ? ? ? ? Hnw|? r0 Hr0| | | | | |]; subst; [by destruct (Hnw id)|].
    simplify_eq. set_solver.
  - change (ls1 ++ LWrite id :: ls2 ++ [l']) with (ls1 ++ (LWrite id :: ls2) ++ [l']) in H.
    rewrite (assoc_L app) in H. destruct (reachable_snoc _ _ _ _ H) as (st0 & H0 & Hstep).
    assert (nn ∈ unseen st0) as Hin.
    { apply IH; [done|]. intros b Hb. apply (Hno b), elem_of_app. by left. }
    destruct Hstep as [| | | | | | | |nn' s Hs Hruns]; try exact Hin; [set_solver|].
    simpl. apply elem_of_difference. split; [done|]. intros ->%elem_of_singleton.
    apply (Hno (s_any s || s_wrote s)), elem_of_app. right. by apply list_elem_of_singleton.
Qed.

(** Stop reports every status write of a retry: after a retry of the
    monitor has written its status, the next Stop of the monitor to return
    returns true, so the caller then reads past its cache. *)
Theorem Stop_reports_writes (tries : Z) (st : system) (ls1 ls2 : list label) (nn : NamespacedName)
    (b : bool) (id : run_id) :
  reachable_from tries st (ls1 ++ LWrite id :: ls2 ++ [LStopped nn b]) → LAdd nn id ∈ ls1 →
  (∀ b', LStopped nn b' ∉ ls2) → b = true.
Proof.
  intros H Hadd Hno.
  change (ls1 ++ LWrite id :: ls2 ++ [LStopped nn b]) with (ls1 ++ (LWrite id :: ls2) ++ [LStopped nn b]) in H.
  rewrite (assoc_L app) in H. destruct (reachable_snoc _ _ _ _ H) as (st0 & H0 & Hstep).
  pose proof (unseen_until_Stop tries st0 ls1 id ls2 nn H0 Hadd Hno) as Hin.
  destruct (reachable_inv _ _ _ H0) as [_ Hu].
  inversion Hstep as [|? ? ? ? ? Hadv| | | | | | |nn' s Hs Hruns]; subst; [by inversion Hadv|].
  by eapply Hu.
Qed.

(** ** Stop returns *)

(** How many steps a goroutine has left at most. *)
Definition phase_weight (tries : Z) (p : phase) : Z :=
  match p with
  | PSelect t => 6 + 2 * Z.max 0 (tries - t)
  | PTry t => 5 + 2 * Z.max 0 (tries - t)
  | PMark => 4 | PNote | PReport => 3 | PLeave => 2 | PClose => 1 | PDone => 0
  end.

Definition stopper_weight (s : stopper) : Z := 2 + 2 * len (s_runs s) - (if s_closed s then 1 else 0).

Definition total {K A} `{Countable K} (f : A → Z) (m : gmap K A) : Z :=
  zsum ((λ p, f p.2) <$> map_to_list m).

Definition weight (tries : Z) (st : system) : Z :=
  total (λ r, phase_weight tries (r_phase r)) (retries st) + total stopper_weight (stoppers st).

Section total.
Context {K A : Type} `{Countable K} (f : A → Z).

Lemma total_insert_new (m : gmap K A) k x : m !! k = None → total f (<[k := x]> m) = f x + total f m.
Proof. intros Hk. unfold total. by rewrite map_to_list_insert. Qed.

Lemma total_delete (m : gmap K A) k x : m !! k = Some x → total f m = f x + total f (delete k m).
Proof.
  intros Hk. rewrite <-(insert_delete_id m k x Hk) at 1. apply total_insert_new, lookup_delete_eq.
Qed.

Lemma total_insert (m : gmap K A) k x y :
  m !! k = Some x → total f (<[k := y]> m) = total f m - f x + f y.
Proof.
  intros Hk. rewrite (total_delete m k x Hk), <-insert_delete_eq, total_insert_new
    by apply lookup_delete_eq. lia.
Qed.

Lemma total_nonneg (m : gmap K A) : (∀ x, 0 ≤ f x) → 0 ≤ total f m.
Proof. intros Hf. unfold total. apply zsum_nonneg, Forall_fmap, Forall_true. intros x. apply Hf. Qed.
End total.

Lemma advance_weight tries id stopped p l p' :
  advance tries id stopped p l p' → phase_weight tries p' < phase_weight tries p.
Proof.
  destruct 1; simpl; try lia. unfold next_try. destruct (try + 1 <=? tries) eqn:E; zb; simpl; lia.
Qed.

(** Steps other than queueing a retry or beginning a [Stop]. *)
Definition inner (l : label) : Prop := (∀ nn id, l ≠ LAdd nn id) ∧ (∀ nn, l ≠ LStop nn).

Lemma inner_weight tries st l st' : lstep tries st l st' → inner l → weight tries st' < weight tries st.
Proof.
  intros Hstep [Ha Hs]. unfold weight.
  destruct Hstep as [nn id Hid Hn|id r l p Hid Hadv Hnw|id r Hid Hp|id r Hid Hp|id r Hid Hp
    |nn Hn|nn s id rest r Hn Hruns Hc Hid|nn s id rest r Hn Hruns Hc Hid Hd|nn s Hn Hruns];
    cbn -[insert delete lookup remove]; try (exfalso; naive_solver);
    rewrite ?(total_insert _ _ _ _ _ Hid), ?(total_insert _ _ _ _ _ Hn); cbn [at_phase r_phase close_stop];
    try (rewrite Hp; simpl; lia).
  - apply advance_weight in Hadv. lia.
  - unfold stopper_weight. rewrite Hruns, Hc. simpl. lia.
  - unfold stopper_weight. rewrite Hruns, Hc, len_cons. simpl. lia.
  - rewrite (total_delete _ _ _ _ Hn). unfold stopper_weight. rewrite Hruns. change (len []) with 0.
    destruct (s_closed s); lia.
Qed.

(** The goroutine goes from where it stands to another place. *)
Definition run_moves (tries : Z) (st : system) (id : run_id) (r : retry) : Prop :=
  ∃ l st' p, lstep tries st l st' ∧ inner l ∧ retries st' !! id = Some (at_phase r p) ∧ p ≠ r_phase r.

(** A goroutine that has not ended can take a step of its own, whatever the
    others do. *)
Lemma run_enabled tries st id r :
  retries st !! id = Some r → r_phase r ≠ PDone → run_moves tries st id r.
Proof.
  intros Hid Hd.
  assert (∀ l p, advance tries id (r_stopped r) (r_phase r) l p → (∀ i, l ≠ LWrite i) → inner l → p ≠ r_phase r →
    run_moves tries st id r) as Hadv.
  { intros l p H Hw Hi Hne. exists l, (set_retry st id (at_phase r p)), p.
    split; [by eapply step_advance|]. split; [done|]. split; [apply lookup_insert_eq|done]. }
  destruct (r_phase r) eqn:Hp.
  - eapply Hadv; [apply adv_timer|done|by split|done].
  - eapply Hadv; [apply adv_gone|done|by split|done].
  - eapply Hadv; [apply adv_mark_failed|done|by split|done].
  - eexists _, _, PLeave. split; [by eapply step_note|]. split; [by split|]. split; [apply lookup_insert_eq|by rewrite Hp].
  - eapply Hadv; [apply adv_report|done|by split|done].
  - eexists _, _, PClose. split; [by eapply step_remove|]. split; [by split|]. split; [apply lookup_insert_eq|by rewrite Hp].
  - eapply Hadv; [apply adv_close|done|by split|done].
  - done.
Qed.

(** The Stop of the monitor goes on by a step of its own. *)
Definition stop_moves (tries : Z) (st : system) (nn : NamespacedName) (s : stopper) : Prop :=
  ∃ l st', lstep tries st l st' ∧ inner l ∧ stoppers st' !! nn ≠ Some s.

(** It waits for its first run, which can move. *)
Definition stop_waits (tries : Z) (st : system) (s : stopper) : Prop :=
  ∃ id rest r, s_runs s = id :: rest ∧ s_closed s = true ∧ retries st !! id = Some r ∧ r_phase r ≠ PDone ∧
    run_moves tries st id r.

Lemma stop_enabled tries st nn s :
  inv st → stoppers st !! nn = Some s → stop_moves tries st nn s ∨ stop_waits tries st s.
Proof.
  intros [Hl _] Hs. destruct (s_runs s) as [|id rest] eqn:Hruns.
  { left. eexists _, _. split; [by eapply step_stopped|]. split; [by split|]. cbn [stoppers]. by rewrite lookup_delete_eq. }
  destruct (stopper_run _ _ _ Hl nn s 0 id Hs) as (r & Hr & _ & _); [by rewrite Hruns|].
  destruct (s_closed s) eqn:Hc.
  - destruct (decide (r_phase r = PDone)) as [Hd|Hd]; [left|right; exists id, rest, r; by split_and!; [..|apply run_enabled]].
    eexists _, _. split; [by eapply step_wait|]. split; [by split|]. cbn [set_stopper stoppers].
    rewrite lookup_insert_eq. intros [= E]. rewrite <-E in Hc. done.
  - left. eexists _, _. split; [by eapply step_close|]. split; [by split|]. cbn [set_stopper stoppers].
    rewrite lookup_insert_eq. intros [= E]. rewrite <-E in Hc. done.
Qed.

(** Steps of the goroutines and of the Stops under way, without new alerts. *)
Inductive inner_run (tries : Z) : system → nat → system → Prop :=
| run_here st : inner_run tries st 0 st
| run_on st l st1 k st' :
    lstep tries st l st1 → inner l → inner_run tries st1 k st' → inner_run tries st (S k) st'.

Lemma weight_nonneg tries st : 0 ≤ weight tries st.
Proof.
  unfold weight. apply Z.add_nonneg_nonneg; apply total_nonneg.
  - intros r. unfold phase_weight. destruct (r_phase r); lia.
  - intros s. unfold stopper_weight. pose proof (len_nonneg (s_runs s)). destruct (s_closed s); lia.
Qed.

Lemma inner_run_bound tries st k st' ls :
  inner_run tries st k st' → reachable_from tries st ls →
  Z.of_nat k ≤ weight tries st ∧ ∃ ls', reachable_from tries st' ls'.
Proof.
  intros Hr. revert ls. induction Hr as [st|st l st1 k st' Hstep Hi _ IH]; intros ls H.
  { split; [apply weight_nonneg|by eexists]. }
  destruct (IH (ls ++ [l])) as [Hk Hreach]; [by eapply reach_step|]. split; [|done].
  apply inner_weight in Hstep; [lia|done].
Qed.

(** C40: a Stop under way never gets stuck and never panics: it can take its
    next step itself, or it waits for the end of the run it has told to stop,
    and that goroutine can take its next step; the channel it is about to
    close is open.  Without new alerts the goroutines and the Stops take only
    so many steps, and when none of them can go on every Stop has returned. *)
Theorem Stop_returns (tries : Z) (st : system) (ls : list label) :
  reachable_from tries st ls →
  (∀ nn s, stoppers st !! nn = Some s →
     (stop_moves tries st nn s ∨ stop_waits tries st s) ∧
     (∀ id rest r, s_runs s = id :: rest → s_closed s = false → retries st !! id = Some r →
        r_stopped r = false)) ∧
  (∀ k st', inner_run tries st k st' →
     Z.of_nat k ≤ weight tries st ∧
     ((∀ l st'', lstep tries st' l st'' → ¬ inner l) → stoppers st' = ∅)).
Proof.
  intros Hreach. pose proof (reachable_inv _ _ _ Hreach) as Hinv. split.
  - intros nn s Hs. split; [by apply stop_enabled|]. intros id rest r Hruns Hc Hr.
    destruct Hinv as [Hl _]. destruct (stopper_run _ _ _ Hl nn s 0 id Hs) as (r' & Hr' & _ & Ho); [by rewrite Hruns|].
    simplify_eq. apply Ho. by right.
  - intros k st' Hrun. destruct (inner_run_bound _ _ _ _ _ Hrun Hreach) as [Hk [ls' H']]. split; [done|].
    intros Hend. apply map_empty. intros nn. destruct (stoppers st' !! nn) as [s|] eqn:Hs; [|done]. exfalso.
    destruct (stop_enabled tries st' nn s (reachable_inv _ _ _ H') Hs)
      as [(l & st'' & Hstep & Hi & _)|(? & ? & ? & _ & _ & _ & _ & (l & st'' & ? & Hstep & Hi & _))];
      by apply (Hend l st'').
Qed.

(** ** A concrete execution

    A retry delivers a change and writes the status while a check of the
    monitor begins; another retry is queued after the check. *)

Definition sim_key : NamespacedName := {| nn_Namespace := "ns"; nn_Name := "api" |}.

Definition sim_before : list label := [LAdd sim_key 0%nat; LQuiet; LSend 0%nat].
Definition sim_between : list label := [LStop sim_key; LQuiet; LQuiet; LQuiet; LQuiet; LQuiet].
Definition sim_after : list label := [LAdd sim_key 1%nat; LQuiet; LSend 1%nat].

Ltac extend H rule := eapply reach_step in H; [|rule].

Lemma sim_stop_reachable :
  ∃ st, reachable_from 5 st (sim_before ++ LWrite 0%nat :: sim_between ++ [LStopped sim_key true]) ∧
        retries st !! 1%nat = None ∧ stoppers st !! sim_key = None.
Proof.
  pose proof (reach_none 5) as H.
  extend H ltac:(apply (step_add 5 _ sim_key 0%nat); reflexivity).
  extend H ltac:(eapply (step_advance 5 _ 0%nat); [reflexivity|apply adv_timer|done]).
  extend H ltac:(eapply (step_advance 5 _ 0%nat); [reflexivity|apply adv_delivered_change|done]).
  extend H ltac:(eapply (step_write 5 _ 0%nat); reflexivity).
  extend H ltac:(apply (step_stop 5 _ sim_key); reflexivity).
  extend H ltac:(eapply (step_close 5 _ sim_key); reflexivity).
  extend H ltac:(eapply (step_note 5 _ 0%nat); reflexivity).
  extend H ltac:(eapply (step_remove 5 _ 0%nat); reflexivity).
  extend H ltac:(eapply (step_advance 5 _ 0%nat); [reflexivity|apply adv_close|done]).
  extend H ltac:(eapply (step_wait 5 _ sim_key); reflexivity).
  extend H ltac:(eapply (step_stopped 5 _ sim_key); reflexivity).
  eexists. split; [exact H|]. split; reflexivity.
Qed.

Lemma sim_after_reachable :
  ∃ st, reachable_from 5 st
    ((sim_before ++ LWrite 0%nat :: sim_between) ++ LStopped sim_key true :: sim_after).
Proof.
  destruct sim_stop_reachable as (st & H & Hr & Hs).
  extend H ltac:(apply (step_add 5 _ sim_key 1%nat); [exact Hr|exact Hs]).
  extend H ltac:(eapply (step_advance 5 _ 1%nat); [apply lookup_insert_eq|apply adv_timer|done]).
  extend H ltac:(eapply (step_advance 5 _ 1%nat); [apply lookup_insert_eq|apply adv_delivered|done]).
  eexists. exact H.
Qed.

Lemma silent_after_Stop_witness : Forall (λ l, ¬ shows 0%nat l) sim_after.
Proof.
  destruct sim_after_reachable as [st H].
  apply (silent_after_Stop 5 st (sim_before ++ LWrite 0%nat :: sim_between) sim_after sim_key true 0%nat H).
  by left.
Defined.

Lemma Stop_reports_writes_witness :
  ∃ st b, reachable_from 5 st (sim_before ++ LWrite 0%nat :: sim_between ++ [LStopped sim_key b]) ∧ b = true.
Proof.
  destruct sim_stop_reachable as (st & H & _). exists st, true. split; [exact H|].
  apply (Stop_reports_writes 5 st sim_before sim_between sim_key true 0%nat H); [by left|].
  intros b Hb. unfold sim_between in Hb.
  repeat (apply elem_of_cons in Hb as [?|Hb]; [done|]). by apply elem_of_nil in Hb.
Defined.

(** The Stop has closed the run's channel while the run is about to note its
    write. *)
Lemma sim_stopping_reachable :
  ∃ st, reachable_from 5 st (sim_before ++ LWrite 0%nat :: [LStop sim_key; LQuiet]) ∧
    stoppers st !! sim_key = Some {| s_runs := [0%nat]; s_closed := true; s_any := true; s_wrote := false |} ∧
    retries st !! 0%nat = Some {| r_key := sim_key; r_stopped := true; r_phase := PNote |}.
Proof.
  pose proof (reach_none 5) as H.
  extend H ltac:(apply (step_add 5 _ sim_key 0%nat); reflexivity).
  extend H ltac:(eapply (step_advance 5 _ 0%nat); [reflexivity|apply adv_timer|done]).
  extend H ltac:(eapply (step_advance 5 _ 0%nat); [reflexivity|apply adv_delivered_change|done]).
  extend H ltac:(eapply (step_write 5 _ 0%nat); reflexivity).
  extend H ltac:(apply (step_stop 5 _ sim_key); reflexivity).
  extend H ltac:(eapply (step_close 5 _ sim_key); reflexivity).
  eexists. split; [exact H|]. split; reflexivity.
Qed.

Lemma Stop_returns_witness :
  ∃ st r, retries st !! 0%nat = Some r ∧ r_phase r = PNote ∧ stoppers st ≠ ∅ ∧ run_moves 5 st 0%nat r ∧
    ∀ k st', inner_run 5 st k st' → (∀ l st'', lstep 5 st' l st'' → ¬ inner l) → stoppers st' = ∅.
Proof.
  destruct sim_stopping_reachable as (st & H & Hs & Hr). eexists st, _. split; [exact Hr|]. split; [done|].
  destruct (Stop_returns 5 st _ H) as [Hstop Hall]. destruct (Hstop _ _ Hs) as [[Hm|Hw] _].
  - exfalso. destruct Hm as (l & st' & Hstep & [Ha Hi] & Hne). apply Hne.
    destruct Hstep as [nn id Hid Hn|id r l p Hid Hadv Hnw|id r Hid Hp|id r Hid Hp|id r Hid Hp
      |nn Hn|nn s id rest r Hn Hruns Hc Hid|nn s id rest r Hn Hruns Hc Hid Hd|nn s Hn Hruns];
      try done; try (by destruct (Ha nn id)); try (by destruct (Hi nn));
      cbn -[insert delete lookup remove]; destruct (decide (nn = sim_key)) as [->|Hk];
      rewrite ?lookup_insert_ne, ?lookup_delete_ne by done; try done; rewrite Hs in Hn; simplify_eq/=.
    pose proof (eq_trans (eq_sym Hr) Hid) as [= <-]. done.
  - split; [|split; [|by intros k st' Hrun; apply (Hall k st' Hrun)]].
    + intros E. by rewrite E in Hs.
    + destruct Hw as (id & rest & r & [= <- <-] & _ & Hr' & _ & Hmove). pose proof (eq_trans (eq_sym Hr) Hr') as [= <-]. done.
Defined.
