(* ===== verification/Base64.v ===== *)
(** * Decoding base64

    [base64.StdEncoding.DecodeString], and that it undoes the encoding of
    GoStd. *)

From S2P Require Import Prelude GoStd.

Fixpoint index_of (c : ascii) (s : string) : option N :=
  match s with
  | "" => None
  | String d s => if decide (d = c) then Some 0%N else N.succ <$> index_of c s
  end.

Definition sextet (c : ascii) : option N := index_of c base64_alphabet.

Definition byte (n : N) : ascii := ascii_of_N (n `mod` 256).

(** Four characters give three bytes, the last four perhaps fewer. *)
Fixpoint decode_quads (s : string) : option string :=
  match s with
  | "" => Some ""
  | String a (String b (String c (String d s))) =>
      va ← sextet a;
      vb ← sextet b;
      match sextet c, sextet d, s with
      | Some vc, Some vd, s =>
          let n := (((va * 64 + vb) * 64 + vc) * 64 + vd)%N in
          rest ← decode_quads s;
          Some (String (byte (n / 65536)) (String (byte (n / 256)) (String (byte n) rest)))
      | Some vc, None, "" =>
          let n := ((va * 64 + vb) * 64 + vc)%N in
          if decide (d = "="%char) then Some (String (byte (n / 1024)) (String (byte (n / 4)) "")) else None
      | None, None, "" =>
          let n := (va * 64 + vb)%N in
          if decide (c = "="%char ∧ d = "="%char) then Some (String (byte (n / 16)) "") else None
      | _, _, _ => None
      end
  | _ => None
  end.

Fixpoint drop_line_ends (s : string) : string :=
  match s with
  | "" => ""
  | String c s => if has_byte c CRLF then drop_line_ends s else String c (drop_line_ends s)
  end.

Definition base64_decode (s : string) : option string := decode_quads (drop_line_ends s).

(** ** The round trip *)

Fixpoint all_below (p : N → bool) (n : nat) : bool :=
  match n with O => true | S n => p (N.of_nat n) && all_below p n end.

Lemma all_below_spec p n k : all_below p n = true → (k < N.of_nat n)%N → p k = true.
Proof.
  induction n as [|n IH]; [lia|]. cbn [all_below]. intros [Hp Hn]%andb_true_iff Hk.
  destruct (decide (k = N.of_nat n)) as [->|Hne]; [done|]. apply IH; [done|]. lia.
Qed.

(** What holds of the 64 characters of the alphabet holds of every encoded one. *)
Lemma base64_char_ind (p : N → ascii → bool) n :
  all_below (λ k, p k (base64_char k)) 64 = true → p (n `mod` 64)%N (base64_char n) = true.
Proof.
  intros H. assert (base64_char n = base64_char (n `mod` 64)) as ->.
  { unfold base64_char. by rewrite N.Div0.mod_mod. }
  apply (all_below_spec (λ k, p k (base64_char k)) 64 (n `mod` 64)); [done|]. by apply N.mod_lt.
Qed.

Lemma sextet_char n : sextet (base64_char n) = Some (n `mod` 64)%N.
Proof.
  pose proof (base64_char_ind (λ k c, bool_decide (sextet c = Some k)) n) as H. cbv beta in H.
  rewrite bool_decide_eq_true in H. apply H. vm_compute. reflexivity.
Qed.

Lemma sextet_pad : sextet "=" = None.
Proof. reflexivity. Qed.

Lemma char_not_line_end n : has_byte (base64_char n) CRLF = false.
Proof.
  apply negb_true_iff, (base64_char_ind (λ _ c, negb (has_byte c CRLF))). vm_compute. reflexivity.
Qed.

Lemma byte_ascii a n : (n `mod` 256 = N_of_ascii a)%N → byte n = a.
Proof. intros H. unfold byte. by rewrite H, ascii_N_embedding. Qed.

Lemma ascii_small a : (N_of_ascii a < 256)%N.
Proof. apply N_ascii_bounded. Qed.

(** The sextets of a number, put together again. *)
Lemma join_two n : (n < 64 * 64)%N → ((n / 64) `mod` 64 * 64 + n `mod` 64 = n)%N.
Proof.
  intros Hn. pose proof (N.div_mod n 64). assert (n / 64 < 64)%N by (apply N.Div0.div_lt_upper_bound; lia).
  rewrite (N.mod_small (n / 64)) by done. lia.
Qed.

Lemma join_three n :
  (n < 64 * 64 * 64)%N → (((n / 4096) `mod` 64 * 64 + (n / 64) `mod` 64) * 64 + n `mod` 64 = n)%N.
Proof.
  intros Hn. pose proof (N.div_mod n 64).
  replace (n / 4096)%N with (n / 64 / 64)%N by (rewrite !N.Div0.div_div; reflexivity).
  rewrite join_two by (apply N.Div0.div_lt_upper_bound; lia). lia.
Qed.

Lemma join_four n :
  (n < 64 * 64 * 64 * 64)%N →
  ((((n / 262144) `mod` 64 * 64 + (n / 4096) `mod` 64) * 64 + (n / 64) `mod` 64) * 64 + n `mod` 64 = n)%N.
Proof.
  intros Hn. pose proof (N.div_mod n 64).
  replace (n / 262144)%N with (n / 64 / 4096)%N by (rewrite !N.Div0.div_div; reflexivity).
  replace (n / 4096)%N with (n / 64 / 64)%N by (rewrite !N.Div0.div_div; reflexivity).
  rewrite join_three by (apply N.Div0.div_lt_upper_bound; lia). lia.
Qed.

(** The bytes of a number of up to three. *)
Lemma byte_shift a x y m : (m ≠ 0 → y < m → a < 256 → (((x * 256 + a) * m + y) / m) `mod` 256 = a)%N.
Proof.
  intros Hm Hy Ha. rewrite N.div_add_l, (N.div_small y m), N.add_0_r by done.
  rewrite N.add_comm, N.Div0.mod_add. by apply N.mod_small.
Qed.

Ltac sextets := rewrite ?sextet_char, ?sextet_pad; cbn [mbind option_bind].

Lemma decode_encode s : decode_quads (base64 s) = Some s.
Proof.
  induction s as [s IH] using (induction_ltof1 _ String.length). unfold ltof in IH.
  destruct s as [|a [|b [|c s]]]; [done| | |].
  - cbn [base64 decode_quads]. sextets. rewrite decide_True by done.
    pose proof (ascii_small a). rewrite join_two by lia.
    f_equal. f_equal. apply byte_ascii. rewrite N.div_mul by done. by apply N.mod_small.
  - cbn [base64 decode_quads]. sextets. rewrite decide_True by done.
    pose proof (ascii_small a). pose proof (ascii_small b). rewrite join_three by lia.
    f_equal. f_equal; [|f_equal]; apply byte_ascii.
    + replace (_ * 4)%N with ((0 * 256 + N_of_ascii a) * 1024 + N_of_ascii b * 4)%N by lia.
      by apply byte_shift; [|lia|].
    + replace (_ * 4)%N with ((N_of_ascii a * 256 + N_of_ascii b) * 4 + 0)%N by lia. by apply byte_shift.
  - cbn [base64 decode_quads]. sextets. rewrite IH by (simpl; lia). cbn [mbind option_bind].
    pose proof (ascii_small a). pose proof (ascii_small b). pose proof (ascii_small c).
    rewrite join_four by lia.
    f_equal. f_equal; [|f_equal; [|f_equal]]; apply byte_ascii.
    + replace (_ + N_of_ascii c)%N with ((0 * 256 + N_of_ascii a) * 65536 + (N_of_ascii b * 256 + N_of_ascii c))%N
        by lia. by apply byte_shift; [|lia|].
    + by apply byte_shift.
    + rewrite N.add_comm, N.Div0.mod_add. by apply N.mod_small.
Qed.

Lemma drop_line_ends_id s : drop_line_ends (base64 s) = base64 s.
Proof.
  induction s as [s IH] using (induction_ltof1 _ String.length). unfold ltof in IH.
  destruct s as [|a [|b [|c s]]]; [done| | |]; cbn [base64 drop_line_ends]; rewrite ?char_not_line_end.
  - reflexivity.
  - reflexivity.
  - rewrite IH by (simpl; lia). reflexivity.
Qed.

Theorem base64_roundtrip (s : string) : base64_decode (base64 s) = Some s.
Proof. unfold base64_decode. by rewrite drop_line_ends_id, decode_encode. Qed.

(** Encoded text fits on a line. *)
Lemma base64_no_line_end s c : has_byte c CRLF = true → has_byte c (base64 s) = false.
Proof.
  intros Hc. rewrite <-drop_line_ends_id. generalize (base64 s) as t. intros t.
  induction t as [|d t IH]; cbn [drop_line_ends]; [done|].
  destruct (has_byte d CRLF) eqn:Ed; [done|]. cbn [has_byte]. case_decide; [congruence|done].
Qed.
