(* ===== verification/Dot.v ===== *)
(** * Mail data on the wire (net/textproto, RFC 5321)

    The writer that turns a message into SMTP DATA - lines end with CRLF, a
    leading dot is doubled, a line with a dot alone ends the data - and the
    receiver it is meant for.  Proved: the receiver gets exactly the lines of
    the message, and what follows is left for the next command. *)

From S2P Require Import Prelude GoStd.

(** ** [textproto.dotWriter] *)

Inductive wstate := wstateBegin | wstateBeginLine | wstateCR | wstateData.

(** What a byte adds to the output in the middle of a line. *)
Definition data_byte (c : ascii) : string * wstate :=
  if decide (c = LF) then (CRLF, wstateBeginLine)
  else (String c "", if decide (c = CR) then wstateCR else wstateData).

Definition dot_byte (st : wstate) (c : ascii) : string * wstate :=
  match st with
  | wstateBegin | wstateBeginLine =>
      let '(out, st) := data_byte c in ((if decide (c = "."%char) then "." else "") +:+ out, st)
  | wstateData => data_byte c
  | wstateCR => (String c "", if decide (c = LF) then wstateBeginLine else wstateData)
  end.

(** [Write] *)
Fixpoint dot_write (st : wstate) (s : string) : string * wstate :=
  match s with
  | "" => ("", st)
  | String c s =>
      let '(out, st) := dot_byte st c in
      let '(outs, st) := dot_write st s in (out +:+ outs, st)
  end.

(** [Close] *)
Definition dot_close (st : wstate) : string :=
  match st with
  | wstateBeginLine => "." +:+ CRLF
  | wstateCR => String LF ("." +:+ CRLF)
  | wstateBegin | wstateData => CRLF +:+ "." +:+ CRLF
  end.

(** A message and the end of the data. *)
Definition dot_text (s : string) : string := let '(out, st) := dot_write wstateBegin s in out +:+ dot_close st.

(** ** The receiver

    It takes lines that end with CRLF until one is a dot alone, and removes
    the first dot of the others: the lines, and the bytes after the data. *)

Fixpoint read_data (line s : string) : option (list string * string) :=
  match s with
  | "" => None
  | String c s1 =>
      match s1 with
      | String d s2 =>
          if decide (c = CR ∧ d = LF) then
            if decide (line = ".") then Some ([], s2)
            else '(ls, rest) ← read_data "" s2; Some (trim_prefix "." line :: ls, rest)
          else read_data (line +:+ String c "") s1
      | "" => None
      end
  end.

(** ** What arrives of a line

    A carriage return before the line feed is part of the line's end; of
    several, the writer takes them for line ends in pairs. *)
Fixpoint wire_line (cr : bool) (l : string) : string :=
  match l with
  | "" => ""
  | String c l =>
      if cr then String CR (String c (wire_line false l))
      else if decide (c = CR) then wire_line true l else String c (wire_line false l)
  end.

Definition no_cr (s : string) : Prop := has_byte CR s = false.

Lemma wire_line_id l : no_cr l → wire_line false l = l.
Proof.
  unfold no_cr. induction l as [|c l IH]; [done|]. cbn [has_byte wire_line].
  case_decide as E; [done|]. intros H. rewrite decide_False by congruence. by rewrite IH.
Qed.

Lemma wire_line_end l : no_cr l → wire_line false (l +:+ String CR "") = l.
Proof.
  unfold no_cr. induction l as [|c l IH]; [done|]. cbn [has_byte String.append wire_line].
  case_decide as E; [done|]. intros H. rewrite decide_False by congruence. by rewrite IH.
Qed.

(** ** The round trip *)

(** A line as the writer writes it. *)
Definition stuffed (content : string) : string :=
  if has_prefix "." content then String "." content else content.

Lemma prefix_dot c s : has_prefix "." (String c s) = bool_decide (c = "."%char).
Proof.
  unfold has_prefix. cbn [String.prefix]. destruct (ascii_dec "." c) as [<-|H].
  - rewrite bool_decide_true by done. by destruct s.
  - by rewrite bool_decide_false by congruence.
Qed.

Lemma stuffed_not_end content : stuffed content ≠ ".".
Proof.
  unfold stuffed. destruct content as [|c s]; [done|]. rewrite prefix_dot. case_bool_decide; [done|congruence].
Qed.

Lemma unstuffed content : trim_prefix "." (stuffed content) = content.
Proof.
  unfold stuffed, trim_prefix. destruct content as [|c s]; [done|]. rewrite prefix_dot. case_bool_decide.
  - rewrite prefix_dot, bool_decide_true by done. reflexivity.
  - by rewrite prefix_dot, bool_decide_false by done.
Qed.

Lemma stuffed_app c content s : stuffed (String c content +:+ s) = stuffed (String c content) +:+ s.
Proof.
  unfold stuffed. cbn [String.append]. rewrite !prefix_dot. by case_bool_decide.
Qed.

Lemma read_data_end line s :
  line ≠ "." →
  read_data line (String CR (String LF s)) =
  ('(ls, rest) ← read_data "" s; Some (trim_prefix "." line :: ls, rest)).
Proof. intros H. cbn [read_data]. rewrite decide_True, decide_False by done. done. Qed.

Lemma read_data_byte line c s :
  s ≠ "" → (c = CR → head (String.list_ascii_of_string s) ≠ Some LF) →
  read_data line (String c s) = read_data (line +:+ String c "") s.
Proof.
  destruct s as [|d s]; [done|]. intros _ H. cbn [read_data]. rewrite decide_False; [done|].
  intros [-> ->]. by apply H.
Qed.

(** The bytes still to be written by a state, which never start with a line
    feed unless a carriage return is pending. *)
Definition remaining (st : wstate) (s rest : string) : string :=
  let '(out, st) := dot_write st s in out +:+ dot_close st +:+ rest.

Lemma remaining_cons st c s rest :
  remaining st (String c s) rest = (dot_byte st c).1 +:+ remaining (dot_byte st c).2 s rest.
Proof.
  unfold remaining. cbn [dot_write]. destruct (dot_byte st c) as [out st']. cbn [fst snd].
  destruct (dot_write st' s) as [outs st2]. by rewrite <-!sapp_assoc.
Qed.

Lemma remaining_ne st s rest : remaining st s rest ≠ "".
Proof.
  revert st. induction s as [|c s IH]; intros st.
  { unfold remaining. simpl. by destruct st. }
  rewrite remaining_cons. intros H. apply (IH (dot_byte st c).2).
  by destruct (dot_byte st c) as [[|] ?].
Qed.

Lemma remaining_head st s rest :
  st ≠ wstateCR → head (String.list_ascii_of_string (remaining st s rest)) ≠ Some LF.
Proof.
  intros Hst. destruct s as [|c s]; [by destruct st|]. rewrite remaining_cons.
  assert (∃ d o, (dot_byte st c).1 = String d o ∧ d ≠ LF) as (d & o & -> & Hd); [|simpl; congruence].
  destruct st; try done; unfold dot_byte, data_byte;
    destruct (decide (c = LF)) as [->|Hc]; simpl; repeat case_decide; eexists _, _; (split; [done|]); try done.
Qed.

(** The end of a line: what the state writes for a line feed ends it. *)
Lemma read_line_end st content s rest :
  match st with wstateBegin | wstateBeginLine => content = "" | _ => True end →
  read_data (stuffed content)
    ((match st with wstateCR => String CR "" | _ => "" end) +:+ remaining st (String LF s) rest) =
  ('(ls, rest) ← read_data "" (remaining wstateBeginLine s rest); Some (content :: ls, rest)).
Proof.
  intros Hst. rewrite remaining_cons.
  assert (∀ X, read_data (stuffed content) (String CR (String LF X)) =
    ('(ls, rest) ← read_data "" X; Some (content :: ls, rest))) as H.
  { intros X. rewrite read_data_end by apply stuffed_not_end. by rewrite unstuffed. }
  destruct st; exact (H _).
Qed.

(** A carriage return the writer has passed on but not judged yet. *)
Definition pending (st : wstate) : bool := match st with wstateCR => true | _ => false end.

(** The receiver takes the lines of [s] from the writer in state [st], whose
    current line has the given content so far. *)
Definition receives (st : wstate) (content s rest : string) : Prop :=
  ∃ l ls, split LF s = l :: ls ∧
    read_data (stuffed content)
      ((if pending st then String CR "" else "") +:+ remaining st (s +:+ String LF "") rest) =
    Some ((content +:+ wire_line (pending st) l) :: (wire_line false <$> ls), rest).

Lemma stuffed_char c : c ≠ "."%char → stuffed (String c "") = String c "".
Proof. intros H. unfold stuffed. by rewrite prefix_dot, bool_decide_false. Qed.

(** A byte in the middle of a line. *)
Lemma receives_data content c s rest :
  c ≠ LF → content ≠ "" → receives wstateCR content s rest →
  receives wstateData (content +:+ String c "") s rest → receives wstateData content (String c s) rest.
Proof.
  intros Hc Hne (l & ls & Hs & HCR) (l' & ls' & Hs' & Hd). rewrite Hs in Hs'. injection Hs' as <- <-.
  exists (String c l), ls. cbn [split String.append]. rewrite decide_False, Hs by congruence. split; [done|].
  rewrite remaining_cons. unfold dot_byte, data_byte. rewrite decide_False by done. cbn [fst snd wire_line].
  case_decide as Ecr.
  - subst c. exact HCR.
  - cbn [pending String.append]. rewrite read_data_byte by (by first [apply remaining_ne|intros ->]).
    destruct content as [|d content]; [done|]. rewrite <-stuffed_app. cbn [pending] in Hd.
    rewrite <-!sapp_assoc in Hd. exact Hd.
Qed.

(** A byte after a carriage return. *)
Lemma receives_CR content c s rest :
  c ≠ LF → receives wstateData (content +:+ String CR (String c "")) s rest →
  receives wstateCR content (String c s) rest.
Proof.
  intros Hc (l & ls & Hs & Hd). exists (String c l), ls. cbn [split String.append].
  rewrite decide_False, Hs by congruence. split; [done|].
  rewrite remaining_cons. unfold dot_byte. rewrite decide_False by done. cbn [fst snd wire_line pending String.append] in *.
  rewrite read_data_byte by (simpl; congruence).
  rewrite read_data_byte by (first [apply remaining_ne|intros _; by apply remaining_head]).
  assert (stuffed content +:+ String CR "" +:+ String c "" = stuffed (content +:+ String CR (String c ""))) as E.
  { destruct content as [|d content]; [|by rewrite stuffed_app]. exact (eq_sym (stuffed_app CR "" (String c ""))). }
  rewrite <-sapp_assoc, E, Hd. by rewrite <-sapp_assoc.
Qed.

(** The first byte of a line. *)
Lemma receives_first st c s rest :
  st = wstateBegin ∨ st = wstateBeginLine → c ≠ LF → receives wstateCR "" s rest →
  receives wstateData (String c "") s rest → receives st "" (String c s) rest.
Proof.
  intros Hst Hc (l & ls & Hs & HCR) (l' & ls' & Hs' & Hd). rewrite Hs in Hs'. injection Hs' as <- <-.
  exists (String c l), ls. cbn [split String.append]. rewrite decide_False, Hs by congruence. split; [done|].
  rewrite remaining_cons. assert (pending st = false) as -> by (by destruct Hst as [-> | ->]).
  assert (dot_byte st c = ((if decide (c = "."%char) then "." else "") +:+ (data_byte c).1, (data_byte c).2)) as ->.
  { destruct Hst as [-> | ->]; unfold dot_byte; by destruct (data_byte c). }
  unfold data_byte. rewrite (decide_False (P:=c = LF)) by done. cbn [fst snd wire_line String.append] in *.
  change (stuffed "") with "" in *. case_decide as Edot.
  - subst c. cbn [pending] in *. cbn [String.append]. rewrite read_data_byte by done.
    rewrite read_data_byte by (first [apply remaining_ne|done]). exact Hd.
  - case_decide as Ecr.
    + subst c. exact HCR.
    + cbn [pending String.append] in *. rewrite read_data_byte by (by first [apply remaining_ne|intros ->]).
      rewrite stuffed_char in Hd by done. exact Hd.
Qed.

Lemma receives_end st content s rest :
  match st with wstateBegin | wstateBeginLine => content = "" | _ => True end →
  receives wstateBeginLine "" s rest → receives st content (String LF s) rest.
Proof.
  intros Hst (l & ls & Hs & Hr). exists "", (l :: ls). split.
  { cbn [split]. by rewrite decide_True, Hs. }
  assert ((if pending st then String CR "" else "") = match st with wstateCR => String CR "" | _ => "" end) as ->
    by (by destruct st).
  cbn [String.append pending] in *. rewrite read_line_end by done. change (stuffed "") with "" in Hr. rewrite Hr.
  cbn [mbind option_bind fmap list_fmap]. destruct (pending st); cbn [wire_line]; by rewrite sapp_nil_r.
Qed.

Lemma receives_all st content s rest :
  match st with wstateBegin | wstateBeginLine => content = "" | wstateCR => True | wstateData => content ≠ "" end →
  receives st content s rest.
Proof.
  revert st content. induction s as [|c s IH]; intros st content Hst.
  { exists "", []. split; [done|].
    assert ((if pending st then String CR "" else "") = match st with wstateCR => String CR "" | _ => "" end) as ->
      by (by destruct st).
    cbn [String.append]. rewrite read_line_end by (by destruct st).
    assert (read_data "" (remaining wstateBeginLine "" rest) = Some ([], rest)) as -> by reflexivity.
    cbn [mbind option_bind]. destruct (pending st); cbn [wire_line]; by rewrite sapp_nil_r. }
  destruct (decide (c = LF)) as [->|Hc].
  { apply receives_end; [by destruct st|]. by apply IH. }
  destruct st.
  - subst content. apply receives_first; [by left|done|by apply IH|by apply IH].
  - subst content. apply receives_first; [by right|done|by apply IH|by apply IH].
  - apply receives_CR; [done|]. apply IH. by destruct content.
  - apply receives_data; [done..|by apply IH|apply IH; by destruct content].
Qed.

(** The lines of a message that ends with a line feed arrive, and what is sent
    after the data is left. *)
Lemma read_dot_text s rest :
  read_data "" (dot_text (s +:+ String LF "") +:+ rest) = Some (wire_line false <$> split LF s, rest).
Proof.
  destruct (receives_all wstateBegin "" s rest eq_refl) as (l & ls & Hs & Hr). rewrite Hs.
  unfold remaining in Hr. cbn [pending String.append] in Hr. change (stuffed "") with "" in Hr.
  unfold dot_text. destruct (dot_write wstateBegin (s +:+ String LF "")) as [out st].
  by rewrite <-sapp_assoc.
Qed.
