(* ===== verification/Float64.v ===== *)
(** * Go's float64

    IEEE 754 binary64 arithmetic, computed on the Standard Library's
    [spec_float]: the conversion from [int] and the operations the dashboard
    uses, all rounding to nearest even. *)

From S2P Require Import Prelude.
From Stdlib Require Import SpecFloat.

Definition float64 : Type := spec_float.

Definition prec64 : Z := 53.
Definition emax64 : Z := 1024.

(** [float64(z)] *)
Definition float_of_int (z : Z) : float64 := binary_normalize prec64 emax64 z 0 false.

Definition fzero : float64 := S754_zero false.
Definition fadd : float64 → float64 → float64 := SFadd prec64 emax64.
Definition fsub : float64 → float64 → float64 := SFsub prec64 emax64.
Definition fmul : float64 → float64 → float64 := SFmul prec64 emax64.
Definition fdiv : float64 → float64 → float64 := SFdiv prec64 emax64.

(** Neither NaN nor an infinity. *)
Definition finite_float (f : float64) : bool :=
  match f with S754_zero _ | S754_finite _ _ _ => true | S754_infinity _ | S754_nan => false end.

(** Comparisons; false when one side is NaN. *)
Definition fltb : float64 → float64 → bool := SFltb.
Definition fleb : float64 → float64 → bool := SFleb.
Definition feqb : float64 → float64 → bool := SFeqb.

(** The decimal constant [n / 10^k]: correctly rounded because both parts
    are exact for the constants of the program. *)
Definition fdec (n k : Z) : float64 := fdiv (float_of_int n) (float_of_int (10 ^ k)).

#[export] Instance float64_eq_dec : EqDecision float64.
Proof. unfold float64. solve_decision. Defined.

(** [int(f)] of a finite value: truncated towards zero. *)
Definition int_of_float (f : float64) : Z :=
  match f with
  | S754_finite sign m e =>
      let z := if e <? 0 then Zpos m / 2 ^ (- e) else Zpos m * 2 ^ e in
      if sign then - z else z
  | _ => 0
  end.
