(* ===== verification/Net.v ===== *)
(** * The world of the checks

    What a check reaches outside the process - the clock, connections, HTTP
    servers, resolvers - as interfaces over a world, and the actions others
    can observe.  Also the parts of net, net/textproto and time the drivers
    share. *)

From S2P Require Import Prelude GoStd GoTime Errors Float64 Trace.

(** The fields of an [x509.Certificate] the code reads. *)
Record certificate := { NotAfter : time; Raw : string; RawSubjectPublicKeyInfo : string }.

(** A connection is plain, or secured for the server it was verified to be. *)
Notation secured := (option string) (only parsing).

Inductive io_action :=
| IODial (tls : secured) (network addr : string)
| IOWrite (tls : secured) (bytes : string)
| IOAuth (tls : secured) (mechanism line : string) (* a line of an AUTH exchange *)
| IOHandshake (server : string)
| IOClose.

Class Clock (W : Type) := Now : W → time * W.

(** One connection at a time. *)
Class Conns (W : Type) := {
  (** [tls.DialWithDialer] with a [ServerName]: the verified peer certificates *)
  cn_DialTLS : string → string → string → W → result error (list certificate) * W;
  (** [net.DialTimeout] *)
  cn_Dial : string → string → W → option error * W;
  cn_SetDeadline : W → option error * W;
  cn_Write : string → W → option error * W;
  (** the bytes the peer still sends, the world in which only the given bytes
      are left, and the error that follows the last byte *)
  cn_Unread : W → string;
  cn_Consume : string → W → W;
  cn_ReadErr : W → error;
  (** the handshake of [tls.Client] on the open connection *)
  cn_Handshake : string → W → result error (list certificate) * W }.

Section conns.
Context {W : Type} `{!Clock W, !Conns W}.

Notation IO := (M io_action W).

Definition now : IO time := lift Now.

Definition dial_tls (server network addr : string) : IO (result error (list certificate)) :=
  λ w, let '(r, w) := cn_DialTLS server network addr w in (r, w, [IODial (Some server) network addr]).

Definition dial (network addr : string) : IO (option error) :=
  λ w, let '(r, w) := cn_Dial network addr w in (r, w, [IODial None network addr]).

Definition set_deadline : IO (option error) := lift cn_SetDeadline.

Definition close : IO () := log IOClose.

Definition write (tls : secured) (bytes : string) : IO (option error) :=
  λ w, let '(r, w) := cn_Write bytes w in (r, w, [IOWrite tls bytes]).

(** The same for a line of an AUTH exchange. *)
Definition write_auth (tls : secured) (mechanism line : string) : IO (option error) :=
  λ w, let '(r, w) := cn_Write (line +:+ CRLF) w in (r, w, [IOAuth tls mechanism line]).

Definition handshake_tls (server : string) : IO (result error (list certificate)) :=
  λ w, let '(r, w) := cn_Handshake server w in (r, w, [IOHandshake server]).

(** ** Lines of net/textproto *)

(** [ReadLine]: a line without its end; what the peer sent last may lack it. *)
Definition read_line : IO (result error string) := λ w,
  let input := cn_Unread w in
  if decide (input = "") then (Err (cn_ReadErr w), w, [])
  else
    match cut LF input with
    | Some (line, rest) => (Ok (trim_suffix (String CR "") line), cn_Consume rest w, [])
    | None => (Ok input, cn_Consume "" w, [])
    end.
End conns.

(** [strconv.Atoi] when only its success matters. *)
Definition atoi_ok (s : string) : option Z := match ParseInt s with (n, None) => Some n | _ => None end.

(** A line that starts a reply, before its code is compared. *)
Record code_line := { cl_code : Z; cl_continued : bool; cl_message : string; cl_err : option error }.

(** [parseCodeLine(line, 0)] *)
Definition parseCodeLine (line : string) : code_line :=
  let sep := stake 1 (sdrop 3 line) in
  if (String.length line <? 4)%nat || negb (bool_decide (sep = " " ∨ sep = "-")) then
    {| cl_code := 0; cl_continued := false; cl_message := "";
       cl_err := Some (EExt KOther ("short response: " +:+ line)) |}
  else
    let code := default 0 (atoi_ok (stake 3 line)) in
    let continued := bool_decide (sep = "-") in
    if code <? 100 then
      {| cl_code := code; cl_continued := continued; cl_message := "";
         cl_err := Some (EExt KOther ("invalid response code: " +:+ line)) |}
    else {| cl_code := code; cl_continued := continued; cl_message := sdrop 4 line; cl_err := None |}.

(** Whether a code is not the expected one, by its first digits. *)
Definition unexpected_code (expect code : Z) : bool :=
  ((1 <=? expect) && (expect <? 10) && negb (code / 100 =? expect)) ||
  ((10 <=? expect) && (expect <? 100) && negb (code / 10 =? expect)) ||
  ((100 <=? expect) && (expect <? 1000) && negb (code =? expect)).

(** [fmt.Sprintf("%03d %s", code, msg)] *)
Definition reply_error (code : Z) (msg : string) : error :=
  EExt (KReply code) (pad 3 code +:+ " " +:+ msg).

Section response.
Context {W : Type} `{!Conns W}.

(** The further lines of a reply; each reads something, so the bytes left are
    enough fuel. *)
Fixpoint more_lines (fuel : nat) (code : Z) (message : string) : M io_action W (result error string) :=
  match fuel with
  | O => mret (Ok message)
  | S fuel =>
      line ← read_line;
      match line with
      | Err e => mret (Err e)
      | Ok line =>
          let l := parseCodeLine line in
          if is_None_b (cl_err l) && (cl_code l =? code) then
            let message := message +:+ String LF (cl_message l) in
            if cl_continued l then more_lines fuel code message else mret (Ok message)
          else more_lines fuel code (message +:+ String LF (trim_right (λ c, has_byte c CRLF) line))
      end
  end.

Definition rest_of_reply (l : code_line) : M io_action W (result error string) :=
  if cl_continued l
  then λ w, more_lines (S (String.length (cn_Unread w))) (cl_code l) (cl_message l) w
  else mret (Ok (cl_message l)).

(** [ReadResponse]: the code and the message, or an error. *)
Definition ReadResponse (expect : Z) : M io_action W (result error (Z * string)) :=
  first ← read_line;
  match first with
  | Err e => mret (Err e)
  | Ok line =>
      let l := parseCodeLine line in
      let err := match cl_err l with
                 | Some e => Some e
                 | None => if unexpected_code expect (cl_code l) then Some (reply_error (cl_code l) (cl_message l))
                           else None
                 end in
      rest ← rest_of_reply l;
      mret (match rest with
            | Err e => Err e
            | Ok message =>
                match err with
                | None => Ok (cl_code l, message)
                | Some e =>
                    Err (if cl_continued l && negb (bool_decide (message = "")) then reply_error (cl_code l) message
                         else e)
                end
            end)
  end.
End response.

(** ** Certificates that expire *)

(** [d.Hours()] *)
Definition Hours (d : duration) : float64 :=
  fadd (float_of_int (Z.quot d Hour)) (fdiv (float_of_int (Z.rem d Hour)) (float_of_int Hour)).

(** [int(time.Until(notAfter).Hours() / 24)] *)
Definition days_left (notAfter now : time) : Z :=
  int_of_float (fdiv (Hours (Sub notAfter now)) (float_of_int 24)).

(** [t.UTC().Format(time.RFC3339)] *)
Definition FormatRFC3339 (t : time) : string :=
  let s := Unix t mod 86400 in
  FormatDate t +:+ "T" +:+ pad 2 (s / 3600) +:+ ":" +:+ pad 2 (s / 60 mod 60) +:+ ":" +:+ pad 2 (s mod 60) +:+ "Z".

Definition expiry_error (notAfter : time) (daysToExpire : Z) : error :=
  ENew ("certificate expires at " +:+ FormatRFC3339 notAfter +:+ ", within the " +:+ FormatInt daysToExpire
        +:+ "-day alert window").
