(* ===== verification/Dane.v ===== *)
(** * TLSA records (internal/common/dane.go)

    The verification of a server's certificates against the TLSA records of
    its name.  The DNS client is another package's and the digests are the
    standard library's; both are parameters. *)

From S2P Require Import Prelude GoStd GoTime Errors Trace Net.

(** What the code reads of a DNS answer: a TLSA record, or another one. *)
Inductive rr :=
| RTLSA (usage selector matchingType : Z) (certificate : string)
| ROther.

Class DnsClient (W : Type) := {
  dc_Fqdn : string → string;                                                  (* dns.Fqdn *)
  dc_Exchange : string → string → W → result error (Z * list rr) * W;         (* TLSA query to a server *)
  dc_ResolvConf : W → result error string }.                                  (* os.ReadFile("/etc/resolv.conf") *)

Class Digests := { Sha256 : string → string; Sha512 : string → string }.

Record TLSA := { Usage : Z; Selector : Z; MatchingType : Z; Data : string }.

(** ** hex.DecodeString *)

Definition hex_value (c : ascii) : option Z :=
  if ascii_in "0" "9" c then Some (Z.of_N (N_of_ascii c) - 48)
  else if ascii_in "a" "f" c then Some (Z.of_N (N_of_ascii c) - 87)
  else if ascii_in "A" "F" c then Some (Z.of_N (N_of_ascii c) - 55)
  else None.

Fixpoint hex_decode (s : string) : option string :=
  match s with
  | "" => Some ""
  | String a (String b s) =>
      va ← hex_value a; vb ← hex_value b; rest ← hex_decode s;
      Some (String (ascii_of_N (Z.to_N (va * 16 + vb))) rest)
  | _ => None
  end.

(** ** Matching *)

Section digests.
Context `{!Digests}.

Definition matchTLSA (cert : certificate) (tlsa : TLSA) : bool :=
  match
    (if Selector tlsa =? 0 then Some (Raw cert)
     else if Selector tlsa =? 1 then Some (RawSubjectPublicKeyInfo cert) else None)
  with
  | None => false
  | Some dataToMatch =>
      match
        (if MatchingType tlsa =? 0 then Some dataToMatch
         else if MatchingType tlsa =? 1 then Some (Sha256 dataToMatch)
         else if MatchingType tlsa =? 2 then Some (Sha512 dataToMatch) else None)
      with
      | None => false
      | Some hash => bool_decide (hash = Data tlsa)
      end
  end.

(** The certificates a record may speak of. *)
Definition certs_to_check (peerCerts : list certificate) (usage : Z) : option (list certificate) :=
  if (usage =? 1) || (usage =? 3) then Some (take 1 peerCerts)
  else if (usage =? 0) || (usage =? 2) then Some peerCerts
  else None.

Definition VerifyDANE (peerCerts : list certificate) (tlsa : TLSA) : option error :=
  if is_nil peerCerts then Some (ENew "no peer certificates provided")
  else
    match certs_to_check peerCerts (Usage tlsa) with
    | None => Some (ENew ("unsupported TLSA Usage: " +:+ FormatInt (Usage tlsa)))
    | Some certs =>
        if existsb (λ cert, matchTLSA cert tlsa) certs then None
        else Some (ENew "TLSA record does not match any provided certificates")
    end.
End digests.

(** ** The resolver's configuration *)

(** [strings.Fields]. *)
Fixpoint fields_from (word : string) (s : string) : list string :=
  let done := if decide (word = "") then [] else [word] in
  match s with
  | "" => done
  | String c s => if is_space c then done ++ fields_from "" s else fields_from (word +:+ String c "") s
  end.

Definition fields (s : string) : list string := fields_from "" s.

(** The address a line of resolv.conf names. *)
Definition nameserver_of (line : string) : option string :=
  if has_prefix "nameserver " line then
    match fields line with
    | _ :: ip :: _ => Some (if has_byte ":" ip then "[" +:+ ip +:+ "]:53" else ip +:+ ":53")
    | _ => None
    end
  else None.

Section resolve.
Context {W : Type} `{!DnsClient W, !Digests}.
(** The text of hex's error. *)
Variable hex_error : string → string.

Definition getNameserver (w : W) : string :=
  match dc_ResolvConf w with
  | Ok data => default "8.8.8.8:53" (head (omap nameserver_of (split LF data)))
  | Err _ => "8.8.8.8:53"
  end.

(** One TLSA record against the certificates. *)
Definition verify_record (peerCerts : list certificate) (usage selector matchingType : Z) (hex : string)
  : option error :=
  match hex_decode hex with
  | None => Some (ENew ("failed to decode certificate hex: " +:+ hex_error hex))
  | Some data =>
      VerifyDANE peerCerts {| Usage := usage; Selector := selector; MatchingType := matchingType; Data := data |}
  end.

(** The loop over the answers: [None] when a record matched, else whether
    there was a TLSA record and the last error. *)
Fixpoint dane_loop (peerCerts : list certificate) (answers : list rr) (found : bool) (lastErr : option error)
  : option (bool * option error) :=
  match answers with
  | [] => Some (found, lastErr)
  | ROther :: answers => dane_loop peerCerts answers found lastErr
  | RTLSA u s m c :: answers =>
      match verify_record peerCerts u s m c with
      | None => None
      | Some e => dane_loop peerCerts answers true (Some e)
      end
  end.

Definition dane_name (domain port : string) : string := "_" +:+ port +:+ "._tcp." +:+ domain +:+ ".".

(** [fmt.Sprint] of the last error. *)
Definition err_text (e : option error) : string := match e with Some e => error_text e | None => "<nil>" end.

Definition ResolveAndVerifyDANE (domain port : string) (peerCerts : list certificate) (w : W)
  : option error * W :=
  if is_nil peerCerts then (None, w)
  else
    let '(r, w) := dc_Exchange (dc_Fqdn (W:=W) (dane_name domain port)) (getNameserver w) w in
    (match r with
     | Err _ => None
     | Ok (rcode, answers) =>
         if negb (rcode =? 0) then None
         else
           match dane_loop peerCerts answers false None with
           | None => None
           | Some (false, _) => None
           | Some (true, lastErr) =>
               Some (ENew ("certificate verification failed against all TLSA records: " +:+ err_text lastErr))
           end
     end, w).

(** ** Properties *)

(** The part of a certificate a record speaks of, under its digest. *)
Definition record_data (selector matchingType : Z) (cert : certificate) (data : string) : Prop :=
  ∃ part, ((selector = 0 ∧ part = Raw cert) ∨ (selector = 1 ∧ part = RawSubjectPublicKeyInfo cert)) ∧
    ((matchingType = 0 ∧ data = part) ∨ (matchingType = 1 ∧ data = Sha256 part) ∨
     (matchingType = 2 ∧ data = Sha512 part)).

(** A record vouches for a chain: it is readable and fits the first
    certificate, or with usages 0 and 2 any of them. *)
Definition vouches (peerCerts : list certificate) (r : rr) : Prop :=
  ∃ u s m hex data cert, r = RTLSA u s m hex ∧ hex_decode hex = Some data ∧ cert ∈ peerCerts ∧
    (((u = 1 ∨ u = 3) ∧ head peerCerts = Some cert) ∨ u = 0 ∨ u = 2) ∧ record_data s m cert data.

Lemma matchTLSA_spec cert tlsa :
  matchTLSA cert tlsa = true ↔ record_data (Selector tlsa) (MatchingType tlsa) cert (Data tlsa).
Proof.
  unfold matchTLSA, record_data. destruct tlsa as [u s m d]. cbn [Selector MatchingType Data].
  destruct (s =? 0) eqn:E0; [|destruct (s =? 1) eqn:E1]; zb; subst.
  1, 2: destruct (m =? 0) eqn:F0; [|destruct (m =? 1) eqn:F1; [|destruct (m =? 2) eqn:F2]]; zb; subst;
    rewrite ?bool_decide_eq_true; naive_solver lia.
  split; [done|]. intros (part & [[? _]|[? _]] & _); lia.
Qed.

Lemma VerifyDANE_spec peerCerts u s m hex :
  verify_record peerCerts u s m hex = None ↔ vouches peerCerts (RTLSA u s m hex).
Proof.
  unfold verify_record, vouches. destruct (hex_decode hex) as [data|] eqn:Eh; [|split; [done|naive_solver]].
  unfold VerifyDANE. destruct peerCerts as [|c peerCerts]; cbn [is_nil].
  { split; [done|]. intros (? & ? & ? & ? & ? & ? & _ & _ & Hc & _). by apply elem_of_nil in Hc. }
  unfold certs_to_check. cbn [Usage].
  assert (∀ l, (if existsb (λ cert, matchTLSA cert {| Usage := u; Selector := s; MatchingType := m; Data := data |}) l
                then None else Some (ENew "TLSA record does not match any provided certificates")) = None ↔
          ∃ cert, cert ∈ l ∧ record_data s m cert data) as Hl.
  { intros l. destruct (existsb _ l) eqn:E.
    - apply existsb_exists in E as (cert & Hin & Hm). apply matchTLSA_spec in Hm. apply list_elem_of_In in Hin.
      split; [|done]. intros _. by exists cert.
    - split; [done|]. intros (cert & Hin & Hm). exfalso. apply not_true_iff_false in E. apply E.
      apply existsb_exists. exists cert. split; [by apply list_elem_of_In|]. by apply matchTLSA_spec. }
  destruct ((u =? 1) || (u =? 3)) eqn:E13; [|destruct ((u =? 0) || (u =? 2)) eqn:E02].
  - rewrite Hl. cbn [take]. split.
    + intros (cert & Hin & Hm). apply list_elem_of_singleton in Hin as ->. exists u, s, m, hex, data, c.
      split_and!; [done|done|by left|left; split; [zb; lia|done]|done].
    + intros (u' & s' & m' & hex' & data' & cert & [= <- <- <- <-] & Hd & Hin & Hu & Hm).
      exists c. rewrite Eh in Hd. simplify_eq. split; [by left|].
      destruct Hu as [[_ [= ->]]|Hu]; [done|]. zb. lia.
  - rewrite Hl. split.
    + intros (cert & Hin & Hm). exists u, s, m, hex, data, cert. split_and!; [done..| |done]. zb. lia.
    + intros (u' & s' & m' & hex' & data' & cert & [= <- <- <- <-] & Hd & Hin & Hu & Hm).
      rewrite Eh in Hd. simplify_eq. by exists cert.
  - split; [done|]. intros (u' & s' & m' & hex' & data' & cert & [= <- <- <- <-] & Hd & Hin & Hu & Hm). zb. lia.
Qed.

Lemma dane_loop_spec peerCerts answers found lastErr :
  match dane_loop peerCerts answers found lastErr with
  | None => ∃ r, r ∈ answers ∧ vouches peerCerts r
  | Some (found', _) =>
      (∀ r, r ∈ answers → ¬ vouches peerCerts r) ∧
      (found' = true ↔ found = true ∨ ∃ u s m c, RTLSA u s m c ∈ answers)
  end.
Proof.
  revert found lastErr. induction answers as [|r answers IH]; intros found lastErr; cbn [dane_loop].
  { split; [set_solver|]. split; [by left|]. intros [?|(? & ? & ? & ? & Hin)]; [done|set_solver]. }
  destruct r as [u s m c|].
  - destruct (verify_record peerCerts u s m c) as [e|] eqn:E.
    + specialize (IH true (Some e)). destruct (dane_loop peerCerts answers true (Some e)) as [[found' e']|].
      * destruct IH as [IH1 IH2]. split.
        -- intros r [->|Hr]%elem_of_cons; [|by apply IH1]. intros Hv%VerifyDANE_spec. congruence.
        -- split; [|intros; apply IH2; by left]. intros _. right. exists u, s, m, c. by left.
      * destruct IH as (r & Hr & Hv). exists r. split; [by right|done].
    + apply VerifyDANE_spec in E. exists (RTLSA u s m c). split; [by left|done].
  - specialize (IH found lastErr). destruct (dane_loop peerCerts answers found lastErr) as [[found' e']|].
    + destruct IH as [IH1 IH2]. split.
      * intros r [->|Hr]%elem_of_cons; [|by apply IH1]. intros (? & ? & ? & ? & ? & ? & ? & _). done.
      * rewrite IH2. set_solver.
    + destruct IH as (r & Hr & Hv). exists r. split; [by right|done].
Qed.

(** C31: a chain is refused exactly when the server's name has TLSA records -
    the question could be asked, was answered without error, and the answer
    holds one - and no record vouches for the chain. *)
Theorem ResolveAndVerifyDANE_spec (domain port : string) (peerCerts : list certificate) (w : W) :
  let '(err, w') := ResolveAndVerifyDANE domain port peerCerts w in
  (err ≠ None ↔
   peerCerts ≠ [] ∧
   ∃ answers, dc_Exchange (dc_Fqdn (W:=W) ("_" +:+ port +:+ "._tcp." +:+ domain +:+ ".")) (getNameserver w) w
                = (Ok (0, answers), w') ∧
     (∃ u s m c, RTLSA u s m c ∈ answers) ∧ ∀ r, r ∈ answers → ¬ vouches peerCerts r).
Proof.
  unfold ResolveAndVerifyDANE, dane_name. destruct peerCerts as [|c peerCerts]; cbn [is_nil].
  { split; [done|]. by intros [? _]. }
  destruct (dc_Exchange _ _ w) as [[[rcode answers]|e] w'].
  2: { split; [done|]. intros (_ & answers & ? & _). simplify_eq. }
  destruct (rcode =? 0) eqn:Er; simpl; zb.
  2: { split; [done|]. intros (_ & answers' & ? & _). simplify_eq. }
  subst rcode. pose proof (dane_loop_spec (c :: peerCerts) answers false None) as Hl.
  destruct (dane_loop (c :: peerCerts) answers false None) as [[[] e]|].
  - destruct Hl as [H1 H2]. split; [|done]. intros _. split; [done|]. exists answers. split; [done|].
    split; [|done]. destruct (proj1 H2 eq_refl) as [?|?]; done.
  - destruct Hl as [H1 H2]. split; [done|]. intros (_ & answers' & [= <-] & Hex & _).
    assert (false = true) as Hf; [apply H2; by right|done].
  - destruct Hl as (r & Hr & Hv). split; [done|]. intros (_ & answers' & [= <-] & _ & Hn). by destruct (Hn r Hr).
Qed.
End resolve.
