(* ===== verification/Regex.v ===== *)
(** * Regular expressions

    The part of Go's regexp package the operator uses: patterns over bytes
    with greedy repetition, capture groups, word boundaries and anchors,
    matched leftmost-first by backtracking, and [ReplaceAllString].  The
    matcher is proved against the language of its pattern. *)

From S2P Require Import Prelude GoStd.

Inductive rx :=
| REmpty
| RChr (p : ascii → bool)
| RSeq (a b : rx)
| RAlt (a b : rx)
| RStar (a : rx)
| RGroup (n : nat) (a : rx)
| RWordB
| RBegin
| REnd.

(** ** Writing patterns *)

Fixpoint rlit (s : string) : rx :=
  match s with
  | "" => REmpty
  | String c "" => RChr (is_char c)
  | String c s => RSeq (RChr (is_char c)) (rlit s)
  end.

Definition rplus (a : rx) : rx := RSeq a (RStar a).
Definition ropt (a : rx) : rx := RAlt a REmpty.
Definition rseq (l : list rx) : rx := foldr RSeq REmpty l.

Definition is_alpha (c : ascii) : bool := ascii_in "A" "Z" c || ascii_in "a" "z" c.
Definition is_digit (c : ascii) : bool := ascii_in "0" "9" c.
Definition is_word (c : ascii) : bool := is_alpha c || is_digit c || is_char "_" c.

(** [\s] *)
Definition is_blank (c : ascii) : bool :=
  existsb (λ d, is_char d c) ["009"; "010"; "012"; "013"; " "]%char.

Definition none_of (s : string) (c : ascii) : bool := negb (has_byte c s).

(** ** Matching *)

(** What the groups captured, the latest first. *)
Definition caps := list (nat * string).

Definition word_at (c : option ascii) : bool := from_option is_word false c.

Definition head_char (s : string) : option ascii :=
  match s with "" => None | String c _ => Some c end.

(** The byte before the rest, after [u] has been read. *)
Definition last_char (prev : option ascii) (u : string) : option ascii :=
  match String.get (String.length u - 1) u with Some c => Some c | None => prev end.

(** [match_rx r prev s c k]: the first way, in the order of preference, in
    which [r] matches a prefix of [s] preceded by [prev] and the continuation
    accepts what is left. *)
Section match_rx.
Context {X : Type}.

Definition cont := option ascii → string → caps → option X.

(** The repetitions of [m], as many as possible first; each must read
    something, so the length of the text is enough fuel. *)
Fixpoint star_loop (m : option ascii → string → caps → cont → option X) (k : cont)
    (fuel : nat) (prev : option ascii) (s : string) (c : caps) : option X :=
  match fuel with
  | O => k prev s c
  | S fuel =>
      match m prev s c (λ prev' s' c',
              if (String.length s' <? String.length s)%nat then star_loop m k fuel prev' s' c' else None) with
      | Some x => Some x
      | None => k prev s c
      end
  end.

Fixpoint match_rx (r : rx) (prev : option ascii) (s : string) (c : caps) (k : cont) : option X :=
  match r with
  | REmpty => k prev s c
  | RChr p =>
      match s with
      | "" => None
      | String x s => if p x then k (Some x) s c else None
      end
  | RSeq a b => match_rx a prev s c (λ prev s c, match_rx b prev s c k)
  | RAlt a b =>
      match match_rx a prev s c k with
      | Some x => Some x
      | None => match_rx b prev s c k
      end
  | RStar a => star_loop (match_rx a) k (String.length s) prev s c
  | RGroup n a =>
      match_rx a prev s c (λ prev' s' c',
        k prev' s' ((n, stake (String.length s - String.length s') s) :: c'))
  | RWordB => if Bool.eqb (word_at prev) (word_at (head_char s)) then None else k prev s c
  | RBegin => match prev with None => k prev s c | Some _ => None end
  | REnd => match s with "" => k prev s c | _ => None end
  end.
End match_rx.

(** A match at the current position: what is left of the text, and the groups. *)
Definition match_here (r : rx) (prev : option ascii) (s : string) : option (string * caps) :=
  match_rx r prev s [] (λ _ s' c, Some (s', c)).

(** [r.MatchString(s)], from the position after [prev]. *)
Fixpoint match_from (r : rx) (prev : option ascii) (s : string) : bool :=
  match match_here r prev s with
  | Some _ => true
  | None => match s with "" => false | String x s => match_from r (Some x) s end
  end.

Definition MatchString (r : rx) (s : string) : bool := match_from r None s.

(** ** Replacing *)

Inductive piece := PLit (s : string) | PRef (n : nat).

Definition group (c : caps) (n : nat) : string :=
  from_option snd "" (find (λ p, Nat.eqb p.1 n) c).

Definition expand (t : list piece) (c : caps) : string :=
  foldr (λ p s, (match p with PLit l => l | PRef n => group c n end) +:+ s) "" t.

(** [r.ReplaceAllString(s, t)] for a pattern that matches no empty text; the
    length of the text is enough fuel. *)
Fixpoint replace_from (fuel : nat) (r : rx) (t : list piece) (prev : option ascii) (s : string) : string :=
  match fuel, s with
  | S fuel, String x s' =>
      match match_here r prev s with
      | Some (rest, c) =>
          if (String.length rest <? String.length s)%nat then
            expand t c +:+
            replace_from fuel r t (last_char prev (stake (String.length s - String.length rest) s)) rest
          else String x (replace_from fuel r t (Some x) s')
      | None => String x (replace_from fuel r t (Some x) s')
      end
  | _, _ => s
  end.

Definition ReplaceAllString (r : rx) (t : list piece) (s : string) : string :=
  replace_from (String.length s) r t None s.

(** ** The language of a pattern *)

(** [accepts r prev u rest]: [r] matches [u], preceded by [prev] and followed
    by [rest]. *)
Inductive accepts : rx → option ascii → string → string → Prop :=
| accepts_empty prev rest : accepts REmpty prev "" rest
| accepts_chr (p : ascii → bool) x prev rest : p x = true → accepts (RChr p) prev (String x "") rest
| accepts_seq a b prev u v rest :
    accepts a prev u (v +:+ rest) → accepts b (last_char prev u) v rest →
    accepts (RSeq a b) prev (u +:+ v) rest
| accepts_left a b prev u rest : accepts a prev u rest → accepts (RAlt a b) prev u rest
| accepts_right a b prev u rest : accepts b prev u rest → accepts (RAlt a b) prev u rest
| accepts_stop a prev rest : accepts (RStar a) prev "" rest
| accepts_more a prev u v rest :
    u ≠ "" → accepts a prev u (v +:+ rest) → accepts (RStar a) (last_char prev u) v rest →
    accepts (RStar a) prev (u +:+ v) rest
| accepts_group n a prev u rest : accepts a prev u rest → accepts (RGroup n a) prev u rest
| accepts_word prev rest :
    word_at prev ≠ word_at (head_char rest) → accepts RWordB prev "" rest
| accepts_begin rest : accepts RBegin None "" rest
| accepts_end prev : accepts REnd prev "" "".

Lemma last_char_nil prev : last_char prev "" = prev.
Proof. done. Qed.

Lemma get_in_range n u : (n < String.length u)%nat → is_Some (String.get n u).
Proof.
  revert n. induction u as [|y u IH]; intros n H; simpl in H; [lia|].
  destruct n; [by eexists|]. apply IH. lia.
Qed.

Lemma get_last x u :
  String.get (String.length (String x u) - 1) (String x u) =
  match String.get (String.length u - 1) u with Some c => Some c | None => Some x end.
Proof.
  destruct u as [|y u]; [done|].
  destruct (get_in_range (String.length (String y u) - 1) (String y u)) as [c Hc]; [simpl; lia|].
  rewrite Hc. rewrite <-Hc. simpl. by rewrite Nat.sub_0_r.
Qed.

Lemma last_char_cons prev x u : last_char prev (String x u) = last_char (Some x) u.
Proof. unfold last_char. rewrite get_last. by destruct (String.get _ u). Qed.

Lemma last_char_app prev u v : last_char prev (u +:+ v) = last_char (last_char prev u) v.
Proof.
  revert prev. induction u as [|x u IH]; intros prev; cbn [String.append]; [done|].
  by rewrite !last_char_cons, IH.
Qed.

Lemma slength_sapp u v : String.length (u +:+ v) = (String.length u + String.length v)%nat.
Proof. induction u; simpl; congruence. Qed.

Section match_language.
Context {X : Type}.
Implicit Types (k : @cont X).

(** The matcher answers what the continuation answers after some text of the
    pattern's language. *)
Definition found (r : rx) prev s k (x : X) : Prop :=
  ∃ u rest c, s = u +:+ rest ∧ accepts r prev u rest ∧ k (last_char prev u) rest c = Some x.

Lemma star_loop_found a (m : option ascii → string → caps → cont → option X) k fuel prev s c x :
  (∀ prev s c k x, m prev s c k = Some x → found a prev s k x) →
  star_loop m k fuel prev s c = Some x → found (RStar a) prev s k x.
Proof.
  intros Hm. revert prev s c. induction fuel as [|fuel IH]; intros prev s c; cbn [star_loop].
  { intros Hk. exists "", s, c. split; [done|]. split; [constructor|done]. }
  destruct (m _ _ _ _) as [y|] eqn:E.
  - intros [= ->]. apply Hm in E as (u & rest & c' & -> & Ha & Hk).
    destruct (_ <? _)%nat eqn:El; [|done]. apply Nat.ltb_lt in El. rewrite slength_sapp in El.
    apply IH in Hk as (v & rest' & c'' & -> & Hs & Hk).
    exists (u +:+ v), rest', c''. split; [by rewrite sapp_assoc|]. split; [|by rewrite last_char_app].
    apply accepts_more; [|done..]. intros ->. simpl in El. lia.
  - intros Hk. exists "", s, c. split; [done|]. split; [constructor|done].
Qed.

Lemma match_rx_found r prev s c k x : match_rx r prev s c k = Some x → found r prev s k x.
Proof.
  revert prev s c k x.
  induction r as [|p|a IHa b IHb|a IHa b IHb|a IHa|n a IHa| | |]; intros prev s c k x; cbn [match_rx].
  - intros Hk. exists "", s, c. split; [done|]. split; [constructor|done].
  - destruct s as [|y s]; [done|]. destruct (p y) eqn:E; [|done]. intros Hk.
    exists (String y ""), s, c. split; [done|]. split; [by constructor|done].
  - intros (u & rest & c' & -> & Ha & Hk)%IHa. apply IHb in Hk as (v & rest' & c'' & -> & Hb & Hk).
    exists (u +:+ v), rest', c''. split; [by rewrite sapp_assoc|]. split; [by constructor|].
    by rewrite last_char_app.
  - destruct (match_rx a prev s c k) as [y|] eqn:E.
    + intros [= ->]. apply IHa in E as (u & rest & c' & -> & Ha & Hk).
      exists u, rest, c'. split; [done|]. split; [by apply accepts_left|done].
    + intros (u & rest & c' & -> & Ha & Hk)%IHb. exists u, rest, c'.
      split; [done|]. split; [by apply accepts_right|done].
  - by apply star_loop_found.
  - intros (u & rest & c' & -> & Ha & Hk)%IHa. eexists u, rest, _.
    split; [done|]. split; [by constructor|exact Hk].
  - destruct (Bool.eqb _ _) eqn:E; [done|]. intros Hk. exists "", s, c. split; [done|].
    split; [|done]. constructor. intros Heq. by rewrite Heq, Bool.eqb_reflx in E.
  - destruct prev; [done|]. intros Hk. exists "", s, c. split; [done|]. split; [constructor|done].
  - destruct s; [|done]. intros Hk. exists "", "", c. split; [done|]. split; [constructor|done].
Qed.

(** ... and it finds one whenever there is one. *)
Lemma star_loop_complete a (m : option ascii → string → caps → cont → option X) k fuel prev u rest c :
  (∀ prev u rest c k, accepts a prev u rest → (∀ c, is_Some (k (last_char prev u) rest c)) →
     is_Some (m prev (u +:+ rest) c k)) →
  (String.length u ≤ fuel)%nat → accepts (RStar a) prev u rest →
  (∀ c, is_Some (k (last_char prev u) rest c)) → is_Some (star_loop m k fuel prev (u +:+ rest) c).
Proof.
  intros Hm. revert prev u c. induction fuel as [|fuel IH]; intros prev u c Hf Ha Hk; cbn [star_loop].
  { destruct u; [apply Hk|simpl in Hf; lia]. }
  inversion Ha as [ | | | | |a' p' r' Ea Ep Eu|a' p' u1 v r' Hne H1 H2 Ea Ep Eu| | | |]; subst.
  { destruct (m _ _ _ _); [by eexists|]. apply Hk. }
  rewrite <-sapp_assoc. rewrite slength_sapp in Hf.
  assert (0 < String.length u1)%nat as Hu1 by (destruct u1; [done|simpl; lia]).
  destruct (Hm prev u1 (v +:+ rest) c (λ prev' s' c',
    if (String.length s' <? String.length (u1 +:+ (v +:+ rest)))%nat
    then star_loop m k fuel prev' s' c' else None)) as [x ->]; [done| |by eexists].
  intros c'. rewrite (proj2 (Nat.ltb_lt _ _)) by (rewrite !slength_sapp; lia).
  apply IH; [lia|done|]. intros c''. rewrite last_char_app in Hk. apply Hk.
Qed.

Lemma match_rx_complete r prev u rest c k :
  accepts r prev u rest → (∀ c, is_Some (k (last_char prev u) rest c)) →
  is_Some (match_rx r prev (u +:+ rest) c k).
Proof.
  revert prev u rest c k.
  induction r as [|p|a IHa b IHb|a IHa b IHb|a IHa|n a IHa| | |]; intros prev u rest c k Ha Hk;
    cbn [match_rx].
  5: { eapply star_loop_complete; [exact IHa| |exact Ha|exact Hk]. rewrite slength_sapp. lia. }
  all: inversion Ha; subst; clear Ha.
  - apply Hk.
  - cbn [String.append]. match goal with H : p _ = true |- _ => rewrite H end. apply Hk.
  - rewrite <-sapp_assoc. apply IHa; [done|]. intros c'. apply IHb; [done|]. intros c''.
    rewrite last_char_app in Hk. apply Hk.
  - destruct (IHa prev u rest c k) as [x ->]; [done..|]. by eexists.
  - destruct (match_rx a prev _ c k); [by eexists|]. by apply IHb.
  - apply IHa; [done|]. intros c'. apply Hk.
  - cbn [String.append]. destruct (Bool.eqb _ _) eqn:E; [|apply Hk]. by apply Bool.eqb_prop in E.
  - apply Hk.
  - apply Hk.
Qed.
End match_language.

(** [MatchString] holds exactly when some part of the text is in the language
    of the pattern where it stands. *)
Theorem MatchString_spec (r : rx) (s : string) :
  MatchString r s = true ↔ ∃ before u rest, s = before +:+ (u +:+ rest) ∧ accepts r (last_char None before) u rest.
Proof.
  unfold MatchString. generalize (@None ascii) as prev.
  assert (∀ prev s, is_Some (match_here r prev s) ↔ ∃ u rest, s = u +:+ rest ∧ accepts r prev u rest) as Hhere.
  { intros prev t. unfold match_here. split.
    - intros [x H]. apply match_rx_found in H as (u & rest & c & -> & H & _). by exists u, rest.
    - intros (u & rest & -> & H). apply match_rx_complete; [done|]. intros c. by eexists. }
  induction s as [|x s IH]; intros prev; cbn [match_from].
  all: destruct (match_here r prev _) as [m|] eqn:E.
  all: try (split; [intros _|done]; destruct (proj1 (Hhere _ _) (ex_intro _ _ E)) as (u & rest & Es & Ha);
            exists "", u, rest; by split).
  - split; [done|]. intros (before & u & rest & Es & Ha).
    destruct before; [|done]. cbn [String.append] in Es.
    destruct (proj2 (Hhere prev "")) as [y Hy]; [by exists u, rest|congruence].
  - rewrite IH. split.
    + intros (before & u & rest & -> & Ha). exists (String x before), u, rest.
      split; [done|]. by rewrite last_char_cons.
    + intros (before & u & rest & Es & Ha). destruct before as [|y before].
      * cbn [String.append] in Es. destruct (proj2 (Hhere prev (String x s))) as [z Hz]; [by exists u, rest|].
        congruence.
      * cbn [String.append] in Es. simplify_eq. exists before, u, rest. split; [done|].
        by rewrite last_char_cons in Ha.
Qed.

(** ** Greedy repetition of a class *)

(** What a repetition over exactly [u] answers: the longest part first. *)
Fixpoint longest {X} (k : @cont X) (prev : option ascii) (u rest : string) (c : caps) : option X :=
  match u with
  | "" => k prev rest c
  | String x u' =>
      match longest k (Some x) u' rest c with
      | Some r => Some r
      | None => k prev (u +:+ rest) c
      end
  end.

Lemma star_loop_class {X} (p : ascii → bool) (k : @cont X) fuel prev u rest c :
  sforall (λ x, p x = true) u → match head_char rest with Some x => p x = false | None => True end →
  (String.length u ≤ fuel)%nat →
  star_loop (match_rx (RChr p)) k fuel prev (u +:+ rest) c = longest k prev u rest c.
Proof.
  revert prev u. induction fuel as [|fuel IH]; intros prev u Hu Hr Hf.
  { destruct u; [done|simpl in Hf; lia]. }
  destruct u as [|x u].
  - cbn [star_loop longest match_rx String.append]. destruct rest as [|y rest]; [done|].
    simpl in Hr. by rewrite Hr.
  - apply sforall_cons in Hu as [Hx Hu]. cbn [String.append star_loop match_rx longest]. rewrite Hx.
    rewrite (proj2 (Nat.ltb_lt _ _)) by (simpl; lia). rewrite IH; [done|done|done|simpl in Hf; lia].
Qed.

(** A repetition that must give one byte back. *)
Lemma longest_back {X} (k : @cont X) prev u x rest c :
  (∀ prev, k prev rest c = None) → is_Some (k (last_char prev u) (String x rest) c) →
  longest k prev (u +:+ String x "") rest c = k (last_char prev u) (String x rest) c.
Proof.
  intros Hn. revert prev. induction u as [|y u IH]; intros prev Hs; cbn [String.append longest].
  - by rewrite Hn.
  - rewrite last_char_cons in *. rewrite IH by done. by destruct Hs as [z ->].
Qed.

Lemma stake_before u v : stake (String.length (u +:+ v) - String.length v) (u +:+ v) = u.
Proof. rewrite slength_sapp. replace (_ + _ - _)%nat with (String.length u) by lia. apply stake_app. Qed.

Lemma match_rx_ext {X} r prev s c (k k' : @cont X) :
  (∀ prev s c, k prev s c = k' prev s c) → match_rx r prev s c k = match_rx r prev s c k'.
Proof.
  revert prev s c k k'.
  induction r as [|p|a IHa b IHb|a IHa b IHb|a IHa|n a IHa| | |]; intros prev s c k k' H; cbn [match_rx].
  - apply H.
  - destruct s; [done|]. case_match; [apply H|done].
  - apply IHa. intros. by apply IHb.
  - by rewrite (IHa _ _ _ k k'), (IHb _ _ _ k k').
  - generalize (String.length s) as fuel. intros fuel. revert prev s c.
    induction fuel as [|fuel IH]; intros prev s c; cbn [star_loop]; [apply H|].
    rewrite H. erewrite IHa; [reflexivity|]. intros p' s' c'. simpl. case_match; [apply IH|done].
  - apply IHa. intros. apply H.
  - case_match; [done|apply H].
  - destruct prev; [done|apply H].
  - destruct s; [apply H|done].
Qed.

(** More fuel than the text has bytes changes nothing. *)
Lemma replace_from_fuel f f' r t prev s :
  (String.length s ≤ f)%nat → (String.length s ≤ f')%nat →
  replace_from f r t prev s = replace_from f' r t prev s.
Proof.
  revert f' prev s. induction f as [|f IH]; intros f' prev s Hf Hf'.
  { destruct s; [by destruct f'|simpl in Hf; lia]. }
  destruct s as [|x s]; [by destruct f'|]. destruct f' as [|f']; [simpl in Hf'; lia|]. cbn [replace_from].
  assert (replace_from f r t (Some x) s = replace_from f' r t (Some x) s) as E by (apply IH; simpl in *; lia).
  destruct (match_here r prev (String x s)) as [[rest c]|]; [|by rewrite E].
  destruct (_ <? _)%nat eqn:El; [|by rewrite E]. apply Nat.ltb_lt in El. f_equal. apply IH; simpl in *; lia.
Qed.

(** A text that starts with a match. *)
Lemma replace_match r t u rest c :
  match_here r None (u +:+ rest) = Some (rest, c) → u ≠ "" →
  ReplaceAllString r t (u +:+ rest) =
  expand t c +:+ replace_from (String.length rest) r t (last_char None u) rest.
Proof.
  intros Hm Hu. unfold ReplaceAllString. destruct u as [|x u]; [done|].
  pose proof (stake_before (String x u) rest) as Hs.
  cbn [String.length replace_from String.append] in *. rewrite Hm.
  rewrite (proj2 (Nat.ltb_lt _ _)) by (rewrite slength_sapp; lia). rewrite Hs. f_equal.
  apply replace_from_fuel; [rewrite slength_sapp; lia|lia].
Qed.

(** ** Texts in a language *)

Lemma accepts_class p prev u rest : sforall (λ x, p x = true) u → accepts (RStar (RChr p)) prev u rest.
Proof.
  revert prev. induction u as [|x u IH]; intros prev H; [constructor|].
  apply sforall_cons in H as [Hx Hu]. change (String x u) with (String x "" +:+ u).
  apply accepts_more; [done|by constructor|by apply IH].
Qed.

Lemma accepts_plus_class p prev u rest :
  u ≠ "" → sforall (λ x, p x = true) u → accepts (rplus (RChr p)) prev u rest.
Proof.
  intros Hne H. destruct u as [|x u]; [done|]. apply sforall_cons in H as [Hx Hu].
  change (String x u) with (String x "" +:+ u). constructor; [by constructor|by apply accepts_class].
Qed.

Lemma accepts_opt_some a prev u rest : accepts a prev u rest → accepts (ropt a) prev u rest.
Proof. apply accepts_left. Qed.

Lemma accepts_opt_none a prev rest : accepts (ropt a) prev "" rest.
Proof. apply accepts_right. constructor. Qed.

Lemma accepts_byte c prev rest : accepts (rlit (String c "")) prev (String c "") rest.
Proof. cbn [rlit]. constructor. unfold is_char. by rewrite bool_decide_eq_true. Qed.

#[export] Hint Resolve accepts_class accepts_plus_class accepts_opt_some accepts_opt_none accepts_byte : regex.
#[export] Hint Constructors accepts : regex.
