(* ===== verification/Json.v ===== *)
(** * JSON values and assertions on them (internal/driver/httpjson.go)

    The values encoding/json decodes into [interface{}] with [UseNumber],
    their text under [%v], the dotted paths of an assertion, and the exact
    comparison of numbers.  Decoding itself stays a parameter. *)

From Stdlib Require Import QArith_base.
From S2P Require Import Prelude GoStd Regex ErrText.
#[local] Open Scope Z_scope.

Inductive json :=
| JNull
| JBool (b : bool)
| JNumber (literal : string)
| JString (s : string)
| JArray (l : list json)
| JObject (fields : list (string * json)). (* of two equal keys the later counts *)

(** ** Paths *)

(** [m[key]] *)
Definition lookup_field (fields : list (string * json)) (key : string) : option json :=
  snd <$> find (λ p, bool_decide (p.1 = key)) (rev fields).

(** The loop of [resolveJSONPath]. *)
Fixpoint resolve_keys (current : json) (keys : list string) : option json :=
  match keys with
  | [] => Some current
  | key :: keys =>
      match current with
      | JObject fields => next ← lookup_field fields key; resolve_keys next keys
      | _ => None
      end
  end.

Definition resolveJSONPath (data : list (string * json)) (path : string) : option json :=
  resolve_keys (JObject data) (split "." path).

(** ** [fmt.Sprintf("%v", actual)] *)

#[export] Instance field_le_dec : RelDecision (by_key String.le (@fst string string)) := by_key_dec _ _.

(** A map prints its keys in order. *)
Definition show_fields (l : list (string * string)) : string :=
  let m := foldl (λ (m : gmap string string) p, <[p.1 := p.2]> m) ∅ l in
  "map[" +:+ join " " ((λ p, p.1 +:+ ":" +:+ p.2) <$> merge_sort (by_key String.le fst) (map_to_list m)) +:+ "]".

Fixpoint show (v : json) : string :=
  match v with
  | JNull => "<nil>"
  | JBool b => if b then "true" else "false"
  | JNumber s | JString s => s
  | JArray l => "[" +:+ join " " (map show l) +:+ "]"
  | JObject fields => show_fields (map (λ p, (p.1, show p.2)) fields)
  end.

(** What [got '%v'] shows; nil when a path does not resolve. *)
Definition show_opt (v : option json) : string := match v with Some v => show v | None => "<nil>" end.

(** ** Numbers *)

Definition exponent_part : rx := rseq [ch "eE"; ropt (ch "+-"); rplus digit].

Definition jsonNumberLiteral : rx :=
  rseq [RBegin; ropt (rlit "-"); RAlt (rlit "0") (RSeq (RChr (ascii_in "1" "9")) (RStar digit));
        ropt (RSeq (rlit ".") (rplus digit)); ropt exponent_part; REnd].

(** [n * 10^e] *)
Definition scaled (n e : Z) : Q := if e <? 0 then n # Z.to_pos (10 ^ (- e)) else (n * 10 ^ e) # 1.

Definition digits (s : string) : Z := default 0 (digits_value 0 s).

(** [strings.Cut] when the separator may be missing. *)
Definition cut_or (c : ascii) (s : string) : string * string :=
  match cut c s with Some p => p | None => (s, "") end.

(** [new(big.Rat).SetString(s)] on a literal. *)
Definition rat_of_literal (s : string) : Q :=
  let neg := has_prefix "-" s in
  let body := if neg then sdrop 1 s else s in
  let '(mantissa, exp) := cut_or "e" (to_lower body) in
  let '(int, frac) := cut_or "." mantissa in
  let n := digits (int +:+ frac) in
  scaled (if neg then - n else n) ((ParseInt exp).1 - slen frac).

(** Whether the exponent, when there is one, is readable and small. *)
Definition exponent_ok (s : string) : bool :=
  match cut "e" (to_lower s) with
  | Some (_, exp) =>
      match ParseInt exp with (e, None) => (-1000 <=? e) && (e <=? 1000) | _ => false end
  | None => true
  end.

Definition exactNumber (s : string) : option Q :=
  if (100 <? slen s) || negb (MatchString jsonNumberLiteral s) then None
  else if exponent_ok s then Some (rat_of_literal s) else None.

Definition jsonValueMatches (actual : json) (expected : string) : bool :=
  if decide (show actual = expected) then true
  else
    match actual with
    | JNumber number =>
        match exactNumber number, exactNumber expected with
        | Some a, Some b => Qeq_bool a b
        | _, _ => false
        end
    | _ => false
    end.

Example numbers_match :
  jsonValueMatches (JNumber "1.50") "1.5" = true ∧ jsonValueMatches (JNumber "1e2") "100" = true ∧
  jsonValueMatches (JNumber "-0") "0" = true ∧ jsonValueMatches (JNumber "1") "01" = false ∧
  jsonValueMatches (JString "1.50") "1.5" = false.
Proof. vm_compute. done. Qed.

Example values_show :
  show (JObject [("b", JArray [JNumber "1"; JNull]); ("a", JBool true)]) = "map[a:true b:[1 <nil>]]".
Proof. vm_compute. reflexivity. Qed.

(** ** Decimal literals *)

(** A number as JSON writes it: the digits before and after the point, and
    the exponent with its letter and text. *)
Record decimal := { d_neg : bool; d_int : string; d_frac : option string; d_exp : option (bool * string * Z) }.

Definition all_digit (s : string) : Prop := sforall (λ c, is_digit c = true) s.

Definition d_text (d : decimal) : string :=
  (if d_neg d then "-" else "") +:+
  (d_int d +:+
   ((match d_frac d with Some f => "." +:+ f | None => "" end) +:+
    (match d_exp d with Some (upper, t, _) => (if (upper : bool) then "E" else "e") +:+ t | None => "" end))).

(** The integer part has no needless zero, the parts present have digits, and
    the exponent is what its text says. *)
Definition valid_decimal (d : decimal) : Prop :=
  (d_int d = "0" ∨ ∃ c s, d_int d = String c s ∧ ascii_in "1" "9" c = true ∧ all_digit s) ∧
  (∀ f, d_frac d = Some f → f ≠ "" ∧ all_digit f) ∧
  (∀ upper t e, d_exp d = Some (upper, t, e) →
     ∃ sign u, t = sign +:+ u ∧ sign ∈ [""; "+"; "-"] ∧ u ≠ "" ∧ all_digit u ∧
       e = if decide (sign = "-") then - digits u else digits u).

Definition d_exponent (d : decimal) : Z := from_option snd 0 (d_exp d).

(** Within the limits of [exactNumber]. *)
Definition small_decimal (d : decimal) : bool :=
  (slen (d_text d) <=? 100) && ((-1000 <=? d_exponent d) && (d_exponent d <=? 1000)).

(** The rational it denotes. *)
Definition d_value (d : decimal) : Q :=
  let frac := default "" (d_frac d) in
  let n := digits (d_int d +:+ frac) in
  scaled (if d_neg d then - n else n) (d_exponent d - slen frac).

Lemma digit_range c lo : ascii_in lo "9" c = true → (N_of_ascii "0" ≤ N_of_ascii lo)%N → is_digit c = true.
Proof.
  unfold is_digit, ascii_in. intros H Hlo. apply andb_true_iff in H as [H1 H2].
  apply andb_true_iff. split; [|done]. apply N.leb_le in H1. apply N.leb_le. lia.
Qed.

Lemma valid_int d : valid_decimal d → d_int d ≠ "" ∧ all_digit (d_int d).
Proof.
  intros ([->|(c & s & -> & Hc & Hs)] & _); (split; [done|]).
  - intros c. simpl. case_decide; [by subst|done].
  - apply sforall_cons. split; [by eapply digit_range|done].
Qed.

Lemma accepts_int d prev rest :
  valid_decimal d →
  accepts (RAlt (rlit "0") (RSeq (RChr (ascii_in "1" "9")) (RStar digit))) prev (d_int d) rest.
Proof.
  intros ([->|(c & s & -> & Hc & Hs)] & _).
  - apply accepts_left, accepts_byte.
  - apply accepts_right. change (String c s) with (String c "" +:+ s).
    constructor; [by constructor|by apply accepts_class].
Qed.

(** A sequence followed by the empty pattern. *)
Lemma accepts_cons a l prev u v rest :
  accepts a prev u (v +:+ rest) → accepts (rseq l) (last_char prev u) v rest →
  accepts (rseq (a :: l)) prev (u +:+ v) rest.
Proof. intros. by constructor. Qed.

Lemma accepts_nil prev rest : accepts (rseq []) prev "" rest.
Proof. constructor. Qed.

Lemma accepts_exponent upper sign u prev rest :
  sign ∈ [""; "+"; "-"] → u ≠ "" → all_digit u →
  accepts exponent_part prev ((if (upper : bool) then "E" else "e") +:+ (sign +:+ u)) rest.
Proof.
  intros Hs Hne Hu. unfold exponent_part.
  apply accepts_cons; [destruct upper; by constructor|].
  apply accepts_cons.
  - repeat (apply elem_of_cons in Hs as [->|Hs]); [apply accepts_opt_none|..|by apply elem_of_nil in Hs];
      apply accepts_opt_some; by constructor.
  - rewrite <-(sapp_nil_r u). apply accepts_cons; [|apply accepts_nil]. by apply accepts_plus_class.
Qed.

Lemma text_in_language d : valid_decimal d → MatchString jsonNumberLiteral (d_text d) = true.
Proof.
  intros Hv. pose proof Hv as (Hi & Hf & He). apply MatchString_spec.
  exists "", (d_text d), "". split; [by rewrite sapp_nil_r|]. unfold jsonNumberLiteral, d_text.
  change (d_text d) with ("" +:+ d_text d). rewrite <-(sapp_nil_r (_ +:+ (_ +:+ _))).
  set (body := _ +:+ (_ +:+ _)). change (body +:+ "") with ("" +:+ (body +:+ "")). subst body.
  apply accepts_cons; [constructor|]. rewrite sapp_nil_r.
  apply accepts_cons.
  { destruct (d_neg d); [apply accepts_opt_some, accepts_byte|apply accepts_opt_none]. }
  apply accepts_cons; [by apply accepts_int|]. apply accepts_cons.
  { destruct (d_frac d) as [f|] eqn:Ef; [|apply accepts_opt_none].
    destruct (Hf f eq_refl) as [Hne Hd]. apply accepts_opt_some. constructor; [apply accepts_byte|].
    by apply accepts_plus_class. }
  rewrite <-(sapp_nil_r (match d_exp d with Some _ => _ | None => _ end)).
  apply accepts_cons.
  - destruct (d_exp d) as [[[upper t] e]|] eqn:Ee; [|apply accepts_opt_none].
    destruct (He upper t e eq_refl) as (sign & u & -> & Hs & Hne & Hu & _).
    apply accepts_opt_some. by apply accepts_exponent.
  - apply (accepts_cons REnd [] _ "" ""); constructor.
Qed.

(** Lower case leaves digits, points and signs alone. *)
Lemma to_lower_app s t : to_lower (s +:+ t) = to_lower s +:+ to_lower t.
Proof. unfold to_lower. induction s as [|c s IH]; simpl; [done|]. by rewrite IH. Qed.

Lemma digit_not_upper c : is_digit c = true → ascii_in "A" "Z" c = false.
Proof.
  unfold is_digit, ascii_in. intros [H1 H2]%andb_true_iff. apply andb_false_iff. left.
  apply N.leb_le in H2. apply N.leb_gt. change (N_of_ascii "9") with 57%N in H2.
  change (N_of_ascii "A") with 65%N. lia.
Qed.

Lemma to_lower_digits s : all_digit s → to_lower s = s.
Proof.
  induction s as [|c s IH]; [done|]. intros [Hc Hs]%sforall_cons.
  change (to_lower (String c s)) with (String (lower_byte c) (to_lower s)). rewrite (IH Hs).
  unfold lower_byte. by rewrite digit_not_upper.
Qed.

Lemma digits_no_byte b s : is_digit b = false → all_digit s → has_byte b s = false.
Proof.
  intros Hb Hs. destruct (has_byte b s) eqn:E; [|done]. apply Hs in E. congruence.
Qed.

Definition d_mantissa (d : decimal) : string :=
  d_int d +:+ (match d_frac d with Some f => "." +:+ f | None => "" end).

Lemma mantissa_no_e d : valid_decimal d → has_byte "e" (d_mantissa d) = false.
Proof.
  intros Hv. pose proof (valid_int d Hv) as [_ Hi]. destruct Hv as (_ & Hf & _). unfold d_mantissa.
  rewrite has_byte_app, (digits_no_byte "e" (d_int d)) by done.
  destruct (d_frac d) as [f|]; [|done]. destruct (Hf f eq_refl) as [_ Hd]. simpl.
  by apply digits_no_byte.
Qed.

Lemma mantissa_lower d : valid_decimal d → to_lower (d_mantissa d) = d_mantissa d.
Proof.
  intros Hv. pose proof (valid_int d Hv) as [_ Hi]. destruct Hv as (_ & Hf & _). unfold d_mantissa.
  rewrite to_lower_app, (to_lower_digits (d_int d)) by done. f_equal.
  destruct (d_frac d) as [f|]; [|done]. destruct (Hf f eq_refl) as [_ Hd].
  change (to_lower ("." +:+ f)) with ("." +:+ to_lower f). by rewrite to_lower_digits.
Qed.

(** The text of the exponent, in lower case, after its letter. *)
Lemma exponent_lower d :
  valid_decimal d →
  to_lower (match d_exp d with Some (upper, t, _) => (if (upper : bool) then "E" else "e") +:+ t | None => "" end) =
  match d_exp d with Some (_, t, _) => "e" +:+ t | None => "" end.
Proof.
  intros (_ & _ & He). destruct (d_exp d) as [[[upper t] e]|]; [|done].
  destruct (He upper t e eq_refl) as (sign & u & -> & Hs & _ & Hu & _).
  rewrite !to_lower_app, (to_lower_digits u) by done.
  repeat (apply elem_of_cons in Hs as [->|Hs]); [..|by apply elem_of_nil in Hs]; by destruct upper.
Qed.

Definition d_body (d : decimal) : string :=
  d_mantissa d +:+
  (match d_exp d with Some (upper, t, _) => (if (upper : bool) then "E" else "e") +:+ t | None => "" end).

Lemma cut_body d :
  valid_decimal d →
  cut "e" (to_lower (d_body d)) = (match d_exp d with Some (_, t, _) => Some (d_mantissa d, t) | None => None end).
Proof.
  intros Hv. unfold d_body. rewrite to_lower_app, mantissa_lower, exponent_lower by done.
  destruct (d_exp d) as [[[upper t] e]|].
  - apply cut_app. by apply mantissa_no_e.
  - rewrite sapp_nil_r. apply cut_none. by apply mantissa_no_e.
Qed.

Lemma cut_mantissa d :
  valid_decimal d → cut_or "." (d_mantissa d) = (d_int d, default "" (d_frac d)).
Proof.
  intros Hv. pose proof (valid_int d Hv) as [_ Hi]. unfold d_mantissa, cut_or.
  destruct (d_frac d) as [f|]; simpl.
  - by rewrite (cut_app "." (d_int d) f) by (by apply digits_no_byte).
  - rewrite sapp_nil_r, (proj2 (cut_none "." (d_int d))); [done|]. by apply digits_no_byte.
Qed.

Lemma text_body d : d_text d = (if d_neg d then "-" else "") +:+ d_body d.
Proof. unfold d_text, d_body, d_mantissa. by rewrite <-sapp_assoc. Qed.

Lemma body_sign d : valid_decimal d → has_prefix "-" (d_body d) = false.
Proof.
  intros Hv. pose proof (valid_int d Hv) as [Hne Hi]. unfold d_body, d_mantissa.
  destruct (d_int d) as [|c s]; [done|]. apply sforall_cons in Hi as [Hc _].
  unfold has_prefix. cbn [String.append String.prefix].
  by destruct (ascii_dec "-" c) as [<-|].
Qed.

(** The exponent is read back, unless it is out of range. *)
Lemma digits_read u : all_digit u → digits_value 0 u = Some (digits u).
Proof.
  intros Hu. unfold digits. assert (∀ acc, is_Some (digits_value acc u)) as H; [|by destruct (H 0) as [v ->]].
  induction u as [|c u IH]; intros acc; [by eexists|]. apply sforall_cons in Hu as [Hc Hu].
  cbn [digits_value]. unfold digit_value. unfold is_digit in Hc. rewrite Hc. cbn [mbind option_bind]. by apply IH.
Qed.

Lemma ParseInt_exponent d upper t e :
  valid_decimal d → d_exp d = Some (upper, t, e) →
  ParseInt t = (e, None) ∨ (¬ -1000 ≤ e ≤ 1000 ∧ (ParseInt t).2 ≠ None).
Proof.
  intros (_ & _ & He) Ed. destruct (He upper t e Ed) as (sign & u & -> & Hs & Hne & Hu & ->).
  pose proof (digits_read u Hu) as Hv. pose proof (digits_value_le 0 u _ ltac:(done) Hv) as H0.
  pose proof (λ neg, parse_digits_value neg u _ Hne Hv) as Hp.
  assert (∀ neg e, e = (if (neg : bool) then - digits u else digits u) →
    parse_digits neg u = (e, None) ∨ (¬ -1000 ≤ e ≤ 1000 ∧ (parse_digits neg u).2 ≠ None)) as H.
  { intros neg e ->. rewrite Hp. destruct neg.
    - destruct (2 ^ 63 <? digits u) eqn:E; [right; zb|by left]. split; [lia|done].
    - destruct (2 ^ 63 - 1 <? digits u) eqn:E; [right; zb|by left]. split; [lia|done]. }
  repeat (apply elem_of_cons in Hs as [->|Hs]); [..|by apply elem_of_nil in Hs].
  - destruct u as [|c u]; [done|]. assert (is_digit c = true) as Hc by by apply sforall_cons in Hu as [].
    assert (ParseInt ("" +:+ String c u) = parse_digits false (String c u)) as ->; [|by apply (H false)].
    cbn [String.append ParseInt]. rewrite !decide_False; [done|by intros ->..].
  - by apply (H false).
  - by apply (H true).
Qed.

Lemma rat_of_text d : valid_decimal d → small_decimal d = true → rat_of_literal (d_text d) = d_value d.
Proof.
  intros Hv [_ Hsm]%andb_true_iff. unfold rat_of_literal. rewrite text_body.
  assert (has_prefix "-" ((if d_neg d then "-" else "") +:+ d_body d) = d_neg d) as ->.
  { destruct (d_neg d); [|by apply body_sign]. unfold has_prefix. cbn [String.append String.prefix].
    by destruct (d_body d). }
  assert ((if d_neg d then sdrop 1 ((if d_neg d then "-" else "") +:+ d_body d)
           else (if d_neg d then "-" else "") +:+ d_body d) = d_body d) as ->.
  { destruct (d_neg d); [|done]. done. }
  unfold cut_or at 1. rewrite cut_body by done. unfold d_value.
  unfold d_exponent in *. destruct (d_exp d) as [[[upper t] e]|] eqn:Ee; cbn [from_option snd] in *.
  - rewrite cut_mantissa by done. apply andb_true_iff in Hsm as [H1%Z.leb_le H2%Z.leb_le].
    destruct (ParseInt_exponent d upper t e Hv Ee) as [->|[[] _]]; [done|lia].
  - assert (to_lower (d_body d) = d_mantissa d) as ->.
    { unfold d_body. rewrite Ee, sapp_nil_r. by apply mantissa_lower. }
    by rewrite cut_mantissa by done.
Qed.

Lemma exponent_text d :
  valid_decimal d → exponent_ok (d_text d) = (-1000 <=? d_exponent d) && (d_exponent d <=? 1000).
Proof.
  intros Hv. pose proof (cut_body d Hv) as Hc. unfold exponent_ok. rewrite text_body.
  assert (cut "e" (to_lower ((if d_neg d then "-" else "") +:+ d_body d)) =
          (match d_exp d with
           | Some (_, t, _) => Some ((if d_neg d then "-" else "") +:+ d_mantissa d, t) | None => None end)) as ->.
  { destruct (d_neg d); [|exact Hc]. rewrite to_lower_app. change (to_lower "-") with "-".
    cbn [String.append cut]. rewrite Hc. by destruct (d_exp d) as [[[]]|]. }
  unfold d_exponent. destruct (d_exp d) as [[[upper t] e]|] eqn:Ee; [|done]. cbn [from_option snd].
  destruct (ParseInt_exponent d upper t e Hv Ee) as [->|[He Hn]]; [done|].
  destruct (ParseInt t) as [e' [err|]]; [|done]. symmetry. apply andb_false_iff. rewrite !Z.leb_gt. lia.
Qed.

Lemma exactNumber_text d :
  valid_decimal d → exactNumber (d_text d) = if small_decimal d then Some (d_value d) else None.
Proof.
  intros Hv. unfold exactNumber. rewrite (text_in_language d Hv), (exponent_text d Hv), orb_false_r.
  pose proof (rat_of_text d Hv) as Hr. unfold small_decimal in *. rewrite Z.ltb_antisym.
  destruct (slen (d_text d) <=? 100); [|done]. cbn [negb andb] in *.
  destruct ((-1000 <=? d_exponent d) && _); [|done]. by rewrite Hr.
Qed.

(** C38: a number satisfies a numeric assertion exactly when the assertion is
    written the same, or both are within the limits of an exact comparison -
    at most 100 bytes, the exponent between -1000 and 1000 - and denote the
    same rational: within them trailing zeros, the sign of zero and the letter
    and size of the exponent do not matter, and no rounding makes two
    different numbers equal; beyond them only the text counts. *)
Theorem numeric_assertion_exact (actual expected : decimal) :
  valid_decimal actual → valid_decimal expected →
  jsonValueMatches (JNumber (d_text actual)) (d_text expected) = true ↔
  d_text actual = d_text expected ∨
  (small_decimal actual = true ∧ small_decimal expected = true ∧ d_value actual == d_value expected)%Q.
Proof.
  intros Ha He. unfold jsonValueMatches. cbn [show]. rewrite (exactNumber_text actual Ha), (exactNumber_text expected He).
  case_decide as Heq; [naive_solver|].
  destruct (small_decimal actual), (small_decimal expected); [rewrite Qeq_bool_iff; naive_solver|naive_solver..].
Qed.

Definition sim_decimal (int frac : string) : decimal :=
  {| d_neg := true; d_int := int; d_frac := Some frac; d_exp := Some (true, "+2", 2) |}.

Lemma sim_decimal_valid int c s frac :
  int = String c s → ascii_in "1" "9" c = true → all_digit s → frac ≠ "" → all_digit frac →
  valid_decimal (sim_decimal int frac).
Proof.
  intros -> Hc Hs Hf Hd. split; [right; by exists c, s|]. split; [by intros ? [= <-]|].
  intros ? ? ? [= <- <- <-]. exists "+", "2".
  split; [done|]. split; [by right; left|]. split; [done|]. split; [|done]. intros x. simpl. case_decide; [by subst|done].
Qed.

Lemma numeric_assertion_exact_witness :
  jsonValueMatches (JNumber "-1.50E+2") "-1.5E+2" = true ↔
  "-1.50E+2" = "-1.5E+2" ∨
  (true = true ∧ true = true ∧ d_value (sim_decimal "1" "50") == d_value (sim_decimal "1" "5"))%Q.
Proof.
  apply (numeric_assertion_exact (sim_decimal "1" "50") (sim_decimal "1" "5")).
  all: apply (sim_decimal_valid _ "1" ""); try done; intros x; simpl; repeat case_decide; by subst.
Defined.

(** The same rational, written on either side of the limit. *)
Example beyond_the_limit :
  jsonValueMatches (JNumber "1e1001") "10e1000" = false ∧ jsonValueMatches (JNumber "1e1000") "10e999" = true.
Proof. vm_compute. done. Qed.
