(* ===== verification/Drivers.v ===== *)
(** * Drivers and their configuration (internal/driver)

    The drivers a monitor can name, with what each keeps of the monitor's
    specification, their constructors, and the handling of endpoints and
    address families they share (endpoint.go, family.go). *)

From S2P Require Import Prelude GoStd GoTime Errors Api Notifier.

(** ** Endpoints and families *)

Definition errNotHostPort : error :=
  ENew "endpoint must be a host or host:port, without a scheme or a user".

Definition checkHostEndpoint (endpoint : string) : option error :=
  if contains "://" endpoint || contains "@" endpoint then Some errNotHostPort else None.

(** [host[1:len(host)-1]] *)
Definition unbracket (host : string) : string :=
  if has_prefix "[" host && has_suffix "]" host
  then sdrop 1 (stake (String.length host - 1) host) else host.

Definition hostPort (endpoint defaultPort : string) : string * string :=
  let '(host, port) :=
    match SplitHostPort endpoint with
    | Ok (host, port) => (host, port)
    | Err _ => (unbracket endpoint, "")
    end in
  (host, if decide (port = "") then defaultPort else port).

Definition familyNetwork (network family : string) : string :=
  let base := trim_right (λ c, bool_decide (c = "4"%char ∨ c = "6"%char)) network in
  if decide (family = FamilyIPv4) then base +:+ "4"
  else if decide (family = FamilyIPv6) then base +:+ "6"
  else network.

(** ** HTTP clients *)

(** An [http.Client] as the drivers set it up: the address family its
    transport dials over - the default transport when empty - and the server
    name TLS is verified for, when it is not the URL's. *)
Record http_client := {
  hc_Timeout : duration; hc_family : string; hc_ServerName : string; hc_DisableKeepAlives : bool;
  hc_FollowRedirects : bool }.

Definition httpClient (family : string) (timeout : duration) : http_client :=
  {| hc_Timeout := timeout; hc_family := family; hc_ServerName := "";
     hc_DisableKeepAlives := negb (bool_decide (family = "")); hc_FollowRedirects := true |}.

(** [transport.TLSClientConfig] and [transport.DisableKeepAlives]. *)
Definition with_ServerName (c : http_client) (server : string) : http_client :=
  {| hc_Timeout := hc_Timeout c; hc_family := hc_family c; hc_ServerName := server;
     hc_DisableKeepAlives := true; hc_FollowRedirects := hc_FollowRedirects c |}.

(** [client.CheckRedirect] answering [http.ErrUseLastResponse]. *)
Definition without_redirects (c : http_client) : http_client :=
  {| hc_Timeout := hc_Timeout c; hc_family := hc_family c; hc_ServerName := hc_ServerName c;
     hc_DisableKeepAlives := hc_DisableKeepAlives c; hc_FollowRedirects := false |}.

(** ** Secrets *)

(** [notifier.GetSecret]: the data of a Secret of the monitor's namespace. *)
Class Secrets (W : Type) := GetSecret : string → string → W → result error (gmap string string) * W.

(** ** The drivers *)

(** [smtpAuth]. *)
Record smtp_auth := { sa_identity : string; sa_username : string; sa_password : string; sa_host : string }.

Inductive driver :=
| HTTPDriver (endpoint : string) (client : http_client) (check : option TlsCheck) (httpCheck : option HttpCheck)
| HTTPJSONDriver (endpoint : string) (client : http_client) (assertions : gmap string string)
    (expectedStatus : Z)
| SMTPDriver (endpoint family : string) (auth : option smtp_auth) (secrets : list string) (check : SmtpCheck)
| REDISDriver (endpoint family : string) (auth : list string) (check : RedisCheck)
| TLSDriver (endpoint family : string) (check : TlsCheck)
| TCPDriver (endpoint family : string)
| DNSDriver (endpoint family : string) (check : DnsCheck)
| PingDriver (endpoint family : string)
| TrinoDriver (endpoint : string) (client : http_client)
| OpenSearchDriver (endpoint : string) (client : http_client)
| MYSQLDriver (kind endpoint family username password : string) (check : option MysqlCheck)
| PostgresDriver (endpoint family username password : string) (check : option PostgresCheck)
| MongoDBDriver (endpoint family username password : string) (check : option MongodbCheck)
| ScyllaDBDriver (endpoint family username password : string).

Definition driver_endpoint (d : driver) : string :=
  match d with
  | HTTPDriver e _ _ _ | HTTPJSONDriver e _ _ _ | SMTPDriver e _ _ _ _ | REDISDriver e _ _ _
  | TLSDriver e _ _ | TCPDriver e _ | DNSDriver e _ _ | PingDriver e _ | TrinoDriver e _
  | OpenSearchDriver e _ | MYSQLDriver _ e _ _ _ _ | PostgresDriver e _ _ _ _
  | MongoDBDriver e _ _ _ _ | ScyllaDBDriver e _ _ _ => e
  end.

Definition driver_type (d : driver) : string :=
  match d with
  | HTTPDriver _ _ _ _ => "http" | HTTPJSONDriver _ _ _ _ => "http-json" | SMTPDriver _ _ _ _ _ => "smtp"
  | REDISDriver _ _ _ _ => "redis" | TLSDriver _ _ _ => "tls" | TCPDriver _ _ => "tcp"
  | DNSDriver _ _ _ => "dns" | PingDriver _ _ => "ping" | TrinoDriver _ _ => "trino"
  | OpenSearchDriver _ _ => "opensearch" | MYSQLDriver kind _ _ _ _ _ => kind
  | PostgresDriver _ _ _ _ _ => "postgres" | MongoDBDriver _ _ _ _ _ => "mongodb"
  | ScyllaDBDriver _ _ _ _ => "scylladb"
  end.

(** The address family a driver checks over; empty for either. *)
Definition driver_family (d : driver) : string :=
  match d with
  | HTTPDriver _ c _ _ | HTTPJSONDriver _ c _ _ | TrinoDriver _ c | OpenSearchDriver _ c => hc_family c
  | SMTPDriver _ f _ _ _ | REDISDriver _ f _ _
  | TLSDriver _ f _ | TCPDriver _ f | DNSDriver _ f _ | PingDriver _ f | MYSQLDriver _ _ f _ _ _ | PostgresDriver _ f _ _ _
  | MongoDBDriver _ f _ _ _ | ScyllaDBDriver _ f _ _ => f
  end.

(** ** Constructors *)

Definition errEmptyEndpoint : error := ENew "endpoint cannot be empty".

(** The first lines of most constructors. *)
Definition check_endpoint (endpoint : string) : option error :=
  if decide (endpoint = "") then Some errEmptyEndpoint else checkHostEndpoint endpoint.

Definition no_TlsCheck : TlsCheck := {| DaysToExpire := 0; tls_Host := "" |}.
Definition no_DnsCheck : DnsCheck := {| dns_Tls := false; dns_Verify := ""; dns_Server := ""; dns_Type := "" |}.
Definition no_RedisCheck : RedisCheck := {| redis_Tls := false; redis_SecretRef := {| secretName := "" |} |}.
Definition no_SmtpCheck : SmtpCheck :=
  {| smtp_Helo := ""; smtp_Tls := false; smtp_StartTls := false; smtp_EmailSecretRef := {| secretName := "" |};
     smtp_VerifyAssertion := ""; smtp_FromAssertion := ""; smtp_ToAssertion := "" |}.

Definition NewHTTPDriver (endpoint family : string) (check : option TlsCheck) (httpCheck : option HttpCheck)
  : result error driver :=
  if decide (endpoint = "") then Err errEmptyEndpoint
  else
    let client := httpClient family (30 * Second) in
    let client := match check with
                  | Some check => if decide (tls_Host check = "") then client
                                  else with_ServerName client (tls_Host check)
                  | None => client
                  end in
    Ok (HTTPDriver endpoint client check httpCheck).

Definition NewHTTPJSONDriver (endpoint family : string) (check : option HttpJsonCheck) : result error driver :=
  match check with
  | Some check =>
      if decide (endpoint = "") then Err (ENew "invalid endpoint or config for http-json")
      else
        let client := httpClient family (30 * Second) in
        let client := if (300 <=? ExpectedStatusCode check) && (ExpectedStatusCode check <? 400)
                      then without_redirects client else client in
        Ok (HTTPJSONDriver endpoint client (JsonAssertions check) (ExpectedStatusCode check))
  | None => Err (ENew "invalid endpoint or config for http-json")
  end.

Definition NewTLSDriver (endpoint family : string) (check : option TlsCheck) : result error driver :=
  match check_endpoint endpoint with
  | Some e => Err e
  | None => Ok (TLSDriver endpoint family (default no_TlsCheck check))
  end.

Definition NewTCPDriver (endpoint family : string) : result error driver :=
  match check_endpoint endpoint with Some e => Err e | None => Ok (TCPDriver endpoint family) end.

Definition NewDNSDriver (endpoint family : string) (check : option DnsCheck) : result error driver :=
  match check_endpoint endpoint with
  | Some e => Err e
  | None => Ok (DNSDriver endpoint family (default no_DnsCheck check))
  end.

Definition NewPingDriver (endpoint family : string) : result error driver :=
  match check_endpoint endpoint with Some e => Err e | None => Ok (PingDriver endpoint family) end.

Definition NewTrinoDriver (endpoint family : string) : result error driver :=
  if decide (endpoint = "") then Err errEmptyEndpoint
  else Ok (TrinoDriver (trim_suffix "/" endpoint) (httpClient family (30 * Second))).

Definition NewOpenSearchDriver (endpoint family : string) : result error driver :=
  if decide (endpoint = "") then Err errEmptyEndpoint
  else Ok (OpenSearchDriver (trim_suffix "/" endpoint) (httpClient family (30 * Second))).

Section secrets.
Context {W : Type} `{!Secrets W}.
(** [strconv.Quote]. *)
Variable Quote : string → string.

(** A constructor that reads a Secret when the check names one. *)
Definition with_secret (name namespace : string) (k : gmap string string → driver) (w : W)
  : result error driver * W :=
  if decide (name = "") then (Ok (k ∅), w)
  else
    let '(secret, w) := GetSecret name namespace w in
    (match secret with
     | Err e => Err (EWrap "unable to read secret: " e)
     | Ok data => Ok (k data)
     end, w).

Definition secret_field (data : gmap string string) (field : string) : string := default "" (data !! field).

Definition NewREDISDriver (endpoint family : string) (check : option RedisCheck) (namespace : string) (w : W)
  : result error driver * W :=
  match check_endpoint endpoint with
  | Some e => (Err e, w)
  | None =>
      let check := default no_RedisCheck check in
      with_secret (secretName (redis_SecretRef check)) namespace (λ data,
        let username := secret_field data "username" in
        let password := secret_field data "password" in
        let auth := if decide (password = "") then []
                    else if decide (username = "") then ["AUTH"; password]
                    else ["AUTH"; username; password] in
        REDISDriver endpoint family auth check) w
  end.

Definition NUL : string := String "000" "".

Definition NewSMTPDriver (endpoint family : string) (check : option SmtpCheck) (namespace : string) (w : W)
  : result error driver * W :=
  match check_endpoint endpoint with
  | Some e => (Err e, w)
  | None =>
      let check := default no_SmtpCheck check in
      with_secret (secretName (smtp_EmailSecretRef check)) namespace (λ data,
        let identity := secret_field data "identity" in
        let username := secret_field data "username" in
        let password := secret_field data "password" in
        if decide (username = "" ∨ password = "") then SMTPDriver endpoint family None [] check
        else
          let quoted := Quote password in
          SMTPDriver endpoint family
            (Some {| sa_identity := identity; sa_username := username; sa_password := password;
                     sa_host := (hostPort endpoint "25").1 |})
            [base64 (identity +:+ NUL +:+ username +:+ NUL +:+ password); base64 password; password;
             sdrop 1 (stake (String.length quoted - 1) quoted)] check) w
  end.

Definition newMySQLFamilyDriver (kind endpoint family : string) (check : option MysqlCheck)
    (namespace : string) (w : W) : result error driver * W :=
  match check_endpoint endpoint with
  | Some e => (Err e, w)
  | None =>
      with_secret (from_option (λ c, secretName (mysql_SecretRef c)) "" check) namespace (λ data,
        MYSQLDriver kind endpoint family (secret_field data "username") (secret_field data "password") check) w
  end.

Definition NewMYSQLDriver := newMySQLFamilyDriver "mysql".
Definition NewMariaDBDriver := newMySQLFamilyDriver "mariadb".

Definition NewPostgresDriver (endpoint family : string) (check : option PostgresCheck)
    (namespace : string) (w : W) : result error driver * W :=
  match check_endpoint endpoint with
  | Some e => (Err e, w)
  | None =>
      with_secret (from_option (λ c, secretName (postgres_SecretRef c)) "" check) namespace (λ data,
        PostgresDriver endpoint family (secret_field data "username") (secret_field data "password") check) w
  end.

Definition NewMongoDBDriver (endpoint family : string) (check : option MongodbCheck)
    (namespace : string) (w : W) : result error driver * W :=
  match check_endpoint endpoint with
  | Some e => (Err e, w)
  | None =>
      with_secret (from_option (λ c, secretName (mongodb_SecretRef c)) "" check) namespace (λ data,
        MongoDBDriver endpoint family (secret_field data "username") (secret_field data "password") check) w
  end.

Definition NewScyllaDBDriver (endpoint family : string) (check : option ScylladbCheck)
    (namespace : string) (w : W) : result error driver * W :=
  match check_endpoint endpoint with
  | Some e => (Err e, w)
  | None =>
      with_secret (from_option (λ c, secretName (scylladb_SecretRef c)) "" check) namespace (λ data,
        ScyllaDBDriver endpoint family (secret_field data "username") (secret_field data "password")) w
  end.
End secrets.
