(* ===== verification/Smtp.v ===== *)
(** * The SMTP client and its authentication (net/smtp,
    internal/common/smtpAuth/smtpAuth.go)

    The client of the standard library as far as the operator uses it - the
    greeting, EHLO and HELO, STARTTLS, AUTH, the envelope - over a connection
    of [Net], and the PLAIN and LOGIN mechanisms of the operator.  Proved:
    credentials are only ever sent over TLS to the server they belong to. *)

From S2P Require Import Prelude GoStd GoTime Errors Trace Net Base64 Drivers.

(** ** smtpAuth *)

(** [smtp.ServerInfo]. *)
Record ServerInfo := { si_Name : string; si_TLS : bool; si_Auth : list string }.

Inductive mechanism := PLAIN | LOGIN.

Definition mechanism_name (m : mechanism) : string := match m with PLAIN => "PLAIN" | LOGIN => "LOGIN" end.

(** The method chosen, and the initial response. *)
Definition auth_Start (a : smtp_auth) (server : ServerInfo) : result error (mechanism * string) :=
  if negb (si_TLS server) then Err (ENew "insecure connection")
  else if decide (si_Name server ≠ sa_host a) then Err (ENew "server and auth host do not match")
  else if bool_decide ("PLAIN" ∈ si_Auth server) then
    Ok (PLAIN, sa_identity a +:+ NUL +:+ sa_username a +:+ NUL +:+ sa_password a)
  else Ok (LOGIN, "").

(** [Next]: nil when the exchange is over. *)
Definition auth_Next (a : smtp_auth) (method : mechanism) (fromServer : string) (more : bool)
  : result error (option string) :=
  if negb more then Ok None
  else
    match method with
    | PLAIN => Err (ENew "unexpected server challenge during plain")
    | LOGIN =>
        if decide (fromServer = "Username:") then Ok (Some (sa_username a))
        else if decide (fromServer = "Password:") then Ok (Some (sa_password a))
        else Err (ENew ("unexpected server challenge during login: " +:+ fromServer))
    end.

(** ** The client *)

Record Client := {
  c_serverName : string;
  c_tls : option string;   (* the server a TLS connection was verified for *)
  c_localName : string;
  c_didHello : bool;
  c_helloError : option error;
  c_ext : option (gmap string string);
  c_auth : list string }.

Definition with_hello (c : Client) (e : option error) : Client :=
  {| c_serverName := c_serverName c; c_tls := c_tls c; c_localName := c_localName c; c_didHello := true;
     c_helloError := e; c_ext := c_ext c; c_auth := c_auth c |}.

Definition with_ext (c : Client) (ext : option (gmap string string)) (auth : list string) : Client :=
  {| c_serverName := c_serverName c; c_tls := c_tls c; c_localName := c_localName c; c_didHello := c_didHello c;
     c_helloError := c_helloError c; c_ext := ext; c_auth := auth |}.

Definition with_localName (c : Client) (localName : string) : Client :=
  {| c_serverName := c_serverName c; c_tls := c_tls c; c_localName := localName; c_didHello := c_didHello c;
     c_helloError := c_helloError c; c_ext := c_ext c; c_auth := c_auth c |}.

Definition with_tls (c : Client) (server : string) : Client :=
  {| c_serverName := c_serverName c; c_tls := Some server; c_localName := c_localName c;
     c_didHello := c_didHello c; c_helloError := c_helloError c; c_ext := c_ext c; c_auth := c_auth c |}.

(** [validateLine], here and in email.go. *)
Definition validateLine (line : string) : option error :=
  if has_byte LF line || has_byte CR line then Some (ENew "smtp: A line must not contain CR or LF") else None.

(** The extensions an EHLO reply lists after its first line. *)
Definition parse_ext (msg : string) : gmap string string :=
  foldl (λ ext line,
           let '(k, v) := match cut " " line with Some p => p | None => (line, "") end in <[k := v]> ext)
    ∅ (tail (split LF msg)).

Section client.
Context {W : Type} `{!Conns W}.
(** The error of base64's decoder, and how many challenges a server gets in
    before the connection's deadline. *)
Variable corrupt : string → error.
Variable rounds : nat.

Notation IO := (M io_action W).

Definition cmd (c : Client) (expect : Z) (line : string) : IO (result error (Z * string)) :=
  err ← write (c_tls c) (line +:+ CRLF);
  match err with
  | Some e => mret (Err e)
  | None => ReadResponse expect
  end.

Definition cmd_err (c : Client) (expect : Z) (line : string) : IO (option error) :=
  r ← cmd c expect line;
  mret (match r with Ok _ => None | Err e => Some e end).

Definition NewClient (tls : option string) (host : string) : IO (result error Client) :=
  r ← ReadResponse 220;
  match r with
  | Err e => _ ← close; mret (Err e)
  | Ok _ =>
      mret (Ok {| c_serverName := host; c_tls := tls; c_localName := "localhost"; c_didHello := false;
                  c_helloError := None; c_ext := None; c_auth := [] |})
  end.

Definition ehlo (c : Client) : IO (option error * Client) :=
  r ← cmd c 250 ("EHLO " +:+ c_localName c);
  mret (match r with
        | Err e => (Some e, c)
        | Ok (_, msg) =>
            let ext := parse_ext msg in
            (None, with_ext c (Some ext)
                     (match ext !! "AUTH" with Some mechs => split " " mechs | None => c_auth c end))
        end).

Definition helo (c : Client) : IO (option error * Client) :=
  let c := with_ext c None (c_auth c) in
  e ← cmd_err c 250 ("HELO " +:+ c_localName c);
  mret (e, c).

Definition hello (c : Client) : IO (option error * Client) :=
  if c_didHello c then mret (c_helloError c, c)
  else
    r ← ehlo (with_hello c (c_helloError c));
    match r with
    | (None, c) => mret (c_helloError c, c)
    | (Some _, c) =>
        r ← helo c;
        let '(e, c) := r in mret (e, with_hello c e)
    end.

Definition Hello (c : Client) (localName : string) : IO (option error * Client) :=
  match validateLine localName with
  | Some e => mret (Some e, c)
  | None =>
      if c_didHello c then mret (Some (ENew "smtp: Hello called after other methods"), c)
      else hello (with_localName c localName)
  end.

(** The client afterwards, and the certificates of the TLS connection; the
    handshake runs at the first write. *)
Definition StartTLS (c : Client) (server : string)
  : IO (option error * Client * option (list certificate)) :=
  r ← hello c;
  match r with
  | (Some e, c) => mret (Some e, c, None)
  | (None, c) =>
      e ← cmd_err c 220 "STARTTLS";
      match e with
      | Some e => mret (Some e, c, None)
      | None =>
          h ← handshake_tls server;
          match h with
          | Err e => mret (Some e, c, None)
          | Ok certs => r ← ehlo (with_tls c server); mret (r, Some certs)
          end
      end
  end.

Definition Verify (c : Client) (addr : string) : IO (option error * Client) :=
  match validateLine addr with
  | Some e => mret (Some e, c)
  | None =>
      r ← hello c;
      match r with
      | (Some e, c) => mret (Some e, c)
      | (None, c) => e ← cmd_err c 250 ("VRFY " +:+ addr); mret (e, c)
      end
  end.

Definition Quit (c : Client) : IO (option error * Client) :=
  r ← hello c;
  let c := r.2 in
  e ← cmd_err c 221 "QUIT";
  match e with
  | Some e => mret (Some e, c)
  | None => _ ← close; mret (None, c)
  end.

(** A line of the AUTH exchange and its reply. *)
Definition auth_cmd (c : Client) (m : mechanism) (line : string) : IO (result error (Z * string)) :=
  err ← write_auth (c_tls c) (mechanism_name m) line;
  match err with
  | Some e => mret (Err e)
  | None => ReadResponse 0
  end.

(** What the client answers to a reply: the challenge it decoded, or the error
    that ends the exchange. *)
Definition auth_answer (a : smtp_auth) (m : mechanism) (code : Z) (msg64 : string)
  : result error (option string) :=
  if code =? 334 then
    match base64_decode msg64 with
    | Some msg => auth_Next a m msg true
    | None => Err (corrupt msg64)
    end
  else if code =? 235 then auth_Next a m msg64 false
  else Err (reply_error code msg64).

Fixpoint auth_loop (fuel : nat) (c : Client) (a : smtp_auth) (m : mechanism) (reply : result error (Z * string))
  : IO (option error * Client) :=
  match reply, fuel with
  | Err e, _ => mret (Some e, c)
  | Ok _, O => λ w, (Some (cn_ReadErr w), c, w, [])
  | Ok (code, msg64), S fuel =>
      match auth_answer a m code msg64 with
      | Err e => _ ← cmd c 501 "*"; r ← Quit c; mret (Some e, r.2)
      | Ok None => mret (None, c)
      | Ok (Some resp) => reply ← auth_cmd c m (base64 resp); auth_loop fuel c a m reply
      end
  end.

Definition server_info (c : Client) : ServerInfo :=
  {| si_Name := c_serverName c; si_TLS := negb (is_None_b (c_tls c)); si_Auth := c_auth c |}.

Definition Auth (c : Client) (a : smtp_auth) : IO (option error * Client) :=
  r ← hello c;
  match r with
  | (Some e, c) => mret (Some e, c)
  | (None, c) =>
      match auth_Start a (server_info c) with
      | Err e => r ← Quit c; mret (Some e, r.2)
      | Ok (m, resp) =>
          reply ← auth_cmd c m (trim_space ("AUTH " +:+ mechanism_name m +:+ " " +:+ base64 resp));
          auth_loop rounds c a m reply
      end
  end.

Definition has_ext (c : Client) (ext : string) : bool :=
  match c_ext c with Some m => negb (is_None_b (m !! ext)) | None => false end.

(** [Extension]: whether the server offers it. *)
Definition Extension (c : Client) (ext : string) : IO (bool * Client) :=
  r ← hello c;
  match r with
  | (Some _, c) => mret (false, c)
  | (None, c) => mret (has_ext c (to_upper ext), c)
  end.

Definition Mail (c : Client) (from : string) : IO (option error * Client) :=
  match validateLine from with
  | Some e => mret (Some e, c)
  | None =>
      r ← hello c;
      match r with
      | (Some e, c) => mret (Some e, c)
      | (None, c) =>
          e ← cmd_err c 250 ("MAIL FROM:<" +:+ from +:+ ">" +:+
                (if has_ext c "8BITMIME" then " BODY=8BITMIME" else "") +:+
                (if has_ext c "SMTPUTF8" then " SMTPUTF8" else ""));
          mret (e, c)
      end
  end.

Definition Rcpt (c : Client) (to : string) : IO (option error) :=
  match validateLine to with
  | Some e => mret (Some e)
  | None => cmd_err c 25 ("RCPT TO:<" +:+ to +:+ ">")
  end.

(** The steps after the greeting, each taken while there is no error. *)
Definition on_client (m : IO (option error * Client)) (next : Client → IO (option error * Client))
  : IO (option error * Client) :=
  r ← m;
  match r with (Some e, c) => mret (Some e, c) | (None, c) => next c end.

Definition skip_unless (b : bool) (m : Client → IO (option error * Client)) (c : Client)
  : IO (option error * Client) :=
  if b then m c else mret (None, c).
End client.

(** ** Where credentials go *)

(** A line of an AUTH exchange goes to the named server over TLS. *)
Definition credentials_safe (host : string) (a : io_action) : Prop :=
  match a with IOAuth tls _ _ => tls = Some host | _ => True end.

(** Every run returns an [a] with [P a] and only sends credentials to [host]
    over TLS. *)
Definition careful {W A} (host : string) (m : M io_action W A) (P : A → Prop) : Prop :=
  spec m (λ a t, Forall (credentials_safe host) t ∧ P a).

Section careful.
Context {W : Type} `{!Conns W}.
Variable corrupt : string → error.
Variable rounds : nat.
Variable host : string.

Lemma careful_ret {A} (a : A) (P : A → Prop) : P a → careful (W:=W) host (mret a) P.
Proof. intros H. apply spec_ret. by split; [constructor|]. Qed.

Lemma careful_bind {A B} (m : M io_action W A) (f : A → M io_action W B) P Q :
  careful host m P → (∀ a, P a → careful host (f a) Q) → careful host (m ≫= f) Q.
Proof.
  intros Hm Hf. eapply spec_bind; [exact Hm|]. intros a t [Ht Ha].
  eapply spec_mono; [exact (Hf a Ha)|]. intros b t' [Ht' Hb]. by split; [apply Forall_app|].
Qed.

Lemma careful_mono {A} (m : M io_action W A) (P Q : A → Prop) :
  careful host m P → (∀ a, P a → Q a) → careful host m Q.
Proof. intros Hm H. eapply spec_mono; [exact Hm|]. intros a t [Ht Ha]. split; [done|by apply H]. Qed.

Lemma careful_silent {A} (m : M io_action W A) : (∀ w, (m w).2 = []) → careful host m (λ _, True).
Proof. intros H w. rewrite H. by split; [constructor|]. Qed.

Lemma careful_log (x : io_action) : credentials_safe host x → careful (W:=W) host (log x) (λ _, True).
Proof. intros H w. by split; [by constructor|]. Qed.

Lemma careful_write tls bytes : careful host (write (W:=W) tls bytes) (λ _, True).
Proof. intros w. unfold write. destruct (cn_Write bytes w). by split; [by constructor|]. Qed.

Lemma careful_write_auth mech line : careful host (write_auth (W:=W) (Some host) mech line) (λ _, True).
Proof. intros w. unfold write_auth. destruct (cn_Write _ w). by split; [by constructor|]. Qed.

Lemma careful_handshake server : careful host (handshake_tls (W:=W) server) (λ _, True).
Proof. intros w. unfold handshake_tls. destruct (cn_Handshake server w). by split; [by constructor|]. Qed.

Lemma read_line_silent (w : W) : (read_line w).2 = [].
Proof. unfold read_line. case_decide; [done|]. by destruct (cut LF _) as [[]|]. Qed.

Lemma more_lines_silent fuel code message (w : W) : (more_lines fuel code message w).2 = [].
Proof.
  revert message w. induction fuel as [|fuel IH]; intros message w; cbn [more_lines]; [done|].
  unfold mbind, M_bind. pose proof (read_line_silent w) as Hl. destruct (read_line w) as [[[l|e] w1] t]; simpl in Hl; subst t; [|done].
  assert (∀ m w1, (let '(b, w2, t') := more_lines fuel code m w1 in (b, w2, [] ++ t')).2 = []) as Hm.
  { intros m w2. specialize (IH m w2). by destruct (more_lines fuel code m w2) as [[]]. }
  destruct (_ && _); [|apply Hm]. destruct (cl_continued _); [apply Hm|done].
Qed.

Lemma ReadResponse_silent expect (w : W) : (ReadResponse expect w).2 = [].
Proof.
  unfold ReadResponse. unfold mbind at 1, M_bind at 1. pose proof (read_line_silent w) as Hl.
  destruct (read_line w) as [[[l|e] w1] t]; simpl in Hl; subst t; [|done]. cbv zeta.
  unfold mbind, M_bind, rest_of_reply. destruct (cl_continued _); [|done].
  pose proof (more_lines_silent (S (String.length (cn_Unread w1))) (cl_code (parseCodeLine l))
                (cl_message (parseCodeLine l)) w1) as Hm.
  destruct (more_lines _ _ _ w1) as [[r w2] t]. simpl in Hm. by subst t.
Qed.

Lemma careful_ReadResponse expect : careful host (ReadResponse (W:=W) expect) (λ _, True).
Proof. apply careful_silent, ReadResponse_silent. Qed.

Lemma careful_close : careful host (close (W:=W)) (λ _, True).
Proof. by apply careful_log. Qed.

Hint Resolve careful_write careful_handshake careful_ReadResponse careful_close : careful.

(** A call whose answer does not matter to where credentials go. *)
Ltac careful_step := eapply careful_bind; [by auto with careful|]; intros ? ?.

Lemma careful_cmd c expect line : careful host (cmd (W:=W) c expect line) (λ _, True).
Proof. unfold cmd. careful_step. case_match; [by apply careful_ret|auto with careful]. Qed.
Hint Resolve careful_cmd : careful.

Lemma careful_cmd_err c expect line : careful host (cmd_err (W:=W) c expect line) (λ _, True).
Proof. unfold cmd_err. careful_step. by apply careful_ret. Qed.
Hint Resolve careful_cmd_err : careful.

(** The client still speaks to the same server over the same connection. *)
Definition same_conn (c c' : Client) : Prop := c_serverName c' = c_serverName c ∧ c_tls c' = c_tls c.

Lemma careful_ehlo c : careful host (ehlo (W:=W) c) (λ r, same_conn c r.2).
Proof. unfold ehlo. careful_step. apply careful_ret. by destruct a as [[]|]. Qed.

Lemma careful_hello c : careful host (hello (W:=W) c) (λ r, same_conn c r.2).
Proof.
  unfold hello. destruct (c_didHello c); [by apply careful_ret|].
  eapply careful_bind; [apply careful_ehlo|]. intros [e c1] [H1 H2]. simpl in *.
  destruct e as [e|]; [|by apply careful_ret]. unfold helo.
  eapply (careful_bind _ _ (λ r, same_conn c r.2)).
  { careful_step. by apply careful_ret. }
  intros [e' c2] [H3 H4]. by apply careful_ret.
Qed.

Lemma careful_Hello c name : careful host (Hello (W:=W) c name) (λ r, same_conn c r.2).
Proof.
  unfold Hello. destruct (validateLine name); [by apply careful_ret|].
  destruct (c_didHello c); [by apply careful_ret|]. exact (careful_hello (with_localName c name)).
Qed.

Lemma careful_Quit c : careful host (Quit (W:=W) c) (λ r, same_conn c r.2).
Proof.
  unfold Quit. eapply careful_bind; [apply careful_hello|]. intros [e c'] Hc. simpl in *.
  careful_step. case_match; [by apply careful_ret|]. careful_step. by apply careful_ret.
Qed.

(** A client on TLS was verified to speak to the server it names. *)
Definition verified (c : Client) : Prop := ∀ n, c_tls c = Some n → n = c_serverName c.

Lemma same_conn_verified c c' : same_conn c c' → verified c → verified c'.
Proof. intros [H1 H2] Hv n. rewrite H1, H2. apply Hv. Qed.

Lemma careful_StartTLS c :
  verified c → careful host (StartTLS (W:=W) c (c_serverName c)) (λ r, c_serverName r.1.2 = c_serverName c ∧ verified r.1.2).
Proof.
  intros Hv. unfold StartTLS. eapply careful_bind; [apply careful_hello|]. intros [[e|] c'] Hc; simpl in Hc.
  { apply careful_ret. split; [apply Hc|by eapply same_conn_verified]. }
  careful_step. destruct a as [e|].
  { apply careful_ret. split; [apply Hc|by eapply same_conn_verified]. }
  careful_step. destruct a as [certs|e].
  - eapply careful_bind; [apply careful_ehlo|]. intros [e c2] [H1 H2]. apply careful_ret. simpl in *.
    split; [rewrite H1; apply Hc|]. intros n. rewrite H1, H2. intros [= <-]. symmetry. apply Hc.
  - apply careful_ret. split; [apply Hc|by eapply same_conn_verified].
Qed.

Lemma careful_auth_cmd c m line :
  c_tls c = Some host → careful host (auth_cmd (W:=W) c m line) (λ _, True).
Proof.
  intros Hc. unfold auth_cmd. rewrite Hc. eapply careful_bind; [apply careful_write_auth|]. intros ? ?.
  case_match; [by apply careful_ret|auto with careful].
Qed.

Lemma careful_auth_loop fuel c a m reply :
  c_tls c = Some host → careful host (auth_loop (W:=W) corrupt fuel c a m reply) (λ r, same_conn c r.2).
Proof.
  intros Hc. revert reply. induction fuel as [|fuel IH]; intros [[code msg64]|e]; cbn [auth_loop].
  { intros w. by split; [constructor|]. }
  { by apply careful_ret. }
  2: { by apply careful_ret. }
  destruct (auth_answer _ _ _ _ _) as [[resp|]|e].
  - eapply careful_bind; [by apply careful_auth_cmd|]. intros reply _. apply IH.
  - by apply careful_ret.
  - careful_step. eapply careful_bind; [apply careful_Quit|]. intros r Hr. by apply careful_ret.
Qed.

Lemma auth_Start_safe a c m resp :
  verified c → auth_Start a (server_info c) = Ok (m, resp) → c_tls c = Some (sa_host a).
Proof.
  intros Hv. unfold auth_Start, server_info. simpl. destruct (c_tls c) as [n|] eqn:E; [|done]. simpl.
  case_decide as Hn; [done|]. intros _. by rewrite (Hv n E), Hn.
Qed.

Lemma careful_Auth c a :
  verified c → sa_host a = host → careful host (Auth (W:=W) corrupt rounds c a) (λ r, same_conn c r.2).
Proof.
  intros Hv Ha. unfold Auth. eapply careful_bind; [apply careful_hello|]. intros [[e|] c'] Hc; simpl in Hc.
  { by apply careful_ret. }
  destruct (auth_Start a (server_info c')) as [[m resp]|e] eqn:E.
  - apply auth_Start_safe in E; [|by eapply same_conn_verified]. rewrite Ha in E.
    eapply careful_bind; [by apply careful_auth_cmd|]. intros reply _.
    eapply careful_mono; [by apply careful_auth_loop|]. intros r [H1 H2]. destruct Hc as [H3 H4]. split; congruence.
  - eapply careful_bind; [apply careful_Quit|]. intros r [H1 H2]. apply careful_ret.
    destruct Hc as [H3 H4]. simpl. split; congruence.
Qed.

Lemma careful_Verify c addr : careful host (Verify (W:=W) c addr) (λ r, same_conn c r.2).
Proof.
  unfold Verify. destruct (validateLine addr); [by apply careful_ret|].
  eapply careful_bind; [apply careful_hello|]. intros [[e|] c'] Hc; [by apply careful_ret|].
  careful_step. by apply careful_ret.
Qed.

Lemma careful_Extension c ext : careful host (Extension (W:=W) c ext) (λ r, same_conn c r.2).
Proof.
  unfold Extension. eapply careful_bind; [apply careful_hello|].
  intros [[e|] c'] Hc; by apply careful_ret.
Qed.

Lemma careful_Mail c from : careful host (Mail (W:=W) c from) (λ r, same_conn c r.2).
Proof.
  unfold Mail. destruct (validateLine from); [by apply careful_ret|].
  eapply careful_bind; [apply careful_hello|]. intros [[e|] c'] Hc; [by apply careful_ret|].
  careful_step. by apply careful_ret.
Qed.

Lemma careful_Rcpt c to : careful host (Rcpt (W:=W) c to) (λ _, True).
Proof. unfold Rcpt. destruct (validateLine to); [by apply careful_ret|auto with careful]. Qed.

Lemma careful_lift {A} (f : W → A * W) : careful host (lift f) (λ _, True).
Proof. apply careful_silent. intros w. unfold lift. by destruct (f w). Qed.

Lemma careful_dial network addr : careful host (dial (W:=W) network addr) (λ _, True).
Proof. intros w. unfold dial. destruct (cn_Dial network addr w). by split; [by constructor|]. Qed.

Lemma careful_dial_tls server network addr : careful host (dial_tls (W:=W) server network addr) (λ _, True).
Proof. intros w. unfold dial_tls. destruct (cn_DialTLS server network addr w). by split; [by constructor|]. Qed.

Lemma careful_on_client m next P :
  careful host m (λ r, P r.2) → (∀ c, P c → careful host (next c) (λ r, P r.2)) →
  careful (W:=W) host (on_client m next) (λ r, P r.2).
Proof.
  intros Hm Hn. unfold on_client. eapply careful_bind; [exact Hm|].
  intros [[e|] c] Hc; [by apply careful_ret|by apply Hn].
Qed.

Lemma careful_skip b m c (P : Client → Prop) :
  P c → careful host (m c) (λ r, P r.2) → careful (W:=W) host (skip_unless b m c) (λ r, P r.2).
Proof. intros Hc Hm. unfold skip_unless. destruct b; [done|by apply careful_ret]. Qed.

(** The client speaks to [host], on TLS only when verified. *)
Definition speaks_to (c : Client) : Prop := c_serverName c = host ∧ verified c.

Lemma same_conn_speaks c c' : same_conn c c' → speaks_to c → speaks_to c'.
Proof. intros Hs [H1 H2]. split; [by destruct Hs as [-> _]|by eapply same_conn_verified]. Qed.

Lemma careful_kept {A} (m : M io_action W (A * Client)) c :
  speaks_to c → careful host m (λ r, same_conn c r.2) → careful host m (λ r, speaks_to r.2).
Proof. intros Hc Hm. eapply careful_mono; [exact Hm|]. intros r Hr. exact (same_conn_speaks c _ Hr Hc). Qed.
End careful.

#[export] Hint Resolve careful_write careful_handshake careful_ReadResponse careful_close careful_cmd
  careful_cmd_err careful_Rcpt : careful.
