(* ===== verification/Notifiers.v ===== *)
(** * The HTTP notifiers, and the email configuration (internal/notifier)

    Slack, Discord and webhook alerts as the HTTP requests they make, and the
    constructors of all notifiers but valkey's.  Templates and the JSON
    encoding of a string are the standard library's and stay parameters. *)

From S2P Require Import Prelude GoStd GoTime Errors Api Notifier Trace Drivers.

(** [version.Version], set when the program is linked, in [version.UserAgent]. *)
Class Version := version : string.
Definition UserAgent `{!Version} : string := "endpoint-monitoring/" +:+ version.

Record request := {
  rq_method : string; rq_url : string; rq_headers : list (string * string); rq_body : string }.

Record response := { StatusCode : Z; rs_Status : string }.

(** [http.NewRequest] accepts or refuses the URL; [Do] sends the request. *)
Class HttpWorld (W : Type) := {
  hw_NewRequest : string → string → option error;
  hw_Do : request → W → result error response * W }.

(** A parsed template, and [template.Parse]. *)
Definition template := NoticeValues → result error string.
Class Templates := { Parse : string → result error template; json_string : string → string }.

Definition ok_status (code : Z) : bool := (200 <=? code) && (code <? 300).

Inductive notifier :=
| SlackNotifier (cfg : SlackConfig)
| DiscordNotifier (cfg : DiscordConfig)
| WebhookNotifier (cfg : WebhookConfig) (contents : option template)
| EmailNotifier (cfg : EmailConfig) (subject body : option template).

(** ** Constructors *)

Definition NewSlack (config : option SlackConfig) : result error notifier :=
  match config with
  | Some c =>
      if negb (slack_Enabled c) || bool_decide (slack_WebhookURL c = "") then Err (ENew "invalid Slack config")
      else Ok (SlackNotifier c)
  | None => Err (ENew "invalid Slack config")
  end.

Definition NewDiscord (config : option DiscordConfig) : result error notifier :=
  match config with
  | Some c =>
      if negb (discord_Enabled c) || bool_decide (discord_WebhookURL c = "")
      then Err (ENew "invalid Discord config")
      else Ok (DiscordNotifier c)
  | None => Err (ENew "invalid Discord config")
  end.

Section parse.
Context `{!Templates}.
(** [strconv.Quote]. *)
Variable Quote : string → string.

(** A template that is only parsed when it is not empty. *)
Definition parse_optional (text what : string) : result error (option template) :=
  if decide (text = "") then Ok None
  else match Parse text with
       | Ok t => Ok (Some t)
       | Err e => Err (EWrap ("failed to parse the " +:+ what +:+ " template: ") e)
       end.

Definition NewWebhook (config : option WebhookConfig) : result error notifier :=
  match config with
  | Some c =>
      if negb (webhook_Enabled c) || bool_decide (webhook_WebhookURL c = "")
      then Err (ENew "invalid Webhook config")
      else t ← parse_optional (webhook_Contents c) "contents"; Ok (WebhookNotifier c t)
  | None => Err (ENew "invalid Webhook config")
  end.

(** The checks of [email.New] before the templates. *)
Definition check_email (cfg : EmailConfig) : option error :=
  let provider := to_upper (email_EmailProvider cfg) in
  let plain := bool_decide (provider = "" ∨ provider = "SMTP") in
  if plain || bool_decide (provider = "SES") then
    if bool_decide (provider = "SES") && bool_decide (email_From cfg = "") then
      Some (ENew "invalid email configuration: from field is required for ses")
    else if bool_decide (secretName (email_EmailSecretRef cfg) = "") && plain
            && bool_decide (email_Host cfg = "") then
      Some (ENew (if decide (provider = "") then "email config is nil or missing Host or emailProvider"
                  else "emailProvider is smtp and missing Host"))
    else if bool_decide (secretName (email_EmailSecretRef cfg) = "") && plain
            && bool_decide (email_From cfg = "") then
      Some (ENew "invalid email configuration: from field is required")
    else if is_nil (email_To cfg) then Some (ENew "invalid email configuration: to array is required")
    else None
  else Some (ENew ("unsupported emailProvider " +:+ Quote (email_EmailProvider cfg) +:+ ", must be smtp or ses")).

Definition NewEmail (config : option EmailConfig) : result error notifier :=
  match config with
  | Some c =>
      if negb (email_Enabled c) then Err (ENew "email config is nil or disabled")
      else match check_email c with
           | Some e => Err e
           | None =>
               subject ← parse_optional (email_Subject c) "subject";
               body ← parse_optional (email_Body c) "body";
               Ok (EmailNotifier c subject body)
           end
  | None => Err (ENew "email config is nil or disabled")
  end.
End parse.

(** ** Sending *)

Section send.
Context {W : Type} `{!HttpWorld W, !Secrets W, !Templates, !Version}.

Notation HT := (M request W).

Definition http_Do (rq : request) : HT (result error response) :=
  λ w, let '(r, w) := hw_Do rq w in (r, w, [rq]).

(** A POST of a JSON object with one field, as Slack and Discord take it. *)
Definition post_json (name url field text : string) : HT (option error) :=
  let body := "{" +:+ json_string field +:+ ":" +:+ json_string text +:+ "}" in
  match hw_NewRequest (W:=W) "POST" url with
  | Some e => mret (Some (EWrap ("failed to create " +:+ name +:+ " request: ") e))
  | None =>
      resp ← http_Do {| rq_method := "POST"; rq_url := url;
                        rq_headers := [("Content-Type", "application/json"); ("User-Agent", UserAgent)];
                        rq_body := body |};
      mret (match resp with
            | Err e => Some (EWrap ("failed to send " +:+ name +:+ " alert: ") e)
            | Ok r =>
                if ok_status (StatusCode r) then None
                else Some (ENew ("non-2xx response from " +:+ name +:+ ": " +:+ rs_Status r))
            end)
  end.

Definition slack_SendAlert (cfg : SlackConfig) (status : string) (values : NoticeValues) : HT (option error) :=
  if negb (ShouldAlert (slack_AlertOn cfg) status) then mret None
  else post_json "slack" (slack_WebhookURL cfg) "text" (nv_AlertMessage values).

Definition formatDiscordMessage (values : NoticeValues) : string :=
  let statusEmoji :=
    if decide (nv_Status values = "success") then ":white_check_mark:"
    else if decide (nv_Status values = "failure") then ":x:" else ":information_source:" in
  statusEmoji +:+ " **Endpoint Monitor Alert** " +:+ statusEmoji +:+ String LF (String LF "**Status:** ") +:+
  to_upper (nv_Status values) +:+ String LF (String LF "**Details:**") +:+ String LF "```" +:+ String LF "" +:+
  nv_AlertMessage values +:+ String LF "```".

Definition discord_SendAlert (cfg : DiscordConfig) (status : string) (values : NoticeValues)
  : HT (option error) :=
  if negb (ShouldAlert (discord_AlertOn cfg) status) then mret None
  else post_json "discord" (discord_WebhookURL cfg) "content" (formatDiscordMessage values).

(** The Authorization headers a Secret gives. *)
Definition auth_headers (data : gmap string string) : list (string * string) :=
  match data !! "Raw" with Some auth => [("Authorization", auth)] | None => [] end ++
  match data !! "Basic" with Some auth => [("Authorization", "Basic " +:+ base64 auth)] | None => [] end ++
  match data !! "Bearer" with Some auth => [("Authorization", "Bearer " +:+ auth)] | None => [] end.

(** The request before its authorization. *)
Definition webhook_request (cfg : WebhookConfig) (contents : option template) (values : NoticeValues)
  : result error request :=
  let contentType := if decide (webhook_ContentType cfg = "") then "application/json" else webhook_ContentType cfg in
  match contents with
  | Some t =>
      match t values with
      | Err e => Err (EWrap "WEBHOOK: failed to execute the contents template: " e)
      | Ok body =>
          match hw_NewRequest (W:=W) "POST" (webhook_WebhookURL cfg) with
          | Some e => Err (EWrap "WEBHOOK: failed to create POST webhook: " e)
          | None => Ok {| rq_method := "POST"; rq_url := webhook_WebhookURL cfg;
                          rq_headers := [("Content-Type", contentType); ("User-Agent", UserAgent)];
                          rq_body := body |}
          end
      end
  | None =>
      match hw_NewRequest (W:=W) "GET" (webhook_WebhookURL cfg) with
      | Some e => Err (EWrap "WEBHOOK: failed to GET webhook alert: " e)
      | None => Ok {| rq_method := "GET"; rq_url := webhook_WebhookURL cfg;
                      rq_headers := [("User-Agent", UserAgent)]; rq_body := "" |}
      end
  end.

Definition with_headers (rq : request) (hs : list (string * string)) : request :=
  {| rq_method := rq_method rq; rq_url := rq_url rq; rq_headers := rq_headers rq ++ hs; rq_body := rq_body rq |}.

(** What the answer means for the alert. *)
Definition webhook_outcome (resp : result error response) : option error :=
  match resp with
  | Err e => Some (ERetryable (EWrap "WEBHOOK: failed to make http webhook request: " e))
  | Ok r =>
      if ok_status (StatusCode r) then None
      else
        let err := ENew ("WEBHOOK: non-2xx response from webhook: " +:+ rs_Status r) in
        Some (if (StatusCode r =? 429) || (500 <=? StatusCode r) then ERetryable err else err)
  end.

Definition webhook_SendAlert (cfg : WebhookConfig) (contents : option template) (status : string)
    (values : NoticeValues) : HT (option error) :=
  if negb (ShouldAlert (webhook_AlertOn cfg) status) then mret None
  else
    match webhook_request cfg contents values with
    | Err e => mret (Some e)
    | Ok rq =>
        let name := secretName (webhook_Authorization cfg) in
        hs ← (if decide (name = "") then mret (Ok [])
              else
                s ← lift (GetSecret name (nv_Namespace values));
                mret (match s with Ok data => Ok (auth_headers data) | Err e => Err e end));
        match hs with
        | Err e => mret (Some (EWrap "WEBHOOK: unable to read the authorization secret: " e))
        | Ok hs =>
            resp ← http_Do (with_headers rq hs);
            mret (webhook_outcome resp)
        end
    end.

(** ** Properties *)

Lemma spec_http_Do rq : spec (http_Do rq) (λ _ t, t = [rq]).
Proof. intros w. unfold http_Do. by destruct (hw_Do rq w). Qed.

(** Errors of other code are not marked retryable. *)
Definition final {A} (r : result error A) : Prop :=
  match r with Err e => is_retryable e = false | Ok _ => True end.

(** What the answer [r] of a webhook alert and the requests [t] may be. *)
Definition webhook_result (cfg : WebhookConfig) (r : option error) (t : list request) : Prop :=
  (t = [] ∧ ∃ e, r = Some e ∧ is_retryable e = false) ∨
  ∃ rq (resp : result error response), t = [rq] ∧ rq_url rq = webhook_WebhookURL cfg ∧
    match resp with
    | Err _ => ∃ e, r = Some e ∧ is_retryable e = true
    | Ok a =>
        if ok_status (StatusCode a) then r = None
        else ∃ e, r = Some e ∧ (is_retryable e = true ↔ StatusCode a = 429 ∨ 500 ≤ StatusCode a)
    end.

Lemma webhook_outcome_result cfg rq (resp : result error response) :
  rq_url rq = webhook_WebhookURL cfg → webhook_result cfg (webhook_outcome resp) [rq].
Proof.
  intros Hu. right. exists rq, resp. split; [done|]. split; [done|].
  unfold webhook_outcome. destruct resp as [a|e]; [|eauto].
  destruct (ok_status (StatusCode a)); [done|].
  destruct ((StatusCode a =? 429) || (500 <=? StatusCode a)) eqn:E; eexists; (split; [done|]); simpl.
  - split; [|done]. intros _. apply orb_true_iff in E as [E|E]; zb; [by left|by right].
  - split; [done|]. zb. lia.
Qed.

Lemma spec_webhook (cfg : WebhookConfig) (contents : option template) (status : string) (values : NoticeValues) :
  (∀ t v, contents = Some t → final (t v)) →
  (∀ m u, match hw_NewRequest (W:=W) m u with Some e => is_retryable e = false | None => True end) →
  (∀ n ns (w : W), final (GetSecret n ns w).1) →
  ShouldAlert (webhook_AlertOn cfg) status = true →
  spec (webhook_SendAlert cfg contents status values) (webhook_result cfg).
Proof.
  intros Ht Hn Hs Ha. unfold webhook_SendAlert. rewrite Ha. cbn [negb].
  assert (match webhook_request cfg contents values with
          | Ok rq => rq_url rq = webhook_WebhookURL cfg | Err e => is_retryable e = false end) as Hrq.
  { unfold webhook_request. destruct contents as [t|].
    - specialize (Ht t values eq_refl). unfold final in Ht. destruct (t values) as [body|e]; [|done].
      specialize (Hn "POST" (webhook_WebhookURL cfg)). by destruct (hw_NewRequest _ _).
    - specialize (Hn "GET" (webhook_WebhookURL cfg)). by destruct (hw_NewRequest _ _). }
  destruct (webhook_request cfg contents values) as [rq|e]; [|apply spec_ret; left; eauto].
  eapply spec_bind with (Q := λ r t, t = [] ∧ final r).
  { case_decide; [by apply spec_ret|]. intros w. unfold mbind, M_bind, lift.
    specialize (Hs (secretName (webhook_Authorization cfg)) (nv_Namespace values) w).
    by destruct (GetSecret _ _ w) as [[data|e] w1]. }
  intros [hs|e] t [-> He]; [|apply spec_ret; left; simpl; eauto].
  eapply spec_bind; [apply spec_http_Do|]. intros resp t ->. apply spec_ret.
  rewrite app_nil_r. by apply webhook_outcome_result.
Qed.

(** a webhook alert that a later try may deliver is exactly one whose
    request was sent and did not complete, or was answered with 429 or 5xx:
    an alert sends nothing and returns nil when its status is not one to alert
    on; otherwise it sends at most one request, to the configured URL, returns
    nil exactly when that was answered with a 2xx, and marks its error
    retryable exactly in those cases. *)
Theorem webhook_retryable_iff_unanswered (cfg : WebhookConfig) (contents : option template) (status : string)
    (values : NoticeValues) (w : W) :
  (∀ t v, contents = Some t → final (t v)) →
  (∀ m u, match hw_NewRequest (W:=W) m u with Some e => is_retryable e = false | None => True end) →
  (∀ n ns (w : W), final (GetSecret n ns w).1) →
  let '(r, _, t) := webhook_SendAlert cfg contents status values w in
  if ShouldAlert (webhook_AlertOn cfg) status then webhook_result cfg r t else r = None ∧ t = [].
Proof.
  intros Ht Hn Hs. destruct (ShouldAlert (webhook_AlertOn cfg) status) eqn:Ha.
  - pose proof (spec_webhook cfg contents status values Ht Hn Hs Ha w) as H1.
    by destruct (webhook_SendAlert cfg contents status values w) as [[r w'] t].
  - unfold webhook_SendAlert. rewrite Ha. done.
Qed.
End send.

#[export] Instance HttpWorld_sim : HttpWorld Z := {|
  hw_NewRequest := λ _ _, None;
  hw_Do := λ _ w, (if w =? 0 then Err (EExt KOther "connection refused")
                   else Ok {| StatusCode := w; rs_Status := FormatInt w |}, w) |}.
#[export] Instance Secrets_sim : Secrets Z := λ _ _ w, (Ok ∅, w).
#[export] Instance Version_sim : Version := "dev".
#[export] Instance Templates_sim : Templates := {| Parse := λ t, Ok (λ _, Ok t); json_string := λ s, s |}.

Definition sim_webhook : WebhookConfig :=
  {| webhook_Enabled := true; webhook_WebhookURL := "https://hook"; webhook_Authorization := {| secretName := "s" |};
     webhook_ContentType := ""; webhook_Contents := ""; webhook_AlertOn := ["failure"] |}.

Definition sim_notice : NoticeValues :=
  {| nv_Status := "failure"; nv_Endpoint := "https://api"; nv_Driver := "http"; nv_Healthy := "false";
     nv_Name := "api"; nv_Response := ""; nv_ResponseTimeMs := 42; nv_LastStatus := "success";
     nv_LastChecked := ""; nv_LastStatusChange := ""; nv_CurrentTime := ""; nv_StatusTime := "";
     nv_Message := "status 500 | gateway"; nv_Namespace := "ns"; nv_AlertMessage := "down" |}.

Lemma webhook_retryable_iff_unanswered_witness :
  let '(r, _, t) := webhook_SendAlert sim_webhook None "failure" sim_notice 503 in
  webhook_result sim_webhook r t.
Proof.
  apply (webhook_retryable_iff_unanswered sim_webhook None "failure" sim_notice (503 : Z)); done.
Defined.
