(* ===== verification/Email.v ===== *)
(** * Email alerts (internal/notifier/email/email.go)

    An alert as a mail: its text, the SMTP conversation that hands it over,
    and the SES call.  The constructor is in Notifiers.  Proved: the receiver
    gets the four headers the operator wrote and then the message, whatever
    they contain; an alert reported as sent was handed over to every
    recipient; credentials go over TLS to the configured host only. *)

From S2P Require Import Prelude GoStd GoTime Errors Api Notifier Trace Net Base64 Dot Drivers Smtp Notifiers.

(** ** The text of a mail *)

(** [escapeUTF8]: the runes of a text are all printable ASCII exactly if its
    bytes are. *)
Fixpoint plain_ascii (s : string) : bool :=
  match s with
  | "" => true
  | String c s => (32 <=? N_of_ascii c)%N && (N_of_ascii c <=? 127)%N && plain_ascii s
  end.

Definition escapeUTF8 (s : string) : string :=
  if plain_ascii s then s else "=?utf-8?B?" +:+ base64 s +:+ "?=".

(** [strings.ReplaceAll(msg, LF, CRLF)] and a last line end. *)
Definition mail_body (msg : string) : string := replace_byte LF CRLF msg +:+ CRLF.

Definition mail_text (from : string) (to : list string) (date subject msg : string) : string :=
  "From: " +:+ from +:+ CRLF +:+ "To: " +:+ join ", " to +:+ CRLF +:+ "Date: " +:+ date +:+ CRLF +:+
  "Subject: " +:+ escapeUTF8 subject +:+ CRLF +:+ CRLF +:+ mail_body msg.

(** *** [time.RFC1123Z] *)

Definition weekday (t : time) : string :=
  nth (Z.to_nat ((t `div` Day + 4) mod 7)) ["Sun"; "Mon"; "Tue"; "Wed"; "Thu"; "Fri"; "Sat"] "".

Definition month_name (m : Z) : string :=
  nth (Z.to_nat (m - 1))
    ["Jan"; "Feb"; "Mar"; "Apr"; "May"; "Jun"; "Jul"; "Aug"; "Sep"; "Oct"; "Nov"; "Dec"] "".

(** A time in the process's zone, [zone] minutes east of UTC. *)
Definition FormatRFC1123Z (zone : Z) (t : time) : string :=
  let local := t + zone * Minute in
  let c := civil (local `div` Day) in
  let s := Unix local mod 86400 in
  weekday local +:+ ", " +:+ pad 2 (day c) +:+ " " +:+ month_name (month c) +:+ " " +:+ pad 4 (year c) +:+ " " +:+
  pad 2 (s / 3600) +:+ ":" +:+ pad 2 (s / 60 mod 60) +:+ ":" +:+ pad 2 (s mod 60) +:+ " " +:+
  (if zone <? 0 then "-" else "+") +:+ pad 2 (Z.abs zone / 60) +:+ pad 2 (Z.abs zone mod 60).

Example FormatRFC1123Z_sample :
  FormatRFC1123Z (-420) (of_Unix 1136239445) = "Mon, 02 Jan 2006 15:04:05 -0700".
Proof. vm_compute. reflexivity. Qed.

(** ** Handing a mail over *)

Definition bufSize : nat := N.to_nat 4096.
#[global] Opaque bufSize.

(** What a full buffer flushes, and what it holds at the end. *)
Fixpoint blocks (fuel : nat) (s : string) : list string :=
  match fuel with
  | O => [s]
  | S fuel => if (bufSize <? String.length s)%nat then stake bufSize s :: blocks fuel (sdrop bufSize s) else [s]
  end.

Definition buffered (s : string) : list string := blocks (String.length s) s.

(** A parameter of [sesv2.SendEmail]; both texts are UTF-8. *)
Record ses_email := { se_Subject : string; se_Body : string; se_To : list string; se_From : string }.

Class SesWorld (W : Type) := {
  ses_LoadConfig : W → option error * W;
  ses_SendEmail : ses_email → W → option error * W }.

Definition addr_error_text (e : addr_error) (addr : string) : string :=
  "address " +:+ addr +:+ ": " +:+
  match e with
  | ErrMissingPort => "missing port in address"
  | ErrTooManyColons => "too many colons in address"
  | ErrMissingBracket => "missing ']' in address"
  | ErrUnexpectedOpen => "unexpected '[' in address"
  | ErrUnexpectedClose => "unexpected ']' in address"
  end.

Section send.
Context {W : Type} `{CW : !Clock W, CN : !Conns W, SE : !Secrets W, SW : !SesWorld W}.
Variable corrupt : string → error.
Variable rounds : nat.
(** The zone of the process at a time. *)
Variable zone : time → Z.

Notation IO := (M io_action W).

Fixpoint write_all (tls : option string) (l : list string) : IO (option error) :=
  match l with
  | [] => mret None
  | b :: l => e ← write tls b; match e with Some e => mret (Some e) | None => write_all tls l end
  end.

(** The writer of [Data] passes on full buffers; its [Close] passes on the
    rest, whose error [net/smtp] drops, and reads the reply. *)
Definition send_data (msg : string) (c : Client) : IO (option error * Client) :=
  r ← cmd c 354 "DATA";
  match r with
  | Err e => mret (Some e, c)
  | Ok _ =>
      let '(out, st) := dot_write wstateBegin msg in
      let bs := buffered out in
      e ← write_all (c_tls c) (removelast bs);
      match e with
      | Some e => mret (Some e, c)
      | None =>
          _ ← write_all (c_tls c) (buffered (List.last bs "" +:+ dot_close st));
          r ← ReadResponse 250;
          mret (match r with Ok _ => None | Err e => Some e end, c)
      end
  end.

Definition send_starttls (host : string) (c : Client) : IO (option error * Client) :=
  r ← Extension c "STARTTLS";
  let '(ok, c) := r in
  if (ok : bool) then r ← StartTLS c host; mret r.1 else mret (None, c).

Definition send_auth (auth : option smtp_auth) (c : Client) : IO (option error * Client) :=
  match auth with
  | None => mret (None, c)
  | Some a =>
      r ← Extension c "AUTH";
      let '(ok, c) := r in
      if (ok : bool) then Auth corrupt rounds c a
      else mret (Some (ENew "smtp: server doesn't support AUTH"), c)
  end.

Fixpoint send_rcpts (to : list string) (c : Client) : IO (option error * Client) :=
  match to with
  | [] => mret (None, c)
  | addr :: to => on_client (e ← Rcpt c addr; mret (e, c)) (send_rcpts to)
  end.

Definition send_steps (host : string) (auth : option smtp_auth) (from : string) (to : list string) (msg : string)
    (c : Client) : IO (option error * Client) :=
  on_client (Hello c "localhost") (λ c,
  on_client (send_starttls host c) (λ c,
  on_client (send_auth auth c) (λ c,
  on_client (Mail c from) (λ c,
  on_client (send_rcpts to c) (λ c,
  on_client (send_data msg c) Quit))))).

(** A connection, or the client on it, closed when the function returns. *)
Definition with_close {A} (m : IO A) : IO A := r ← m; _ ← close; mret r.

Definition sendMail (addr : string) (auth : option smtp_auth) (from : string) (to : list string) (msg : string)
  : IO (option error) :=
  match head (omap validateLine (from :: to)) with
  | Some e => mret (Some e)
  | None =>
      match SplitHostPort addr with
      | Err e => mret (Some (EExt KOther (addr_error_text e addr)))
      | Ok (host, _) =>
          err ← dial "tcp" addr;
          match err with
          | Some e => mret (Some e)
          | None => with_close (
              err ← set_deadline;
              match err with
              | Some e => mret (Some e)
              | None =>
                  c ← NewClient None host;
                  match c with
                  | Err e => mret (Some e)
                  | Ok c => with_close (r ← send_steps host auth from to msg c; mret r.1)
                  end
              end)
          end
      end
  end.

(** Server, sender and credentials, from the Secret where it has them. *)
Definition smtp_account (cfg : EmailConfig) (data : gmap string string) : string * string * option smtp_auth :=
  let get k := default "" (data !! k) in
  let host := default (email_Host cfg) (data !! "host") in
  let from := default (email_From cfg) (data !! "from") in
  let hostPart := match SplitHostPort host with Ok (h, _) => h | Err _ => "" end in
  (host, from,
   if negb (bool_decide (get "username" = "")) && negb (bool_decide (get "password" = "")) then
     Some {| sa_identity := get "identity"; sa_username := get "username"; sa_password := get "password";
             sa_host := hostPart |}
   else None).

Definition SendSMTP (cfg : EmailConfig) (subject msg : string) (values : NoticeValues) : IO (option error) :=
  let secret := secretName (email_EmailSecretRef cfg) in
  account ← (if decide (secret = "") then mret (Ok (email_Host cfg, email_From cfg, None))
             else
               s ← lift (GetSecret secret (nv_Namespace values));
               mret (match s with Ok data => Ok (smtp_account cfg data) | Err e => Err e end));
  match account with
  | Err e => mret (Some (EWrap "unable to read secret: " e))
  | Ok (host, from, auth) =>
      if decide (host = "") then mret (Some (ENew "emailProvider is smtp and missing host"))
      else if decide (from = "") then mret (Some (ENew "invalid email configuration: from field is required"))
      else
        t ← now;
        sendMail host auth from (email_To cfg)
          (mail_text from (email_To cfg) (FormatRFC1123Z (zone t) t) subject msg)
  end.

Definition SendSES (cfg : EmailConfig) (subject msg : string) : IO (option error) :=
  err ← lift ses_LoadConfig;
  match err with
  | Some e => mret (Some e)
  | None =>
      lift (ses_SendEmail {| se_Subject := subject; se_Body := mail_body msg; se_To := email_To cfg;
                             se_From := email_From cfg |})
  end.

(** A text from its template, or the alert's message. *)
Definition alert_text (t : option template) (what : string) (values : NoticeValues) : result error string :=
  match t with
  | None => Ok (nv_AlertMessage values)
  | Some t => match t values with
              | Ok s => Ok s
              | Err e => Err (EWrap ("failed to execute the " +:+ what +:+ " template: ") e)
              end
  end.

Definition email_SendAlert (cfg : EmailConfig) (subject body : option template) (status : string)
    (values : NoticeValues) : IO (option error) :=
  if negb (ShouldAlert (email_AlertOn cfg) status) then mret None
  else
    match alert_text subject "subject" values with
    | Err e => mret (Some e)
    | Ok subject =>
        match alert_text body "body" values with
        | Err e => mret (Some e)
        | Ok msg =>
            let provider := to_upper (email_EmailProvider cfg) in
            if decide (provider = "" ∨ provider = "SMTP") then
              err ← SendSMTP cfg subject msg values;
              mret (EWrap "smtp send failed: " <$> err)
            else if decide (provider = "SES") then
              err ← SendSES cfg subject msg;
              mret (EWrap "ses send failed: " <$> err)
            else mret None
        end
    end.
End send.

(** ** What the receiver gets *)

Definition delete_cr : string → string := replace_byte CR "".

Lemma delete_cr_app s1 s2 : delete_cr (s1 +:+ s2) = delete_cr s1 +:+ delete_cr s2.
Proof.
  unfold delete_cr. induction s1 as [|c s1 IH]; cbn [String.append replace_byte]; [done|].
  case_decide; cbn [String.append]; by rewrite IH.
Qed.

Lemma delete_cr_wire cr l : delete_cr (wire_line cr l) = delete_cr l.
Proof.
  unfold delete_cr. revert cr. induction l as [|c l IH]; intros cr; cbn [wire_line]; [done|].
  destruct cr; cbn [replace_byte].
  - rewrite decide_True by done. cbn [String.append]. case_decide; by rewrite IH.
  - case_decide as E; cbn [replace_byte].
    + rewrite IH, decide_True by congruence. done.
    + rewrite IH, decide_False by congruence. done.
Qed.

Lemma split_mail_body msg :
  split LF (replace_byte LF CRLF msg +:+ String CR "") = (λ l, l +:+ String CR "") <$> split LF msg.
Proof.
  induction msg as [|c msg IH]; [done|]. cbn [replace_byte split]. case_decide as E.
  - rewrite <-sapp_assoc. change (CRLF +:+ ?x) with (String CR (String LF x)). cbn [split].
    rewrite decide_False, decide_True by done. rewrite IH. done.
  - cbn [String.append split]. rewrite decide_False, IH by done. pose proof (split_ne_nil LF msg). by destruct (split LF msg).
Qed.

Lemma line_end_cases c : has_byte c CRLF = true → c = CR ∨ c = LF.
Proof. cbn [CRLF has_byte]. repeat case_decide; auto. by intros ?. Qed.

Lemma validateLine_None line :
  validateLine line = None ↔ ∀ c, has_byte c CRLF = true → has_byte c line = false.
Proof.
  unfold validateLine. split.
  - destruct (has_byte LF line) eqn:E1, (has_byte CR line) eqn:E2; try done. intros _ c Hc.
    by destruct (line_end_cases c Hc) as [-> | ->].
  - intros H. by rewrite !H.
Qed.

Lemma has_byte_join c sep l :
  has_byte c sep = false → Forall (λ s, has_byte c s = false) l → has_byte c (join sep l) = false.
Proof.
  intros Hsep. induction 1 as [|x l Hx Hl IH]; [done|]. destruct l as [|y l]; [done|].
  change (join sep (x :: y :: l)) with (x +:+ sep +:+ join sep (y :: l)). by rewrite !has_byte_app, Hx, Hsep, IH.
Qed.

Lemma escapeUTF8_line s c : has_byte c CRLF = true → has_byte c (escapeUTF8 s) = false.
Proof.
  intros Hc. unfold escapeUTF8. destruct (plain_ascii s) eqn:Hp.
  - assert (N_of_ascii c < 32)%N as Hlt by (by destruct (line_end_cases c Hc) as [-> | ->]).
    clear Hc. induction s as [|d s IH]; [done|]. cbn [plain_ascii has_byte] in *.
    apply andb_true_iff in Hp as [[H1 H2]%andb_true_iff Hp]. apply N.leb_le in H1.
    case_decide; [subst; lia|by apply IH].
  - rewrite !has_byte_app, base64_no_line_end by done.
    by destruct (line_end_cases c Hc) as [-> | ->].
Qed.

Lemma pad_line w z c : has_byte c CRLF = true → has_byte c (pad w z) = false.
Proof.
  intros Hc. pose proof (line_end_cases c Hc) as Hc'.
  unfold pad. rewrite has_byte_app, FormatInt_no_byte by (by destruct Hc' as [-> | ->]). rewrite orb_false_r.
  generalize (w - String.length (FormatInt z))%nat as n. induction n as [|[|n] IH]; [done| |].
  - by destruct Hc' as [-> | ->].
  - change (String.concat "" (replicate (S (S n)) "0")) with ("0" +:+ String.concat "" (replicate (S n) "0")).
    rewrite has_byte_app, IH. by destruct Hc' as [-> | ->].
Qed.

Lemma nth_line n l c : Forall (λ s, has_byte c s = false) l → has_byte c (nth n l "") = false.
Proof. intros H. revert n. induction H as [|x l Hx Hl IH]; intros [|n]; simpl; done. Qed.

Lemma FormatRFC1123Z_line z t c : has_byte c CRLF = true → has_byte c (FormatRFC1123Z z t) = false.
Proof.
  intros Hc. pose proof (line_end_cases c Hc) as Hc'.
  unfold FormatRFC1123Z, weekday, month_name. cbv zeta.
  rewrite !has_byte_app, !pad_line by done.
  rewrite !nth_line by (destruct Hc' as [-> | ->]; repeat constructor).
  destruct (z <? 0); by destruct Hc' as [-> | ->].
Qed.

(** A header arrives as one line, without its end. *)
Lemma split_header h s :
  (∀ c, has_byte c CRLF = true → has_byte c h = false) →
  wire_line false <$> split LF (h +:+ CRLF +:+ s) = h :: (wire_line false <$> split LF s).
Proof.
  intros Hh. assert (h +:+ CRLF +:+ s = (h +:+ String CR "") +:+ String LF s) as -> by (by rewrite <-sapp_assoc).
  rewrite split_cons.
  - cbn [fmap list_fmap]. by rewrite wire_line_end by (by apply Hh).
  - rewrite has_byte_app, Hh by done. done.
Qed.

Lemma header_line name s :
  (∀ c, has_byte c CRLF = true → has_byte c name = false) →
  (∀ c, has_byte c CRLF = true → has_byte c s = false) →
  ∀ c, has_byte c CRLF = true → has_byte c (name +:+ s) = false.
Proof. intros H1 H2 c Hc. by rewrite has_byte_app, H1, H2. Qed.

(** The lines of a body arrive up to carriage returns. *)
Lemma mail_body_lines msg :
  let body := wire_line false <$> split LF (replace_byte LF CRLF msg +:+ String CR "") in
  delete_cr <$> body = delete_cr <$> split LF msg ∧ (has_byte CR msg = false → body = split LF msg).
Proof.
  cbv zeta. rewrite split_mail_body, <-!list_fmap_compose. split.
  - apply list_fmap_ext. intros i l _. simpl. rewrite delete_cr_wire, delete_cr_app. apply sapp_nil_r.
  - intros Hcr. assert (Forall no_cr (split LF msg)) as Hl.
    { unfold no_cr. induction msg as [|c msg IH]; cbn [split has_byte] in *; [by constructor|].
      case_decide as E; [done|]. specialize (IH Hcr). case_decide; [by constructor|].
      destruct (split LF msg) as [|l ls]; [constructor; [|done]; simpl; by case_decide|].
      apply Forall_cons in IH as [? ?]. constructor; [|done]. simpl. by case_decide. }
    induction Hl as [|l ls Hl _ IH]; [done|]. cbn [fmap list_fmap compose]. by rewrite wire_line_end, IH.
Qed.

(** C28: a mail arrives as it was meant, whatever the subject and the message
    say: to a sender and to recipients sendMail accepts, the receiver of the
    data gets a From, a To, a Date and a Subject header and an empty line, in
    which the subject is the alert's, or its encoded form, and then the lines
    of the message, equal up to carriage returns; so neither can add a header
    or a recipient, nor end the data and smuggle in commands: what is sent
    after the data is what the receiver reads as the next command. *)
Theorem mail_arrives_as_written (from : string) (to : list string) (zone : Z) (t : time)
    (subject msg rest : string) :
  validateLine from = None → Forall (λ r, validateLine r = None) to →
  ∃ body,
    read_data "" (dot_text (mail_text from to (FormatRFC1123Z zone t) subject msg) +:+ rest) =
      Some (["From: " +:+ from; "To: " +:+ join ", " to; "Date: " +:+ FormatRFC1123Z zone t;
             "Subject: " +:+ escapeUTF8 subject; ""] ++ body, rest) ∧
    (if plain_ascii subject then escapeUTF8 subject = subject
     else ∃ code, escapeUTF8 subject = "=?utf-8?B?" +:+ code +:+ "?=" ∧ base64_decode code = Some subject) ∧
    delete_cr <$> body = delete_cr <$> split LF msg ∧ (has_byte CR msg = false → body = split LF msg).
Proof.
  intros Hfrom Hto. exists (wire_line false <$> split LF (replace_byte LF CRLF msg +:+ String CR "")).
  split; [|split; [|apply mail_body_lines]].
  - assert (∀ c n, has_byte c CRLF = true → n ∈ ["From: "; "To: "; "Date: "; "Subject: "] → has_byte c n = false) as Hn.
    { intros c n Hc Hin. destruct (line_end_cases c Hc) as [-> | ->];
        repeat (apply elem_of_cons in Hin as [->|Hin]; [done|]); by apply elem_of_nil in Hin. }
    assert (mail_text from to (FormatRFC1123Z zone t) subject msg =
      (("From: " +:+ from) +:+ CRLF +:+ ("To: " +:+ join ", " to) +:+ CRLF +:+
       ("Date: " +:+ FormatRFC1123Z zone t) +:+ CRLF +:+ ("Subject: " +:+ escapeUTF8 subject) +:+ CRLF +:+ "" +:+
       CRLF +:+ (replace_byte LF CRLF msg +:+ String CR "")) +:+ String LF "") as ->.
    { unfold mail_text, mail_body. rewrite <-!sapp_assoc. reflexivity. }
    rewrite read_dot_text, !split_header; [done|..].
    + done.
    + apply header_line; [intros c Hc; apply Hn; [done|]; set_solver|]. apply escapeUTF8_line.
    + apply header_line; [intros c Hc; apply Hn; [done|]; set_solver|]. apply FormatRFC1123Z_line.
    + apply header_line; [intros c Hc; apply Hn; [done|]; set_solver|]. intros c Hc.
      apply has_byte_join; [by destruct (line_end_cases c Hc) as [-> | ->]|].
      eapply Forall_impl; [exact Hto|]. intros r Hr. by apply validateLine_None.
    + apply header_line; [intros c Hc; apply Hn; [done|]; set_solver|]. by apply validateLine_None.
  - unfold escapeUTF8. destruct (plain_ascii subject); [done|]. exists (base64 subject). split; [done|].
    apply base64_roundtrip.
Qed.

Lemma mail_arrives_as_written_witness :
  ∃ body,
    read_data "" (dot_text (mail_text "ops@test" ["a@test"; "b@test"] (FormatRFC1123Z 0 0)
                              ("down" +:+ CRLF +:+ "Bcc: x@test") (String LF "." +:+ String LF "QUIT")) +:+ "QUIT" +:+ CRLF) =
      Some (["From: ops@test"; "To: a@test, b@test"; "Date: Thu, 01 Jan 1970 00:00:00 +0000";
             "Subject: " +:+ escapeUTF8 ("down" +:+ CRLF +:+ "Bcc: x@test"); ""] ++ body, "QUIT" +:+ CRLF) ∧
    body = [""; "."; "QUIT"].
Proof.
  destruct (mail_arrives_as_written "ops@test" ["a@test"; "b@test"] 0 0 ("down" +:+ CRLF +:+ "Bcc: x@test")
              (String LF "." +:+ String LF "QUIT") ("QUIT" +:+ CRLF)) as (body & H1 & H2 & H3 & H4).
  - reflexivity.
  - repeat constructor.
  - exists body. split; [exact H1|]. by apply H4.
Defined.

(** ** Where credentials go *)

Section credentials.
Context {W : Type} `{CW : !Clock W, CN : !Conns W, SE : !Secrets W, SW : !SesWorld W}.
Variable corrupt : string → error.
Variable rounds : nat.
Variable host : string.

Lemma careful_write_all tls l : careful host (write_all (W:=W) tls l) (λ _, True).
Proof.
  induction l as [|b l IH]; cbn [write_all]; [by apply careful_ret|].
  eapply careful_bind; [apply careful_write|]. intros [e|] _; [by apply careful_ret|done].
Qed.

Lemma careful_send_data msg c : speaks_to host c → careful host (send_data (W:=W) msg c) (λ r, speaks_to host r.2).
Proof.
  intros Hc. unfold send_data. eapply careful_bind; [apply careful_cmd|]. intros [r|e] _; [|by apply careful_ret].
  destruct (dot_write wstateBegin msg) as [out st]. cbv zeta.
  eapply careful_bind; [apply careful_write_all|]. intros [e|] _; [by apply careful_ret|].
  eapply careful_bind; [apply careful_write_all|]. intros ? _.
  eapply careful_bind; [apply careful_ReadResponse|]. intros ? _. by apply careful_ret.
Qed.

Lemma careful_send_starttls c :
  speaks_to host c → careful host (send_starttls (W:=W) host c) (λ r, speaks_to host r.2).
Proof.
  intros Hc. unfold send_starttls.
  eapply careful_bind; [apply (careful_kept host _ c); [done|apply careful_Extension]|].
  intros [[] c'] Hc'; cbn [snd] in Hc'; [|by apply careful_ret]. destruct Hc' as [Hs Hv].
  pose proof (careful_StartTLS (W:=W) host c' Hv) as Hstart. rewrite Hs in Hstart.
  eapply careful_bind; [exact Hstart|]. intros r [H1 H2]. apply careful_ret. by split.
Qed.

Lemma careful_send_auth auth c :
  (∀ a, auth = Some a → sa_host a = host) → speaks_to host c →
  careful host (send_auth (W:=W) corrupt rounds auth c) (λ r, speaks_to host r.2).
Proof.
  intros Ha Hc. unfold send_auth. destruct auth as [a|]; [|by apply careful_ret].
  eapply careful_bind; [apply (careful_kept host _ c); [done|apply careful_Extension]|].
  intros [[] c'] Hc'; cbn [snd] in Hc'; [|by apply careful_ret].
  apply (careful_kept host _ c'); [done|]. apply careful_Auth; [apply Hc'|by apply Ha].
Qed.

Lemma careful_send_rcpts to c : speaks_to host c → careful host (send_rcpts (W:=W) to c) (λ r, speaks_to host r.2).
Proof.
  revert c. induction to as [|addr to IH]; intros c Hc; cbn [send_rcpts]; [by apply careful_ret|].
  apply careful_on_client; [|done]. eapply careful_bind; [apply careful_Rcpt|]. intros ? _. by apply careful_ret.
Qed.

Lemma careful_send_steps auth from to msg c :
  (∀ a, auth = Some a → sa_host a = host) → speaks_to host c →
  careful host (send_steps (W:=W) corrupt rounds host auth from to msg c) (λ r, speaks_to host r.2).
Proof.
  intros Ha Hc. unfold send_steps.
  apply careful_on_client; [apply (careful_kept host _ c); [done|apply careful_Hello]|].
  intros c1 H1. apply careful_on_client; [by apply careful_send_starttls|].
  intros c2 H2. apply careful_on_client; [by apply careful_send_auth|].
  intros c3 H3. apply careful_on_client; [apply (careful_kept host _ c3); [done|apply careful_Mail]|].
  intros c4 H4. apply careful_on_client; [by apply careful_send_rcpts|].
  intros c5 H5. apply careful_on_client; [by apply careful_send_data|].
  intros c6 H6. apply (careful_kept host _ c6); [done|apply careful_Quit].
Qed.

Lemma careful_with_close {A} (m : M io_action W A) (P : A → Prop) :
  careful host m P → careful host (with_close m) P.
Proof.
  intros Hm. unfold with_close. eapply careful_bind; [exact Hm|]. intros a Ha.
  eapply careful_bind; [apply careful_close|]. intros ? _. by apply careful_ret.
Qed.

Lemma careful_sendMail addr auth from to msg :
  match SplitHostPort addr with Ok (h, _) => h = host ∧ ∀ a, auth = Some a → sa_host a = h | Err _ => True end →
  careful host (sendMail (W:=W) corrupt rounds addr auth from to msg) (λ _, True).
Proof.
  intros Hh. unfold sendMail. destruct (head (omap validateLine (from :: to))); [by apply careful_ret|].
  destruct (SplitHostPort addr) as [[h port]|e]; [|by apply careful_ret]. destruct Hh as [-> Ha].
  eapply careful_bind; [apply careful_dial|]. intros [e|] _; [by apply careful_ret|]. apply careful_with_close.
  eapply careful_bind; [apply careful_lift|]. intros [e|] _; [by apply careful_ret|].
  eapply (careful_bind _ _ _ (λ r, match r with Ok c => speaks_to host c | Err _ => True end)).
  { unfold NewClient. eapply careful_bind; [apply careful_ReadResponse|]. intros [?|?] _.
    - apply careful_ret. by split.
    - eapply careful_bind; [apply careful_close|]. intros ? _. by apply careful_ret. }
  intros [c|e] Hc; [|by apply careful_ret]. apply careful_with_close.
  eapply careful_bind; [by apply careful_send_steps|]. intros ? _. by apply careful_ret.
Qed.
End credentials.

Section properties.
Context {W : Type} `{CW : !Clock W, CN : !Conns W, SE : !Secrets W, SW : !SesWorld W}.
Variable corrupt : string → error.
Variable rounds : nat.

(** an alert's mail gives credentials to the configured server only, and
    over TLS: whatever the configuration and the Secret hold and the server
    answers, every line of an AUTH exchange goes over a TLS connection
    verified for the host part of the address mail is sent through. *)
Theorem email_credentials_over_tls (cfg : EmailConfig) (data : gmap string string) (from : string)
    (to : list string) (msg : string) (w : W) :
  let '(addr, _, auth) := smtp_account cfg data in
  Forall (credentials_safe (match SplitHostPort addr with Ok (h, _) => h | Err _ => "" end))
         (sendMail corrupt rounds addr auth from to msg w).2.
Proof.
  destruct (smtp_account cfg data) as [[addr from'] auth] eqn:E.
  assert (careful (match SplitHostPort addr with Ok (h, _) => h | Err _ => "" end)
            (sendMail (W:=W) corrupt rounds addr auth from to msg) (λ _, True)) as H; [|apply (H w)].
  apply careful_sendMail. unfold smtp_account in E. injection E as <- _ <-.
  destruct (SplitHostPort _) as [[h port]|e]; [|done]. split; [done|]. intros a.
  destruct (_ && _); [|done]. by intros [= <-].
Qed.
End properties.

(** ** What is sent *)

(** The bytes of the writes of a run, but for those of AUTH exchanges. *)
Definition writes (t : list io_action) : list string :=
  omap (λ a, match a with IOWrite _ b => Some b | _ => None end) t.

Lemma writes_app t1 t2 : writes (t1 ++ t2) = writes t1 ++ writes t2.
Proof. apply omap_app. Qed.

Definition sconcat (l : list string) : string := foldr String.append "" l.

Lemma sconcat_app l1 l2 : sconcat (l1 ++ l2) = sconcat l1 +:+ sconcat l2.
Proof. induction l1 as [|x l1 IH]; [done|]. simpl. by rewrite IH, sapp_assoc. Qed.

Lemma stake_sdrop n s : stake n s +:+ sdrop n s = s.
Proof. revert s. induction n as [|n IH]; intros [|c s]; simpl; try done. by rewrite IH. Qed.

Lemma stake_app_le n s1 s2 : (String.length s1 ≤ n)%nat → ∃ s, stake n (s1 +:+ s2) = s1 +:+ s.
Proof.
  revert n. induction s1 as [|c s1 IH]; intros n Hn; [by eexists|]. destruct n as [|n]; simpl in Hn; [lia|].
  destruct (IH n) as [s Hs]; [lia|]. exists s. simpl. by rewrite Hs.
Qed.

Lemma sconcat_blocks fuel s : sconcat (blocks fuel s) = s.
Proof.
  revert s. induction fuel as [|fuel IH]; intros s; cbn [blocks]; [apply sapp_nil_r|].
  destruct (_ <? _)%nat; [|apply sapp_nil_r]. simpl. rewrite IH. apply stake_sdrop.
Qed.

Lemma blocks_last fuel s : (String.length s ≤ fuel)%nat → ∃ l b, blocks fuel s = l ++ [b] ∧ (String.length b ≤ bufSize)%nat.
Proof.
  revert s. induction fuel as [|fuel IH]; intros s Hs; cbn [blocks].
  { exists [], s. split; [done|]. lia. }
  destruct (bufSize <? String.length s)%nat eqn:E.
  - apply Nat.ltb_lt in E. destruct (IH (sdrop bufSize s)) as (l & b & -> & Hb).
    { rewrite sdrop_length. assert (bufSize ≠ 0%nat) by done. lia. }
    by exists (stake bufSize s :: l), b.
  - apply Nat.ltb_ge in E. by exists [], s.
Qed.

(** The first block of a text takes a start that fits in the buffer. *)
Lemma blocks_first b s : (String.length b ≤ bufSize)%nat → ∃ x l, buffered (b +:+ s) = (b +:+ x) :: l.
Proof.
  intros Hb. unfold buffered. destruct (String.length (b +:+ s)) as [|n]; cbn [blocks]; [by eexists _, _|].
  destruct (_ <? _)%nat; [|by eexists _, _]. destruct (stake_app_le bufSize b s Hb) as [x ->]. by eexists _, _.
Qed.

Section sent.
Context {W : Type} `{CW : !Clock W, CN : !Conns W, SE : !Secrets W, SW : !SesWorld W}.
Variable corrupt : string → error.
Variable rounds : nat.

(** Every run of [m] that succeeds returns [r] and writes [l] with [P r l]. *)
Definition sends {A} (m : M io_action W (option error * A)) (P : A → list string → Prop) : Prop :=
  spec m (λ r t, r.1 = None → P r.2 (writes t)).

Lemma sends_on_client m next (P : Client → list string → Prop) (Q : Client → list string → list string → Prop) :
  sends m P → (∀ c l, P c l → sends (next c) (λ c' l', Q c' l l')) →
  sends (on_client m next) (λ c' l, ∃ l1 l2, l = l1 ++ l2 ∧ Q c' l1 l2).
Proof.
  intros Hm Hn. unfold on_client. eapply spec_bind; [exact Hm|]. intros [[e|] c] t Ht; cbn [fst snd] in Ht.
  { by apply spec_ret. }
  eapply spec_mono; [exact (Hn c _ (Ht eq_refl))|]. intros r t' Hr Hnone.
  exists (writes t), (writes t'). split; [apply writes_app|by apply Hr].
Qed.

Lemma spec_cmd c expect line : spec (cmd (W:=W) c expect line) (λ _ t, writes t = [line +:+ CRLF]).
Proof.
  intros w. unfold cmd, mbind, M_bind, write. destruct (cn_Write _ w) as [[e|] w1]; [done|].
  pose proof (ReadResponse_silent expect w1) as Hr. destruct (ReadResponse expect w1) as [[r w2] t].
  cbn [snd] in Hr. by subst t.
Qed.

Lemma spec_cmd_err c expect line : spec (cmd_err (W:=W) c expect line) (λ _ t, writes t = [line +:+ CRLF]).
Proof.
  unfold cmd_err. eapply spec_bind; [apply spec_cmd|]. intros r t Ht. apply spec_ret.
  by rewrite app_nil_r.
Qed.

Definition greeted (c : Client) : Prop := c_didHello c = true.

Lemma hello_greeted c : spec (hello (W:=W) c) (λ r _, greeted r.2).
Proof.
  unfold hello. destruct (c_didHello c) eqn:Ec; [by apply spec_ret|].
  eapply (spec_bind _ _ (λ r _, greeted r.2)).
  { unfold ehlo. eapply spec_bind; [apply (spec_cmd _ 250)|]. intros r t _. apply spec_ret. by destruct r as [[]|]. }
  intros [[e|] c'] t Hc; [|by apply spec_ret]. unfold helo. eapply (spec_bind _ _ (λ _ _, True)).
  { eapply spec_bind; [apply (spec_cmd_err _ 250)|]. intros ? ? _. by apply spec_ret. }
  intros [e' c2] ? _. by apply spec_ret.
Qed.

Lemma hello_silent c : greeted c → spec (hello (W:=W) c) (λ r t, r = (c_helloError c, c) ∧ t = []).
Proof. intros Hc. unfold hello. rewrite Hc. by apply spec_ret. Qed.

Lemma Hello_greets c name : sends (Hello (W:=W) c name) (λ c' _, greeted c').
Proof.
  unfold Hello. destruct (validateLine name); [by apply spec_ret|].
  destruct (c_didHello c); [by apply spec_ret|].
  eapply spec_mono; [apply hello_greeted|]. by intros.
Qed.

Lemma Extension_greeted c ext : spec (Extension (W:=W) c ext) (λ r _, greeted r.2).
Proof.
  unfold Extension. eapply spec_bind; [apply hello_greeted|]. intros [[e|] c'] t Hc; by apply spec_ret.
Qed.

Lemma StartTLS_greeted c host : spec (StartTLS (W:=W) c host) (λ r _, greeted r.1.2).
Proof.
  unfold StartTLS. eapply spec_bind; [apply hello_greeted|]. intros [[e|] c'] t Hc; [by apply spec_ret|].
  eapply spec_bind; [apply (spec_cmd_err _ 220)|]. intros [e|] ? _; [by apply spec_ret|].
  eapply (spec_bind _ _ (λ _ _, True)); [by intros w|]. intros [certs|e] ? _; [|by apply spec_ret].
  eapply (spec_bind _ _ (λ r _, greeted r.2)); [|intros r ? Hr; by apply spec_ret].
  unfold ehlo. eapply spec_bind; [apply (spec_cmd _ 250)|]. intros r ? _. apply spec_ret. by destruct r as [[]|].
Qed.

Lemma auth_loop_greeted fuel c a m reply :
  greeted c → sends (auth_loop (W:=W) corrupt fuel c a m reply) (λ c' _, greeted c').
Proof.
  intros Hc. revert reply. induction fuel as [|fuel IH]; intros [[code msg64]|e]; cbn [auth_loop];
    try (by apply spec_ret); [by intros w|].
  destruct (auth_answer _ _ _ _ _) as [[resp|]|e].
  - eapply (spec_bind _ _ (λ _ _, True)); [by intros w|]. intros reply ? _.
    eapply spec_mono; [apply IH|]. intros r t1 Hr. exact Hr.
  - by apply spec_ret.
  - eapply (spec_bind _ _ (λ _ _, True)); [by intros w|]. intros ? ? _.
    eapply (spec_bind _ _ (λ _ _, True)); [by intros w|]. intros ? ? _. by apply spec_ret.
Qed.

Lemma Auth_greeted c a : sends (Auth (W:=W) corrupt rounds c a) (λ c' _, greeted c').
Proof.
  unfold Auth. eapply spec_bind; [apply hello_greeted|]. intros [[e|] c'] t Hc; [by apply spec_ret|].
  destruct (auth_Start _ _) as [[m resp]|e].
  - eapply (spec_bind _ _ (λ _ _, True)); [by intros w|]. intros reply t1 _. by apply auth_loop_greeted.
  - eapply (spec_bind _ _ (λ _ _, True)); [by intros w|]. intros ? ? _. by apply spec_ret.
Qed.

Lemma send_starttls_greeted host c : sends (send_starttls (W:=W) host c) (λ c' _, greeted c').
Proof.
  unfold send_starttls. eapply spec_bind; [apply Extension_greeted|]. intros [[] c'] t Hc; [|by apply spec_ret].
  eapply spec_bind; [apply StartTLS_greeted|]. intros r t1 Hr. apply spec_ret. by intros _.
Qed.

Lemma send_auth_greeted auth c : greeted c → sends (send_auth (W:=W) corrupt rounds auth c) (λ c' _, greeted c').
Proof.
  intros Hc. unfold send_auth. destruct auth as [a|]; [|by apply spec_ret].
  eapply spec_bind; [apply Extension_greeted|]. intros [[] c'] t Hc'; [|by apply spec_ret].
  apply Auth_greeted.
Qed.

(** The commands of the envelope. *)
Definition mail_line (from params : string) : string := "MAIL FROM:<" +:+ from +:+ ">" +:+ params +:+ CRLF.
Definition rcpt_line (to : string) : string := "RCPT TO:<" +:+ to +:+ ">" +:+ CRLF.

Lemma Mail_sends c from :
  greeted c → sends (Mail (W:=W) c from) (λ c' l, greeted c' ∧ ∃ params, l = [mail_line from params]).
Proof.
  intros Hc. unfold Mail. destruct (validateLine from); [by apply spec_ret|].
  eapply spec_bind; [by apply hello_silent|]. intros r t [-> ->].
  destruct (c_helloError c); [by apply spec_ret|].
  eapply spec_bind; [apply (spec_cmd_err _ 250)|]. intros e t1 Ht. apply spec_ret. intros _. split; [done|].
  rewrite app_nil_r. cbn [app]. rewrite Ht.
  match goal with |- ∃ _, [(_ +:+ _ +:+ _ +:+ ?p1 +:+ ?p2) +:+ _] = _ => exists (p1 +:+ p2) end.
  unfold mail_line. by rewrite <-!sapp_assoc.
Qed.

Lemma Rcpt_sends c to : sends (e ← Rcpt (W:=W) c to; mret (e, c)) (λ c' l, c' = c ∧ l = [rcpt_line to]).
Proof.
  unfold Rcpt. destruct (validateLine to); [by apply spec_ret|].
  eapply spec_bind; [apply (spec_cmd_err _ 25)|]. intros e t Ht. apply spec_ret. intros _. split; [done|].
  rewrite app_nil_r, Ht. unfold rcpt_line. by rewrite <-!sapp_assoc.
Qed.

Lemma send_rcpts_sends to c : sends (send_rcpts (W:=W) to c) (λ c' l, c' = c ∧ l = rcpt_line <$> to).
Proof.
  induction to as [|addr to IH]; cbn [send_rcpts]; [by apply spec_ret|].
  eapply spec_mono.
  { eapply (sends_on_client _ _ _ (λ c' l1 l2, c' = c ∧ l1 = [rcpt_line addr] ∧ l2 = rcpt_line <$> to));
      [apply Rcpt_sends|]. intros c1 l [-> ->]. eapply spec_mono; [exact IH|]. intros r t Hr Hn.
    by destruct (Hr Hn) as [-> ->]. }
  intros r t Hr Hn. destruct (Hr Hn) as (l1 & l2 & Hl & -> & -> & ->). by split.
Qed.

Lemma write_all_writes tls l :
  spec (write_all (W:=W) tls l)
    (λ r t, (r = None → writes t = l) ∧ (∀ b l', l = b :: l' → ∃ l2, writes t = b :: l2)).
Proof.
  induction l as [|b l IH]; cbn [write_all]; [by apply spec_ret|].
  intros w. unfold mbind, M_bind, write. destruct (cn_Write b w) as [[e|] w1]; cbn.
  - split; [done|]. intros b' l' [= <- <-]. by eexists.
  - specialize (IH w1). destruct (write_all tls l w1) as [[r w2] t]. cbn in *. destruct IH as [H1 _].
    split; [intros Hr; by rewrite H1|]. intros b' l' [= <- <-]. by eexists.
Qed.

(** The data: the command, and blocks that make up the message as the writer
    writes it and at least a part of the end of the data. *)
Lemma send_data_sends msg c :
  sends (send_data (W:=W) msg c)
    (λ c' l, c' = c ∧ ∃ bs tail, l = ("DATA" +:+ CRLF) :: bs ∧ sconcat bs = (dot_write wstateBegin msg).1 +:+ tail).
Proof.
  unfold send_data. eapply spec_bind; [apply (spec_cmd _ 354)|]. intros [r|e] t Ht; [|by apply spec_ret].
  destruct (dot_write wstateBegin msg) as [out st]. cbv zeta. cbn [fst].
  destruct (blocks_last (String.length out) out) as (bs & b & Hbs & Hb); [done|].
  change (buffered out) with (blocks (String.length out) out). rewrite Hbs, removelast_last.
  assert (List.last (bs ++ [b]) "" = b) as -> by apply last_last.
  eapply spec_bind; [apply write_all_writes|]. intros [e|] t1 [H1 _]; [by apply spec_ret|].
  eapply spec_bind; [apply write_all_writes|]. intros e2 t2 [_ H2].
  destruct (blocks_first b (dot_close st) Hb) as (x & l' & Hx). destruct (H2 _ _ Hx) as [l2 Hl2].
  eapply spec_bind_silent; [intros w; apply (ReadResponse_silent 250 w)|]. intros r3.
  apply spec_ret. intros _. split; [done|]. exists (bs ++ (b +:+ x) :: l2), (x +:+ sconcat l2).
  rewrite !app_nil_r, !writes_app, Ht, (H1 eq_refl), Hl2. split; [done|].
  rewrite sconcat_app. simpl. rewrite <-(sconcat_blocks (String.length out) out), Hbs, sconcat_app. simpl.
  by rewrite sapp_nil_r, <-!sapp_assoc.
Qed.

Lemma Quit_sends c : greeted c → sends (Quit (W:=W) c) (λ _ l, l = ["QUIT" +:+ CRLF]).
Proof.
  intros Hc. unfold Quit. eapply spec_bind; [by apply hello_silent|]. intros r t [-> ->]. cbn [snd].
  eapply spec_bind; [apply (spec_cmd_err _ 221)|]. intros [e|] t1 Ht; [by apply spec_ret|].
  intros w. cbn. intros _. by rewrite writes_app, Ht.
Qed.

(** What a mail that was accepted looked like on the connection. *)
Definition handed_over (from : string) (to : list string) (msg : string) (l : list string) : Prop :=
  ∃ pre params bs tail,
    l = pre ++ [mail_line from params] ++ (rcpt_line <$> to) ++ ["DATA" +:+ CRLF] ++ bs ++ ["QUIT" +:+ CRLF] ∧
    sconcat bs = (dot_write wstateBegin msg).1 +:+ tail.

(** A step whose writes only come before those of the rest. *)
Lemma sends_before m next (P : Client → Prop) (Q : list string → Prop) :
  (∀ pre l, Q l → Q (pre ++ l)) → sends m (λ c _, P c) → (∀ c, P c → sends (next c) (λ _ l, Q l)) →
  sends (on_client m next) (λ _ l, Q l).
Proof.
  intros HQ Hm Hn. eapply spec_mono.
  { apply (sends_on_client m next (λ c _, P c) (λ _ _ l2, Q l2)); [exact Hm|]. intros c _ Hc. by apply Hn. }
  intros r t Hr Hnone. destruct (Hr Hnone) as (l1 & l2 & -> & H). by apply HQ.
Qed.

Lemma handed_over_before from to msg pre l : handed_over from to msg l → handed_over from to msg (pre ++ l).
Proof.
  intros (p & params & bs & tail & -> & H). exists (pre ++ p), params, bs, tail. by rewrite <-(assoc app).
Qed.

Lemma send_steps_sends host auth from to msg c :
  sends (send_steps (W:=W) corrupt rounds host auth from to msg c) (λ _ l, handed_over from to msg l).
Proof.
  unfold send_steps.
  apply (sends_before _ _ greeted); [apply handed_over_before|apply Hello_greets|]. intros c1 H1.
  apply (sends_before _ _ greeted); [apply handed_over_before|apply send_starttls_greeted|]. intros c2 H2.
  apply (sends_before _ _ greeted); [apply handed_over_before|by apply send_auth_greeted|]. intros c3 H3.
  eapply spec_mono.
  { eapply (sends_on_client _ _ _ (λ _ l1 l2, ∃ params bs tail, l1 = [mail_line from params] ∧
      l2 = (rcpt_line <$> to) ++ ["DATA" +:+ CRLF] ++ bs ++ ["QUIT" +:+ CRLF] ∧
      sconcat bs = (dot_write wstateBegin msg).1 +:+ tail)); [by apply Mail_sends|].
    intros c4 l1 (H4 & params & ->). eapply spec_mono.
    { eapply (sends_on_client _ _ _ (λ _ l1 l2, ∃ bs tail, l1 = rcpt_line <$> to ∧
        l2 = ["DATA" +:+ CRLF] ++ bs ++ ["QUIT" +:+ CRLF] ∧ sconcat bs = (dot_write wstateBegin msg).1 +:+ tail));
        [apply send_rcpts_sends|].
      intros c5 l2 [-> ->]. eapply spec_mono.
      { eapply (sends_on_client _ _ _ (λ _ l1 l2, ∃ bs tail, l1 = ("DATA" +:+ CRLF) :: bs ∧
          l2 = ["QUIT" +:+ CRLF] ∧ sconcat bs = (dot_write wstateBegin msg).1 +:+ tail)); [apply send_data_sends|].
        intros c6 l3 (-> & bs & tail & -> & Hbs). eapply spec_mono; [by apply Quit_sends|].
        intros r t Hr Hn. rewrite (Hr Hn). by exists bs, tail. }
      intros r t Hr Hn. destruct (Hr Hn) as (k1 & k2 & -> & bs & tail & -> & -> & Hbs). by exists bs, tail. }
    intros r t Hr Hn. destruct (Hr Hn) as (k1 & k2 & -> & bs & tail & -> & -> & Hbs). by exists params, bs, tail. }
  intros r t Hr Hn. destruct (Hr Hn) as (k1 & k2 & -> & params & bs & tail & -> & -> & Hbs).
  by exists [], params, bs, tail.
Qed.

Lemma with_close_writes {A} (m : M io_action W A) (P : A → list string → Prop) :
  spec m (λ r t, P r (writes t)) → spec (with_close m) (λ r t, P r (writes t)).
Proof.
  intros Hm. unfold with_close. eapply spec_bind; [exact Hm|]. intros a t Ha w. cbn.
  by rewrite writes_app, app_nil_r.
Qed.

(** an alert that counts as mailed was handed over whole: when sendMail
    returns nil, it sent - after the greeting and any STARTTLS and
    authentication - MAIL with the sender, RCPT with every recipient in order,
    DATA, the whole text with its leading dots doubled, and QUIT. *)
Theorem sendMail_hands_over (addr : string) (auth : option smtp_auth) (from : string) (to : list string)
    (msg : string) (w : W) :
  let '(err, _, t) := sendMail corrupt rounds addr auth from to msg w in
  err = None → handed_over from to msg (writes t).
Proof.
  assert (spec (sendMail (W:=W) corrupt rounds addr auth from to msg)
            (λ r t, r = None → handed_over from to msg (writes t))) as H.
  { unfold sendMail. destruct (head _); [by apply spec_ret|].
    destruct (SplitHostPort addr) as [[host port]|e]; [|by apply spec_ret].
    eapply (spec_bind _ _ (λ _ t, writes t = [])).
    { intros w1. unfold dial. by destruct (cn_Dial _ _ w1). }
    intros [e|] t Ht; [by apply spec_ret|].
    eapply spec_mono; [apply (with_close_writes _ (λ r l, r = None → handed_over from to msg l))|].
    2: { intros r t1 Hr Hn. rewrite writes_app, Ht. by apply Hr. }
    eapply spec_bind_silent; [apply spec_lift|]. intros [e|]; [by apply spec_ret|].
    eapply (spec_bind _ _ (λ _ _, True)); [by intros w1|]. intros [c|e] t1 _; [|by apply spec_ret].
    eapply spec_mono; [apply (with_close_writes _ (λ r l, r = None → handed_over from to msg l))|].
    2: { intros r t2 Hr Hn. rewrite writes_app. apply handed_over_before. by apply Hr. }
    eapply spec_bind; [apply send_steps_sends|]. intros r t2 Hr. apply spec_ret. by rewrite app_nil_r. }
  specialize (H w). by destruct (sendMail corrupt rounds addr auth from to msg w) as [[err w'] t].
Qed.
End sent.

(** A server that sends given bytes, whatever it is told. *)
#[export] Instance Conns_script : Conns string := {|
  cn_DialTLS := λ _ _ _ w, (Err (ENew "no TLS"), w);
  cn_Dial := λ _ _ w, (None, w);
  cn_SetDeadline := λ w, (None, w);
  cn_Write := λ _ w, (None, w);
  cn_Unread := λ w, w;
  cn_Consume := λ rest _, rest;
  cn_ReadErr := λ _, ENew "EOF";
  cn_Handshake := λ _ w, (Err (ENew "no TLS"), w) |}.

Definition script : string :=
  sconcat ((λ l, l +:+ CRLF) <$> ["220 mx"; "250-mx"; "250 SIZE"; "250 ok"; "250 ok"; "250 ok"; "354 go"; "250 queued"; "221 bye"]).

Lemma sendMail_hands_over_witness :
  handed_over "ops@test" ["a@test"; "b@test"] ".hidden"
    (writes (sendMail (λ _, ENew "") 3 "mx:25" None "ops@test" ["a@test"; "b@test"] ".hidden" script).2).
Proof.
  pose proof (sendMail_hands_over (λ _, ENew "") 3 "mx:25" None "ops@test" ["a@test"; "b@test"] ".hidden" script) as H.
  assert ((sendMail (λ _, ENew "") 3 "mx:25" None "ops@test" ["a@test"; "b@test"] ".hidden" script).1.1 = None) as E
    by (vm_compute; reflexivity).
  destruct (sendMail _ _ _ _ _ _ _ script) as [[err w'] t]. by apply H.
Defined.
