(* ===== verification/Reconcile.v ===== *)
(** * The reconciler (internal/controller/endpointmonitor_controller.go) *)

From S2P Require Import Prelude GoStd GoTime Errors Api Notifier Composite Trace Effects Retries.

(** The longest wait before a monitor whose driver or notifier cannot be
    built is tried again. *)
Definition setupRetry : duration := 30 * Second.

(** What [factory.NewDriver] and [factory.NewNotifier] do for the
    reconciler. *)
Class Factory (D N W : Type) := {
  NewDriver : string → string → EndpointMonitor → string → W → result error D * W;
  NewNotifier : NotifyConfig → result error (CompositeNotifier N) }.

(** [ctrl.Result] and the error of [Reconcile]; [Panic] is an index out of
    range in [queueRetries]. *)
Inductive outcome :=
| Done (RequeueAfter : duration)
| Failed (err : error)
| Panic.

Section reconcile.
Context {D N W : Type} `{!GoText, !Cluster W, !Notifying N W, !Driving D W, !Factory D N W}.
Context (r : Reconciler).

(** [setStatusPeriod]: the fields [LastStatusChange] and [StatusTime]. *)
Definition status_period (since until : time) : string * string :=
  if IsZero since || IsZero until || Before until since then ("", "")
  else (time_String since, duration_String (Round (Sub until since) Second)).

Definition setStatusPeriod (v : NoticeValues) (since until : time) : NoticeValues :=
  let '(change, period) := status_period since until in
  {| nv_Status := nv_Status v; nv_Endpoint := nv_Endpoint v; nv_Driver := nv_Driver v;
     nv_Healthy := nv_Healthy v; nv_Name := nv_Name v; nv_Response := nv_Response v;
     nv_ResponseTimeMs := nv_ResponseTimeMs v; nv_LastStatus := nv_LastStatus v;
     nv_LastChecked := nv_LastChecked v; nv_LastStatusChange := change;
     nv_CurrentTime := nv_CurrentTime v; nv_StatusTime := period;
     nv_Message := nv_Message v; nv_Namespace := nv_Namespace v;
     nv_AlertMessage := nv_AlertMessage v |}.

Definition with_LastStatus (v : NoticeValues) (s : string) : NoticeValues :=
  {| nv_Status := nv_Status v; nv_Endpoint := nv_Endpoint v; nv_Driver := nv_Driver v;
     nv_Healthy := nv_Healthy v; nv_Name := nv_Name v; nv_Response := nv_Response v;
     nv_ResponseTimeMs := nv_ResponseTimeMs v; nv_LastStatus := s;
     nv_LastChecked := nv_LastChecked v; nv_LastStatusChange := nv_LastStatusChange v;
     nv_CurrentTime := nv_CurrentTime v; nv_StatusTime := nv_StatusTime v;
     nv_Message := nv_Message v; nv_Namespace := nv_Namespace v;
     nv_AlertMessage := nv_AlertMessage v |}.

Definition with_AlertMessage (v : NoticeValues) (s : string) : NoticeValues :=
  {| nv_Status := nv_Status v; nv_Endpoint := nv_Endpoint v; nv_Driver := nv_Driver v;
     nv_Healthy := nv_Healthy v; nv_Name := nv_Name v; nv_Response := nv_Response v;
     nv_ResponseTimeMs := nv_ResponseTimeMs v; nv_LastStatus := nv_LastStatus v;
     nv_LastChecked := nv_LastChecked v; nv_LastStatusChange := nv_LastStatusChange v;
     nv_CurrentTime := nv_CurrentTime v; nv_StatusTime := nv_StatusTime v;
     nv_Message := nv_Message v; nv_Namespace := nv_Namespace v;
     nv_AlertMessage := s |}.

(** [cannotCheck]: a warning event and a later attempt. *)
Definition cannotCheck (m : EndpointMonitor) (err : error) (retry : duration) : M (action N) W outcome :=
  Event m "CannotCheck" (error_text err);; mret (Done retry).

(** [SendAlert] on the composite notifier, and on failure [queueRetries],
    the goroutines it starts, and the event for what is not retried.  The
    result is whether the alert went out, or [None] after a panic. *)
Definition send (c : CompositeNotifier N) (m : EndpointMonitor) (alert : string)
    (v : NoticeValues) (change : option announced) : M (action N) W (option bool) :=
  err ← Alert c alert v;
  match err with
  | None => mret (Some true)
  | Some e =>
      match queueRetries r m alert v (AESend e) change with
      | None => mret None
      | Some (rest, runs) =>
          foldr (λ run k, log (AQueue run);; k) (mret ()) runs;;
          match rest with
          | Some rest => alertFailed m alert rest;; mret (Some false)
          | None => mret (Some false)
          end
      end
  end.

(** The status the check writes: the check's status and time, and the
    status last announced. *)
Definition checked_status (s : EndpointMonitorStatus) (status notified : string)
    (notifiedSince now : time) (generation : Z) : EndpointMonitorStatus :=
  {| LastCheckedTime := now;
     LastStatus := status;
     LastStatusChange := if decide (LastStatus s = status) then LastStatusChange s else now;
     LastNotifiedStatus := Some notified;
     LastNotifiedStatusChange := notifiedSince;
     ObservedGeneration := generation |}.

(** [notified, notifiedSince]: what was last announced. *)
Definition last_notified (s : EndpointMonitorStatus) : string * time :=
  match LastNotifiedStatus s with
  | Some n => (n, LastNotifiedStatusChange s)
  | None => (LastStatus s, LastStatusChange s)
  end.

Definition status_word (success : bool) : string := if success then "success" else "failure".
Definition healthy_word (success : bool) : string := if success then "healthy" else "unhealthy".

Definition notice_values (nn : NamespacedName) (m : EndpointMonitor) (d : D)
    (res : CheckResult) (now : time) : NoticeValues :=
  setStatusPeriod
    {| nv_LastStatus := LastStatus (Status m);
       nv_Status := status_word (Success res);
       nv_Healthy := healthy_word (Success res);
       nv_Endpoint := DisplayEndpoint (GetEndpoint d);
       nv_Driver := GetType d;
       nv_Name := nn_Name (meta_key m);
       nv_Message := res_Message res;
       nv_Response := duration_String (ResponseTime res);
       nv_ResponseTimeMs := ResponseTime res `quot` 10 ^ 6;
       nv_CurrentTime := time_String now;
       nv_Namespace := nn_Namespace nn;
       nv_AlertMessage := ""; nv_LastChecked := ""; nv_LastStatusChange := "";
       nv_StatusTime := "" |}
    (LastStatusChange (Status m)) now.

Definition alert_message (v : NoticeValues) : string :=
  nv_Driver v +:+ " monitor for " +:+ nv_Endpoint v +:+ " is " +:+ nv_Healthy v
    +:+ String LF (nv_Message v).

Definition RunCheck (d : D) : M (action N) W (result error CheckResult) :=
  λ w, let '(res, w) := Check d w in (res, w, [ACheck res]).

(** From the check's result on: save the status, send the status alert, and
    send the change alert when the status is not the one last announced. *)
Definition report (nn : NamespacedName) (m : EndpointMonitor) (d : D)
    (c : CompositeNotifier N) (res : CheckResult) (now : time) (checkInterval : duration)
  : M (action N) W outcome :=
  let '(notified, notifiedSince) := last_notified (Status m) in
  let v := notice_values nn m d res now in
  let status := nv_Status v in
  let st := checked_status (Status m) status notified notifiedSince now (Generation m) in
  upd ← StatusUpdate (with_Status m st);
  match upd with
  | Err e => mret (Failed e)
  | Ok m =>
      let v := with_AlertMessage v (alert_message v) in
      sent ← send c m status v None;
      match sent with
      | None => mret Panic
      | Some _ =>
          if decide (notified = status) then mret (Done checkInterval)
          else
            let cv := setStatusPeriod (with_LastStatus v notified) notifiedSince
                        (LastStatusChange (Status m)) in
            sent ← send c m "change" cv
                     (Some {| an_status := status; an_since := LastStatusChange (Status m) |});
            match sent with
            | None => mret Panic
            | Some false => mret (Done checkInterval)
            | Some true =>
                upd ← StatusUpdate (with_Status m (mark_status (Status m) status));
                mret (match upd with Err e => Failed e | Ok _ => Done checkInterval end)
            end
      end
  end.

Definition interval_error (i : Z) : error :=
  ENew ("checkInterval must be between 1 and " +:+ FormatInt MaxCheckInterval
        +:+ ", got " +:+ FormatInt i).

(** The check itself, once it is due: build the driver and the notifiers,
    check, and report. *)
Definition run_check (nn : NamespacedName) (m : EndpointMonitor) (now : time)
    (checkInterval : duration) : M (action N) W outcome :=
  let retry := Z.min checkInterval setupRetry in
  drv ← lift (NewDriver (spec_Driver (Spec m)) (spec_Endpoint (Spec m)) m (nn_Namespace nn));
  match drv with
  | Err e => cannotCheck m (EWrap "cannot create driver: " e) retry
  | Ok d =>
      match NewNotifier (spec_Notify (Spec m)) with
      | Err e => cannotCheck m e retry
      | Ok c =>
          res ← RunCheck d;
          match res with
          | Err e => mret (Failed e)
          | Ok res => report nn m d c res now checkInterval
          end
      end
  end.

Definition checkInterval_of (m : EndpointMonitor) : duration :=
  wrap64 (spec_CheckInterval (Spec m) * Second).

Definition nextCheckTime (m : EndpointMonitor) : time :=
  Add (LastCheckedTime (Status m)) (checkInterval_of m).

Definition specChanged (m : EndpointMonitor) : bool :=
  negb (ObservedGeneration (Status m) =? 0) &&
  negb (ObservedGeneration (Status m) =? Generation m).

Definition notDue (m : EndpointMonitor) (now : time) : bool :=
  negb (IsZero (LastCheckedTime (Status m))) && Before now (nextCheckTime m)
  && negb (specChanged m).

Definition valid_interval (m : EndpointMonitor) : bool :=
  negb ((spec_CheckInterval (Spec m) <? 1) || (MaxCheckInterval <? spec_CheckInterval (Spec m))).

(** [r.Retries.Stop]; a nil [Retries] stops nothing. *)
Definition Stop (nn : NamespacedName) : M (action N) W bool :=
  match Retries r with
  | None => mret false
  | Some _ => log (AStop nn);; lift (cl_Stop nn)
  end.

Definition Reconcile (nn : NamespacedName) : M (action N) W outcome :=
  got ← Get nn;
  match got with
  | Err e =>
      if IsNotFound e then Stop nn;; mret (Done 0) else mret (Failed e)
  | Ok m =>
      if negb (valid_interval m) then
        cannotCheck m (interval_error (spec_CheckInterval (Spec m))) 0
      else
        now ← Now;
        let checkInterval := checkInterval_of m in
        if notDue m now then mret (Done (Sub (nextCheckTime m) now))
        else
          pending ← Stop nn;
          if (pending : bool) then
            got ← reader_Get (has_APIReader r) nn;
            match got with
            | Err e => mret (match IgnoreNotFound e with None => Done 0 | Some e => Failed e end)
            | Ok m => run_check nn m now checkInterval
            end
          else run_check nn m now checkInterval
  end.
End reconcile.
