(* ===== verification/SimCluster.v ===== *)
(** * A concrete cluster

    An executable world for the interfaces of the controller: an API server
    that stores monitors and keeps times to the second, a clock, and an
    endpoint and a notification service that follow a script.  It runs the
    model on concrete inputs. *)

From S2P Require Import Prelude GoStd GoTime Errors Api Notifier Composite Trace Effects Retries Reconcile.

Record sim := {
  sim_store : gmap NamespacedName EndpointMonitor;
  sim_now : time;
  sim_up : list bool;            (* results of the next checks *)
  sim_send : list (option error) (* answers to the next alerts *) }.

(** The API server stores [metav1.Time] values to the second. *)
Definition second_of (t : time) : time := of_Unix (Unix t).

Definition server_status (s : EndpointMonitorStatus) : EndpointMonitorStatus :=
  {| LastCheckedTime := second_of (LastCheckedTime s); LastStatus := LastStatus s;
     LastStatusChange := second_of (LastStatusChange s);
     LastNotifiedStatus := LastNotifiedStatus s;
     LastNotifiedStatusChange := second_of (LastNotifiedStatusChange s);
     ObservedGeneration := ObservedGeneration s |}.

Definition sim_get (nn : NamespacedName) (w : sim) : result error EndpointMonitor * sim :=
  (match sim_store w !! nn with
   | Some m => Ok m
   | None => Err (EExt KNotFound "not found")
   end, w).

Definition sim_update (m : EndpointMonitor) (w : sim) : result error EndpointMonitor * sim :=
  let m := with_Status m (server_status (Status m)) in
  (Ok m, {| sim_store := <[meta_key m := m]> (sim_store w); sim_now := sim_now w;
            sim_up := sim_up w; sim_send := sim_send w |}).

#[export] Instance sim_cluster : Cluster sim := {|
  cl_Get := sim_get; cl_Read := sim_get; cl_StatusUpdate := sim_update;
  cl_Now := λ w, (sim_now w, w); cl_Stop := λ _ w, (false, w);
  cl_SelectStop := λ w, (false, w); cl_RetrySteps := 4 |}.

#[export] Instance sim_text : GoText := {|
  time_String := FormatInt; duration_String := FormatInt; url_Parse := λ _, None |}.

(** One notifier, which answers from the script and then succeeds. *)
#[export] Instance sim_notifier : Notifying () sim := λ _ _ _ w,
  (default None (head (sim_send w)),
   {| sim_store := sim_store w; sim_now := sim_now w; sim_up := sim_up w;
      sim_send := tail (sim_send w) |}).

(** One driver, whose check succeeds or not by the script. *)
#[export] Instance sim_driver : Driving string sim := {|
  Check := λ _ w,
    let up := default true (head (sim_up w)) in
    (Ok {| Success := up; ResponseTime := Second; res_Error := None; res_Message := "msg" |},
     {| sim_store := sim_store w; sim_now := sim_now w; sim_up := tail (sim_up w);
        sim_send := sim_send w |});
  GetEndpoint := λ d, d; GetType := λ _, "tcp" |}.

#[export] Instance sim_factory : Factory string () sim := {|
  NewDriver := λ _ endpoint _ _ w, (Ok endpoint, w);
  NewNotifier := λ _, Ok [{| nn_name := "webhook"; nn_Notifier := () |}] |}.

Definition sim_key : NamespacedName := {| nn_Namespace := "default"; nn_Name := "api" |}.

Definition sim_monitor (s : EndpointMonitorStatus) : EndpointMonitor :=
  {| meta_key := sim_key; Generation := 1;
     Spec := {| spec_Driver := "tcp"; spec_Endpoint := "db:5432"; spec_CheckInterval := 60;
                spec_Notify := {| Slack := None; Email := None; Discord := None;
                                  Webhook := None; Valkey := None |};
                spec_HttpCheck := None; spec_HttpJsonCheck := None; spec_SmtpCheck := None;
                spec_RedisCheck := None; spec_TlsCheck := None; spec_DnsCheck := None;
                spec_MysqlCheck := None; spec_PostgresCheck := None; spec_MongodbCheck := None;
                spec_ScylladbCheck := None; spec_IpFamily := [] |};
     Status := s |}.

(** A cluster that holds one monitor, with the given scripts. *)
Definition sim_world (s : EndpointMonitorStatus) (now : time) (up : list bool)
    (send : list (option error)) : sim :=
  {| sim_store := {[sim_key := sim_monitor s]}; sim_now := now; sim_up := up; sim_send := send |}.

Definition sim_reconciler : Reconciler := {| Retries := Some 5; has_APIReader := true |}.
