(* ===== verification/ReconcileProps.v ===== *)
(** * Properties of the reconciler

    Every statement holds for every world: whatever the API server, the
    clock, the endpoint and the notification services answer. *)

From S2P Require Import Prelude GoStd GoTime Errors Api Notifier Composite Trace Effects Retries Reconcile SimCluster.

(** ** The grammar of one reconcile *)

Section grammar.
Context {N : Type}.
Implicit Types (t : list (action N)).

(** What follows a failed alert: the goroutines, then at most one event. *)
Inductive follow_up : list (action N) → Prop :=
| follow runs ev :
    (ev = [] ∨ ∃ key note, ev = [AEvent key "AlertFailed" note]) →
    follow_up ((AQueue <$> runs) ++ ev).

(** One alert with its follow-up. *)
Inductive sent_alert (alert : string) (v : NoticeValues) : bool → list (action N) → Prop :=
| sent_ok : sent_alert alert v true [AAlert alert v true]
| sent_failed t : follow_up t → sent_alert alert v false (AAlert alert v false :: t).

(** The report of a check with the given status over a monitor whose last
    announced status is [notified]. *)
Inductive reported (status notified : string) : outcome → list (action N) → Prop :=
| rep_unsaved m e :
    reported status notified (Failed e) [AUpdate m false]
| rep_same m v ok t d :
    LastStatus (Status m) = status → LastNotifiedStatus (Status m) = Some notified →
    nv_Status v = status → sent_alert status v ok t → notified = status →
    reported status notified (Done d) (AUpdate m true :: t)
| rep_change_failed m v ok t cv t' d :
    LastStatus (Status m) = status → LastNotifiedStatus (Status m) = Some notified →
    nv_Status v = status → sent_alert status v ok t → notified ≠ status →
    nv_Status cv = status → nv_LastStatus cv = notified → sent_alert "change" cv false t' →
    reported status notified (Done d) (AUpdate m true :: t ++ t')
| rep_change_sent m v ok t cv m' res ok' :
    LastStatus (Status m) = status → LastNotifiedStatus (Status m) = Some notified →
    nv_Status v = status → sent_alert status v ok t → notified ≠ status →
    nv_Status cv = status → nv_LastStatus cv = notified →
    LastNotifiedStatus (Status m') = Some status →
    (ok' = true ↔ ∃ d, res = Done d) → res ≠ Panic →
    reported status notified res
      (AUpdate m true :: t ++ [AAlert "change" cv true; AUpdate m' ok']).
End grammar.

Section report_spec.
Context {D N W : Type} `{!GoText, !Cluster W, !Notifying N W, !Driving D W, !Factory D N W}.

Lemma spec_queue (runs : list (RetryRun N)) :
  spec (W:=W) (foldr (λ run k, log (AQueue run);; k) (mret ()) runs)
    (λ _ t, t = AQueue <$> runs).
Proof.
  induction runs as [|run runs IH]; simpl; [by apply spec_ret|].
  eapply spec_bind; [apply spec_log|]. intros _ ? ->.
  eapply spec_mono; [exact IH|]. by intros _ ? ->.
Qed.

Lemma queueRetries_total r m alert v (l : list (namedNotifier N * error)) change :
  ∃ rest runs, queueRetries r m alert v (AESend (send_error_of l)) change = Some (rest, runs).
Proof.
  unfold queueRetries. destruct (Retries r) as [tries|]; [|by eauto].
  destruct (tries <? 2); [by eauto|].
  pose proof (split_failures_of [] l (length (se_Failed (send_error_of l)))) as Hs.
  cbn [app length] in Hs. change (se_Errs (send_error_of l)) with (snd <$> l).
  rewrite Hs by (simpl; rewrite length_fmap; lia). clear Hs. simpl.
  pose proof (λ c, retry_runs_of m alert v c [] l) as Hruns. simpl in Hruns.
  rewrite Hruns. simpl. eauto.
Qed.

Lemma spec_send r c m alert v change :
  spec (send (W:=W) r c m alert v change)
    (λ res t, ∃ ok, res = Some ok ∧ sent_alert alert v ok t).
Proof.
  unfold send. eapply spec_bind; [apply spec_Alert|]. intros [e|] t [-> He]; simpl.
  2:{ apply spec_ret. exists true. rewrite ?app_nil_r. by split; [|constructor]. }
  destruct (He e eq_refl) as (l & -> & _).
  destruct (queueRetries_total r m alert v l change) as (rest & runs & ->).
  eapply spec_bind; [apply spec_queue|]. intros _ ? ->.
  destruct rest as [rest|].
  - unfold alertFailed, Event. eapply spec_bind; [apply spec_log|]. intros _ ? ->.
    apply spec_ret. exists false. split; [done|]. rewrite app_nil_r. simpl.
    constructor. constructor. eauto.
  - apply spec_ret. exists false. split; [done|].
    constructor. constructor. by left.
Qed.

Lemma nv_Status_setStatusPeriod v since until :
  nv_Status (setStatusPeriod v since until) = nv_Status v.
Proof. unfold setStatusPeriod. by destruct (status_period since until). Qed.

Lemma nv_LastStatus_setStatusPeriod v since until :
  nv_LastStatus (setStatusPeriod v since until) = nv_LastStatus v.
Proof. unfold setStatusPeriod. by destruct (status_period since until). Qed.

Lemma spec_report r nn m d c res now ci :
  spec (report (W:=W) (D:=D) r nn m d c res now ci)
    (reported (status_word (Success res)) (last_notified (Status m)).1).
Proof.
  unfold report. destruct (last_notified (Status m)) as [notified since]. simpl.
  set (v := notice_values nn m d res now).
  assert (nv_Status v = status_word (Success res)) as Hv by apply nv_Status_setStatusPeriod.
  rewrite Hv. set (status := status_word (Success res)) in *.
  step_act. destruct a as [m1|e]; [|apply spec_ret; simpl; eapply rep_unsaved].
  eapply spec_bind; [apply spec_send|]. intros sent t (ok & -> & Ht). simpl.
  destruct (decide (notified = status)) as [Heq|Hne].
  { apply spec_ret. rewrite app_nil_r. simpl.
    eapply rep_same with (v := with_AlertMessage v (alert_message v)); [done|done|exact Hv|exact Ht|done]. }
  eapply spec_bind; [apply spec_send|]. intros sent t' (ok' & -> & Ht').
  set (cv := setStatusPeriod _ _ _) in *.
  assert (nv_Status cv = status) by (unfold cv; by rewrite nv_Status_setStatusPeriod).
  assert (nv_LastStatus cv = notified) by (unfold cv; by rewrite nv_LastStatus_setStatusPeriod).
  destruct ok'; simpl.
  - step_act. apply spec_ret. inversion Ht' as [Hb Ht''|]. simpl.
    eapply rep_change_sent with (v := with_AlertMessage v (alert_message v)); [done|done|exact Hv|exact Ht|done..| |by destruct a].
    destruct a; simpl; [by split; eauto|]. split; [done|by intros [??]].
  - apply spec_ret. rewrite app_nil_r. simpl.
    eapply rep_change_failed with (v := with_AlertMessage v (alert_message v)); [done|done|exact Hv|exact Ht|done|done|done|exact Ht'].
Qed.

(** The traces of [Reconcile]: an early return leaves at most a [Stop] and
    a CannotCheck event; otherwise there is one check, which ends the run when
    the driver answers an error. *)
Inductive reconciled : outcome → list (action N) → Prop :=
| rec_early res t :
    Forall (λ a, match a with AStop _ => True | AEvent _ reason _ => reason = "CannotCheck"
                              | _ => False end) t →
    res ≠ Panic → reconciled res t
| rec_check_failed e t :
    Forall (λ a, match a with AStop _ => True | _ => False end) t →
    reconciled (Failed e) (t ++ [ACheck (Err e)])
| rec_reported check status notified res t t' :
    Forall (λ a, match a with AStop _ => True | _ => False end) t →
    reported status notified res t' →
    reconciled res (t ++ ACheck check :: t').

Lemma spec_RunCheck (d : D) : spec (RunCheck (N:=N) (W:=W) d) (λ res t, t = [ACheck res]).
Proof. intros w. unfold RunCheck. by destruct (Check d w). Qed.

Lemma spec_run_check r nn m now ci t :
  Forall (λ a, match a with AStop _ => True | _ => False end) t →
  spec (run_check (D:=D) (N:=N) (W:=W) r nn m now ci) (λ res t', reconciled res (t ++ t')).
Proof.
  intros Ht. unfold run_check, cannotCheck, Event.
  assert (∀ key note d, reconciled (Done d) (t ++ [AEvent key "CannotCheck" note])) as Hearly.
  { intros. apply rec_early; [|done]. apply Forall_app. split; [|by repeat constructor].
    eapply Forall_impl; [exact Ht|]. by intros []. }
  step_silent. destruct a as [d|e]; [|step_act; apply spec_ret; apply Hearly].
  destruct (NewNotifier _) as [c|e]; [|step_act; apply spec_ret; apply Hearly].
  eapply spec_bind; [apply spec_RunCheck|].
  intros [res|e] ? ->; [|apply spec_ret; rewrite app_nil_r; by apply rec_check_failed].
  eapply spec_mono; [apply spec_report|]. intros res' t' Hr. simpl.
  by eapply rec_reported.
Qed.

Lemma spec_Stop r nn :
  spec (Stop (N:=N) (W:=W) r nn)
    (λ _ t, Forall (λ a, match a with AStop _ => True | _ => False end) t).
Proof.
  unfold Stop. destruct (Retries r); [|by apply spec_ret].
  step_act. eapply spec_mono; [apply spec_lift|]. intros ? ? ->. by repeat constructor.
Qed.

Lemma spec_Reconcile r nn : spec (Reconcile (D:=D) (N:=N) (W:=W) r nn) reconciled.
Proof.
  unfold Reconcile. step_silent. destruct a as [m|e].
  2:{ destruct (IsNotFound e); [|apply spec_ret; by constructor].
      eapply spec_bind; [apply spec_Stop|]. intros ? t Ht. cbv beta in Ht. apply spec_ret.
      rewrite app_nil_r. constructor; [|done]. eapply Forall_impl; [exact Ht|]. by intros []. }
  destruct (negb (valid_interval m)).
  { unfold cannotCheck, Event. step_act. apply spec_ret. by repeat constructor. }
  step_silent. destruct (notDue m a); [apply spec_ret; by constructor|].
  eapply spec_bind; [apply spec_Stop|]. intros pending t Ht. cbv beta in Ht. destruct pending.
  - step_silent. destruct a0 as [m'|e]; [by apply spec_run_check|].
    apply spec_ret. rewrite app_nil_r. constructor.
    + eapply Forall_impl; [exact Ht|]. by intros [].
    + by destruct (IgnoreNotFound e).
  - by apply spec_run_check.
Qed.
End report_spec.

(** ** What the traces show *)

Section traces.
Context {N : Type}.

(** The names of the alerts sent, in order. *)
Definition alert_names (t : list (action N)) : list string :=
  omap (λ a, match a with AAlert alert _ _ => Some alert | _ => None end) t.

(** The change alerts: from which status, to which, and whether all
    notifiers took it. *)
Definition change_alerts (t : list (action N)) : list (string * string * bool) :=
  omap (λ a, match a with
             | AAlert alert v ok =>
                 if decide (alert = "change") then Some (nv_LastStatus v, nv_Status v, ok) else None
             | _ => None
             end) t.

(** The statuses saved, in order. *)
Definition saved (t : list (action N)) : list EndpointMonitor :=
  omap (λ a, match a with AUpdate m true => Some m | _ => None end) t.

(** Every alert comes after a saved status with the same value. *)
Fixpoint saved_before (now : option string) (t : list (action N)) : Prop :=
  match t with
  | [] => True
  | AUpdate m true :: t => saved_before (Some (LastStatus (Status m))) t
  | AAlert _ v _ :: t => now = Some (nv_Status v) ∧ saved_before now t
  | _ :: t => saved_before now t
  end.

Definition quiet (a : action N) : Prop :=
  match a with AQueue _ | AEvent _ _ _ | AStop _ | ACheck _ => True | _ => False end.

Lemma follow_up_quiet t : follow_up t → Forall quiet t.
Proof.
  intros [runs ev Hev]. apply Forall_app. split.
  - apply Forall_fmap, Forall_true. done.
  - destruct Hev as [->|(? & ? & ->)]; by repeat constructor.
Qed.

Lemma quiet_alert_names t : Forall quiet t → alert_names t = [].
Proof. induction 1 as [|[] t Ha Ht IH]; done. Qed.

Lemma quiet_change_alerts t : Forall quiet t → change_alerts t = [].
Proof. induction 1 as [|[] t Ha Ht IH]; done. Qed.

(** The three views of one action. *)
Lemma saved_AUpdate m t : saved (AUpdate m true :: t) = m :: saved t.
Proof. done. Qed.

Lemma change_alerts_AUpdate m ok t : change_alerts (AUpdate m ok :: t) = change_alerts t.
Proof. done. Qed.

Lemma change_alerts_change v ok t :
  change_alerts (AAlert "change" v ok :: t) = (nv_LastStatus v, nv_Status v, ok) :: change_alerts t.
Proof. done. Qed.

Lemma alert_names_AUpdate m ok t : alert_names (AUpdate m ok :: t) = alert_names t.
Proof. done. Qed.

Lemma quiet_saved t : Forall quiet t → saved t = [].
Proof. induction 1 as [|[] t Ha Ht IH]; done. Qed.

Lemma saved_before_quiet now t t' :
  Forall quiet t → saved_before now (t ++ t') ↔ saved_before now t'.
Proof. induction 1 as [|[] t Ha Ht IH]; done. Qed.

Lemma alert_names_app t t' : alert_names (t ++ t') = alert_names t ++ alert_names t'.
Proof. apply omap_app. Qed.

Lemma change_alerts_app t t' : change_alerts (t ++ t') = change_alerts t ++ change_alerts t'.
Proof. apply omap_app. Qed.

Lemma saved_app t t' : saved (t ++ t') = saved t ++ saved t'.
Proof. apply omap_app. Qed.

(** One alert with its follow-up, seen through the three views. *)
Lemma sent_alert_views alert v ok (t : list (action N)) :
  sent_alert alert v ok t →
  alert_names t = [alert] ∧ saved t = [] ∧
  change_alerts t = (if decide (alert = "change") then [(nv_LastStatus v, nv_Status v, ok)] else []) ∧
  ∀ now t', saved_before now (t ++ t') ↔ now = Some (nv_Status v) ∧ saved_before now t'.
Proof.
  intros [|t' Ht%follow_up_quiet]; simpl.
  - by case_decide.
  - assert (∀ now t'', saved_before now (t' ++ t'') ↔ saved_before now t'') as Hb
      by (intros; by apply saved_before_quiet).
    unfold alert_names, saved, change_alerts. simpl.
    fold (alert_names t') (saved t') (change_alerts t').
    rewrite (quiet_alert_names _ Ht), (quiet_saved _ Ht), (quiet_change_alerts _ Ht).
    split; [done|]. split; [done|]. split; [by case_decide|].
    intros now t''. by rewrite Hb.
Qed.

Lemma reported_saved_before status notified res (t : list (action N)) :
  reported status notified res t → saved_before None t.
Proof.
  intros [|m v ok t' d Hs Hn Hv Ht _|m v ok t' cv t'' d Hs Hn Hv Ht _ Hcv Hcl Ht'
         |m v ok t' cv m' res' ok' Hs Hn Hv Ht _ Hcv Hcl Hm' _ _]; simpl; [done|..];
    destruct (sent_alert_views _ _ _ _ Ht) as (_ & _ & _ & Hb).
  - rewrite <-(app_nil_r t'), Hb. by rewrite Hs, Hv.
  - destruct (sent_alert_views _ _ _ _ Ht') as (_ & _ & _ & Hb').
    rewrite Hb, <-(app_nil_r t''), Hb'. by rewrite Hs, Hv, Hcv.
  - rewrite Hb. simpl. rewrite Hs, Hv, Hcv. by destruct ok'.
Qed.
End traces.

(** The status under which the monitor's last change was announced. *)
Definition announced_of (m : EndpointMonitor) : string := (last_notified (Status m)).1.

(** The abstract contract of change alerts: from the status last announced,
    one alert for each check whose status differs from it. *)
Fixpoint transitions (announced : string) (statuses : list string) : list (string * string) :=
  match statuses with
  | [] => []
  | s :: ss => if decide (announced = s) then transitions s ss
               else (announced, s) :: transitions s ss
  end.

Section history.
Context {D N W : Type} `{!GoText, !Cluster W, !Notifying N W, !Driving D W, !Factory D N W}.

(** A history of checks of one monitor: each report runs in some world and
    saves its statuses, every change alert is delivered, and the next check
    reads a monitor on which the last saved status is still announced. *)
Inductive history : string → list string → list (string * string) → Prop :=
| hist_nil a : history a [] []
| hist_check r nn m (d : D) (c : CompositeNotifier N) res now ci w o w' t m' ss cs :
    report r nn m d c res now ci w = (o, w', t) →
    Forall (λ a, ∀ u, a ≠ AUpdate u false) t →
    Forall (λ p, p.2 = true) (change_alerts t) →
    last (saved t) = Some m' →
    history (announced_of m') ss cs →
    history (announced_of m) (status_word (Success res) :: ss)
      ((change_alerts t).*1 ++ cs).

(** One check: the simulation step behind [history_transitions]. *)
Lemma report_step status notified res (t : list (action N)) m' :
  reported status notified res t →
  Forall (λ a, ∀ u, a ≠ AUpdate u false) t →
  Forall (λ p, p.2 = true) (change_alerts t) →
  last (saved t) = Some m' →
  status ≠ "change" →
  announced_of m' = status ∧
  (change_alerts t).*1 = (if decide (notified = status) then [] else [(notified, status)]).
Proof.
  intros [|m v ok t' d Hs Hn Hv Ht He|m v ok t' cv t'' d Hs Hn Hv Ht He Hcv Hcl Ht'
         |m v ok t' cv m1 res' ok' Hs Hn Hv Ht He Hcv Hcl Hm' _ _] Hup Hch Hlast Hne; simpl.
  { by apply Forall_singleton in Hup as []%(λ H, H m). }
  all: destruct (sent_alert_views _ _ _ _ Ht) as (_ & Hsv & Hca & _);
    rewrite decide_False in Hca by done;
    rewrite saved_AUpdate, change_alerts_AUpdate in *.
  - rewrite Hsv in Hlast. rewrite Hca. simplify_eq/=. rewrite decide_True by done.
    unfold announced_of, last_notified. by rewrite Hn.
  - rewrite change_alerts_app, Hca in *.
    destruct (sent_alert_views _ _ _ _ Ht') as (_ & _ & Hca' & _).
    rewrite Hca' in Hch. simpl in Hch. by inversion Hch.
  - rewrite change_alerts_app, Hca, saved_app, Hsv in *. rewrite decide_False by done.
    rewrite change_alerts_change, change_alerts_AUpdate, Hcv, Hcl.
    destruct ok'.
    + simpl in Hlast. simplify_eq. unfold announced_of, last_notified. by rewrite Hm'.
    + rewrite Forall_forall in Hup.
      destruct (Hup (AUpdate m1 false)) with (u := m1); [|done]. set_solver.
Qed.

(** C1: with every save and every change alert going through, the change
    alerts sent over a history of checks are exactly the transitions of the
    observed status: one alert, from the old status to the new one, each
    time a check differs from the status last announced, and none
    otherwise. *)
Theorem change_alerts_are_transitions (a : string) (ss : list string)
    (cs : list (string * string)) :
  history a ss cs → cs = transitions a ss.
Proof.
  induction 1 as [a|r nn m d c res now ci w o w' t m' ss cs Hrun Hup Hch Hlast _ IH]; [done|].
  pose proof (spec_report r nn m d c res now ci w) as Hrep. rewrite Hrun in Hrep. simpl in Hrep.
  destruct (report_step _ _ _ _ m' Hrep Hup Hch Hlast) as [Ha Hc].
  { by destruct (Success res). }
  rewrite Hc, IH, Ha. simpl. fold (announced_of m).
  by destruct (decide (announced_of m = status_word (Success res))).
Qed.
End history.

(** ** What becomes of a check *)

Definition no_check {N} (a : action N) : Prop := match a with ACheck _ => False | _ => True end.

(** The monitor as it must be saved after a check of [m] that ended at
    [now]. *)
Record records (m : EndpointMonitor) (res : CheckResult) (now : time) (m' : EndpointMonitor) : Prop := {
  rs_status : LastStatus (Status m') = if Success res then "success" else "failure";
  rs_checked : LastCheckedTime (Status m') = now;
  rs_since : LastStatusChange (Status m') =
    if decide (LastStatus (Status m) = LastStatus (Status m')) then LastStatusChange (Status m) else now;
  rs_announced : last_notified (Status m') = last_notified (Status m);
  rs_generation : ObservedGeneration (Status m') = Generation m;
  rs_rest : Spec m' = Spec m ∧ meta_key m' = meta_key m ∧ Generation m' = Generation m }.

(** A run checks at most once; a check that answers an error ends it with that
    error; after any other the next action saves the monitor the run has read
    ([read]) with the outcome at a time the clock showed ([clock]), and when
    that fails the run ends there, with an error.  The outcomes are the
    driver's answers ([answered]). *)
Inductive check_saved {N} (read : EndpointMonitor → Prop) (clock : time → Prop)
    (answered : result error CheckResult → Prop) : outcome → list (action N) → Prop :=
| unchecked o t : Forall no_check t → check_saved read clock answered o t
| check_error t e : Forall no_check t → answered (Err e) → check_saved read clock answered (Failed e) (t ++ [ACheck (Err e)])
| saved_check o t res m now m' t' :
    Forall no_check t → answered (Ok res) → read m → clock now → records m res now m' → Forall no_check t' →
    check_saved read clock answered o (t ++ ACheck (Ok res) :: AUpdate m' true :: t')
| unsaved_check e t res m now m' :
    Forall no_check t → answered (Ok res) → read m → clock now → records m res now m' →
    check_saved read clock answered (Failed e) (t ++ [ACheck (Ok res); AUpdate m' false]).

Section saves.
Context {D N W : Type} `{!GoText, !Cluster W, !Notifying N W, !Driving D W, !Factory D N W}.
Context (read : EndpointMonitor → Prop) (clock : time → Prop) (answered : result error CheckResult → Prop).
Hypothesis answers : ∀ (d : D) (w : W), answered (Check d w).1.

Lemma follow_up_no_check (t : list (action N)) : follow_up t → Forall no_check t.
Proof.
  intros [runs ev Hev]. apply Forall_app. split.
  - apply Forall_fmap, Forall_true. done.
  - destruct Hev as [->|(? & ? & ->)]; by repeat constructor.
Qed.

Lemma sent_alert_no_check alert v ok (t : list (action N)) : sent_alert alert v ok t → Forall no_check t.
Proof. intros [|t' Ht%follow_up_no_check]; by repeat constructor. Qed.

Lemma reported_no_check status notified res (t : list (action N)) : reported status notified res t → Forall no_check t.
Proof.
  intros [|m v ok t' d _ _ _ Ht _|m v ok t' cv t'' d _ _ _ Ht _ _ _ Ht'|m v ok t' cv m' res' ok' _ _ _ Ht _ _ _ _ _ _];
    repeat constructor; try apply Forall_app; repeat split; try (by eapply sent_alert_no_check).
  by repeat constructor.
Qed.

Lemma checked_records m res now :
  records m res now (with_Status m
    (checked_status (Status m) (status_word (Success res)) (last_notified (Status m)).1 (last_notified (Status m)).2 now (Generation m))).
Proof. split; try done. cbn. by destruct (last_notified (Status m)). Qed.

Lemma spec_report_saves r nn m d c res now ci :
  spec (report (W:=W) (D:=D) (N:=N) r nn m d c res now ci) (λ o t, ∃ m' ok t',
    t = AUpdate m' ok :: t' ∧ records m res now m' ∧ if ok : bool then True else t' = [] ∧ ∃ e, o = Failed e).
Proof.
  unfold report. pose proof (checked_records m res now) as Hr.
  destruct (last_notified (Status m)) as [notified since]. cbn [fst snd] in Hr.
  assert (nv_Status (notice_values nn m d res now) = status_word (Success res)) as -> by apply nv_Status_setStatusPeriod.
  step_act. destruct a as [m1|e].
  - intros w. eexists _, true, _. split; [reflexivity|]. by split.
  - apply spec_ret. eexists _, false, []. split; [done|]. split; [done|]. split; [done|by eexists].
Qed.

Lemma spec_run_check_saves r nn m now ci t :
  Forall no_check t → read m → clock now →
  spec (run_check (D:=D) (N:=N) (W:=W) r nn m now ci) (λ o t', check_saved read clock answered o (t ++ t')).
Proof.
  intros Ht Hm Hn. unfold run_check, cannotCheck, Event.
  assert (∀ o key note, check_saved read clock answered o (t ++ [AEvent (N:=N) key "CannotCheck" note])) as Hearly.
  { intros. apply unchecked. apply Forall_app. split; [done|]. by repeat constructor. }
  step_silent. destruct a as [d|e]; [|step_act; apply spec_ret; apply Hearly].
  destruct (NewNotifier _) as [c|e]; [|step_act; apply spec_ret; apply Hearly].
  eapply (spec_bind _ _ (λ res t, t = [ACheck res] ∧ answered res)).
  { intros w. unfold RunCheck. specialize (answers d w). by destruct (Check d w). }
  intros [res|e] ? [-> Ha]; [|apply spec_ret; rewrite app_nil_r; by apply check_error].
  eapply spec_mono; [apply spec_and; [apply spec_report|apply spec_report_saves]|].
  intros o t' [Hc%reported_no_check (m' & [] & t1 & -> & Hr & He)].
  - apply Forall_cons in Hc as [_ Hc]. by eapply saved_check.
  - destruct He as [-> [e ->]]. by eapply unsaved_check.
Qed.

Lemma spec_Reconcile_saves r nn :
  (∀ w m, (cl_Get nn w).1 = Ok m ∨ (cl_Read nn w).1 = Ok m → read m) → (∀ w : W, clock (cl_Now w).1) →
  spec (Reconcile (D:=D) (N:=N) (W:=W) r nn) (check_saved read clock answered).
Proof.
  intros Hread Hclock.
  assert (∀ w m, ((if has_APIReader r then cl_Read nn else cl_Get nn) w).1 = Ok m → read m) as Hread'.
  { intros w m. destruct (has_APIReader r); intros Hw; eapply Hread; [by right|by left]. }
  assert (∀ t : list (action N), Forall (λ a, match a with AStop _ => True | _ => False end) t → Forall no_check t) as Hs.
  { intros t Ht. eapply Forall_impl; [exact Ht|]. by intros []. }
  unfold Reconcile. eapply (spec_bind _ _ (λ got t, t = [] ∧ ∀ m, got = Ok m → read m)).
  { intros w. unfold Get, lift. pose proof (λ m Hw, Hread w m (or_introl Hw)) as Hm. by destruct (cl_Get nn w). }
  intros [m|e] ? [-> Hm].
  2:{ destruct (IsNotFound e); [|by apply spec_ret, unchecked].
      eapply spec_bind; [apply spec_Stop|]. intros ? t Ht. apply spec_ret. rewrite app_nil_r. by apply unchecked, Hs. }
  destruct (negb (valid_interval m)).
  { unfold cannotCheck, Event. step_act. apply spec_ret. apply unchecked. by repeat constructor. }
  eapply (spec_bind _ _ (λ now t, t = [] ∧ clock now)).
  { intros w. unfold Now, lift. specialize (Hclock w). by destruct (cl_Now w). }
  intros now ? [-> Hn]. destruct (notDue m now); [by apply spec_ret, unchecked|].
  eapply spec_bind; [apply spec_Stop|]. intros pending t Ht%Hs. destruct pending; [|by apply spec_run_check_saves; [|apply Hm|]].
  eapply (spec_bind _ _ (λ got t, t = [] ∧ ∀ m, got = Ok m → read m)).
  { intros w. unfold reader_Get, lift. specialize (Hread' w). by destruct ((if has_APIReader r then cl_Read nn else cl_Get nn) w). }
  intros [m'|e] ? [-> Hm']; [by apply spec_run_check_saves; [|apply Hm'|]|].
  apply spec_ret. rewrite app_nil_r. by apply unchecked.
Qed.
End saves.

Section reconcile_theorems.
Context {D N W : Type} `{!GoText, !Cluster W, !Notifying N W, !Driving D W, !Factory D N W}.

(** C3: the status is saved before anything is announced: in every run of
    Reconcile, each status or change alert is sent only after the API server
    has accepted the monitor's status with the value the alert reports; when
    that save fails, no alert is sent. *)
Theorem reconcile_saves_before_alerting (r : Reconciler) (nn : NamespacedName) (w : W) :
  saved_before None (Reconcile (D:=D) (N:=N) r nn w).2.
Proof.
  destruct (spec_Reconcile (D:=D) (N:=N) r nn w) as [res t Ht _|e t Ht|check status notified res t t' Ht Hr].
  - induction Ht as [|[] t Ha Ht IH]; done.
  - apply saved_before_quiet; [|done]. eapply Forall_impl; [exact Ht|]. by intros [].
  - apply saved_before_quiet.
    + eapply Forall_impl; [exact Ht|]. by intros [].
    + simpl. by eapply reported_saved_before.
Qed.

(** Reconcile never indexes a slice out of range, in any world. *)
Theorem reconcile_never_panics (r : Reconciler) (nn : NamespacedName) (w : W) :
  (Reconcile (D:=D) (N:=N) r nn w).1.1 ≠ Panic.
Proof.
  destruct (spec_Reconcile (D:=D) (N:=N) r nn w) as [res t _ ?|e t _|check status notified res t t' _ Hr];
    [done..|]. by destruct Hr.
Qed.

(** C19: a finished check whose status was saved sends the status alert
    exactly once, followed by the change alert exactly when the check's
    status differs from the one last announced; a check whose status was
    not saved sends nothing. *)
Theorem report_alerts_once (r : Reconciler) (nn : NamespacedName) (m : EndpointMonitor) (d : D)
    (c : CompositeNotifier N) (res : CheckResult) (now : time) (ci : duration) (w : W) :
  let status := status_word (Success res) in
  let t := (report r nn m d c res now ci w).2 in
  (saved t = [] → alert_names t = []) ∧
  (saved t ≠ [] → alert_names t =
     status :: (if decide (announced_of m = status) then [] else ["change"])).
Proof.
  intros status t. pose proof (spec_report r nn m d c res now ci w) as Hr. cbv beta in Hr.
  fold status (announced_of m) in Hr. fold t in Hr. clearbody t.
  destruct Hr as [|m1 v ok t' d' Hs Hn Hv Ht He|m1 v ok t' cv t'' d' Hs Hn Hv Ht He Hcv Hcl Ht'
         |m1 v ok t' cv m2 res' ok' Hs Hn Hv Ht He Hcv Hcl Hm' _ _]; [done|..];
    (split; [done|intros _]); destruct (sent_alert_views _ _ _ _ Ht) as (Ha & _);
    rewrite alert_names_AUpdate.
  - by rewrite Ha, decide_True.
  - rewrite alert_names_app, Ha, decide_False by done.
    destruct (sent_alert_views _ _ _ _ Ht') as (-> & _). done.
  - by rewrite alert_names_app, Ha, decide_False.
Qed.

(** C39: between two checks Reconcile does nothing but read: when the
    monitor's last check is less than its interval ago and its spec has not
    changed since, it returns the time left, which is positive and at most
    the interval, without checking, saving or alerting. *)
Theorem reconcile_waits_until_due (r : Reconciler) (nn : NamespacedName) (m : EndpointMonitor)
    (now : time) (w w1 w2 : W) :
  cl_Get nn w = (Ok m, w1) → cl_Now w1 = (now, w2) →
  valid_interval m = true → notDue m now = true → LastCheckedTime (Status m) ≤ now →
  Reconcile (D:=D) (N:=N) r nn w = (Done (Sub (nextCheckTime m) now), w2, []) ∧
  0 < Sub (nextCheckTime m) now ≤ spec_CheckInterval (Spec m) * Second.
Proof.
  intros Hg Hnow Hv Hd Hle. split.
  { unfold Reconcile, Get, Now, lift, mbind, M_bind. rewrite Hg, Hv. simpl.
    rewrite Hnow. simpl. by rewrite Hd. }
  unfold notDue, Before in Hd. zb. unfold nextCheckTime, Add, checkInterval_of, Sub in *.
  unfold valid_interval, MaxCheckInterval in Hv. zb.
  assert (is_int64 (spec_CheckInterval (Spec m) * Second)) as Hi.
  { unfold is_int64, Second. lia. }
  rewrite (wrap64_id _ Hi) in *. unfold is_int64, Second in *. lia.
Qed.
End reconcile_theorems.

(** ** Runs on the concrete cluster *)

Definition sim_since : time := of_Unix 1700000000.

(** A monitor that was seen working, and announced as such. *)
Definition sim_status : EndpointMonitorStatus :=
  {| LastCheckedTime := sim_since; LastStatus := "success"; LastStatusChange := sim_since;
     LastNotifiedStatus := Some "success"; LastNotifiedStatusChange := sim_since;
     ObservedGeneration := 1 |}.

Definition sim_values : NoticeValues :=
  notice_values (D:=string) (W:=sim) sim_key (sim_monitor sim_status) "db:5432"
    {| Success := false; ResponseTime := Second; res_Error := None; res_Message := "msg" |}
    (sim_since + 60 * Second).

Definition sim_failures : list (namedNotifier nat * error) :=
  [({| nn_name := "slack"; nn_Notifier := 0%nat |}, ERetryable (ENew "timeout"));
   ({| nn_name := "email"; nn_Notifier := 1%nat |}, ENew "refused")].

Lemma queueRetries_partition_witness :
  queueRetries sim_reconciler (sim_monitor sim_status) "failure" sim_values
    (AESend (send_error_of sim_failures)) None =
  Some (Some (AESend {| se_Notifiers := ["email"]; se_Errs := [ENew "refused"]; se_Failed := [] |}),
        [Build_RetryRun (sim_monitor sim_status) "slack" 0%nat "failure" sim_values None
           (ERetryable (ENew "timeout"))]).
Proof.
  exact (queueRetries_partition sim_reconciler 5 (sim_monitor sim_status) "failure" sim_values
    None sim_failures eq_refl ltac:(lia)).
Defined.

Lemma reconcile_waits_until_due_witness :
  let w := sim_world sim_status (sim_since + 20 * Second) [] [] in
  Reconcile (D:=string) (N:=()) sim_reconciler sim_key w = (Done (40 * Second), w, []) ∧
  0 < 40 * Second ≤ 60 * Second.
Proof.
  exact (reconcile_waits_until_due (D:=string) (N:=()) sim_reconciler sim_key
    (sim_monitor sim_status) (sim_since + 20 * Second)
    (sim_world sim_status (sim_since + 20 * Second) [] []) _ _
    eq_refl eq_refl eq_refl eq_refl ltac:(vm_compute; discriminate)).
Defined.

Lemma surjective_pairing_3 {A B C} (p : A * B * C) : p = (p.1.1, p.1.2, p.2).
Proof. by destruct p as [[??]?]. Qed.

(** The check at one minute fails and the one at two minutes succeeds. *)
Definition sim_report (success : bool) (s : EndpointMonitorStatus) (at_ : time) :=
  report (D:=string) (N:=()) (W:=sim) sim_reconciler sim_key (sim_monitor s) "db:5432"
    [{| nn_name := "webhook"; nn_Notifier := () |}]
    {| Success := success; ResponseTime := Second; res_Error := None; res_Message := "msg" |}
    at_ (60 * Second) (sim_world s at_ [] []).

Definition sim_status' : EndpointMonitorStatus :=
  match last (saved (sim_report false sim_status (sim_since + 60 * Second)).2) with
  | Some m => Status m
  | None => empty_Status
  end.

Lemma change_alerts_are_transitions_witness :
  [("success", "failure"); ("failure", "success")] =
  transitions "success" ["failure"; "success"].
Proof.
  apply (change_alerts_are_transitions (D:=string) (N:=()) (W:=sim)).
  assert (∀ success s at_ (r := sim_report success s at_) m' ss cs,
    forallb (λ a, match a with AUpdate _ ok => ok | _ => true end) r.2 = true →
    forallb (λ p, p.2) (change_alerts r.2) = true → last (saved r.2) = Some m' →
    history (D:=string) (N:=()) (W:=sim) (announced_of m') ss cs →
    history (D:=string) (N:=()) (W:=sim) (announced_of (sim_monitor s))
      (status_word success :: ss) ((change_alerts r.2).*1 ++ cs)) as Hcheck.
  { intros success s at_ r m' ss cs Hu Hc Hl Hh. subst r.
    unfold sim_report in *.
    eapply (hist_check (D:=string) (N:=()) (W:=sim)) with (res := {| Success := success;
      ResponseTime := Second; res_Error := None; res_Message := "msg" |});
      [apply surjective_pairing_3| | |exact Hl|exact Hh].
    - apply Forall_forall. intros a Ha u ->.
      rewrite forallb_forall in Hu. apply list_elem_of_In, Hu in Ha. done.
    - apply Forall_forall. intros p Hp. rewrite forallb_forall in Hc.
      by apply list_elem_of_In, Hc in Hp. }
  apply (Hcheck false sim_status (sim_since + 60 * Second) (sim_monitor sim_status')
    ["success"] [("failure", "success")]); [by vm_compute..|].
  apply (Hcheck true sim_status' (sim_since + 120 * Second)
    (default (sim_monitor sim_status) (last (saved (sim_report true sim_status' (sim_since + 120 * Second)).2))) [] []);
    [by vm_compute..|].
  apply hist_nil.
Defined.
