(* ===== verification/Keys.v ===== *)
(** * Valkey keys of the dashboard's data model

    The keys both the operator's valkey notifier and the dashboard use
    (dashboard/internal/keys/keys.go). *)

From S2P Require Import Prelude GoStd.

Definition Dashboards : string := "emo:dashboards".

Definition Services (dash : string) : string := "emo:" +:+ dash +:+ ":svcs".

Definition Meta_key (dash svc : string) : string := "emo:" +:+ dash +:+ ":" +:+ svc +:+ ":meta".

Definition StatusHour (dash svc : string) (hourEpoch : Z) : string :=
  "emo:" +:+ dash +:+ ":" +:+ svc +:+ ":s:" +:+ FormatInt hourEpoch.

Definition DetailHour (dash svc : string) (hourEpoch : Z) : string :=
  "emo:" +:+ dash +:+ ":" +:+ svc +:+ ":d:" +:+ FormatInt hourEpoch.

Definition RollupAggregateHour (dash svc : string) : string :=
  "emo:" +:+ dash +:+ ":" +:+ svc +:+ ":rollup:agg:hour".

Definition RollupDaily (dash svc : string) : string :=
  "emo:" +:+ dash +:+ ":" +:+ svc +:+ ":rollup:daily".

(** What a key is for. *)
Inductive purpose :=
| PDashboards
| PServices (dash : string)
| PMeta (dash svc : string)
| PStatus (dash svc : string) (hourEpoch : Z)
| PDetail (dash svc : string) (hourEpoch : Z)
| PHourly (dash svc : string)
| PDaily (dash svc : string).

Definition key_of (p : purpose) : string :=
  match p with
  | PDashboards => Dashboards
  | PServices dash => Services dash
  | PMeta dash svc => Meta_key dash svc
  | PStatus dash svc h => StatusHour dash svc h
  | PDetail dash svc h => DetailHour dash svc h
  | PHourly dash svc => RollupAggregateHour dash svc
  | PDaily dash svc => RollupDaily dash svc
  end.

(** Dashboard and service names without a colon, hours in range. *)
Definition plain (p : purpose) : Prop :=
  match p with
  | PDashboards => True
  | PServices dash => has_byte ":" dash = false
  | PMeta dash svc | PHourly dash svc | PDaily dash svc =>
      has_byte ":" dash = false ∧ has_byte ":" svc = false
  | PStatus dash svc h | PDetail dash svc h =>
      has_byte ":" dash = false ∧ has_byte ":" svc = false ∧ is_int64 h
  end.

(** The colon-separated parts of a key. *)
Definition parts_of (p : purpose) : list string :=
  "emo" :: match p with
           | PDashboards => ["dashboards"]
           | PServices dash => [dash; "svcs"]
           | PMeta dash svc => [dash; svc; "meta"]
           | PStatus dash svc h => [dash; svc; "s"; FormatInt h]
           | PDetail dash svc h => [dash; svc; "d"; FormatInt h]
           | PHourly dash svc => [dash; svc; "rollup"; "agg"; "hour"]
           | PDaily dash svc => [dash; svc; "rollup"; "daily"]
           end.

Lemma split_key p : plain p → split ":" (key_of p) = parts_of p.
Proof.
  assert (∀ h, has_byte ":" (FormatInt h) = false) as Hf.
  { intros h. by apply FormatInt_no_byte. }
  destruct p as [|dash|dash svc|dash svc h|dash svc h|dash svc|dash svc]; simpl;
    [done|intros Hd|intros [Hd Hs]..];
    repeat match goal with H : _ ∧ _ |- _ => destruct H end;
    unfold Services, Meta_key, StatusHour, DetailHour, RollupAggregateHour, RollupDaily; simpl;
    rewrite ?(split_cons ":") by done; try done.
  all: by simpl; rewrite (split_plain ":" (FormatInt h)).
Qed.

Lemma FormatInt_inj x y : is_int64 x → is_int64 y → FormatInt x = FormatInt y → x = y.
Proof.
  intros Hx Hy E. assert (ParseInt (FormatInt x) = ParseInt (FormatInt y)) as H by by rewrite E.
  rewrite !ParseInt_FormatInt in H by done. congruence.
Qed.

Lemma parts_inj p q : plain p → plain q → parts_of p = parts_of q → p = q.
Proof.
  destruct p, q; simpl; intros Hp Hq [=]; subst; try done;
    f_equal; apply FormatInt_inj; naive_solver.
Qed.

Lemma key_of_inj p q : plain p → plain q → key_of p = key_of q → p = q.
Proof. intros Hp Hq E. apply parts_inj; [done..|]. by rewrite <-!split_key, E. Qed.

(** keys never collide: for dashboard and service names without a colon,
    different data of the model - dashboards, services, metadata, an hour's
    statuses or details, hourly or daily rollups - live under different
    keys. *)
Theorem keys_never_collide (p q : purpose) :
  plain p → plain q → key_of p = key_of q → p = q.
Proof.
  intros Hp Hq E. apply parts_inj; [done..|].
  by rewrite <-!split_key, E.
Qed.

Lemma keys_never_collide_witness :
  plain (PStatus "prod" "api" 3600) ∧ plain (PStatus "prod" "api" 3600) ∧
  PStatus "prod" "api" 3600 = PStatus "prod" "api" 3600.
Proof.
  assert (plain (PStatus "prod" "api" 3600)) as H by (simpl; unfold is_int64; repeat split; lia).
  split; [exact H|split; [exact H|]].
  exact (keys_never_collide (PStatus "prod" "api" 3600) (PStatus "prod" "api" 3600) H H eq_refl).
Defined.
