(* ===== verification/Ladder.v ===== *)
(** * The status ladder

    How the dashboard condenses checks into statuses
    (dashboard/internal/status/ladder.go): a location's status for an hour
    from its counts, an hour's status from its locations, a day's status as
    the worst of its hours. *)

From S2P Require Import Prelude.

Inductive LocationStatus := LocationSuccess | LocationDegraded | LocationOutage.

#[export] Instance LocationStatus_eq_dec : EqDecision LocationStatus.
Proof. solve_decision. Defined.

Definition LocationStatus_string (s : LocationStatus) : string :=
  match s with
  | LocationSuccess => "success" | LocationDegraded => "degraded" | LocationOutage => "outage"
  end.

(** An [AggregateStatus] is also read back from stored rollups, so it is any
    string. *)
Definition AggregateUnknown : string := "unknown".
Definition AggregateOperational : string := "operational".
Definition AggregateDegraded : string := "degraded".
Definition AggregateMajorOutage : string := "major_outage".

Definition LocationFromCounts (successes failures : Z) : LocationStatus :=
  if failures =? 0 then LocationSuccess
  else if successes <? failures then LocationOutage
  else LocationDegraded.

Definition is_nonSuccess (s : LocationStatus) : bool := bool_decide (s ≠ LocationSuccess).
Definition is_outage (s : LocationStatus) : bool := bool_decide (s = LocationOutage).

Definition AggregateFromLocations (locStatuses : list LocationStatus) : string :=
  if len locStatuses =? 0 then AggregateUnknown
  else
    let nonSuccess := countb is_nonSuccess locStatuses in
    let outages := countb is_outage locStatuses in
    if (nonSuccess =? len locStatuses) && (0 <? outages) then AggregateMajorOutage
    else if (0 <? outages) || (1 <? nonSuccess) || (nonSuccess =? len locStatuses)
    then AggregateDegraded
    else AggregateOperational.

(** [rank[a]]: the zero of a missing key for any other string. *)
Definition rank (a : string) : Z :=
  if decide (a = AggregateOperational) then 1
  else if decide (a = AggregateDegraded) then 2
  else if decide (a = AggregateMajorOutage) then 3
  else 0.

Definition WorstAggregate (a b : string) : string := if rank b <=? rank a then a else b.

(** ** Properties *)

(** From better to worse. *)
Definition severity (s : LocationStatus) : Z :=
  match s with LocationSuccess => 0 | LocationDegraded => 1 | LocationOutage => 2 end.

Definition worse_or_equal (s s' : LocationStatus) : Prop := severity s ≤ severity s'.

#[export] Instance AggregateFromLocations_Permutation :
  Proper ((≡ₚ) ==> (=)) AggregateFromLocations.
Proof. intros l l' H. unfold AggregateFromLocations. by rewrite (len_Permutation _ _ H), !(countb_Permutation _ _ _ H). Qed.

Lemma countb_worse (p : LocationStatus → bool) l l' :
  (∀ s s', worse_or_equal s s' → p s = true → p s' = true) →
  Forall2 worse_or_equal l l' → countb p l ≤ countb p l'.
Proof.
  intros Hp. induction 1 as [|s s' l l' Hs Hl IH]; [done|].
  specialize (Hp s s' Hs). unfold countb in *. simpl.
  destruct (p s), (p s'); lia.
Qed.

Lemma nonSuccess_worse s s' : worse_or_equal s s' → is_nonSuccess s = true → is_nonSuccess s' = true.
Proof. unfold worse_or_equal. by destruct s, s'; simpl; try lia. Qed.

Lemma outage_worse s s' : worse_or_equal s s' → is_outage s = true → is_outage s' = true.
Proof. unfold worse_or_equal. by destruct s, s'; simpl; try lia. Qed.

Lemma rank_AggregateFromLocations l :
  rank (AggregateFromLocations l) =
  if len l =? 0 then 0
  else if (countb is_nonSuccess l =? len l) && (0 <? countb is_outage l) then 3
  else if (0 <? countb is_outage l) || (1 <? countb is_nonSuccess l) ||
          (countb is_nonSuccess l =? len l) then 2
  else 1.
Proof. unfold AggregateFromLocations. cbv zeta. by repeat case_match. Qed.

(** the aggregate status is monotone: when some locations of an hour get
    worse and none gets better, the hour's status does not get better. *)
Theorem aggregate_status_monotone (l l' : list LocationStatus) :
  Forall2 worse_or_equal l l' →
  rank (AggregateFromLocations l) ≤ rank (AggregateFromLocations l').
Proof.
  intros H.
  pose proof (countb_worse is_nonSuccess l l' nonSuccess_worse H).
  pose proof (countb_worse is_outage l l' outage_worse H).
  assert (len l = len l') as Hl by (unfold len; by rewrite (Forall2_length _ _ _ H)).
  pose proof (countb_le_len is_nonSuccess l'). pose proof (countb_le_len is_outage l').
  rewrite !rank_AggregateFromLocations, Hl.
  repeat case_match; zb; try lia;
    repeat match goal with
    | H : (_ && _)%bool = false |- _ => apply andb_false_iff in H as [H|H]
    | H : (_ || _)%bool = true |- _ => apply orb_true_iff in H as [H|H]
    end; zb; lia.
Qed.

Lemma aggregate_status_monotone_witness :
  rank (AggregateFromLocations [LocationSuccess; LocationDegraded]) ≤
  rank (AggregateFromLocations [LocationSuccess; LocationOutage]).
Proof.
  apply (aggregate_status_monotone [LocationSuccess; LocationDegraded] [LocationSuccess; LocationOutage]).
  repeat constructor; unfold worse_or_equal; simpl; lia.
Defined.

(** what the aggregate status says: unknown exactly when no location
    reported, major_outage exactly when every location had failures and at
    least one failed more often than not, operational exactly when at most
    one location, and not the only one, had failures and none was in outage;
    degraded is every other case. *)
Theorem aggregate_status_meaning (l : list LocationStatus) :
  let st := AggregateFromLocations l in
  (st = AggregateUnknown ↔ l = []) ∧
  (st = AggregateMajorOutage ↔ LocationOutage ∈ l ∧ LocationSuccess ∉ l) ∧
  (st = AggregateOperational ↔
     l ≠ [] ∧ LocationOutage ∉ l ∧ LocationSuccess ∈ l ∧ countb is_nonSuccess l ≤ 1).
Proof.
  intros st. subst st. unfold AggregateFromLocations.
  assert (0 < countb is_outage l ↔ LocationOutage ∈ l) as Ho.
  { rewrite countb_pos, Exists_exists. split; [intros (s & ? & Hs%bool_decide_eq_true); by subst|].
    intros Hl. exists LocationOutage. split; [done|by apply bool_decide_eq_true]. }
  assert (countb is_nonSuccess l = len l ↔ LocationSuccess ∉ l) as Hn.
  { rewrite countb_full, Forall_forall. split.
    - intros H Hl. by apply H in Hl.
    - intros H s Hs. unfold is_nonSuccess. apply bool_decide_eq_true. intros ->. done. }
  assert (len l = 0 ↔ l = []) as Hl by (unfold len; destruct l; simpl; split; [done..|lia|done]).
  pose proof (countb_nonneg is_outage l). pose proof (countb_le_len is_nonSuccess l).
  assert (LocationSuccess ∈ l ↔ countb is_nonSuccess l ≠ len l) as Hn'.
  { rewrite Hn. destruct (decide (LocationSuccess ∈ l)); naive_solver. }
  pose proof (countb_nonneg is_nonSuccess l). pose proof (countb_le_len is_outage l).
  rewrite <-!Ho, <-Hn, Hn', <-!Hl. clear Ho Hn Hl Hn'.
  cbv zeta. repeat case_match; zb;
    repeat match goal with
    | H : (_ && _)%bool = false |- _ => apply andb_false_iff in H as [H|H]
    | H : (_ || _)%bool = true |- _ => apply orb_true_iff in H as [H|H]
    end; zb; (split_and!; split; intros; try done; lia).
Qed.

Lemma rank_range a : 0 ≤ rank a ≤ 3.
Proof. unfold rank. repeat case_decide; lia. Qed.

Lemma rank_WorstAggregate a b : rank (WorstAggregate a b) = Z.max (rank a) (rank b).
Proof. unfold WorstAggregate. case_match; zb; lia. Qed.
