(* ===== verification/Rollups.v ===== *)
(** * Hourly rollups

    The data of an hour and the pure part of computing it
    (dashboard/internal/store/store.go): a location's samples condensed into
    counts, latencies and failure runs, and the locations condensed into an
    aggregate.  The iteration order of a Go map is arbitrary; here a map's
    entries come as a list, and the theorems hold for any order of it. *)

From S2P Require Import Prelude GoStd Ladder Float64.

Record FailureRun := {
  run_Start : Z; run_End : Z; run_Count : Z; run_Message : string;
  OpenStart : bool; OpenEnd : bool }.

Record LocationRollup := {
  lr_Total : Z; lr_Success : Z; lr_Failure : Z;
  lr_AvgMs : float64; lr_MinMs : float64; lr_MaxMs : float64;
  lr_Measured : Z; lr_Status : string; lr_Runs : list FailureRun }.

Record AggregateRollup := {
  agg_Status : string; agg_Success : Z; agg_Failure : Z; agg_AvgMs : float64;
  PerLocation : gmap string LocationRollup;
  Missing : list string; InProgress : bool }.

#[export] Instance FailureRun_eq_dec : EqDecision FailureRun.
Proof. solve_decision. Defined.
#[export] Instance LocationRollup_eq_dec : EqDecision LocationRollup.
Proof. solve_decision. Defined.
#[export] Instance AggregateRollup_eq_dec : EqDecision AggregateRollup.
Proof. solve_decision. Defined.

(** The zero values of the two structs. *)
Definition zero_LocationRollup : LocationRollup :=
  {| lr_Total := 0; lr_Success := 0; lr_Failure := 0; lr_AvgMs := fzero; lr_MinMs := fzero;
     lr_MaxMs := fzero; lr_Measured := 0; lr_Status := ""; lr_Runs := [] |}.

Definition zero_AggregateRollup : AggregateRollup :=
  {| agg_Status := ""; agg_Success := 0; agg_Failure := 0; agg_AvgMs := fzero;
     PerLocation := ∅; Missing := []; InProgress := false |}.

(** Every number of the rollup is finite: those encoding/json encodes. *)
Definition all_finite (a : AggregateRollup) : bool :=
  finite_float (agg_AvgMs a) &&
  forallb (λ p : string * LocationRollup,
    finite_float (lr_AvgMs p.2) && finite_float (lr_MinMs p.2) && finite_float (lr_MaxMs p.2))
    (map_to_list (PerLocation a)).

(** ** Samples *)

(** [splitDetail] splits at the first bar; [parseDetail] reads the
    milliseconds before it and the message after it. *)
Definition splitDetail (detail : string) : list string :=
  match cut "|" detail with
  | Some (a, b) => [a; b]
  | None => [detail]
  end.

Definition parseDetail (detail : string) : Z * string :=
  match splitDetail detail with
  | ms :: msg :: _ => ((ParseInt ms).1, msg)
  | [ms] => ((ParseInt ms).1, "")
  | [] => (0, "")
  end.

Record lsample := {
  s_ts : Z; s_fail : bool; s_ms : Z; s_msg : string; s_hasDetail : bool }.

#[export] Instance lsample_eq_dec : EqDecision lsample.
Proof. solve_decision. Defined.

Definition sample_of (detailMap : gmap string string) (entry : string * string) : option lsample :=
  let '(tss, st) := entry in
  match ParseInt tss with
  | (ts, None) =>
      let fail := bool_decide (st = "f") in
      Some (match detailMap !! tss with
            | Some d => {| s_ts := ts; s_fail := fail; s_ms := (parseDetail d).1;
                           s_msg := (parseDetail d).2; s_hasDetail := true |}
            | None => {| s_ts := ts; s_fail := fail; s_ms := 0; s_msg := ""; s_hasDetail := false |}
            end)
  | (_, Some _) => None
  end.

#[export] Instance sample_le_dec : RelDecision (by_key Z.le s_ts) := by_key_dec _ _.

(** The samples of an hour in the order of their times. *)
Definition samples_of (statusMap : list (string * string)) (detailMap : gmap string string)
  : list lsample :=
  merge_sort (by_key Z.le s_ts) (omap (sample_of detailMap) statusMap).

(** ** One pass over the samples *)

Record scan_state := {
  sc_successes : Z; sc_failures : Z; sc_totalMs : Z; sc_msSamples : Z;
  sc_minMs : Z; sc_maxMs : Z; sc_runs : list FailureRun;
  sc_curRun : option FailureRun (* None: not open *) }.

Definition scan_start : scan_state :=
  {| sc_successes := 0; sc_failures := 0; sc_totalMs := 0; sc_msSamples := 0;
     sc_minMs := 0; sc_maxMs := 0; sc_runs := []; sc_curRun := None |}.

Definition close_run (r : FailureRun) (openEnd : bool) : FailureRun :=
  {| run_Start := run_Start r; run_End := run_End r; run_Count := run_Count r;
     run_Message := run_Message r; OpenStart := OpenStart r; OpenEnd := openEnd |}.

Definition flush (openEnd : bool) (a : scan_state) : scan_state :=
  match sc_curRun a with
  | Some r =>
      {| sc_successes := sc_successes a; sc_failures := sc_failures a;
         sc_totalMs := sc_totalMs a; sc_msSamples := sc_msSamples a;
         sc_minMs := sc_minMs a; sc_maxMs := sc_maxMs a;
         sc_runs := sc_runs a ++ [close_run r openEnd]; sc_curRun := None |}
  | None => a
  end.

(** A successful check with a detail counts towards the latencies. *)
Definition measured (s : lsample) : bool := s_hasDetail s && negb (s_fail s).

Definition measure (s : lsample) (a : scan_state) : scan_state :=
  if measured s then
    {| sc_successes := sc_successes a; sc_failures := sc_failures a;
       sc_totalMs := wrap64 (sc_totalMs a + s_ms s);
       sc_msSamples := sc_msSamples a + 1;
       sc_minMs := if (sc_msSamples a =? 0) || (s_ms s <? sc_minMs a) then s_ms s else sc_minMs a;
       sc_maxMs := if sc_maxMs a <? s_ms s then s_ms s else sc_maxMs a;
       sc_runs := sc_runs a; sc_curRun := sc_curRun a |}
  else a.

Definition with_counts (a : scan_state) (successes failures : Z) (cur : option FailureRun)
  : scan_state :=
  {| sc_successes := successes; sc_failures := failures; sc_totalMs := sc_totalMs a;
     sc_msSamples := sc_msSamples a; sc_minMs := sc_minMs a; sc_maxMs := sc_maxMs a;
     sc_runs := sc_runs a; sc_curRun := cur |}.

Definition new_run (s : lsample) (first : bool) : FailureRun :=
  {| run_Start := s_ts s; run_End := s_ts s; run_Count := 1; run_Message := s_msg s;
     OpenStart := first; OpenEnd := false |}.

Definition extend_run (r : FailureRun) (s : lsample) : FailureRun :=
  {| run_Start := run_Start r; run_End := s_ts s; run_Count := run_Count r + 1;
     run_Message := run_Message r; OpenStart := OpenStart r; OpenEnd := OpenEnd r |}.

(** One iteration of the loop; [first] is [idx == 0]. *)
Definition scan_step (first : bool) (s : lsample) (a : scan_state) : scan_state :=
  let a := measure s a in
  if s_fail s then
    let failures := sc_failures a + 1 in
    match sc_curRun a with
    | Some r =>
        if decide (run_Message r = s_msg s)
        then with_counts a (sc_successes a) failures (Some (extend_run r s))
        else with_counts (flush false a) (sc_successes a) failures (Some (new_run s first))
    | None => with_counts a (sc_successes a) failures (Some (new_run s first))
    end
  else
    let a' := flush false a in
    with_counts a' (sc_successes a + 1) (sc_failures a) (sc_curRun a').

Fixpoint scan (first : bool) (l : list lsample) (a : scan_state) : scan_state :=
  match l with
  | [] => a
  | s :: l => scan false l (scan_step first s a)
  end.

(** The rollup of a location's samples in the order of their times. *)
Definition rollup_of_samples (l : list lsample) : LocationRollup :=
  let a := flush true (scan true l scan_start) in
  let has := 0 <? sc_msSamples a in
  {| lr_Total := sc_successes a + sc_failures a;
     lr_Success := sc_successes a; lr_Failure := sc_failures a;
     lr_AvgMs := if has then fdiv (float_of_int (sc_totalMs a)) (float_of_int (sc_msSamples a)) else fzero;
     lr_MinMs := if has then float_of_int (sc_minMs a) else fzero;
     lr_MaxMs := if has then float_of_int (sc_maxMs a) else fzero;
     lr_Measured := if has then sc_msSamples a else 0;
     lr_Status := LocationStatus_string (LocationFromCounts (sc_successes a) (sc_failures a));
     lr_Runs := sc_runs a |}.

(** ** Aggregates *)

Definition aggregateStatus (perLocation : gmap string LocationRollup) : string :=
  AggregateFromLocations
    ((λ p, LocationFromCounts (lr_Success p.2) (lr_Failure p.2)) <$> map_to_list perLocation).

#[export] Instance name_le_dec : RelDecision (by_key String.le (@fst string LocationRollup)) :=
  by_key_dec _ _.

(** The entries of the map in the order of their sorted names. *)
Definition sorted_locations (perLocation : gmap string LocationRollup)
  : list (string * LocationRollup) :=
  merge_sort (by_key String.le fst) (map_to_list perLocation).

Record agg_sums := { as_success : Z; as_failure : Z; as_totalMs : float64; as_msSamples : Z }.

Definition add_location (s : agg_sums) (p : string * LocationRollup) : agg_sums :=
  let lr := p.2 in
  {| as_success := wrap64 (as_success s + lr_Success lr);
     as_failure := wrap64 (as_failure s + lr_Failure lr);
     as_totalMs := if 0 <? lr_Measured lr
                   then fadd (as_totalMs s) (fmul (lr_AvgMs lr) (float_of_int (lr_Measured lr)))
                   else as_totalMs s;
     as_msSamples := if 0 <? lr_Measured lr
                     then wrap64 (as_msSamples s + lr_Measured lr) else as_msSamples s |}.

Definition aggregate (perLocation : gmap string LocationRollup) : AggregateRollup :=
  let s := foldl add_location {| as_success := 0; as_failure := 0; as_totalMs := fzero; as_msSamples := 0 |}
             (sorted_locations perLocation) in
  {| agg_Status := aggregateStatus perLocation;
     agg_Success := as_success s; agg_Failure := as_failure s;
     agg_AvgMs := if 0 <? as_msSamples s then fdiv (as_totalMs s) (float_of_int (as_msSamples s)) else fzero;
     PerLocation := perLocation; Missing := []; InProgress := false |}.

Definition with_Missing (a : AggregateRollup) (missing : list string) : AggregateRollup :=
  {| agg_Status := agg_Status a; agg_Success := agg_Success a; agg_Failure := agg_Failure a;
     agg_AvgMs := agg_AvgMs a; PerLocation := PerLocation a; Missing := missing;
     InProgress := InProgress a |}.

Definition with_InProgress (a : AggregateRollup) (b : bool) : AggregateRollup :=
  {| agg_Status := agg_Status a; agg_Success := agg_Success a; agg_Failure := agg_Failure a;
     agg_AvgMs := agg_AvgMs a; PerLocation := PerLocation a; Missing := Missing a;
     InProgress := b |}.

Definition with_agg_Status (a : AggregateRollup) (st : string) : AggregateRollup :=
  {| agg_Status := st; agg_Success := agg_Success a; agg_Failure := agg_Failure a;
     agg_AvgMs := agg_AvgMs a; PerLocation := PerLocation a; Missing := Missing a;
     InProgress := InProgress a |}.

(** [m[name].Total]: 0 for a missing location. *)
Definition total_at (m : gmap string LocationRollup) (loc : string) : Z :=
  lr_Total (default zero_LocationRollup (m !! loc)).

Definition keep_stored (fresh : gmap string LocationRollup) (p : string * LocationRollup)
  : gmap string LocationRollup :=
  if total_at fresh p.1 <? lr_Total p.2 then <[p.1 := p.2]> fresh else fresh.

Definition mergeStored (fresh stored : AggregateRollup) : AggregateRollup :=
  with_Missing
    (aggregate (foldl keep_stored (PerLocation fresh) (map_to_list (PerLocation stored))))
    (Missing fresh).
