(* ===== verification/RollupProps.v ===== *)
(** * Properties of hourly rollups *)

From S2P Require Import Prelude GoStd Ladder Float64 Rollups.

(** ** Failure runs: the reference definition

    The samples in the order of their times fall into blocks: a success is a
    block of its own, failures next to each other with the same message form
    one block.  The runs are the failing blocks. *)

Definition joins (s s' : lsample) : bool :=
  s_fail s && s_fail s' && bool_decide (s_msg s = s_msg s').

Fixpoint blocks (l : list lsample) : list (list lsample) :=
  match l with
  | [] => []
  | s :: l =>
      match blocks l with
      | (s' :: b) :: bs => if joins s s' then (s :: s' :: b) :: bs else [s] :: (s' :: b) :: bs
      | bs => [s] :: bs
      end
  end.

(** The run of a failing block; [first] and [last]: whether it is the
    hour's first and last block. *)
Definition run_of (b : list lsample) (first last_ : bool) : list FailureRun :=
  match b with
  | s :: _ =>
      if s_fail s then
        [{| run_Start := s_ts s; run_End := s_ts (default s (last b)); run_Count := len b;
            run_Message := s_msg s; OpenStart := first; OpenEnd := last_ |}]
      else []
  | [] => []
  end.

Fixpoint runs_of_blocks (first : bool) (bs : list (list lsample)) : list FailureRun :=
  match bs with
  | [] => []
  | b :: bs => run_of b first (is_nil bs) ++ runs_of_blocks false bs
  end.

(** The latencies of the measured samples. *)
Definition latencies (l : list lsample) : list Z := s_ms <$> List.filter measured l.

(** The reference: every field from the sample list as a whole. *)
Definition rollup_spec (l : list lsample) : LocationRollup :=
  let ms := latencies l in
  let succ := countb (λ s, negb (s_fail s)) l in
  let fail := countb s_fail l in
  {| lr_Total := len l; lr_Success := succ; lr_Failure := fail;
     lr_AvgMs := match ms with [] => fzero
                 | _ => fdiv (float_of_int (wrap64 (zsum ms))) (float_of_int (len ms)) end;
     lr_MinMs := match ms with [] => fzero | m :: ms => float_of_int (foldr Z.min m ms) end;
     lr_MaxMs := match ms with [] => fzero | ms => float_of_int (foldr Z.max 0 ms) end;
     lr_Measured := len ms;
     lr_Status := LocationStatus_string (LocationFromCounts succ fail);
     lr_Runs := runs_of_blocks true (blocks l) |}.

(** The blocks partition the samples, and are as long as they can be. *)
Lemma blocks_concat l : concat (blocks l) = l.
Proof.
  induction l as [|s l IH]; [done|]. simpl.
  destruct (blocks l) as [|[|s' b] bs]; [by simpl in *; f_equal..|].
  destruct (joins s s'); simpl in *; by f_equal.
Qed.

(** A nonempty chain of failures with one message. *)
Fixpoint chain (s : lsample) (b : list lsample) : Prop :=
  match b with
  | [] => True
  | s' :: b => joins s s' = true ∧ chain s' b
  end.

Lemma blocks_cons_chain s b l :
  chain s b →
  match l with [] => True | x :: _ => joins (default s (last b)) x = false end →
  blocks (s :: b ++ l) = (s :: b) :: blocks l.
Proof.
  revert s. induction b as [|s' b IH]; intros s Hc Hl.
  - simpl. destruct l as [|x l]; [done|]. simpl in Hl.
    assert (∃ b' bs, blocks (x :: l) = (x :: b') :: bs) as (b' & bs & ->).
    { simpl. destruct (blocks l) as [|[|x' b'] bs]; [by eauto..|]. destruct (joins x x'); eauto. }
    by rewrite Hl.
  - destruct Hc as [Hj Hc].
    assert (blocks (s' :: b ++ l) = (s' :: b) :: blocks l) as E.
    { apply IH; [done|]. destruct l as [|x l]; [done|]. destruct b; [done|].
      rewrite !last_cons in *. by destruct (last b). }
    change (blocks (s :: (s' :: b) ++ l)) with
      (match blocks (s' :: b ++ l) with
       | (s'0 :: b0) :: bs => if joins s s'0 then (s :: s'0 :: b0) :: bs else [s] :: (s'0 :: b0) :: bs
       | bs => [s] :: bs
       end).
    by rewrite E, Hj.
Qed.

(** ** The pass computes the reference *)

Section scan.
Implicit Types (a : scan_state) (l : list lsample).

Lemma scan_step_counts first s a :
  sc_successes (scan_step first s a) = sc_successes a + (if s_fail s then 0 else 1) ∧
  sc_failures (scan_step first s a) = sc_failures a + (if s_fail s then 1 else 0).
Proof.
  unfold scan_step, measure, flush. destruct (measured s), (s_fail s); simpl;
    repeat case_match; simpl; lia.
Qed.

Lemma scan_counts first l a :
  sc_successes (scan first l a) = sc_successes a + countb (λ s, negb (s_fail s)) l ∧
  sc_failures (scan first l a) = sc_failures a + countb s_fail l.
Proof.
  revert first a. induction l as [|s l IH]; intros first a; [unfold countb; simpl; lia|].
  simpl. destruct (IH false (scan_step first s a)) as [-> ->].
  destruct (scan_step_counts first s a) as [-> ->].
  rewrite !countb_cons. destruct (s_fail s); simpl; lia.
Qed.

(** The latency registers of one step are those of [measure]. *)
Definition registers a : Z * Z * Z * Z := (sc_totalMs a, sc_msSamples a, sc_minMs a, sc_maxMs a).

Lemma scan_step_registers first s a : registers (scan_step first s a) = registers (measure s a).
Proof.
  unfold scan_step, flush, registers. destruct (s_fail s); repeat case_match; done.
Qed.

Lemma flush_registers b a : registers (flush b a) = registers a.
Proof. unfold flush. by case_match. Qed.

Lemma latencies_cons s l :
  latencies (s :: l) = if measured s then s_ms s :: latencies l else latencies l.
Proof. unfold latencies. simpl. by destruct (measured s). Qed.

Definition min_ms (n m : Z) (ms : list Z) : Z :=
  if n =? 0 then match ms with [] => m | x :: ms => foldr Z.min x ms end else foldr Z.min m ms.

Lemma scan_registers first l a :
  0 ≤ sc_msSamples a → wrap64 (sc_totalMs a) = sc_totalMs a →
  registers (scan first l a) =
  (wrap64 (sc_totalMs a + zsum (latencies l)), sc_msSamples a + len (latencies l),
   min_ms (sc_msSamples a) (sc_minMs a) (latencies l), foldr Z.max (sc_maxMs a) (latencies l)).
Proof.
  revert first a. induction l as [|s l IH]; intros first a Hn Ht.
  { unfold latencies, len, min_ms, registers. simpl. rewrite !Z.add_0_r, Ht. by case_match. }
  simpl. assert (0 ≤ sc_msSamples (measure s a)) as Hn'.
  { unfold measure. destruct (measured s); simpl; lia. }
  assert (wrap64 (sc_totalMs (measure s a)) = sc_totalMs (measure s a)) as Ht'.
  { unfold measure. destruct (measured s); simpl; [|done]. apply wrap64_id, wrap64_range. }
  pose proof (scan_step_registers first s a) as Hr. injection Hr as Hr1 Hr2 Hr3 Hr4.
  rewrite IH; rewrite ?Hr1, ?Hr2, ?Hr3, ?Hr4; [|done..].
  clear Hr1 Hr2 Hr3 Hr4. rewrite latencies_cons. unfold measure in *. destruct (measured s) eqn:Em; simpl; [|done].
  f_equal; [f_equal; [f_equal|]|].
  - by rewrite wrap64_idemp_l, <-Z.add_assoc.
  - rewrite len_cons. lia.
  - unfold min_ms. rewrite (proj2 (Z.eqb_neq _ _)) by lia.
    destruct (sc_msSamples a =? 0) eqn:E0; simpl; [done|].
    rewrite <-foldr_min_seed. f_equal. destruct (s_ms s <? sc_minMs a) eqn:E; zb; lia.
  - rewrite <-foldr_max_seed. f_equal. destruct (sc_maxMs a <? s_ms s) eqn:E; zb; lia.
Qed.

(** The open run of a chain of failures that began at the first sample. *)
Definition open_run (first : bool) (s : lsample) (b : list lsample) : FailureRun :=
  {| run_Start := s_ts s; run_End := s_ts (default s (last b)); run_Count := len (s :: b);
     run_Message := s_msg s; OpenStart := first; OpenEnd := false |}.

Lemma sc_runs_measure s a : sc_runs (measure s a) = sc_runs a.
Proof. unfold measure. by destruct (measured s). Qed.

Lemma sc_curRun_measure s a : sc_curRun (measure s a) = sc_curRun a.
Proof. unfold measure. by destruct (measured s). Qed.

(** A step by the case it takes: success, a failure that joins the open run,
    or one that starts a run. *)
Lemma scan_step_success first s a :
  s_fail s = false →
  sc_runs (scan_step first s a) = sc_runs (flush false a) ∧ sc_curRun (scan_step first s a) = None.
Proof.
  intros Hs. unfold scan_step. rewrite Hs. unfold flush. simpl.
  rewrite sc_curRun_measure. destruct (sc_curRun a) eqn:E; simpl;
    rewrite ?sc_runs_measure, ?sc_curRun_measure; done.
Qed.

Lemma scan_step_join first s a r :
  s_fail s = true → sc_curRun a = Some r → run_Message r = s_msg s →
  sc_runs (scan_step first s a) = sc_runs a ∧ sc_curRun (scan_step first s a) = Some (extend_run r s).
Proof.
  intros Hs Hr Hm. unfold scan_step. rewrite Hs, sc_curRun_measure, Hr, decide_True by done.
  simpl. by rewrite sc_runs_measure.
Qed.

Lemma scan_step_start first s a :
  s_fail s = true →
  match sc_curRun a with Some r => run_Message r ≠ s_msg s | None => True end →
  sc_runs (scan_step first s a) = sc_runs (flush false a) ∧
  sc_curRun (scan_step first s a) = Some (new_run s first).
Proof.
  intros Hs Hr. unfold scan_step. rewrite Hs, sc_curRun_measure. unfold flush.
  destruct (sc_curRun a) as [r|] eqn:E; [rewrite decide_False by done|]; simpl;
    rewrite ?sc_curRun_measure, ?E; simpl; by rewrite sc_runs_measure.
Qed.
End scan.

Lemma run_of_open first last_ s b :
  s_fail s = true → run_of (s :: b) first last_ = [close_run (open_run first s b) last_].
Proof.
  intros Hs. unfold run_of, close_run, open_run. rewrite Hs, last_cons. by destruct (last b).
Qed.

Lemma chain_last s b :
  chain s b → s_fail s = true →
  s_fail (default s (last b)) = true ∧ s_msg (default s (last b)) = s_msg s.
Proof.
  revert s. induction b as [|s' b IH]; intros s Hc Hs; [done|].
  destruct Hc as [Hj Hc]. unfold joins in Hj. zb. rewrite bool_decide_eq_true in *.
  destruct (IH s' Hc) as [Hf Hm]; [done|].
  rewrite last_cons. destruct (last b); simpl in *; split; congruence.
Qed.

Lemma chain_snoc s b x : chain s (b ++ [x]) ↔ chain s b ∧ joins (default s (last b)) x = true.
Proof.
  revert s. induction b as [|s' b IH]; intros s; simpl; [naive_solver|].
  rewrite IH. change (match b with [] => _ | _ => _ end) with (last (s' :: b)).
  rewrite last_cons. by destruct (last b); naive_solver.
Qed.

Lemma extend_open_run first s b x :
  s_msg x = s_msg s → extend_run (open_run first s b) x = open_run first s (b ++ [x]).
Proof.
  intros Hx. unfold extend_run, open_run. simpl. rewrite last_snoc. simpl.
  unfold len. simpl. rewrite length_app. simpl. f_equal. lia.
Qed.

Lemma blocks_success s l : s_fail s = false → blocks (s :: l) = [s] :: blocks l.
Proof.
  intros Hs. simpl. destruct (blocks l) as [|[|s' b] bs]; [done..|].
  unfold joins. by rewrite Hs.
Qed.

Lemma blocks_nonnil s l : is_nil (blocks (s :: l)) = false.
Proof. simpl. destruct (blocks l) as [|[|s' b] bs]; [done..|]. by destruct (joins s s'). Qed.

Lemma runs_success first s l :
  s_fail s = false → runs_of_blocks first (blocks (s :: l)) = runs_of_blocks false (blocks l).
Proof. intros Hs. rewrite blocks_success by done. simpl. by rewrite Hs. Qed.

Lemma scan_runs l :
  (∀ first a, sc_curRun a = None →
     sc_runs (flush true (scan first l a)) = sc_runs a ++ runs_of_blocks first (blocks l)) ∧
  (∀ first s b a, sc_curRun a = Some (open_run first s b) → s_fail s = true → chain s b →
     sc_runs (flush true (scan false l a)) = sc_runs a ++ runs_of_blocks first (blocks (s :: b ++ l))).
Proof.
  induction l as [|x l [IHc IHo]]; split.
  - intros first a Ha. simpl. unfold flush. by rewrite Ha, app_nil_r.
  - intros first s b a Ha Hs Hc. rewrite blocks_cons_chain by done.
    change (runs_of_blocks first ((s :: b) :: blocks [])) with (run_of (s :: b) first true ++ []).
    unfold flush. simpl scan. rewrite Ha, run_of_open by done. done.
  - intros first a Ha. cbn [scan]. destruct (s_fail x) eqn:Hx.
    + destruct (scan_step_start first x a Hx) as [Hr Hcur]; [by rewrite Ha|].
      rewrite (IHo first x [] _ Hcur Hx I), Hr. unfold flush. by rewrite Ha.
    + destruct (scan_step_success first x a Hx) as [Hr Hcur].
      rewrite (IHc false _ Hcur), Hr. unfold flush. rewrite Ha.
      by rewrite (runs_success first).
  - intros first s b a Ha Hs Hc. cbn [scan].
    destruct (chain_last s b Hc Hs) as [Hlf Hlm].
    destruct (s_fail x) eqn:Hx; [destruct (decide (s_msg s = s_msg x)) as [Hm|Hm]|].
    + destruct (scan_step_join false x a _ Hx Ha Hm) as [Hr Hcur].
      rewrite extend_open_run in Hcur by done.
      rewrite (IHo first s (b ++ [x]) _ Hcur Hs), Hr, <-(assoc app); [done|].
      apply chain_snoc. split; [done|]. unfold joins. rewrite Hlf, Hx, Hlm. by apply bool_decide_eq_true.
    + destruct (scan_step_start false x a Hx) as [Hr Hcur]; [by rewrite Ha|].
      rewrite (IHo false x [] _ Hcur Hx I), Hr, (blocks_cons_chain s b (x :: l)); [|done|].
      2:{ unfold joins. rewrite Hlf, Hx, Hlm. by apply bool_decide_eq_false. }
      unfold flush. rewrite Ha. simpl sc_runs. cbn [app].
      change (runs_of_blocks first ((s :: b) :: blocks (x :: l))) with
        (run_of (s :: b) first (is_nil (blocks (x :: l))) ++ runs_of_blocks false (blocks (x :: l))).
      by rewrite blocks_nonnil, run_of_open, <-(assoc app).
    + destruct (scan_step_success false x a Hx) as [Hr Hcur].
      rewrite (IHc false _ Hcur), Hr, (blocks_cons_chain s b (x :: l)); [|done|].
      2:{ unfold joins. by rewrite Hx, andb_false_r. }
      unfold flush. rewrite Ha. simpl sc_runs.
      change (runs_of_blocks first ((s :: b) :: blocks (x :: l))) with
        (run_of (s :: b) first (is_nil (blocks (x :: l))) ++ runs_of_blocks false (blocks (x :: l))).
      by rewrite blocks_nonnil, run_of_open, <-(assoc app), (runs_success false).
Qed.

(** C7: the one pass over an hour's samples computes the reference: the
    counts, the average, minimum and maximum over the successful checks with a
    detail, and one failure run per maximal group of neighbouring failures
    with the same message, open at the start or the end exactly when the group
    holds the hour's first or last sample. *)
Theorem rollup_of_samples_spec (l : list lsample) : rollup_of_samples l = rollup_spec l.
Proof.
  unfold rollup_of_samples, rollup_spec.
  destruct (scan_counts true l scan_start) as [Hs Hf].
  pose proof (scan_registers true l scan_start ltac:(done) ltac:(done)) as Hr.
  pose proof (flush_registers true (scan true l scan_start)) as Hfr.
  rewrite Hr in Hfr. injection Hfr as H1 H2 H3 H4. clear Hr.
  pose proof (proj1 (scan_runs l) true scan_start eq_refl) as Hruns.
  assert (∀ a, sc_successes (flush true a) = sc_successes a ∧
               sc_failures (flush true a) = sc_failures a) as Hfl.
  { intros a. unfold flush. by case_match. }
  destruct (Hfl (scan true l scan_start)) as [-> ->].
  rewrite H1, H2, H3, H4, Hruns, Hs, Hf. simpl.
  pose proof (countb_negb s_fail l). unfold min_ms. simpl.
  destruct (latencies l) as [|m ms]; simpl;
    f_equal; try lia.
Qed.

(** ** The order of the entries *)

Lemma samples_of_Permutation l d : samples_of l d ≡ₚ omap (sample_of d) l.
Proof. apply merge_sort_Permutation. Qed.

(** an hour's rollup depends only on what the two hashes hold: however
    the map is iterated, and however an unstable sort orders it, the same
    entries with distinct times give the same rollup, over the same samples in
    the order of their times. *)
Theorem location_rollup_order_independent (l l' : list (string * string))
    (d : gmap string string) :
  l ≡ₚ l' → NoDup (s_ts <$> omap (sample_of d) l) →
  rollup_of_samples (samples_of l d) = rollup_of_samples (samples_of l' d) ∧
  StronglySorted Z.lt (s_ts <$> samples_of l d).
Proof.
  intros Hp Hnd. pose proof (merge_sort_sorted (by_key Z.le s_ts)) as Hs. split.
  - f_equal. apply (sorted_by_key_unique Z.le s_ts).
    + by rewrite samples_of_Permutation.
    + by rewrite !samples_of_Permutation, Hp.
    + apply Hs.
    + apply Hs.
  - assert (NoDup (s_ts <$> samples_of l d)) as Hnd' by by rewrite samples_of_Permutation.
    specialize (Hs (omap (sample_of d) l)). fold (samples_of l d) in Hs.
    induction Hs as [|s ss Hss IH Hle]; [constructor|].
    rewrite fmap_cons in *. apply NoDup_cons in Hnd' as [Hs Hnd']. constructor; [by apply IH|].
    apply Forall_fmap, Forall_forall. intros x Hx.
    rewrite Forall_forall in Hle. specialize (Hle x Hx). unfold by_key in Hle. simpl.
    assert (s_ts s ≠ s_ts x); [|lia].
    intros E. apply Hs. rewrite E. by apply list_elem_of_fmap_2.
Qed.

Lemma location_rollup_order_independent_witness :
  let l := [("100", "s"); ("160", "f")] in
  rollup_of_samples (samples_of l ∅) = rollup_of_samples (samples_of (reverse l) ∅) ∧
  StronglySorted Z.lt (s_ts <$> samples_of l ∅).
Proof.
  apply (location_rollup_order_independent [("100", "s"); ("160", "f")]
           (reverse [("100", "s"); ("160", "f")]) ∅).
  - by rewrite reverse_Permutation.
  - vm_compute. repeat constructor; set_solver.
Defined.

(** ** Aggregates *)

(** The sum of an integer field over the locations. *)
Definition sum_of (f : LocationRollup → Z) (m : gmap string LocationRollup) : Z :=
  zsum ((λ p, f p.2) <$> map_to_list m).

Lemma foldl_add_location l s :
  wrap64 (as_success s) = as_success s → wrap64 (as_failure s) = as_failure s →
  as_success (foldl add_location s l) = wrap64 (as_success s + zsum ((λ p, lr_Success p.2) <$> l)) ∧
  as_failure (foldl add_location s l) = wrap64 (as_failure s + zsum ((λ p, lr_Failure p.2) <$> l)).
Proof.
  revert s. induction l as [|p l IH]; intros s Hs Hf; [simpl; by rewrite !Z.add_0_r, Hs, Hf|].
  simpl. destruct (IH (add_location s p)) as [-> ->];
    [apply wrap64_id, wrap64_range..|]. simpl.
  by rewrite !wrap64_idemp_l, <-!Z.add_assoc.
Qed.

Lemma sorted_locations_Permutation m : sorted_locations m ≡ₚ map_to_list m.
Proof. apply merge_sort_Permutation. Qed.

Lemma aggregate_counts m :
  agg_Success (aggregate m) = wrap64 (sum_of lr_Success m) ∧
  agg_Failure (aggregate m) = wrap64 (sum_of lr_Failure m).
Proof.
  unfold aggregate, sum_of. simpl.
  destruct (foldl_add_location (sorted_locations m)
    {| as_success := 0; as_failure := 0; as_totalMs := fzero; as_msSamples := 0 |}) as [-> ->]; [done..|].
  by rewrite sorted_locations_Permutation.
Qed.

(** What the merge keeps for one location. *)
Definition pick (fresh stored : option LocationRollup) : option LocationRollup :=
  match stored with
  | Some lr => if lr_Total (default zero_LocationRollup fresh) <? lr_Total lr then Some lr else fresh
  | None => fresh
  end.

Lemma foldl_keep_stored l m loc :
  NoDup l.*1 →
  foldl keep_stored m l !! loc = pick (m !! loc) (list_to_map (M:=gmap string _) l !! loc).
Proof.
  revert m. induction l as [|[k lr] l IH]; intros m Hnd; [done|].
  apply NoDup_cons in Hnd as [Hk Hnd]. simpl. rewrite IH by done.
  unfold keep_stored, total_at. simpl.
  destruct (decide (loc = k)) as [->|Hne].
  - assert ((list_to_map l : gmap string LocationRollup) !! k = None) as ->.
    { by apply not_elem_of_list_to_map_1. }
    rewrite lookup_insert_eq. simpl. case_match; [by rewrite lookup_insert_eq|done].
  - rewrite lookup_insert_ne by done. f_equal.
    case_match; [by rewrite lookup_insert_ne|done].
Qed.

Lemma PerLocation_mergeStored fresh stored loc :
  PerLocation (mergeStored fresh stored) !! loc =
  pick (PerLocation fresh !! loc) (PerLocation stored !! loc).
Proof.
  unfold mergeStored, with_Missing. simpl. rewrite foldl_keep_stored.
  - by rewrite list_to_map_to_list.
  - apply NoDup_fst_map_to_list.
Qed.

(** merging a stored rollup into a fresh one keeps, for every location,
    the entry that counts more checks - the fresh one on a tie -, so no
    location ever counts fewer checks than either rollup says; the merged
    totals and status are those of the entries kept, and merging the result
    again changes nothing. *)
Theorem mergeStored_keeps_the_fuller (fresh stored : AggregateRollup) :
  let merged := mergeStored fresh stored in
  (∀ loc, PerLocation merged !! loc = pick (PerLocation fresh !! loc) (PerLocation stored !! loc)) ∧
  map_Forall (λ loc lr, lr_Total lr ≤ total_at (PerLocation merged) loc) (PerLocation stored) ∧
  (∀ loc, total_at (PerLocation fresh) loc ≤ total_at (PerLocation merged) loc) ∧
  agg_Success merged = wrap64 (sum_of lr_Success (PerLocation merged)) ∧
  agg_Failure merged = wrap64 (sum_of lr_Failure (PerLocation merged)) ∧
  agg_Status merged = aggregateStatus (PerLocation merged) ∧
  Missing merged = Missing fresh ∧
  mergeStored fresh merged = merged.
Proof.
  intros merged. pose proof (PerLocation_mergeStored fresh stored) as Hl. fold merged in Hl.
  split; [exact Hl|]. split_and!.
  - intros loc lr Hs. unfold total_at. rewrite Hl, Hs. simpl.
    destruct (_ <? _) eqn:E; simpl; zb; lia.
  - intros loc. unfold total_at. rewrite Hl. unfold pick. case_match; [|lia].
    destruct (_ <? _) eqn:E; simpl; zb; lia.
  - apply aggregate_counts.
  - apply aggregate_counts.
  - done.
  - done.
  - assert (PerLocation (mergeStored fresh merged) = PerLocation merged) as E.
    { apply map_eq. intros loc. rewrite PerLocation_mergeStored, Hl. unfold pick.
      destruct (PerLocation stored !! loc) as [lr|]; [|by destruct (PerLocation fresh !! loc);
        simpl; rewrite ?Z.ltb_irrefl].
      destruct (_ <? _) eqn:E; [by rewrite E|].
      by destruct (PerLocation fresh !! loc); simpl; rewrite ?Z.ltb_irrefl. }
    change (mergeStored fresh merged) with
      (with_Missing (aggregate (PerLocation (mergeStored fresh merged))) (Missing fresh)).
    by rewrite E.
Qed.
