(* ===== verification/Valkey.v ===== *)
(** * The dashboard's view of Valkey

    The dashboard reaches one Valkey server per location through a client
    library.  [Valkey] lists the commands it sends, each answered by the world
    as it likes; a computation records every command in order.  Stored
    structures are JSON texts: [Codec] is the encoding, of which the code only
    uses that it can fail either way. *)

From S2P Require Import Prelude GoStd GoTime Errors Trace.

(** One connected client: [*store.Client]. *)
Record Client := { cl_name : string; cl_id : nat }.

#[export] Instance Client_eq_dec : EqDecision Client.
Proof. solve_decision. Defined.

(** An answer that is not a value: the nil reply, or any other error. *)
Inductive verror := VNil | VErr (e : error).

Definition IsValkeyNil (e : verror) : bool := match e with VNil => true | VErr _ => false end.

Definition verror_error (e : verror) : error :=
  match e with VNil => ENew "valkey nil message" | VErr e => e end.

Class Valkey (W : Type) := {
  vk_Smembers : Client → string → W → result verror (list string) * W;
  vk_Hgetall : Client → string → W → result verror (gmap string string) * W;
  vk_Hkeys : Client → string → W → result verror (list string) * W;
  vk_Hget : Client → string → string → W → result verror string * W;
  vk_Hset : Client → string → string → string → W → option verror * W;
  vk_Hexpire : Client → string → Z → string → W → option verror * W;
  vk_Hdel : Client → string → string → W → option verror * W;
  vk_Persist : Client → string → W → option verror * W }.

(** The commands, as a server sees them. *)
Inductive command :=
| Read (c : Client) (key : string)                            (* SMEMBERS, HGETALL, HKEYS *)
| HGet (c : Client) (key field : string) (answer : result verror string)
| HSet (c : Client) (key field value : string) (ok : bool)
| HExpire (c : Client) (key : string) (seconds : Z) (field : string) (ok : bool)
| HDel (c : Client) (key field : string) (ok : bool)
| Persist (c : Client) (key : string) (ok : bool).

Class Codec (A : Type) := {
  marshal : A → option string;
  unmarshal : string → option A }.

Section commands.
Context {W : Type} `{!Valkey W}.

Notation V := (M command W).

Definition smembers (c : Client) (key : string) : V (result verror (list string)) :=
  λ w, let '(r, w) := vk_Smembers c key w in (r, w, [Read c key]).

Definition hgetall (c : Client) (key : string) : V (result verror (gmap string string)) :=
  λ w, let '(r, w) := vk_Hgetall c key w in (r, w, [Read c key]).

Definition hkeys (c : Client) (key : string) : V (result verror (list string)) :=
  λ w, let '(r, w) := vk_Hkeys c key w in (r, w, [Read c key]).

Definition hget (c : Client) (key field : string) : V (result verror string) :=
  λ w, let '(r, w) := vk_Hget c key field w in (r, w, [HGet c key field r]).

Definition hset (c : Client) (key field value : string) : V (option verror) :=
  λ w, let '(r, w) := vk_Hset c key field value w in (r, w, [HSet c key field value (is_None_b r)]).

Definition hexpire (c : Client) (key : string) (seconds : Z) (field : string) : V (option verror) :=
  λ w, let '(r, w) := vk_Hexpire c key seconds field w in
       (r, w, [HExpire c key seconds field (is_None_b r)]).

Definition hdel (c : Client) (key field : string) : V (option verror) :=
  λ w, let '(r, w) := vk_Hdel c key field w in (r, w, [HDel c key field (is_None_b r)]).

Definition persist (c : Client) (key : string) : V (option verror) :=
  λ w, let '(r, w) := vk_Persist c key w in (r, w, [Persist c key (is_None_b r)]).

Lemma spec_smembers c key : spec (smembers c key) (λ _ t, t = [Read c key]).
Proof. intros w. unfold smembers. by destruct (vk_Smembers c key w). Qed.

Lemma spec_hgetall c key : spec (hgetall c key) (λ _ t, t = [Read c key]).
Proof. intros w. unfold hgetall. by destruct (vk_Hgetall c key w). Qed.

Lemma spec_hkeys c key : spec (hkeys c key) (λ _ t, t = [Read c key]).
Proof. intros w. unfold hkeys. by destruct (vk_Hkeys c key w). Qed.

Lemma spec_hget c key field : spec (hget c key field) (λ r t, t = [HGet c key field r]).
Proof. intros w. unfold hget. by destruct (vk_Hget c key field w). Qed.

Lemma spec_hset c key field value :
  spec (hset c key field value) (λ r t, t = [HSet c key field value (is_None_b r)]).
Proof. intros w. unfold hset. by destruct (vk_Hset c key field value w). Qed.

Lemma spec_hexpire c key seconds field :
  spec (hexpire c key seconds field) (λ r t, t = [HExpire c key seconds field (is_None_b r)]).
Proof. intros w. unfold hexpire. by destruct (vk_Hexpire c key seconds field w). Qed.

Lemma spec_hdel c key field : spec (hdel c key field) (λ r t, t = [HDel c key field (is_None_b r)]).
Proof. intros w. unfold hdel. by destruct (vk_Hdel c key field w). Qed.

Lemma spec_persist c key : spec (persist c key) (λ r t, t = [Persist c key (is_None_b r)]).
Proof. intros w. unfold persist. by destruct (vk_Persist c key w). Qed.
End commands.

#[export] Hint Resolve spec_smembers spec_hgetall spec_hkeys spec_hget spec_hset spec_hexpire
  spec_hdel spec_persist : go.
