(* ===== verification/Store.v ===== *)
(** * The dashboard's store

    Reading samples and rollups from the locations and writing rollups to the
    primary (dashboard/internal/store/store.go). *)

From S2P Require Import Prelude GoStd GoTime Errors Trace Keys Ladder Float64 Rollups Valkey.

Record Meta := { m_Endpoint : string; m_Driver : string; m_Name : string }.

#[export] Instance Meta_eq_dec : EqDecision Meta.
Proof. solve_decision. Defined.

Definition zero_Meta : Meta := {| m_Endpoint := ""; m_Driver := ""; m_Name := "" |}.

Record Store := {
  locations : gmap string Client; primary : Client;
  retention : Z; retentionDays : Z }.

#[export] Instance string_le_dec : RelDecision String.le := _.

Definition sort_strings (l : list string) : list string := merge_sort String.le l.

(** [s.LocationNames()]; also [sortedKeys]. *)
Definition LocationNames (s : Store) : list string :=
  sort_strings ((map_to_list (locations s)).*1).

Definition dailyRetention : duration := 365 * 24 * Hour.

(** What [RollupHour] did: [HourRollup]. *)
Record HourRollup := { Written : bool; hr_Missing : gmap string verror }.

Definition zero_HourRollup : HourRollup := {| Written := false; hr_Missing := ∅ |}.

Record DailyRollup := { dr_Date : string; dr_Success : Z; dr_Failure : Z; dr_Total : Z }.

#[export] Instance DailyRollup_eq_dec : EqDecision DailyRollup.
Proof. solve_decision. Defined.

Definition zero_DailyRollup : DailyRollup :=
  {| dr_Date := ""; dr_Success := 0; dr_Failure := 0; dr_Total := 0 |}.

Definition at_location (name : string) (e : verror) : error :=
  EWrap ("location " +:+ name +:+ ": ") (verror_error e).

Section store.
Context {W : Type} `{!Valkey W, !Codec AggregateRollup, !Codec DailyRollup}.
Variable s : Store.

Notation V := (M command W).

(** ** Sets and metadata across the locations *)

(** The items of one location that no earlier one listed. *)
Fixpoint add_items (seen : gset string) (out items : list string) : gset string * list string :=
  match items with
  | [] => (seen, out)
  | item :: items =>
      if decide (item ∈ seen) then add_items seen out items
      else add_items ({[item]} ∪ seen) (out ++ [item]) items
  end.

Fixpoint union_loop (key : string) (names : list string) (seen : gset string)
    (out : list string) (errs : list error) : V (list string * list error) :=
  match names with
  | [] => mret (out, errs)
  | name :: names =>
      match locations s !! name with
      | Some c =>
          r ← smembers c key;
          match r with
          | Err e => union_loop key names seen out (errs ++ [at_location name e])
          | Ok items =>
              let '(seen, out) := add_items seen out items in
              union_loop key names seen out errs
          end
      | None => union_loop key names seen out errs   (* every name has a client *)
      end
  end.

Definition union (key : string) : V (result error (list string)) :=
  p ← union_loop key (LocationNames s) ∅ [] [];
  let '(out, errs) := p in
  if len errs =? Z.of_nat (size (locations s)) then
    mret (Err (EWrap ("reading " +:+ key +:+ ": ") (EJoin errs)))
  else mret (Ok out).

Definition ListDashboards : V (result error (list string)) := union Dashboards.

Definition ListServices (dash : string) : V (result error (list string)) := union (Services dash).

Definition field_of (m : gmap string string) (f : string) : string := default "" (m !! f).

Definition meta_of (m : gmap string string) : Meta :=
  {| m_Endpoint := field_of m "endpoint"; m_Driver := field_of m "driver";
     m_Name := field_of m "name" |}.

(** The primary and then the other locations by name. *)
Definition meta_order : list Client :=
  primary s ::
  omap (λ name, match locations s !! name with
                | Some c => if decide (c = primary s) then None else Some c
                | None => None
                end) (LocationNames s).

Fixpoint meta_loop (dash svc : string) (order : list Client) (errs : list error)
  : V (result error Meta) :=
  match order with
  | [] =>
      mret (Err match errs with
                | [] => ENew ("meta not found for " +:+ dash +:+ "/" +:+ svc)
                | _ => EWrap ("meta for " +:+ dash +:+ "/" +:+ svc +:+ ": ") (EJoin errs)
                end)
  | c :: order =>
      r ← hgetall c (Meta_key dash svc);
      match r with
      | Err e => meta_loop dash svc order (errs ++ [at_location (cl_name c) e])
      | Ok m =>
          if decide (field_of m "endpoint" = "" ∧ field_of m "driver" = "")
          then meta_loop dash svc order errs
          else mret (Ok (meta_of m))
      end
  end.

Definition GetMeta (dash svc : string) : V (result error Meta) :=
  meta_loop dash svc meta_order [].

(** ** Computing an hour *)

Definition ComputeLocationRollup (locName dash svc : string) (hour : time)
  : V (result verror LocationRollup) :=
  match locations s !! locName with
  | None => mret (Err (VErr (ENew ("unknown location " +:+ locName))))
  | Some c =>
      st ← hgetall c (StatusHour dash svc (Unix hour));
      match st with
      | Err e => mret (Err e)
      | Ok statusMap =>
          d ← hgetall c (DetailHour dash svc (Unix hour));
          match d with
          | Err e => mret (Err e)
          | Ok detailMap =>
              if decide (statusMap = ∅) then mret (Ok zero_LocationRollup)
              else mret (Ok (rollup_of_samples (samples_of (map_to_list statusMap) detailMap)))
          end
      end
  end.

Fixpoint compute_loop (dash svc : string) (hour : time) (names : list string)
    (perLocation : gmap string LocationRollup) (missing : list string)
    (failed : gmap string verror)
  : V (gmap string LocationRollup * list string * gmap string verror) :=
  match names with
  | [] => mret (perLocation, missing, failed)
  | loc :: names =>
      r ← ComputeLocationRollup loc dash svc hour;
      match r with
      | Err e => compute_loop dash svc hour names perLocation (missing ++ [loc]) (<[loc := e]> failed)
      | Ok lr =>
          compute_loop dash svc hour names
            (if 0 <? lr_Total lr then <[loc := lr]> perLocation else perLocation) missing failed
      end
  end.

Definition computeAggregate (dash svc : string) (hour : time)
  : V (AggregateRollup * gmap string verror) :=
  r ← compute_loop dash svc hour (LocationNames s) ∅ [] ∅;
  let '(perLocation, missing, failed) := r in
  mret (with_Missing (aggregate perLocation) missing, failed).

(** [liveHour]: [None] when no location has data for the hour. *)
Definition liveHour (dash svc : string) (hour : time) (stored : AggregateRollup)
  : V (option AggregateRollup) :=
  r ← computeAggregate dash svc hour;
  let merged := mergeStored r.1 stored in
  mret (if decide (PerLocation merged = ∅) then None else Some merged).

(** ** Writing *)

(** [int64(at.Sub(now) / time.Second)] *)
Definition seconds_until (at_ now : time) : Z := Z.quot (Sub at_ now) Second.

Definition writeExpiring (key field value : string) (expiresAt now : time)
  : V (bool * option verror) :=
  let ttl := seconds_until expiresAt now in
  if ttl <=? 0 then mret (false, None)
  else
    let c := primary s in
    (* DoMulti sends both before it looks at either answer *)
    r1 ← hset c key field value;
    r2 ← hexpire c key ttl field;
    match r1, r2 with
    | Some e, _ | None, Some e => mret (false, Some e)
    | None, None => r3 ← persist c key; mret (true, r3)
    end.

Definition hour_expiry (hour : time) : time := Add hour (wrap64 (retention s * Second)).

(** The stored rollup of the hour, as [RollupHour] reads it. *)
Definition read_stored (answer : result verror string) : result verror AggregateRollup :=
  match answer with
  | Ok text => Ok (default zero_AggregateRollup (unmarshal text))
  | Err VNil => Ok zero_AggregateRollup
  | Err e => Err e
  end.

(** A stored hour that only marks locations that could not be read. *)
Definition placeholder (old : AggregateRollup) : bool :=
  negb (is_nil (Missing old)) && bool_decide (PerLocation old = ∅).

Inductive hour_step :=
| HourDelete                          (* the marker has served its purpose *)
| HourSkip                            (* nothing to store *)
| HourStore (rollup : AggregateRollup).

Definition plan_hour (rollup old : AggregateRollup) (inProgress mark : bool) : hour_step :=
  if decide (PerLocation rollup = ∅) then
    if placeholder old && is_nil (Missing rollup) then HourDelete
    else if is_nil (Missing rollup) || inProgress || negb mark ||
            (placeholder old && bool_decide (Missing old = Missing rollup))
    then HourSkip
    else HourStore (with_InProgress rollup inProgress)
  else HourStore (with_InProgress rollup inProgress).

Definition RollupHour (dash svc : string) (hour now : time) (mark : bool)
  : V (HourRollup * option verror) :=
  let expiresAt := hour_expiry hour in
  if negb (After expiresAt now) then mret (zero_HourRollup, None)
  else
    computed ← computeAggregate dash svc hour;
    let '(agg, failed) := computed in
    let res := {| Written := false; hr_Missing := failed |} in
    let key := RollupAggregateHour dash svc in
    let field := FormatInt (Unix hour) in
    let c := primary s in
    answer ← hget c key field;
    match read_stored answer with
    | Err e => mret (res, Some e)
    | Ok old =>
        match plan_hour (mergeStored agg old) old (Before now (Add hour Hour)) mark with
        | HourDelete => err ← hdel c key field; mret (res, err)
        | HourSkip => mret (res, None)
        | HourStore rollup =>
            match marshal rollup with
            | None => mret (res, Some (VErr (ENew "json: unsupported value")))
            | Some data =>
                written ← writeExpiring key field data expiresAt now;
                mret ({| Written := written.1; hr_Missing := failed |}, written.2)
            end
        end
    end.

(** ** Expiry of stored fields *)

(** When an hourly field, and a daily field, expires; [None]: left alone. *)
Definition hourly_expiry (field : string) : option time :=
  match ParseInt field with
  | (epoch, None) => Some (hour_expiry (of_Unix epoch))
  | (_, Some _) => None
  end.

Definition daily_expiry (field : string) : option time :=
  (λ day, Add day dailyRetention) <$> ParseDate field.

(** One pipelined command per field whose expiry is known; the first error. *)
Fixpoint expire_each (key : string) (now : time) (expiry : string → option time)
    (fields : list string) : V (Z * option verror) :=
  match fields with
  | [] => mret (0, None)
  | field :: fields =>
      match expiry field with
      | None => expire_each key now expiry fields
      | Some at_ =>
          let ttl := seconds_until at_ now in
          r ← (if 0 <? ttl then hexpire (primary s) key ttl field else hdel (primary s) key field);
          rest ← expire_each key now expiry fields;
          mret (1 + rest.1, match r with Some e => Some e | None => rest.2 end)
      end
  end.

Definition expireFields (key : string) (now : time) (expiry : string → option time)
  : V (option verror) :=
  r ← hkeys (primary s) key;
  match r with
  | Err e => mret (Some e)
  | Ok fields =>
      out ← expire_each key now expiry fields;
      if out.1 =? 0 then mret None
      else match out.2 with
           | Some e => mret (Some e)
           | None => persist (primary s) key
           end
  end.

Definition ExpireRollupFields (dash svc : string) (now : time) : V (option verror) :=
  r ← expireFields (RollupAggregateHour dash svc) now hourly_expiry;
  match r with
  | Some e => mret (Some e)
  | None => expireFields (RollupDaily dash svc) now daily_expiry
  end.

(** ** Reading rollups back *)

(** One field of the hourly hash, kept when it is an hour in the range with a
    readable rollup; its status is recomputed by the current rules. *)
Definition read_hour (from to : time) (entry : string * string) : option (Z * AggregateRollup) :=
  let '(field, val) := entry in
  match ParseInt field with
  | (_, Some _) => None
  | (hourEpoch, None) =>
      let t := of_Unix hourEpoch in
      if Before t from || After t to then None
      else
        rollup ← unmarshal val;
        Some (hourEpoch,
              if decide (PerLocation rollup = ∅) then rollup
              else with_agg_Status rollup (aggregateStatus (PerLocation rollup)))
  end.

Definition GetAggregateRollups (dash svc : string) (from to : time)
  : V (result verror (gmap Z AggregateRollup)) :=
  r ← hgetall (primary s) (RollupAggregateHour dash svc);
  mret (all ← r; mret (list_to_map (omap (read_hour from to) (map_to_list all)))).

Definition read_day (from to : time) (entry : string * string) : option (string * DailyRollup) :=
  let '(field, val) := entry in
  t ← ParseDate field;
  if Before t (Truncate from (24 * Hour)) || After t (Truncate to (24 * Hour)) then None
  else
    dr ← unmarshal val;
    Some (field, dr).

Definition GetDailyRollups (dash svc : string) (from to : time)
  : V (result verror (gmap string DailyRollup)) :=
  r ← hgetall (primary s) (RollupDaily dash svc);
  mret (all ← r; mret (list_to_map (omap (read_day from to) (map_to_list all)))).

(** ** Daily rollups *)

Definition WriteDailyRollup (dash svc : string) (day : time) (dr : DailyRollup) (now : time)
  : V (option verror) :=
  match marshal dr with
  | None => mret (Some (VErr (ENew "json: unsupported value")))
  | Some data =>
      r ← writeExpiring (RollupDaily dash svc) (FormatDate day) data (Add day dailyRetention) now;
      mret r.2
  end.

Definition add_hour (byDay : gmap string DailyRollup) (p : Z * AggregateRollup)
  : gmap string DailyRollup :=
  let day := FormatDate (of_Unix p.1) in
  let dr := default zero_DailyRollup (byDay !! day) in
  let success := wrap64 (dr_Success dr + agg_Success p.2) in
  let failure := wrap64 (dr_Failure dr + agg_Failure p.2) in
  <[day := {| dr_Date := day; dr_Success := success; dr_Failure := failure;
              dr_Total := wrap64 (success + failure) |}]> byDay.

Definition computeDailyFromHours (rollups : gmap Z AggregateRollup) : gmap string DailyRollup :=
  foldl add_hour ∅ (map_to_list rollups).

Definition UpdateDailyRollup (dash svc : string) (day now : time) : V (bool * option verror) :=
  let from := Truncate day (24 * Hour) in
  let to := Add from (24 * Hour - Second) in
  r ← GetAggregateRollups dash svc from to;
  match r with
  | Err e => mret (false, Some e)
  | Ok hours =>
      match computeDailyFromHours hours !! FormatDate from with
      | Some dr =>
          if 0 <? dr_Total dr then
            err ← WriteDailyRollup dash svc from dr now;
            mret (is_None_b err, err)
          else mret (false, None)
      | None => mret (false, None)
      end
  end.
End store.

(** ** History *)

Record History_ := { Hours : gmap Z AggregateRollup; Days : gmap string DailyRollup }.

Definition History {W} `{!Valkey W, !Codec AggregateRollup, !Codec DailyRollup} (s : Store)
    (dash svc : string) (now : time) : M command W (result verror History_) :=
  let from := Truncate (AddDays now (- retentionDays s)) (24 * Hour) in
  r ← GetAggregateRollups s dash svc from now;
  match r with
  | Err e => mret (Err e)
  | Ok hours =>
      let cur := Truncate now Hour in
      live ← liveHour s dash svc cur (default zero_AggregateRollup (hours !! Unix cur));
      let hours := match live with Some agg => <[Unix cur := agg]> hours | None => hours end in
      d ← GetDailyRollups s dash svc (AddDays now (- 365)) now;
      mret (days ← d; mret {| Hours := hours; Days := days |})
  end.
