(* ===== verification/StoreProps.v ===== *)
(** * Properties of the store

    Whatever the Valkey servers answer: what a computation may write, in which
    order, and what the written values keep. *)

From S2P Require Import Prelude GoStd GoTime Errors Trace Keys Ladder Float64 Rollups RollupProps.
From S2P Require Import Valkey Store.

(** ** Reading *)

(** Reads of samples, sets and whole hashes. *)
Definition reads (t : list command) : Prop :=
  Forall (λ a, match a with Read _ _ => True | _ => False end) t.

Lemma reads_app t t' : reads t → reads t' → reads (t ++ t').
Proof. intros. by apply Forall_app. Qed.

Lemma reads_nil : reads [].
Proof. constructor. Qed.

Lemma reads_one c key : reads [Read c key].
Proof. by repeat constructor. Qed.

#[export] Hint Resolve reads_app reads_nil reads_one : go.

Section reading.
Context {W : Type} `{!Valkey W, !Codec AggregateRollup, !Codec DailyRollup}.
Variable s : Store.

Lemma spec_ComputeLocationRollup loc dash svc hour :
  spec (ComputeLocationRollup (W:=W) s loc dash svc hour) (λ _ t, reads t).
Proof.
  unfold ComputeLocationRollup. destruct (locations s !! loc); [|apply spec_ret; auto with go].
  step_act. destruct a; [|apply spec_ret; auto with go].
  step_act. destruct a0; [|apply spec_ret; auto with go].
  case_decide; apply spec_ret; rewrite ?app_nil_r; auto with go.
Qed.

Lemma spec_compute_loop dash svc hour names per missing failed :
  spec (compute_loop (W:=W) s dash svc hour names per missing failed) (λ _ t, reads t).
Proof.
  revert per missing failed. induction names as [|loc names IH]; intros; simpl.
  { apply spec_ret; auto with go. }
  eapply spec_bind; [apply spec_ComputeLocationRollup|]. intros r t Ht.
  destruct r; (eapply spec_mono; [apply IH|]; intros; by apply reads_app).
Qed.

Lemma spec_computeAggregate dash svc hour :
  spec (computeAggregate (W:=W) s dash svc hour) (λ _ t, reads t).
Proof.
  unfold computeAggregate. eapply spec_bind; [apply spec_compute_loop|].
  intros [[per missing] failed] t Ht. apply spec_ret. by rewrite app_nil_r.
Qed.

(** ** Writing one expiring field *)

(** The commands of one write: the field and its own TTL, both sent before
    either answer is looked at; the key-wide TTL is removed only when both
    succeeded. *)
Inductive expiring (c : Client) (key field value : string) (ttl : Z) : bool → list command → Prop :=
| expiring_done ok :
    expiring c key field value ttl true
      [HSet c key field value true; HExpire c key ttl field true; Persist c key ok]
| expiring_failed ok1 ok2 :
    ok1 && ok2 = false →
    expiring c key field value ttl false
      [HSet c key field value ok1; HExpire c key ttl field ok2].

Lemma spec_writeExpiring key field value expiresAt now :
  spec (writeExpiring (W:=W) s key field value expiresAt now)
    (λ r t, let ttl := seconds_until expiresAt now in
            if ttl <=? 0 then t = [] ∧ r = (false, None)
            else expiring (primary s) key field value ttl r.1 t ∧ (r.2 = None → r.1 = true)).
Proof.
  unfold writeExpiring. destruct (_ <=? 0); [by apply spec_ret|].
  step_act. step_act. destruct a as [e|], a0 as [e0|]; simpl.
  1-3: apply spec_ret; split; [by constructor|done].
  step_act. apply spec_ret. split; [constructor|done].
Qed.

(** ** Rolling up one hour *)

(** The commands of [RollupHour]: nothing for an expired hour; otherwise the
    reads of the samples, the read of the stored rollup, and then what
    [plan_hour] says. *)
Inductive hour_commands (c : Client) (key field : string) (ttl : Z) (now_in_hour mark : bool)
  : list command → Prop :=
| hour_expired : hour_commands c key field ttl now_in_hour mark []
| hour_unreadable t answer e :
    reads t → read_stored answer = Err e →
    hour_commands c key field ttl now_in_hour mark (t ++ [HGet c key field answer])
| hour_nothing t answer :
    reads t → hour_commands c key field ttl now_in_hour mark (t ++ [HGet c key field answer])
| hour_deleted t answer old agg ok :
    reads t → read_stored answer = Ok old →
    plan_hour (mergeStored agg old) old now_in_hour mark = HourDelete →
    hour_commands c key field ttl now_in_hour mark (t ++ [HGet c key field answer; HDel c key field ok])
| hour_written t answer old agg rollup data written t' :
    reads t → read_stored answer = Ok old →
    plan_hour (mergeStored agg old) old now_in_hour mark = HourStore rollup →
    marshal rollup = Some data → 0 < ttl → expiring c key field data ttl written t' →
    hour_commands c key field ttl now_in_hour mark (t ++ HGet c key field answer :: t').

Lemma spec_RollupHour dash svc hour now mark :
  spec (RollupHour (W:=W) s dash svc hour now mark)
    (λ _ t, hour_commands (primary s) (RollupAggregateHour dash svc) (FormatInt (Unix hour))
              (seconds_until (hour_expiry s hour) now) (Before now (Add hour Hour)) mark t).
Proof.
  unfold RollupHour. destruct (negb _); [apply spec_ret; constructor|].
  eapply spec_bind; [apply spec_computeAggregate|]. intros [agg failed] t Ht.
  step_act. destruct (read_stored a) as [old|e] eqn:Ha.
  2:{ apply spec_ret. rewrite ?app_nil_r. by eapply hour_unreadable. }
  destruct (plan_hour _ _ _ _) as [| |rollup] eqn:Hp.
  - step_act. apply spec_ret. by eapply hour_deleted.
  - apply spec_ret. rewrite ?app_nil_r. by apply hour_nothing.
  - destruct (marshal rollup) as [data|] eqn:Hm.
    2:{ apply spec_ret. rewrite ?app_nil_r. by apply hour_nothing. }
    eapply spec_bind; [apply spec_writeExpiring|]. intros r t' Hw. simpl in Hw.
    apply spec_ret. rewrite ?app_nil_r.
    destruct (_ <=? 0) eqn:E; zb; [|destruct Hw; by eapply hour_written].
    destruct Hw as [-> ->]. rewrite ?app_nil_r. by apply hour_nothing.
Qed.
End reading.

Lemma plan_hour_delete rollup old now_in_hour mark :
  plan_hour rollup old now_in_hour mark = HourDelete → PerLocation old = ∅.
Proof.
  unfold plan_hour, placeholder. case_decide; [|done].
  destruct (negb (is_nil (Missing old))); simpl; [|by repeat case_match].
  destruct (bool_decide_reflect (PerLocation old = ∅)); [done|]. by repeat case_match.
Qed.

Lemma plan_hour_store rollup old now_in_hour mark r :
  plan_hour rollup old now_in_hour mark = HourStore r → r = with_InProgress rollup now_in_hour.
Proof. unfold plan_hour. repeat case_match; congruence. Qed.

(** No count of one field is lost: [keeps c key field read t] says of the
    commands [t] that they change only this field of this hash of this client,
    and change it only once they have read it - [read] is what the last read
    found - to a rollup that counts for every location at least as many checks
    as the one read, or to nothing when the one read had no location. *)
Fixpoint keeps `{!Codec AggregateRollup} (c : Client) (key field : string)
    (read : option (result verror AggregateRollup)) (t : list command) : Prop :=
  match t with
  | [] => True
  | Read _ _ :: t => keeps c key field read t
  | HGet c' key' field' answer :: t =>
      keeps c key field (if decide (c' = c ∧ key' = key ∧ field' = field) then Some (read_stored answer) else read) t
  | HSet c' key' field' value _ :: t =>
      c' = c ∧ key' = key ∧ field' = field ∧
      (∃ old rollup, read = Some (Ok old) ∧ marshal rollup = Some value ∧
         map_Forall (λ loc lr, lr_Total lr ≤ total_at (PerLocation rollup) loc) (PerLocation old)) ∧
      keeps c key field read t
  | HDel c' key' field' _ :: t =>
      c' = c ∧ key' = key ∧ field' = field ∧ (∃ old, read = Some (Ok old) ∧ PerLocation old = ∅) ∧ keeps c key field read t
  | HExpire c' key' ttl field' _ :: t => c' = c ∧ key' = key ∧ field' = field ∧ 0 < ttl ∧ keeps c key field read t
  | Persist c' key' _ :: t => c' = c ∧ key' = key ∧ keeps c key field read t
  end.

Lemma keeps_reads `{!Codec AggregateRollup} c key field read t t' :
  reads t → keeps c key field read (t ++ t') ↔ keeps c key field read t'.
Proof. by induction 1 as [|[] t Ha Ht IH]. Qed.

Lemma keeps_get `{!Codec AggregateRollup} c key field read t answer t' :
  reads t → keeps c key field (Some (read_stored answer)) t' → keeps c key field read (t ++ HGet c key field answer :: t').
Proof. intros Ht H. apply keeps_reads; [done|]. simpl. by rewrite decide_True. Qed.

Lemma keeps_expiring `{!Codec AggregateRollup} c key field value ttl written t old rollup :
  expiring c key field value ttl written t → 0 < ttl → marshal rollup = Some value →
  map_Forall (λ loc lr, lr_Total lr ≤ total_at (PerLocation rollup) loc) (PerLocation old) →
  keeps c key field (Some (Ok old)) t.
Proof. intros [] **; simpl; split_and!; eauto. Qed.

Lemma mergeStored_total fresh stored :
  map_Forall (λ loc lr, lr_Total lr ≤ total_at (PerLocation (mergeStored fresh stored)) loc)
    (PerLocation stored).
Proof.
  intros loc lr Hs. unfold total_at. rewrite PerLocation_mergeStored, Hs. simpl.
  destruct (_ <? _) eqn:E; simpl; zb; lia.
Qed.

Section rollup_theorems.
Context {W : Type} `{!Valkey W, !Codec AggregateRollup, !Codec DailyRollup}.

(** C10: rolling up an hour never loses stored counts: whatever the locations
    and the primary answer, the only field changed on any server is that of the
    hour, in the service's hash on the primary, and only after it was read
    there; the value written over it counts for every location at least as many
    checks as the rollup read, and it is deleted only when that rollup has no
    location; when the stored rollup could not be read, nothing is written at
    all. *)
Theorem RollupHour_never_loses_counts (s : Store) (dash svc : string) (hour now : time)
    (mark : bool) (w : W) :
  keeps (primary s) (RollupAggregateHour dash svc) (FormatInt (Unix hour)) None
    (RollupHour s dash svc hour now mark w).2.
Proof.
  destruct (spec_RollupHour s dash svc hour now mark w)
    as [|t answer e Ht Ha|t answer Ht|t answer old agg ok Ht Ha Hp
       |t answer old agg rollup data written t' Ht Ha Hp Hm Hpos Hw]; [done|by apply keeps_get..| |].
  - apply keeps_get; [done|]. rewrite Ha. simpl. split_and!; eauto. apply plan_hour_delete in Hp. eauto.
  - apply keeps_get; [done|]. rewrite Ha. apply plan_hour_store in Hp as ->.
    eapply keeps_expiring; [exact Hw|done|exact Hm|]. apply mergeStored_total.
Qed.

(** an hour is stored only with an expiry of its own: besides reads,
    RollupHour sends either nothing, one deletion, or the hour's field with a
    positive TTL that ends when the hour leaves the retention, and it removes
    the key-wide TTL only after both were accepted. *)
Theorem RollupHour_expires_what_it_writes (s : Store) (dash svc : string) (hour now : time)
    (mark : bool) (w : W) :
  let key := RollupAggregateHour dash svc in
  let field := FormatInt (Unix hour) in
  let ttl := seconds_until (hour_expiry s hour) now in
  let t := (RollupHour s dash svc hour now mark w).2 in
  t = [] ∨ ∃ r answer t', reads r ∧ t = r ++ HGet (primary s) key field answer :: t' ∧
    (t' = [] ∨ (∃ ok, t' = [HDel (primary s) key field ok]) ∨
     ∃ data written, 0 < ttl ∧ expiring (primary s) key field data ttl written t').
Proof.
  intros key field ttl.
  destruct (spec_RollupHour s dash svc hour now mark w)
    as [|t answer e Ht Ha|t answer Ht|t answer old agg ok Ht Ha Hp
       |t answer old agg rollup data written t' Ht Ha Hp Hm Hpos Hw]; [by left|right..].
  - exists t, answer, []. eauto.
  - exists t, answer, []. eauto.
  - exists t, answer. eexists. split; [done|]. split; [done|]. right. left. eauto.
  - exists t, answer, t'. split; [done|]. split; [done|]. right. right. eauto.
Qed.

(** A command on one field by its own expiry: a positive TTL, or a deletion
    once the expiry has passed. *)
Definition dated (c : Client) (key : string) (now : time) (expiry : string → option time)
    (a : command) : Prop :=
  match a with
  | HExpire c' key' ttl field _ =>
      c' = c ∧ key' = key ∧ 0 < ttl ∧ ∃ at_, expiry field = Some at_ ∧ ttl = seconds_until at_ now
  | HDel c' key' field _ =>
      c' = c ∧ key' = key ∧ ∃ at_, expiry field = Some at_ ∧ seconds_until at_ now ≤ 0
  | _ => False
  end.

Definition accepted (a : command) : bool :=
  match a with
  | HSet _ _ _ _ ok | HExpire _ _ _ _ ok | HDel _ _ _ ok | Persist _ _ ok => ok
  | Read _ _ | HGet _ _ _ _ => true
  end.

Lemma spec_expire_each (s : Store) key now expiry fields :
  spec (expire_each (W:=W) s key now expiry fields)
    (λ r t, Forall (dated (primary s) key now expiry) t ∧ r.1 = len t ∧
            (r.2 = None ↔ Forall (λ a, accepted a = true) t)).
Proof.
  induction fields as [|field fields IH]; simpl.
  { apply spec_ret. split_and!; [done|done|]. by split. }
  destruct (expiry field) as [at_|] eqn:He; [|exact IH].
  assert (spec (W:=W) (if 0 <? seconds_until at_ now
                 then hexpire (primary s) key (seconds_until at_ now) field
                 else hdel (primary s) key field)
            (λ r t, ∃ a, t = [a] ∧ dated (primary s) key now expiry a ∧
                    accepted a = is_None_b r)) as Hone.
  { destruct (0 <? _) eqn:E; zb.
    - eapply spec_mono; [apply spec_hexpire|]. intros r t ->. eexists. split; [done|]. simpl. eauto 10.
    - eapply spec_mono; [apply spec_hdel|]. intros r t ->. eexists. split; [done|]. simpl. eauto 10. }
  eapply spec_bind; [exact Hone|]. intros r t (a & -> & Hd & Ha).
  eapply spec_bind; [exact IH|]. intros [n e] t (Ht & Hn & Hacc). simpl in *.
  apply spec_ret. rewrite app_nil_r. simpl. split_and!.
  - by constructor.
  - rewrite len_cons. lia.
  - rewrite Forall_cons, Ha, <-Hacc. destruct r; simpl; naive_solver.
Qed.

Lemma accepted_spec t : Forall (λ a, accepted a = true) t ↔ forallb accepted t = true.
Proof. by rewrite forallb_forall, Forall_forall; setoid_rewrite list_elem_of_In. Qed.

(** a backfilled expiry never drops live data: besides reading the
    fields, expireFields gives a field a positive TTL ending at its own expiry,
    deletes only fields whose expiry has passed, and leaves alone every field
    it cannot date; it removes the key-wide TTL only after a command for every
    dated field was accepted. *)
Theorem expireFields_keeps_live_fields (s : Store) (key : string) (now : time)
    (expiry : string → option time) (w : W) :
  ∃ t t', (expireFields s key now expiry w).2 = Read (primary s) key :: t ++ t' ∧
    Forall (dated (primary s) key now expiry) t ∧
    (t' = [] ∨ forallb accepted t = true ∧ t ≠ [] ∧ ∃ ok, t' = [Persist (primary s) key ok]).
Proof.
  cut (spec (W:=W) (expireFields s key now expiry) (λ _ tr, ∃ t t',
    tr = Read (primary s) key :: t ++ t' ∧ Forall (dated (primary s) key now expiry) t ∧
    (t' = [] ∨ forallb accepted t = true ∧ t ≠ [] ∧ ∃ ok, t' = [Persist (primary s) key ok]))).
  { intros Hs. apply (Hs w). }
  unfold expireFields. step_act. destruct a as [fields|e].
  2:{ apply spec_ret. exists [], []. eauto. }
  eapply spec_bind; [apply spec_expire_each|]. intros [n e] t (Ht & Hn & Hacc). simpl in *.
  destruct (n =? 0) eqn:E0; zb.
  { apply spec_ret. exists t, []. rewrite app_nil_r. eauto. }
  destruct e as [e|].
  { apply spec_ret. exists t, []. rewrite app_nil_r. eauto. }
  eapply spec_mono; [apply spec_persist|]. intros r t' ->.
  exists t. eexists. split; [done|]. split; [done|]. right.
  split; [by apply accepted_spec, Hacc|]. split; [by intros ->; unfold len in Hn; simpl in Hn|]. eauto.
Qed.
End rollup_theorems.

(** ** Sets across the locations *)

Lemma add_items_spec seen out items :
  (∀ x, x ∈ out ↔ x ∈ seen) → NoDup out →
  let '(seen', out') := add_items seen out items in
  (∀ x, x ∈ out' ↔ x ∈ seen') ∧ NoDup out' ∧ (∀ x, x ∈ out' ↔ x ∈ out ∨ x ∈ items) ∧
  ∃ more, out' = out ++ more.
Proof.
  revert seen out. induction items as [|i items IH]; intros seen out Hs Hn; simpl.
  { split_and!; [done|done|set_solver|]. exists []. by rewrite app_nil_r. }
  case_decide as Hi.
  { specialize (IH seen out Hs Hn). destruct (add_items seen out items) as [seen' out'].
    destruct IH as (? & ? & Hx & ?). split_and!; [done|done| |done].
    intros x. rewrite Hx. apply Hs in Hi. set_solver. }
  specialize (IH ({[i]} ∪ seen) (out ++ [i])).
  destruct (add_items _ _ items) as [seen' out'].
  destruct IH as (? & ? & Hx & more & ->).
  - set_solver.
  - apply NoDup_app. split; [done|]. split; [|apply NoDup_singleton]. set_solver.
  - split_and!; [done|done| |].
    + intros x. rewrite Hx. set_solver.
    + exists ([i] ++ more). by rewrite (assoc app).
Qed.

(** The answers of the locations to one set read, in the order asked. *)
Fixpoint members_of {W} `{!Valkey W} (s : Store) (key : string) (names : list string) (w : W)
  : list (result verror (list string)) * W :=
  match names with
  | [] => ([], w)
  | name :: names =>
      match locations s !! name with
      | Some c =>
          let '(r, w) := vk_Smembers c key w in
          let '(rs, w) := members_of s key names w in (r :: rs, w)
      | None => members_of s key names w
      end
  end.

Definition answered {E A} (r : result E (list A)) : list A := match r with Ok l => l | Err _ => [] end.

Lemma union_loop_spec {W} `{!Valkey W} (s : Store) key names seen out errs (w : W) :
  (∀ x, x ∈ out ↔ x ∈ seen) → NoDup out →
  let '((out', errs'), w', _) := union_loop s key names seen out errs w in
  let '(rs, w'') := members_of s key names w in
  w' = w'' ∧ NoDup out' ∧ (∀ x, x ∈ out' ↔ x ∈ out ∨ x ∈ concat (answered <$> rs)) ∧
  len errs' = len errs + countb (λ r, negb (is_ok r)) rs.
Proof.
  revert seen out errs w. induction names as [|name names IH]; intros seen out errs w Hs Hn; simpl.
  { split_and!; [done|done|set_solver|]. unfold countb. simpl. lia. }
  destruct (locations s !! name) as [c|]; [|by apply IH].
  unfold smembers, mbind, M_bind. destruct (vk_Smembers c key w) as [[items|e] w1].
  - pose proof (add_items_spec seen out items Hs Hn) as Ha.
    destruct (add_items seen out items) as [seen' out']. destruct Ha as (Hs' & Hn' & Hx & _).
    specialize (IH seen' out' errs w1 Hs' Hn').
    destruct (union_loop s key names seen' out' errs w1) as [[[out'' errs''] w2] t].
    destruct (members_of s key names w1) as [rs w3]. simpl in *.
    destruct IH as (? & ? & Hx' & He). split_and!; [done|done| |].
    + intros x. rewrite Hx', Hx. set_solver.
    + rewrite He, countb_cons. done.
  - specialize (IH seen out (errs ++ [at_location name e]) w1 Hs Hn).
    destruct (union_loop s key names seen out _ w1) as [[[out'' errs''] w2] t].
    destruct (members_of s key names w1) as [rs w3]. simpl in *.
    destruct IH as (? & ? & Hx' & He). split_and!; [done|done| |].
    + intros x. rewrite Hx'. set_solver.
    + rewrite He, countb_cons, len_app. unfold len. simpl. lia.
Qed.

(** the dashboards and services listed are the union of what the
    locations that answered list, each item once; listing fails exactly when
    no location answered. *)
Theorem union_lists_each_once {W} `{!Valkey W} (s : Store) (key : string) (w : W) :
  let '(rs, _) := members_of s key (LocationNames s) w in
  match (union s key w).1.1 with
  | Ok out => NoDup out ∧ (∀ x, x ∈ out ↔ x ∈ concat (answered <$> rs)) ∧
              countb (λ r, negb (is_ok r)) rs ≠ Z.of_nat (size (locations s))
  | Err _ => countb (λ r, negb (is_ok r)) rs = Z.of_nat (size (locations s))
  end.
Proof.
  pose proof (union_loop_spec s key (LocationNames s) ∅ [] [] w ltac:(set_solver) ltac:(constructor)) as H.
  unfold union, mbind, M_bind.
  destruct (union_loop s key (LocationNames s) ∅ [] [] w) as [[[out errs] w'] t].
  destruct (members_of s key (LocationNames s) w) as [rs w''].
  destruct H as (_ & Hn & Hx & He). change (len (@nil error)) with 0 in He. simpl in *.
  destruct (_ =? _) eqn:E; zb; simpl; [lia|]. split_and!; [done| |lia].
  intros x. rewrite Hx. set_solver.
Qed.

(** ** Daily rollups *)

(** The hours of one day among the given entries. *)
Definition hours_of_day (day : string) (l : list (Z * AggregateRollup)) : list AggregateRollup :=
  snd <$> filter (λ p, FormatDate (of_Unix p.1) = day) l.

Definition day_total (f : AggregateRollup → Z) (day : string) (l : list (Z * AggregateRollup)) : Z :=
  zsum (f <$> hours_of_day day l).

Lemma day_total_cons f day p l :
  day_total f day (p :: l) =
  (if decide (FormatDate (of_Unix p.1) = day) then f p.2 else 0) + day_total f day l.
Proof.
  unfold day_total, hours_of_day. rewrite filter_cons. by case_decide.
Qed.

Lemma foldl_add_hour l m day :
  map_Forall (λ _ dr, wrap64 (dr_Success dr) = dr_Success dr ∧ wrap64 (dr_Failure dr) = dr_Failure dr) m →
  foldl add_hour m l !! day =
  if is_nil (hours_of_day day l) then m !! day
  else
    let dr := default zero_DailyRollup (m !! day) in
    let success := wrap64 (dr_Success dr + day_total agg_Success day l) in
    let failure := wrap64 (dr_Failure dr + day_total agg_Failure day l) in
    Some {| dr_Date := day; dr_Success := success; dr_Failure := failure;
            dr_Total := wrap64 (success + failure) |}.
Proof.
  revert m. induction l as [|p l IH]; intros m Hm; [done|]. cbn [foldl].
  rewrite IH.
  2:{ unfold add_hour. apply map_Forall_insert_2; [|done]. cbn [dr_Success dr_Failure].
      split; apply wrap64_id, wrap64_range. }
  cbv zeta. rewrite !day_total_cons. unfold hours_of_day. rewrite filter_cons.
  unfold add_hour. case_decide as Hd; cbn [fst snd fmap list_fmap is_nil].
  - subst day. rewrite lookup_insert_eq. cbn [from_option id dr_Success dr_Failure dr_Date dr_Total].
    fold (hours_of_day (FormatDate (of_Unix p.1)) l).
    destruct (is_nil (hours_of_day (FormatDate (of_Unix p.1)) l)) eqn:E.
    + assert (∀ f, day_total f (FormatDate (of_Unix p.1)) l = 0) as Ht.
      { intros f. unfold day_total. by destruct (hours_of_day (FormatDate (of_Unix p.1)) l). }
      by rewrite !Ht, !Z.add_0_r.
    + by rewrite !wrap64_idemp_l, !(Z.add_assoc (dr_Success _)), !(Z.add_assoc (dr_Failure _)).
  - rewrite lookup_insert_ne by done. done.
Qed.

(** the daily summaries partition the hours by their UTC day: a day has
    an entry exactly when some hour falls on it, and its counts are the sums
    over exactly those hours, whatever the order they are visited in. *)
Theorem computeDailyFromHours_partitions (rollups : gmap Z AggregateRollup) (day : string)
    (l : list (Z * AggregateRollup)) :
  l ≡ₚ map_to_list rollups →
  computeDailyFromHours rollups !! day = foldl add_hour ∅ l !! day ∧
  computeDailyFromHours rollups !! day =
    if is_nil (hours_of_day day l) then None
    else
      let success := wrap64 (day_total agg_Success day l) in
      let failure := wrap64 (day_total agg_Failure day l) in
      Some {| dr_Date := day; dr_Success := success; dr_Failure := failure;
              dr_Total := wrap64 (success + failure) |}.
Proof.
  intros Hl. assert (∀ l', foldl add_hour ∅ l' !! day =
    if is_nil (hours_of_day day l') then None
    else
      let success := wrap64 (day_total agg_Success day l') in
      let failure := wrap64 (day_total agg_Failure day l') in
      Some {| dr_Date := day; dr_Success := success; dr_Failure := failure;
              dr_Total := wrap64 (success + failure) |}) as Hf.
  { intros l'. rewrite foldl_add_hour by apply map_Forall_empty. by rewrite lookup_empty. }
  unfold computeDailyFromHours. rewrite !Hf.
  assert (∀ f, day_total f day l = day_total f day (map_to_list rollups)) as Ht.
  { intros f. unfold day_total, hours_of_day. by rewrite Hl. }
  assert (is_nil (hours_of_day day l) = is_nil (hours_of_day day (map_to_list rollups))) as Hn.
  { assert (hours_of_day day l ≡ₚ hours_of_day day (map_to_list rollups)) as Hp.
    { unfold hours_of_day. by rewrite Hl. }
    destruct (hours_of_day day l), (hours_of_day day (map_to_list rollups)); try done.
    - by apply Permutation_nil_cons in Hp.
    - by apply symmetry, Permutation_nil_cons in Hp. }
  by rewrite Hn, !Ht.
Qed.

(** the hours UpdateDailyRollup reads for a day are exactly the hours of
    that UTC day: the date of every one of them is the date it writes, and no
    hour outside has it. *)
Theorem daily_window_is_the_day (day : time) (epoch : Z) :
  let from := Truncate day (24 * Hour) in
  let to := Add from (24 * Hour - Second) in
  (Before (of_Unix epoch) from = false ∧ After (of_Unix epoch) to = false ↔
   of_Unix epoch `div` Day = day `div` Day) ∧
  (of_Unix epoch `div` Day = day `div` Day → FormatDate (of_Unix epoch) = FormatDate from).
Proof.
  intros from to. subst to. unfold from, Before, After, Add. change (24 * Hour) with Day.
  rewrite Truncate_day. rewrite !Z.ltb_ge. split.
  - unfold of_Unix. split.
    + intros [H1 H2]. symmetry. apply (Z.div_unique _ _ _ (epoch * Second - day `div` Day * Day)); [|lia].
      left. unfold Day, Hour, Minute, Second in *. lia.
    + intros E. pose proof (Z.div_mod (epoch * Second) Day ltac:(done)) as Hd.
      pose proof (Z.mod_pos_bound (epoch * Second) Day ltac:(done)) as Hm. rewrite E in Hd.
      assert (((epoch * Second) `mod` Day) `mod` Second = 0) as Hs.
      { change Day with (86400 * Second). rewrite Z.mod_mod_divide by (by exists 86400).
        by apply Z.mod_mul. }
      apply Z.div_exact in Hs; [|done].
      unfold Day, Hour, Minute, Second in *. lia.
  - intros E. unfold FormatDate. by rewrite E, Z.div_mul.
Qed.

Lemma computeDailyFromHours_partitions_witness :
  let rollups : gmap Z AggregateRollup := {[0 := zero_AggregateRollup]} in
  computeDailyFromHours rollups !! "1970-01-01" =
    Some {| dr_Date := "1970-01-01"; dr_Success := 0; dr_Failure := 0; dr_Total := 0 |}.
Proof.
  exact (proj2 (computeDailyFromHours_partitions {[0 := zero_AggregateRollup]} "1970-01-01"
                  [(0, zero_AggregateRollup)] ltac:(by rewrite map_to_list_singleton))).
Defined.
