(* ===== verification/Incidents.v ===== *)
(** * Failure incidents

    The failure windows the dashboard shows
    (dashboard/internal/store/store.go): each location's hourly runs stitched
    back together across hours, and the runs of all locations with the same
    message merged into incidents. *)

From S2P Require Import Prelude GoStd GoTime Errors Trace Keys Ladder Float64 Rollups Valkey Store.

Record FailureWindow := {
  fw_Locations : list string; fw_Message : string; fw_Start : Z; fw_End : Z;
  fw_Count : Z; fw_Ongoing : bool }.

Definition mergeGapSeconds : Z := 300.

Definition StatusMaxAge : duration := 6 * Hour.

Record segment := {
  sg_loc : string; sg_msg : string; sg_start : Z; sg_end : Z; sg_count : Z; sg_ongoing : bool }.

#[export] Instance segment_eq_dec : EqDecision segment.
Proof. solve_decision. Defined.
#[export] Instance FailureWindow_eq_dec : EqDecision FailureWindow.
Proof. solve_decision. Defined.

(** ** Merging *)

(** The window the inner loop is filling: [win] and [locs]. *)
Record open_window := {
  ow_Message : string; ow_Start : Z; ow_End : Z; ow_Count : Z; ow_Ongoing : bool;
  ow_locs : gset string }.

Definition start_window (s : segment) : open_window :=
  {| ow_Message := sg_msg s; ow_Start := sg_start s; ow_End := sg_end s; ow_Count := sg_count s;
     ow_Ongoing := sg_ongoing s; ow_locs := {[sg_loc s]} |}.

Definition absorb (win : open_window) (s : segment) : open_window :=
  {| ow_Message := ow_Message win; ow_Start := ow_Start win;
     ow_End := if ow_End win <? sg_end s then sg_end s else ow_End win;
     ow_Count := wrap64 (ow_Count win + sg_count s);
     ow_Ongoing := ow_Ongoing win || sg_ongoing s;
     ow_locs := {[sg_loc s]} ∪ ow_locs win |}.

(** [sortedKeys(locs)] completes the window. *)
Definition close_window (win : open_window) : FailureWindow :=
  {| fw_Locations := sort_strings (elements (ow_locs win)); fw_Message := ow_Message win;
     fw_Start := ow_Start win; fw_End := ow_End win; fw_Count := ow_Count win;
     fw_Ongoing := ow_Ongoing win |}.

Fixpoint merge_loop (win : open_window) (segs : list segment) : list FailureWindow :=
  match segs with
  | [] => [close_window win]
  | s :: segs =>
      if sg_start s <=? wrap64 (ow_End win + mergeGapSeconds)
      then merge_loop (absorb win s) segs
      else close_window win :: merge_loop (start_window s) segs
  end.

Definition merge_sorted (segs : list segment) : list FailureWindow :=
  match segs with [] => [] | s :: segs => merge_loop (start_window s) segs end.

#[export] Instance start_le_dec : RelDecision (by_key Z.le sg_start) := by_key_dec _ _.

(** The windows of one message. *)
Definition merge_message (segs : list segment) : list FailureWindow :=
  merge_sorted (merge_sort (by_key Z.le sg_start) segs).

Definition add_segment (byMsg : gmap string (list segment)) (s : segment)
  : gmap string (list segment) :=
  <[sg_msg s := default [] (byMsg !! sg_msg s) ++ [s]]> byMsg.

(** Latest start first, then by message. *)
Definition newer (a b : Z * string) : Prop := b.1 < a.1 ∨ (a.1 = b.1 ∧ String.le a.2 b.2).

#[export] Instance newer_dec : RelDecision newer.
Proof. intros a b. unfold newer. apply _. Defined.

Definition window_key (w : FailureWindow) : Z * string := (fw_Start w, fw_Message w).

#[export] Instance window_dec : RelDecision (by_key newer window_key) := by_key_dec _ _.

Definition mergeSegments (segments : list segment) : list FailureWindow :=
  merge_sort (by_key newer window_key)
    (concat ((λ p, merge_message p.2) <$> map_to_list (foldl add_segment ∅ segments))).

(** ** Stitching the runs of one location *)

(** [segByLoc[loc]], [open[loc]] and [lastHour[loc]]. *)
Record loc_state := { ls_segs : list segment; ls_open : bool; ls_lastHour : Z }.

Definition no_state : loc_state := {| ls_segs := []; ls_open := false; ls_lastHour := 0 |}.

Definition maxGap : Z := Z.quot StatusMaxAge Second.

Definition continues (last_ : segment) (run : FailureRun) : bool :=
  bool_decide (sg_msg last_ = run_Message run) &&
  (wrap64 (run_Start run - sg_end last_) <=? maxGap).

Definition segment_of (loc : string) (run : FailureRun) : segment :=
  {| sg_loc := loc; sg_msg := run_Message run; sg_start := run_Start run; sg_end := run_End run;
     sg_count := run_Count run; sg_ongoing := false |}.

Definition lengthen (sg : segment) (run : FailureRun) : segment :=
  {| sg_loc := sg_loc sg; sg_msg := sg_msg sg; sg_start := sg_start sg; sg_end := run_End run;
     sg_count := wrap64 (sg_count sg + run_Count run); sg_ongoing := sg_ongoing sg |}.

(** One run of the hour; [None] when [segs[len(segs)-1]] is out of range. *)
Definition stitch_run (loc : string) (opened : bool) (segs : list segment) (run : FailureRun)
  : option (list segment) :=
  if opened && OpenStart run then
    last_ ← last segs;
    Some (if continues last_ run then removelast segs ++ [lengthen last_ run]
          else segs ++ [segment_of loc run])
  else Some (segs ++ [segment_of loc run]).

Fixpoint stitch_runs (loc : string) (opened : bool) (segs : list segment) (runs : list FailureRun)
  : option (list segment) :=
  match runs with
  | [] => Some segs
  | run :: runs => segs ← stitch_run loc opened segs run; stitch_runs loc opened segs runs
  end.

(** One hour of one location. *)
Definition stitch_hour (h : Z) (loc : string) (lr : LocationRollup) (st : loc_state)
  : option loc_state :=
  segs ← stitch_runs loc (ls_open st) (ls_segs st) (lr_Runs lr);
  Some {| ls_segs := segs;
          ls_open := match last (lr_Runs lr) with Some run => OpenEnd run | None => false end;
          ls_lastHour := h |}.

Definition stitch_location (h : Z) (states : option (gmap string loc_state))
    (p : string * LocationRollup) : option (gmap string loc_state) :=
  states ← states;
  st ← stitch_hour h p.1 p.2 (default no_state (states !! p.1));
  Some (<[p.1 := st]> states).

Definition stitch_rollup (states : option (gmap string loc_state)) (p : Z * AggregateRollup)
  : option (gmap string loc_state) :=
  foldl (stitch_location p.1) states (map_to_list (PerLocation p.2)).

#[export] Instance hour_le_dec : RelDecision (by_key Z.le (@fst Z AggregateRollup)) := by_key_dec _ _.

(** The hours in their order. *)
Definition sorted_hours (rollups : gmap Z AggregateRollup) : list (Z * AggregateRollup) :=
  merge_sort (by_key Z.le fst) (map_to_list rollups).

(** A location's segments, the last one marked when it is still ongoing. *)
Definition finish (live : bool) (recent : Z) (st : loc_state) : option (list segment) :=
  if live && ls_open st && (recent <=? ls_lastHour st) then
    last_ ← last (ls_segs st);
    Some (removelast (ls_segs st) ++
          [{| sg_loc := sg_loc last_; sg_msg := sg_msg last_; sg_start := sg_start last_;
              sg_end := sg_end last_; sg_count := sg_count last_; sg_ongoing := true |}])
  else Some (ls_segs st).

(** All segments of the rollups; [None]: an index was out of range. *)
Definition segments_of (rollups : gmap Z AggregateRollup) (live : bool) (now : time)
  : option (list segment) :=
  states ← foldl stitch_rollup (Some ∅) (sorted_hours rollups);
  lists ← mapM (λ p, finish live (Unix (Add now (- StatusMaxAge))) p.2) (map_to_list states);
  Some (concat lists).

Definition FailureWindows {W} `{!Valkey W, !Codec AggregateRollup} (s : Store)
    (dash svc : string) (from to now : time) (live : bool)
  : M command W (result verror (option (list FailureWindow))) :=
  r ← GetAggregateRollups s dash svc from to;
  match r with
  | Err e => mret (Err e)
  | Ok rollups =>
      let curHour := Truncate now Hour in
      rollups ←
        (if live && negb (Before curHour (Truncate from Hour)) && negb (After curHour to) then
           agg ← liveHour s dash svc curHour (default zero_AggregateRollup (rollups !! Unix curHour));
           mret match agg with Some agg => <[Unix curHour := agg]> rollups | None => rollups end
         else mret rollups);
      mret (Ok (mergeSegments <$> segments_of rollups live now))
  end.
