(* ===== verification/IncidentProps.v ===== *)
(** * Properties of failure incidents *)

From S2P Require Import Prelude GoStd GoTime Errors Trace Keys Ladder Float64 Rollups Valkey Store.
From S2P Require Import Incidents.

(** Segments whose times make sense: they end after they start, and the
    tolerance does not overflow. *)
Definition in_range (s : segment) : Prop :=
  - 2 ^ 63 ≤ sg_start s ∧ sg_start s ≤ sg_end s ∧ sg_end s + mergeGapSeconds < 2 ^ 63.

(** ** Groups

    The reference: the window of a nonempty group of segments, whatever the
    order it lists them in. *)

Definition window_of (g : list segment) : option FailureWindow :=
  match g with
  | [] => None
  | s :: g => Some (close_window (foldl absorb (start_window s) g))
  end.

(** A group read in the order of the starts, each segment beginning no later
    than the tolerance after the latest end before it. *)
Fixpoint linked (latest : Z) (g : list segment) : Prop :=
  match g with
  | [] => True
  | s :: g => sg_start s ≤ latest + mergeGapSeconds ∧ linked (Z.max latest (sg_end s)) g
  end.

Definition connected (g : list segment) : Prop :=
  match g with
  | [] => False
  | s :: g => Forall (λ x, sg_msg x = sg_msg s) g ∧ linked (sg_end s) g ∧
              StronglySorted (by_key Z.le sg_start) (s :: g)
  end.

(** Everything in one group ended more than the tolerance before anything in
    the other began. *)
Definition apart (g g' : list segment) : Prop :=
  ∀ x y, x ∈ g → y ∈ g' → sg_end x + mergeGapSeconds < sg_start y.

(** The fields of a filled window. *)
Definition latest_end (e : Z) (g : list segment) : Z := foldr Z.max e (sg_end <$> g).

Lemma ow_End_absorb win s : ow_End (absorb win s) = Z.max (ow_End win) (sg_end s).
Proof. unfold absorb. simpl. destruct (_ <? _) eqn:E; zb; lia. Qed.

Lemma foldl_absorb win g :
  ow_Message (foldl absorb win g) = ow_Message win ∧
  ow_Start (foldl absorb win g) = ow_Start win ∧
  ow_End (foldl absorb win g) = latest_end (ow_End win) g ∧
  (wrap64 (ow_Count win) = ow_Count win →
   ow_Count (foldl absorb win g) = wrap64 (ow_Count win + zsum (sg_count <$> g))) ∧
  ow_Ongoing (foldl absorb win g) = ow_Ongoing win || existsb sg_ongoing g ∧
  ow_locs (foldl absorb win g) = ow_locs win ∪ list_to_set (sg_loc <$> g).
Proof.
  revert win. induction g as [|s g IH]; intros win; cbn [foldl].
  { split_and!; [done..| | |]; simpl; [by rewrite Z.add_0_r|by rewrite orb_false_r|set_solver]. }
  destruct (IH (absorb win s)) as (-> & -> & -> & Hc & -> & ->). split_and!; [done..| | | |].
  - rewrite ow_End_absorb. unfold latest_end. cbn [fmap list_fmap foldr].
    rewrite foldr_max_seed. lia.
  - intros Hw. rewrite Hc by apply wrap64_id, wrap64_range. simpl.
    by rewrite wrap64_idemp_l, <-Z.add_assoc.
  - simpl. by rewrite orb_assoc.
  - simpl. by rewrite assoc_L, (comm_L (∪) (ow_locs win)) by apply _.
Qed.

(** ** The loop computes the windows of the groups *)

Inductive grouping : list (list segment) → Prop :=
| grouping_nil : grouping []
| grouping_cons g gs : connected g → Forall (apart g) gs → grouping gs → grouping (g :: gs).

Lemma latest_end_le e g x : x ∈ g → sg_end x ≤ latest_end e g.
Proof.
  unfold latest_end. induction g as [|s g IH]; [by intros ?%elem_of_nil|].
  rewrite elem_of_cons. cbn [fmap list_fmap foldr]. intros [->|Hx]; [lia|]. specialize (IH Hx). lia.
Qed.

Lemma latest_end_seed e g : e ≤ latest_end e g.
Proof. unfold latest_end. induction g as [|s g IH]; cbn [fmap list_fmap foldr]; lia. Qed.

Lemma latest_end_range e g :
  e + mergeGapSeconds < 2 ^ 63 → Forall in_range g → latest_end e g + mergeGapSeconds < 2 ^ 63.
Proof.
  unfold latest_end. intros He. induction 1 as [|s g Hs Hg IH]; cbn [fmap list_fmap foldr]; [done|].
  unfold in_range in Hs. lia.
Qed.

Lemma linked_snoc e g s :
  linked e (g ++ [s]) ↔ linked e g ∧ sg_start s ≤ latest_end e g + mergeGapSeconds.
Proof.
  revert e. induction g as [|x g IH]; intros e; simpl; [tauto|].
  rewrite IH. unfold latest_end. cbn [fmap list_fmap foldr]. rewrite foldr_max_seed. tauto.
Qed.

(** Once a segment starts beyond the tolerance, all later groups are apart. *)
Lemma apart_rest s g x l gs :
  latest_end (sg_end s) g + mergeGapSeconds < sg_start x → StronglySorted (by_key Z.le sg_start) (x :: l) →
  concat gs = x :: l → Forall (apart (s :: g)) gs.
Proof.
  intros Hlt [HSx _]%StronglySorted_cons Hc. rewrite Forall_forall in HSx.
  apply Forall_forall. intros g' Hg' a b Ha Hb.
  assert (b ∈ x :: l) as Hbl by (rewrite <-Hc; apply elem_of_concat; eauto).
  assert (sg_end a ≤ latest_end (sg_end s) g).
  { apply elem_of_cons in Ha as [->|Ha]; [apply latest_end_seed|by apply latest_end_le]. }
  assert (sg_start x ≤ sg_start b).
  { apply elem_of_cons in Hbl as [->|Hbl]; [done|]. by apply HSx. }
  unfold mergeGapSeconds in *. lia.
Qed.

Lemma merge_loop_groups l : ∀ s g,
  Forall in_range (s :: g ++ l) → Forall (λ x, sg_msg x = sg_msg s) (g ++ l) →
  StronglySorted (by_key Z.le sg_start) (s :: g ++ l) → linked (sg_end s) g →
  ∃ t gs, concat ((s :: g ++ t) :: gs) = s :: g ++ l ∧ grouping ((s :: g ++ t) :: gs) ∧
    merge_loop (foldl absorb (start_window s) g) l = omap window_of ((s :: g ++ t) :: gs).
Proof.
  induction l as [|x l IH]; intros s g HR HM HS HL.
  { exists [], []. rewrite !app_nil_r in *. split; [by simpl; rewrite ?app_nil_r|]. split; [|done].
    constructor; [by split_and!|constructor|constructor]. }
  assert (in_range s ∧ Forall in_range g ∧ in_range x ∧ Forall in_range l) as (HRs & HRg & HRx & HRl).
  { rewrite Forall_cons, Forall_app, Forall_cons in HR. tauto. }
  assert (ow_End (foldl absorb (start_window s) g) = latest_end (sg_end s) g) as He
    by apply (foldl_absorb (start_window s) g).
  assert (is_int64 (latest_end (sg_end s) g + mergeGapSeconds)) as Hi.
  { pose proof (latest_end_seed (sg_end s) g).
    pose proof (latest_end_range (sg_end s) g). unfold in_range, is_int64, mergeGapSeconds in *.
    intuition lia. }
  cbn [merge_loop]. rewrite He, wrap64_id by done.
  assert (∀ t : list segment, s :: g ++ x :: t = s :: (g ++ [x]) ++ t) as Happ.
  { intros t. by rewrite <-(assoc app). }
  destruct (_ <=? _) eqn:E; zb.
  - destruct (IH s (g ++ [x])) as (t & gs & Hc & Hg & Hw).
    + by rewrite <-Happ.
    + by rewrite <-(assoc app).
    + by rewrite <-Happ.
    + by apply linked_snoc.
    + exists (x :: t), gs. rewrite foldl_app in Hw. rewrite !Happ. done.
  - assert (StronglySorted (by_key Z.le sg_start) (x :: l)) as HSx.
    { change (s :: g ++ x :: l) with ((s :: g) ++ x :: l) in HS.
      by apply StronglySorted_app in HS as (_ & _ & ?). }
    destruct (IH x []) as (t & gs & Hc & Hg & Hw); [by constructor| |done|done|].
    { rewrite Forall_app, Forall_cons in HM. destruct HM as (_ & -> & HM). done. }
    exists [], ((x :: [] ++ t) :: gs). rewrite !app_nil_r. split; [|split].
    + simpl in *. by rewrite Hc.
    + constructor; [..|done].
      * split; [by apply Forall_app in HM as [? _]|]. split; [done|].
        change (s :: g ++ x :: l) with ((s :: g) ++ x :: l) in HS.
        by apply StronglySorted_app in HS as (_ & ? & _).
      * by eapply apart_rest.
    + cbn [omap list_omap window_of]. f_equal. exact Hw.
Qed.

(** The windows of one message: those of a grouping of its segments. *)
Lemma merge_message_groups segs m :
  Forall in_range segs → Forall (λ s, sg_msg s = m) segs →
  ∃ gs, concat gs ≡ₚ segs ∧ grouping gs ∧ merge_message segs = omap window_of gs.
Proof.
  intros HR HM. unfold merge_message.
  pose proof (merge_sort_Permutation (by_key Z.le sg_start) segs) as Hp.
  pose proof (merge_sort_sorted (by_key Z.le sg_start) segs) as HS.
  destruct (merge_sort _ segs) as [|s l].
  { exists []. rewrite <-Hp. split_and!; [done|constructor|done]. }
  rewrite <-Hp in HR, HM. apply Forall_cons in HM as [Hm HM].
  destruct (merge_loop_groups l s []) as (t & gs & Hc & Hg & Hw); [done| |done|done|].
  { eapply Forall_impl; [exact HM|]. intros ? ->. by rewrite Hm. }
  exists ((s :: [] ++ t) :: gs). split; [|split; [exact Hg|exact Hw]].
  simpl in *. by rewrite Hc.
Qed.

(** ** The order of the segments does not matter *)

Lemma absorb_comm win x y : absorb (absorb win x) y = absorb (absorb win y) x.
Proof.
  unfold absorb. simpl. f_equal.
  - repeat case_match; zb; lia.
  - rewrite !wrap64_idemp_l. f_equal. lia.
  - by rewrite <-!orb_assoc, (orb_comm (sg_ongoing x)).
  - set_solver.
Qed.

Lemma absorb_start_comm x y :
  sg_start x = sg_start y → sg_msg x = sg_msg y →
  absorb (start_window x) y = absorb (start_window y) x.
Proof.
  intros Hs Hm. unfold absorb, start_window. simpl. rewrite Hs, Hm. f_equal.
  - repeat case_match; zb; lia.
  - f_equal. lia.
  - apply orb_comm.
  - set_solver.
Qed.

Definition ok_window (win : open_window) : Prop :=
  - 2 ^ 63 ≤ ow_End win ∧ ow_End win + mergeGapSeconds < 2 ^ 63.

Lemma ok_start s : in_range s → ok_window (start_window s).
Proof. unfold in_range, ok_window. simpl. lia. Qed.

Lemma ok_absorb win s : ok_window win → in_range s → ok_window (absorb win s).
Proof. unfold ok_window, in_range. rewrite ow_End_absorb. lia. Qed.

Lemma ok_wrap win : ok_window win → wrap64 (ow_End win + mergeGapSeconds) = ow_End win + mergeGapSeconds.
Proof. intros H. apply wrap64_id. unfold ok_window, is_int64, mergeGapSeconds in *. lia. Qed.

(** A segment of the given message. *)
Definition of_message (m : string) (s : segment) : Prop := in_range s ∧ sg_msg s = m.

Lemma merge_loop_swap_here m win x y b :
  ok_window win → of_message m x → of_message m y → sg_start x = sg_start y →
  merge_loop win (x :: y :: b) = merge_loop win (y :: x :: b).
Proof.
  intros Hw [Hx Hmx] [Hy Hmy] Hs. cbn [merge_loop].
  pose proof (ok_absorb win x Hw Hx) as Hwx. pose proof (ok_absorb win y Hw Hy) as Hwy.
  rewrite !ok_wrap, !ow_End_absorb by (try apply ok_start; done). simpl ow_End. rewrite Hs.
  unfold in_range in *. destruct (sg_start y <=? ow_End win + mergeGapSeconds) eqn:E; zb.
  - rewrite !(proj2 (Z.leb_le _ _)) by lia. by rewrite absorb_comm.
  - rewrite !(proj2 (Z.leb_le _ _)) by (unfold mergeGapSeconds in *; lia).
    by rewrite absorb_start_comm by congruence.
Qed.

Lemma merge_loop_swap m win a x y b :
  ok_window win → Forall (of_message m) (a ++ x :: y :: b) → sg_start x = sg_start y →
  merge_loop win (a ++ x :: y :: b) = merge_loop win (a ++ y :: x :: b).
Proof.
  revert win. induction a as [|s a IH]; intros win Hw HF Hs.
  { cbn [app] in *. rewrite !Forall_cons in HF. destruct HF as (Hx & Hy & _).
    by apply (merge_loop_swap_here m). }
  cbn [app merge_loop] in *. apply Forall_cons in HF as [[Hr Hm] HF].
  rewrite (IH (absorb win s)), (IH (start_window s)) by auto using ok_absorb, ok_start. done.
Qed.

Lemma merge_sorted_swap m a x y b :
  Forall (of_message m) (a ++ x :: y :: b) → sg_start x = sg_start y →
  merge_sorted (a ++ x :: y :: b) = merge_sorted (a ++ y :: x :: b).
Proof.
  intros HF Hs. destruct a as [|s a]; cbn [app merge_sorted] in *.
  - rewrite !Forall_cons in HF. destruct HF as ([Hx Hmx] & [Hy Hmy] & _).
    cbn [merge_loop]. rewrite !ok_wrap by by apply ok_start. simpl ow_End. unfold in_range in *.
    rewrite !(proj2 (Z.leb_le _ _)) by (unfold mergeGapSeconds in *; lia).
    by rewrite absorb_start_comm by congruence.
  - apply Forall_cons in HF as [[Hr _] HF]. by eapply merge_loop_swap; [apply ok_start| |].
Qed.

Lemma merge_message_Permutation m l1 l2 :
  Forall (of_message m) l1 → l1 ≡ₚ l2 → merge_message l1 = merge_message l2.
Proof.
  intros HF Hp. unfold merge_message.
  apply (sorted_invariant (of_message m) sg_start merge_sorted).
  - intros. by eapply merge_sorted_swap.
  - by rewrite merge_sort_Permutation.
  - by rewrite !merge_sort_Permutation.
  - apply merge_sort_sorted; apply _.
  - apply merge_sort_sorted; apply _.
Qed.

(** ** The segments by message *)

Definition byMsg (segments : list segment) : gmap string (list segment) :=
  foldl add_segment ∅ segments.

Lemma byMsg_snoc l s : byMsg (l ++ [s]) = add_segment (byMsg l) s.
Proof. unfold byMsg. by rewrite foldl_app. Qed.

Lemma lookup_byMsg l m :
  byMsg l !! m = match filter (λ s, sg_msg s = m) l with [] => None | fl => Some fl end.
Proof.
  induction l as [|s l IH] using rev_ind; [done|].
  rewrite byMsg_snoc, filter_app, filter_cons, filter_nil. unfold add_segment.
  case_decide as Hm.
  - subst m. rewrite lookup_insert_eq, IH. by destruct (filter _ l).
  - rewrite lookup_insert_ne by done. by rewrite app_nil_r, IH.
Qed.

Lemma byMsg_message l : map_Forall (λ m segs, Forall (λ s, sg_msg s = m) segs) (byMsg l).
Proof.
  intros m segs H. rewrite lookup_byMsg in H.
  destruct (filter _ l) eqn:E; simplify_eq. rewrite <-E.
  apply Forall_forall. intros x Hx. by apply list_elem_of_filter in Hx as [? _].
Qed.

Lemma byMsg_concat l : concat (map_to_list (byMsg l)).*2 ≡ₚ l.
Proof.
  induction l as [|s l IH] using rev_ind; [done|].
  rewrite byMsg_snoc. unfold add_segment.
  assert (∀ m k (x : list segment), concat (map_to_list (<[k := x]> m)).*2 ≡ₚ
    x ++ concat (map_to_list (delete k (m : gmap string (list segment)))).*2) as Hins.
  { intros m k x. rewrite <-insert_delete_eq, map_to_list_insert by apply lookup_delete_eq. done. }
  rewrite Hins, (comm app l), <-(assoc app), (comm app _ ([s] ++ _)), <-(assoc app). f_equiv.
  transitivity (concat (map_to_list (byMsg l)).*2); [|exact IH].
  destruct (byMsg l !! sg_msg s) as [segs|] eqn:E; cbn [from_option default id].
  - rewrite (comm app), <-Hins. by rewrite insert_id.
  - by rewrite app_nil_r, delete_id.
Qed.

(** ** Incidents are the connected components *)

(** Groups of the same message that are apart in time. *)
Definition separate (g g' : list segment) : Prop :=
  (∀ x y, x ∈ g → y ∈ g' → sg_msg x = sg_msg y) → apart g g' ∨ apart g' g.

Lemma grouping_connected gs : grouping gs → Forall connected gs.
Proof. by induction 1; constructor. Qed.

Lemma grouping_separate gs : grouping gs → StronglySorted separate gs.
Proof.
  induction 1 as [|g gs Hg Ha Hgs IH]; constructor; [done|].
  eapply Forall_impl; [exact Ha|]. intros g' Hg' _. by left.
Qed.

Lemma entries_groups (L : list (string * list segment)) :
  NoDup L.*1 → Forall (λ p, Forall (of_message p.1) p.2) L →
  ∃ gs, concat gs ≡ₚ concat L.*2 ∧
    concat ((λ p, merge_message p.2) <$> L) = omap window_of gs ∧
    Forall connected gs ∧ StronglySorted separate gs ∧
    Forall (λ g, ∃ p, p ∈ L ∧ Forall (λ s, sg_msg s = p.1) g) gs.
Proof.
  induction L as [|[m segs] L IH]; intros Hnd HF.
  { exists []. by repeat constructor. }
  apply NoDup_cons in Hnd as [Hm Hnd]. apply Forall_cons in HF as [Hs HF].
  destruct (IH Hnd HF) as (gs & Hc & Hw & Hcon & Hsep & Hmsg). cbn [fst snd] in *.
  destruct (merge_message_groups segs m) as (gs1 & Hc1 & Hg1 & Hw1).
  { by eapply Forall_impl; [exact Hs|intros ? []]. }
  { by eapply Forall_impl; [exact Hs|intros ? []]. }
  assert (Forall (λ g, Forall (λ s, sg_msg s = m) g) gs1) as Hm1.
  { apply Forall_forall. intros g Hg. apply Forall_forall. intros x Hx.
    rewrite Forall_forall in Hs. apply Hs. rewrite <-Hc1. apply elem_of_concat. eauto. }
  exists (gs1 ++ gs). split_and!.
  - rewrite fmap_cons, concat_app, Hc1, Hc. done.
  - rewrite fmap_cons, omap_app, <-Hw, <-Hw1. done.
  - apply Forall_app. split; [by apply grouping_connected|done].
  - apply StronglySorted_app. split_and!; [|by apply grouping_separate|done].
    intros g g' Hg Hg' Heq. exfalso.
    rewrite Forall_forall in Hm1, Hmsg. specialize (Hm1 g Hg). destruct (Hmsg g' Hg') as (p & Hp & Hp').
    apply grouping_connected in Hg1. rewrite Forall_forall in Hg1, Hcon.
    specialize (Hg1 g Hg). specialize (Hcon g' Hg').
    destruct g as [|x g], g' as [|y g']; try done.
    apply Forall_cons in Hm1 as [Hx _]. apply Forall_cons in Hp' as [Hy _].
    apply Hm. rewrite <-Hx, (Heq x y), Hy by by left. by apply list_elem_of_fmap_2.
  - apply Forall_app. split.
    + eapply Forall_impl; [exact Hm1|]. intros g Hg. exists (m, segs). split; [by left|done].
    + eapply Forall_impl; [exact Hmsg|]. intros g (p & Hp & Hg). exists p. split; [by right|done].
Qed.

Lemma byMsg_of_message l :
  Forall in_range l → Forall (λ p, Forall (of_message p.1) p.2) (map_to_list (byMsg l)).
Proof.
  intros HR. apply Forall_forall. intros [m segs] Hp. apply elem_of_map_to_list in Hp. simpl.
  pose proof (byMsg_message l m segs Hp) as Hm. simpl in Hm.
  rewrite lookup_byMsg in Hp. destruct (filter _ l) eqn:E; simplify_eq.
  apply Forall_forall. intros x Hx. rewrite Forall_forall in Hm, HR. split; [|by apply Hm].
  apply HR. rewrite <-E in Hx. by apply list_elem_of_filter in Hx as [_ ?].
Qed.

Lemma all_groups l :
  Forall in_range l →
  ∃ gs, concat gs ≡ₚ l ∧
    concat ((λ p, merge_message p.2) <$> map_to_list (byMsg l)) = omap window_of gs ∧
    Forall connected gs ∧ StronglySorted separate gs.
Proof.
  intros HR. destruct (entries_groups (map_to_list (byMsg l))) as (gs & Hc & Hw & Hcon & Hsep & _).
  - apply NoDup_fst_map_to_list.
  - by apply byMsg_of_message.
  - exists gs. split_and!; [by rewrite Hc, byMsg_concat|done..].
Qed.

Lemma mergeSegments_groups (segments : list segment) :
  Forall in_range segments →
  ∃ gs, concat gs ≡ₚ segments ∧ mergeSegments segments ≡ₚ omap window_of gs ∧
    Forall connected gs ∧ StronglySorted separate gs.
Proof.
  intros HR. destruct (all_groups segments HR) as (gs & Hc & Hw & Hcon & Hsep).
  exists gs. split_and!; [done| |done..]. unfold mergeSegments.
  rewrite merge_sort_Permutation. by rewrite <-Hw.
Qed.

(** What the incident of a group of runs must say: their message, every
    location that reports one of them, each once and in order, the first start
    and the latest end, the number of failures (as Go counts, modulo 2^64), and
    whether one of them is ongoing. *)
Record summarises (g : list segment) (w : FailureWindow) : Prop := {
  su_message : ∀ x, x ∈ g → sg_msg x = fw_Message w;
  su_locations : ∀ l, l ∈ fw_Locations w ↔ ∃ x, x ∈ g ∧ sg_loc x = l;
  su_locations_once : NoDup (fw_Locations w) ∧ StronglySorted String.le (fw_Locations w);
  su_start : (∃ x, x ∈ g ∧ sg_start x = fw_Start w) ∧ ∀ x, x ∈ g → fw_Start w ≤ sg_start x;
  su_end : (∃ x, x ∈ g ∧ sg_end x = fw_End w) ∧ ∀ x, x ∈ g → sg_end x ≤ fw_End w;
  su_count : eqm (fw_Count w) (zsum (sg_count <$> g));
  su_ongoing : fw_Ongoing w = true ↔ ∃ x, x ∈ g ∧ sg_ongoing x = true }.

Lemma latest_end_in e g : latest_end e g = e ∨ ∃ x, x ∈ g ∧ sg_end x = latest_end e g.
Proof.
  unfold latest_end. induction g as [|s g IH]; [by left|]. cbn [fmap list_fmap foldr].
  set (m := foldr Z.max e (sg_end <$> g)) in *.
  destruct (Z.max_spec (sg_end s) m) as [[_ ->]|[_ ->]]; [|right; exists s; by split; [left|]].
  destruct IH as [->|(x & Hx & E)]; [by left|right; exists x; by split; [right|]].
Qed.

(** The running count of a window is that of its group, modulo 2^64. *)
Lemma ow_Count_absorb win g : eqm (ow_Count (foldl absorb win g)) (ow_Count win + zsum (sg_count <$> g)).
Proof.
  revert win. induction g as [|s g IH]; intros win; cbn [foldl]; [simpl; by rewrite Z.add_0_r|].
  rewrite IH. simpl. by rewrite eqm_wrap, Z.add_assoc.
Qed.

Lemma window_summarises g w : connected g → window_of g = Some w → summarises g w.
Proof.
  destruct g as [|s g]; [done|]. intros (HM & _ & HS) [= <-].
  destruct (foldl_absorb (start_window s) g) as (Em & Es & Ee & _ & Eo & El).
  pose proof (ow_Count_absorb (start_window s) g) as Ec. cbn [start_window ow_Message ow_Start ow_End ow_Count ow_Ongoing ow_locs] in *.
  rewrite Forall_forall in HM. apply StronglySorted_inv in HS as [_ HS]. rewrite Forall_forall in HS.
  split; cbn [close_window fw_Message fw_Locations fw_Start fw_End fw_Count fw_Ongoing].
  - rewrite Em. intros x [->|Hx]%elem_of_cons; [done|by apply HM].
  - intros l. unfold sort_strings. rewrite merge_sort_Permutation, elem_of_elements, El. setoid_rewrite elem_of_cons.
    rewrite elem_of_union, elem_of_singleton, elem_of_list_to_set, list_elem_of_fmap. naive_solver.
  - unfold sort_strings. split; [rewrite merge_sort_Permutation; apply NoDup_elements|apply merge_sort_sorted; apply _].
  - rewrite Es. split; [exists s; by split; [left|]|]. intros x [->|Hx]%elem_of_cons; [done|by apply HS].
  - rewrite Ee. split.
    + destruct (latest_end_in (sg_end s) g) as [->|(x & Hx & E)]; [exists s; by split; [left|]|exists x; by split; [right|]].
    + intros x [->|Hx]%elem_of_cons; [apply latest_end_seed|by apply latest_end_le].
  - rewrite Ec. done.
  - rewrite Eo, orb_true_iff, existsb_exists. setoid_rewrite elem_of_cons. setoid_rewrite <-list_elem_of_In. naive_solver.
Qed.

Lemma windows_summarise gs : Forall connected gs → Forall2 summarises gs (omap window_of gs).
Proof.
  induction 1 as [|g gs Hg _ IH]; [constructor|]. cbn [omap list_omap].
  destruct (window_of g) as [w|] eqn:E; [|by destruct g]. constructor; [by apply window_summarises|done].
Qed.

(** C2: the incidents are exactly the connected components of the failure
    runs: the runs fall into groups with one message each, linked in time by
    gaps of at most the tolerance, groups of the same message lie further
    apart than that, and there is one incident per group, which names its
    message, lists every location reporting it, spans from its first start to
    its latest end, counts all its failures and is ongoing when one of its runs
    is. *)
Theorem mergeSegments_components (segments : list segment) :
  Forall in_range segments →
  ∃ gs windows, concat gs ≡ₚ segments ∧ mergeSegments segments ≡ₚ windows ∧ Forall2 summarises gs windows ∧
    Forall connected gs ∧ StronglySorted separate gs.
Proof.
  intros HR. destruct (mergeSegments_groups segments HR) as (gs & Hc & Hw & Hcon & Hsep).
  exists gs, (omap window_of gs). split_and!; [done..|by apply windows_summarise|done|done].
Qed.

(** The key of a group's window. *)
Lemma window_of_key g w : window_of g = Some w →
  ∃ s t, g = s :: t ∧ window_key w = (sg_start s, sg_msg s).
Proof.
  destruct g as [|s t]; [done|]. simpl. intros [= <-]. exists s, t. split; [done|].
  destruct (foldl_absorb (start_window s) t) as (Hm & Hs & _).
  unfold window_key, close_window. simpl. by rewrite Hm, Hs.
Qed.

Lemma window_keys_NoDup gs :
  Forall in_range (concat gs) → Forall connected gs → StronglySorted separate gs →
  NoDup (window_key <$> omap window_of gs).
Proof.
  intros HR Hcon Hsep. induction Hsep as [|g gs Hsep IH Hg]; [constructor|].
  apply Forall_cons in Hcon as [Hc Hcon]. simpl in HR. apply Forall_app in HR as [HRg HR].
  cbn [omap list_omap]. destruct (window_of g) as [w|] eqn:Ew; [|by apply IH].
  rewrite fmap_cons. apply NoDup_cons. split; [|by apply IH].
  intros (w' & Hk & (g' & Hg' & Ew')%list_elem_of_omap)%list_elem_of_fmap.
  destruct (window_of_key g w Ew) as (s & t & -> & Hws).
  destruct (window_of_key g' w' Ew') as (s' & t' & -> & Hws').
  rewrite Forall_forall in Hg, Hcon. specialize (Hg _ Hg'). specialize (Hcon _ Hg').
  destruct Hc as (Hm & _), Hcon as (Hm' & _). rewrite Hws, Hws' in Hk. injection Hk as Hst Hmsg.
  assert (in_range s') as Hs'.
  { rewrite Forall_forall in HR. apply HR, elem_of_concat. eexists. by split; [left|]. }
  apply Forall_cons in HRg as [Hs _]. unfold in_range, mergeGapSeconds in *.
  destruct Hg as [Ha|Ha].
  - intros x y Hx Hy. rewrite Forall_forall in Hm, Hm'.
    apply elem_of_cons in Hx as [->|Hx], Hy as [->|Hy]; rewrite ?(Hm x), ?(Hm' y) by done; done.
  - specialize (Ha s s' ltac:(left) ltac:(left)). unfold mergeGapSeconds in Ha. lia.
  - specialize (Ha s' s ltac:(left) ltac:(left)). unfold mergeGapSeconds in Ha. lia.
Qed.

#[export] Instance newer_total : Total newer.
Proof.
  intros [x m] [y n]. unfold newer. simpl.
  destruct (Z.lt_trichotomy x y) as [?|[->|?]]; [by right; left| |by left; left].
  destruct (total String.le m n); [left|right]; right; done.
Qed.

#[export] Instance newer_trans : Transitive newer.
Proof.
  intros [x m] [y n] [z o]. unfold newer. simpl.
  intros [?|[-> Hmn]] [?|[-> Hno]]; [left; lia|by left|by left|right; split; [done|]].
  by etransitivity.
Qed.

#[export] Instance newer_antisymm : AntiSymm (=) newer.
Proof.
  intros [x m] [y n]. unfold newer. simpl. intros [?|[-> Hmn]] [?|[? Hnm]]; [lia..|].
  f_equal. by apply (anti_symm String.le).
Qed.

(** C25: the incident list does not depend on the order in which the runs
    were collected, on the iteration order of the maps or on how the sorts
    order equal elements; it is sorted by latest start and then message, with
    no two incidents alike in both. *)
Theorem mergeSegments_order_independent (l1 l2 : list segment) :
  Forall in_range l1 → l1 ≡ₚ l2 →
  mergeSegments l1 = mergeSegments l2 ∧
  StronglySorted (by_key newer window_key) (mergeSegments l1) ∧
  NoDup (window_key <$> mergeSegments l1).
Proof.
  intros HR Hp. assert (∀ l, StronglySorted (by_key newer window_key) (mergeSegments l)) as HS.
  { intros l. apply merge_sort_sorted; apply _. }
  assert (NoDup (window_key <$> mergeSegments l1)) as Hnd.
  { destruct (mergeSegments_groups l1 HR) as (gs & Hc & -> & Hcon & Hsep).
    apply window_keys_NoDup; [by rewrite Hc|done..]. }
  split_and!; [|done..].
  apply (sorted_by_key_unique newer window_key); [done| |done..].
  unfold mergeSegments. rewrite !merge_sort_Permutation. fold (byMsg l1) (byMsg l2).
  assert (merge_message <$> byMsg l1 = merge_message <$> byMsg l2) as E.
  { apply map_eq. intros m. rewrite !lookup_fmap, !lookup_byMsg.
    assert (filter (λ s, sg_msg s = m) l1 ≡ₚ filter (λ s, sg_msg s = m) l2) as Hf by by rewrite Hp.
    assert (Forall (of_message m) (filter (λ s, sg_msg s = m) l1)) as Hm.
    { apply Forall_forall. intros x Hx. apply list_elem_of_filter in Hx as [? Hx].
      rewrite Forall_forall in HR. split; [by apply HR|done]. }
    pose proof (merge_message_Permutation m _ _ Hm Hf) as He.
    destruct (filter _ l1), (filter _ l2); simpl; try done; [..|by f_equal].
    - by apply Permutation_nil_cons in Hf.
    - by apply symmetry, Permutation_nil_cons in Hf. }
  assert (∀ m : gmap string (list segment), (λ p, merge_message p.2) <$> map_to_list m ≡ₚ
    (map_to_list (merge_message <$> m)).*2) as Hm.
  { intros m. rewrite map_to_list_fmap, <-list_fmap_compose. done. }
  by rewrite !Hm, E.
Qed.

Definition sim_segments : list segment :=
  [{| sg_loc := "eu"; sg_msg := "timeout"; sg_start := 1000; sg_end := 1120; sg_count := 3; sg_ongoing := false |};
   {| sg_loc := "us"; sg_msg := "timeout"; sg_start := 1300; sg_end := 1360; sg_count := 2; sg_ongoing := false |};
   {| sg_loc := "eu"; sg_msg := "refused"; sg_start := 5000; sg_end := 5000; sg_count := 1; sg_ongoing := false |}].

Lemma sim_segments_in_range : Forall in_range sim_segments.
Proof. repeat constructor; simpl; unfold mergeGapSeconds; lia. Defined.

Lemma mergeSegments_components_witness :
  ∃ gs windows, concat gs ≡ₚ sim_segments ∧ mergeSegments sim_segments ≡ₚ windows ∧ Forall2 summarises gs windows ∧
    Forall connected gs ∧ StronglySorted separate gs.
Proof. exact (mergeSegments_components sim_segments sim_segments_in_range). Defined.

Example sim_incidents : mergeSegments sim_segments =
  [{| fw_Locations := ["eu"]; fw_Message := "refused"; fw_Start := 5000; fw_End := 5000;
      fw_Count := 1; fw_Ongoing := false |};
   {| fw_Locations := ["eu"; "us"]; fw_Message := "timeout"; fw_Start := 1000; fw_End := 1360;
      fw_Count := 5; fw_Ongoing := false |}].
Proof. reflexivity. Qed.

Lemma mergeSegments_order_independent_witness :
  mergeSegments sim_segments = mergeSegments (reverse sim_segments).
Proof.
  apply (mergeSegments_order_independent sim_segments (reverse sim_segments)).
  - exact sim_segments_in_range.
  - by rewrite reverse_Permutation.
Defined.

(** ** Stitching loses no failure *)

Definition counted (segs : list segment) : Z := zsum (sg_count <$> segs).
Definition runs_counted (runs : list FailureRun) : Z := zsum (run_Count <$> runs).

Lemma counted_app l1 l2 : counted (l1 ++ l2) = counted l1 + counted l2.
Proof. unfold counted. by rewrite fmap_app, zsum_app. Qed.

Lemma last_split {A} (l : list A) x : last l = Some x → l = removelast l ++ [x].
Proof.
  intros H. apply last_Some in H as [l' ->]. by rewrite removelast_last.
Qed.

Lemma stitch_run_counts loc opened segs run :
  (opened = true → segs ≠ []) →
  ∃ segs', stitch_run loc opened segs run = Some segs' ∧ segs' ≠ [] ∧
    eqm (counted segs') (counted segs + run_Count run).
Proof.
  intros Hne. unfold stitch_run.
  assert (∃ segs', Some (segs ++ [segment_of loc run]) = Some segs' ∧ segs' ≠ [] ∧
    eqm (counted segs') (counted segs + run_Count run)) as Hnew.
  { eexists. split; [done|]. split; [by destruct segs|].
    rewrite counted_app. unfold counted at 2. simpl. by rewrite Z.add_0_r. }
  destruct (opened && OpenStart run) eqn:E; [|exact Hnew]. apply andb_true_iff in E as [Ho _].
  destruct (last segs) as [x|] eqn:Hl; [|by apply last_None in Hl; destruct (Hne Ho)].
  cbn [mbind option_bind]. destruct (continues x run); [|exact Hnew].
  eexists. split; [done|]. split; [by destruct (removelast segs)|].
  rewrite (last_split segs x Hl) at 2. rewrite !counted_app. unfold counted at 2 4. simpl.
  rewrite eqm_wrap, !Z.add_0_r, Z.add_assoc. done.
Qed.

Lemma stitch_runs_counts loc opened segs runs :
  (opened = true → segs ≠ []) →
  ∃ segs', stitch_runs loc opened segs runs = Some segs' ∧ (runs ≠ [] ∨ segs ≠ [] → segs' ≠ []) ∧
    eqm (counted segs') (counted segs + runs_counted runs).
Proof.
  revert segs. induction runs as [|run runs IH]; intros segs Hne; simpl.
  { exists segs. split_and!; [done|naive_solver|]. unfold runs_counted. simpl. by rewrite Z.add_0_r. }
  destruct (stitch_run_counts loc opened segs run Hne) as (segs1 & -> & Hne1 & Hc1).
  destruct (IH segs1) as (segs2 & Hs2 & Hne2 & Hc2); [done|].
  exists segs2. split; [exact Hs2|]. split; [intros _; apply Hne2; by right|].
  rewrite Hc2, Hc1. unfold runs_counted. simpl. by rewrite Z.add_assoc.
Qed.

(** An open location has a segment to continue. *)
Definition ok_state (st : loc_state) : Prop := ls_open st = true → ls_segs st ≠ [].

Definition states_counted (m : gmap string loc_state) : Z :=
  zsum ((λ p, counted (ls_segs p.2)) <$> map_to_list m).

Lemma states_counted_insert m k st :
  states_counted (<[k := st]> m) =
  counted (ls_segs st) + states_counted (delete k m).
Proof.
  unfold states_counted. rewrite <-insert_delete_eq, map_to_list_insert by apply lookup_delete_eq. done.
Qed.

Lemma states_counted_split m k :
  states_counted m = counted (ls_segs (default no_state (m !! k))) + states_counted (delete k m).
Proof.
  destruct (m !! k) as [st|] eqn:E; simpl.
  - by rewrite <-states_counted_insert, insert_id.
  - by rewrite delete_id.
Qed.

Lemma stitch_location_counts h m p :
  map_Forall (λ _, ok_state) m →
  ∃ m', stitch_location h (Some m) p = Some m' ∧ map_Forall (λ _, ok_state) m' ∧
    eqm (states_counted m') (states_counted m + runs_counted (lr_Runs p.2)).
Proof.
  intros Hm. unfold stitch_location, stitch_hour. cbn [mbind option_bind].
  set (st := default no_state (m !! p.1)).
  assert (ok_state st) as Hst.
  { subst st. destruct (m !! p.1) as [st|] eqn:E; simpl; [by apply (Hm p.1)|done]. }
  destruct (stitch_runs_counts p.1 (ls_open st) (ls_segs st) (lr_Runs p.2)) as (segs & Hs & Hne & Hc).
  { exact Hst. }
  rewrite Hs. cbn [mbind option_bind]. eexists. split; [done|]. split.
  - apply map_Forall_insert_2; [|done]. unfold ok_state. simpl.
    destruct (last (lr_Runs p.2)) eqn:El; [|done]. intros _. apply Hne. left.
    intros E. by rewrite E in El.
  - rewrite states_counted_insert. cbn [ls_segs]. rewrite Hc, (states_counted_split m p.1). fold st.
    by rewrite <-!Z.add_assoc, (Z.add_comm (runs_counted _)).
Qed.

(** The failures the runs of the given rollups count. *)
Definition failures_in (l : list (Z * AggregateRollup)) : Z :=
  zsum ((λ p, zsum ((λ q, runs_counted (lr_Runs q.2)) <$> map_to_list (PerLocation p.2))) <$> l).

Lemma stitch_locations_counts h l m :
  map_Forall (λ _, ok_state) m →
  ∃ m', foldl (stitch_location h) (Some m) l = Some m' ∧ map_Forall (λ _, ok_state) m' ∧
    eqm (states_counted m') (states_counted m + zsum ((λ q, runs_counted (lr_Runs q.2)) <$> l)).
Proof.
  revert m. induction l as [|q l IH]; intros m Hm; cbn [foldl].
  { exists m. split_and!; [done..|]. simpl. by rewrite Z.add_0_r. }
  destruct (stitch_location_counts h m q Hm) as (m1 & -> & Hm1 & Hc1).
  destruct (IH m1 Hm1) as (m2 & -> & Hm2 & Hc2). exists m2. split_and!; [done..|].
  rewrite Hc2, Hc1. simpl. by rewrite Z.add_assoc.
Qed.

Lemma stitch_rollups_counts l m :
  map_Forall (λ _, ok_state) m →
  ∃ m', foldl stitch_rollup (Some m) l = Some m' ∧ map_Forall (λ _, ok_state) m' ∧
    eqm (states_counted m') (states_counted m + failures_in l).
Proof.
  revert m. induction l as [|p l IH]; intros m Hm; cbn [foldl].
  { exists m. split_and!; [done..|]. unfold failures_in. simpl. by rewrite Z.add_0_r. }
  destruct (stitch_locations_counts p.1 (map_to_list (PerLocation p.2)) m Hm) as (m1 & Hs & Hm1 & Hc1).
  unfold stitch_rollup at 2. rewrite Hs.
  destruct (IH m1 Hm1) as (m2 & -> & Hm2 & Hc2). exists m2. split_and!; [done..|].
  rewrite Hc2, Hc1. unfold failures_in. simpl. by rewrite Z.add_assoc.
Qed.

Lemma finish_counts live recent st :
  ok_state st → ∃ segs, finish live recent st = Some segs ∧ counted segs = counted (ls_segs st).
Proof.
  intros Hst. unfold finish. destruct (live && ls_open st && _) eqn:E; [|by eauto].
  apply andb_true_iff in E as [[_ Ho]%andb_true_iff _].
  destruct (last (ls_segs st)) as [x|] eqn:Hl; [|by apply last_None in Hl; destruct (Hst Ho)].
  cbn [mbind option_bind]. eexists. split; [done|].
  rewrite (last_split _ x Hl) at 2. rewrite !counted_app. done.
Qed.

Lemma merge_loop_counts segs win :
  eqm (zsum (fw_Count <$> merge_loop win segs)) (ow_Count win + counted segs).
Proof.
  revert win. induction segs as [|s segs IH]; intros win; cbn [merge_loop]; [done|].
  case_match.
  - rewrite IH. simpl. rewrite eqm_wrap. unfold counted. simpl. by rewrite Z.add_assoc.
  - simpl. rewrite IH. done.
Qed.

Lemma merge_message_counts segs : eqm (zsum (fw_Count <$> merge_message segs)) (counted segs).
Proof.
  unfold merge_message.
  transitivity (counted (merge_sort (by_key Z.le sg_start) segs)).
  - destruct (merge_sort _ segs) as [|s l]; [done|]. cbn [merge_sorted]. by rewrite merge_loop_counts.
  - unfold counted. by rewrite merge_sort_Permutation.
Qed.

Lemma mergeSegments_counts segs : eqm (zsum (fw_Count <$> mergeSegments segs)) (counted segs).
Proof.
  unfold mergeSegments. rewrite merge_sort_Permutation. fold (byMsg segs).
  unfold counted. rewrite <-(byMsg_concat segs) at 2. fold (counted (concat (map_to_list (byMsg segs)).*2)).
  induction (map_to_list (byMsg segs)) as [|p L IH]; [done|].
  rewrite !fmap_cons. cbn [concat]. rewrite fmap_app, zsum_app, counted_app.
  by rewrite merge_message_counts, IH.
Qed.

(** The stitching never indexes an empty slice. *)
Lemma segments_of_total rollups live now :
  ∃ segs, segments_of rollups live now = Some segs ∧ eqm (counted segs) (failures_in (map_to_list rollups)).
Proof.
  unfold segments_of.
  destruct (stitch_rollups_counts (sorted_hours rollups) ∅) as (m & -> & Hm & Hc);
    [apply map_Forall_empty|]. cbn [mbind option_bind].
  assert (∀ L : list (string * loc_state), Forall (λ p, ok_state p.2) L →
    ∃ lists, mapM (λ p, finish live (Unix (Add now (- StatusMaxAge))) p.2) L = Some lists ∧
      counted (concat lists) = zsum ((λ p, counted (ls_segs p.2)) <$> L)) as Hf.
  { induction 1 as [|p L Hp _ (lists & Hl & Hcl)]; [by exists []|].
    destruct (finish_counts live (Unix (Add now (- StatusMaxAge))) p.2 Hp) as (segs & Hs & Hcs).
    exists (segs :: lists). simpl. rewrite Hs. cbn [mbind option_bind]. rewrite Hl.
    split; [done|]. by rewrite counted_app, Hcs, Hcl. }
  destruct (Hf (map_to_list m)) as (lists & -> & Hcl).
  { apply Forall_forall. intros [k st] Hp. apply elem_of_map_to_list in Hp. by apply (Hm k). }
  cbn [mbind option_bind]. eexists. split; [done|].
  rewrite Hcl. fold (states_counted m). rewrite Hc.
  unfold states_counted, failures_in, sorted_hours. rewrite map_to_list_empty.
  by rewrite merge_sort_Permutation.
Qed.

Lemma FailureWindows_total {W} {VA : Valkey W} {CA : Codec AggregateRollup} s d sv from to now live :
  spec (W:=W) (FailureWindows s d sv from to now live) (λ r _, r ≠ Ok None).
Proof.
  unfold FailureWindows. eapply (spec_bind _ _ (λ _ _, True)); [by intros w|].
  intros [rollups|e] t _; [|by apply spec_ret].
  eapply (spec_bind _ _ (λ _ _, True)); [by intros w|]. intros rollups' t' _. apply spec_ret.
  destruct (segments_of_total rollups' live now) as (segs & -> & _). done.
Qed.

(** C26: every failure is counted in exactly one incident: for any rollups,
    readable or not, the stitching never indexes an empty slice, and the
    incidents' counts add up to the failures of all the stored runs, up to the
    wrap-around of a 64-bit counter. *)
Theorem incidents_count_every_failure (rollups : gmap Z AggregateRollup) (live : bool) (now : time) :
  ∃ windows, mergeSegments <$> segments_of rollups live now = Some windows ∧
    eqm (zsum (fw_Count <$> windows)) (failures_in (map_to_list rollups)).
Proof.
  destruct (segments_of_total rollups live now) as (segs & -> & Hc).
  eexists. split; [done|]. by rewrite mergeSegments_counts.
Qed.
