(* ===== verification/IncidentCover.v ===== *)
(** * Every failure lies inside an incident

    A failed check is inside a run of its hour's rollup, the run inside a
    stitched segment of its location, and the segment inside an incident, each
    with the check's message: so long as the rollups of the location are
    timely, their runs in order and inside their hours. *)

From S2P Require Import Prelude GoStd GoTime Errors Trace Keys Ladder Float64 Rollups RollupProps Valkey Store.
From S2P Require Import Incidents IncidentProps.

(** ** From samples to runs *)

Definition in_run (t : Z) (m : string) (run : FailureRun) : Prop :=
  run_Message run = m ∧ run_Start run ≤ t ≤ run_End run.

(** Runs one after the other, from [lo] on and before [hi]. *)
Fixpoint ordered (lo hi : Z) (runs : list FailureRun) : Prop :=
  match runs with
  | [] => lo ≤ hi
  | run :: runs => lo ≤ run_Start run ∧ run_Start run ≤ run_End run ∧ ordered (run_End run) hi runs
  end.

Lemma ordered_mono lo lo' hi runs : lo ≤ lo' → ordered lo' hi runs → ordered lo hi runs.
Proof. destruct runs; simpl; [lia|]. intros ? (? & ? & ?). split_and!; [lia|done..]. Qed.

Lemma ordered_bounds lo hi runs : ordered lo hi runs → lo ≤ hi.
Proof. revert lo. induction runs as [|run runs IH]; intros lo; simpl; [done|]. intros (? & ? & H%IH). lia. Qed.

Definition hourly (h : Z) (runs : list FailureRun) : Prop := ordered h (h + 3600) runs.

Section blocks.
Implicit Types (s : lsample) (l b : list lsample).

Lemma last_chain s b : chain s b → s_fail s = true → ∀ x, x ∈ s :: b → s_fail x = true ∧ s_msg x = s_msg s.
Proof.
  revert s. induction b as [|s' b IH]; intros s Hc Hs x.
  { intros ->%list_elem_of_singleton. done. }
  destruct Hc as [Hj Hc]. unfold joins in Hj. apply andb_true_iff in Hj as [[_ Hf]%andb_true_iff Hm%bool_decide_eq_true].
  intros [->|Hx]%elem_of_cons; [done|]. destruct (IH s' Hc Hf x Hx) as [? ->]. by rewrite Hm.
Qed.

(** The first block of a list that begins with a failure. *)
Lemma blocks_fail s l :
  s_fail s = true → ∃ b l', l = b ++ l' ∧ chain s b ∧ blocks (s :: l) = (s :: b) :: blocks l'.
Proof.
  revert s. induction l as [|x l IH]; intros s Hs; [by exists [], []|].
  destruct (joins s x) eqn:Hj.
  - assert (s_fail x = true) as Hx by (by apply andb_true_iff in Hj as [[_ ?]%andb_true_iff _]).
    destruct (IH x Hx) as (b & l' & -> & Hc & E). exists (x :: b), l'. split; [done|]. split; [done|].
    change (blocks (s :: x :: b ++ l')) with
      (match blocks (x :: b ++ l') with
       | (s'0 :: b0) :: bs => if joins s s'0 then (s :: s'0 :: b0) :: bs else [s] :: (s'0 :: b0) :: bs
       | bs => [s] :: bs
       end).
    by rewrite E, Hj.
  - exists [], (x :: l). split; [done|]. split; [done|]. by rewrite <-(blocks_cons_chain s [] (x :: l)).
Qed.

Definition sorted_samples l : Prop := StronglySorted (by_key Z.le s_ts) l.

Lemma last_ts s b : sorted_samples (s :: b) → ∀ x, x ∈ s :: b → s_ts s ≤ s_ts x ≤ s_ts (default s (last b)).
Proof.
  revert s. induction b as [|s' b IH]; intros s [Hl HS]%StronglySorted_cons x.
  { intros ->%list_elem_of_singleton. simpl. lia. }
  rewrite Forall_forall in Hl. assert (default s (last (s' :: b)) = default s' (last b)) as -> by (by rewrite last_cons; destruct (last b)).
  assert (s_ts s ≤ s_ts s') by (apply Hl; left).
  intros [->|Hx]%elem_of_cons; [|destruct (IH s' HS x Hx); split; [by apply Hl|done]].
  destruct (IH s' HS s' ltac:(left)). lia.
Qed.

(** The runs of an hour's samples cover its failures, in order. *)
Lemma runs_cover lo hi l first :
  sorted_samples l → Forall (λ s, lo ≤ s_ts s < hi) l → lo ≤ hi →
  ordered lo hi (runs_of_blocks first (blocks l)) ∧
  ∀ x, x ∈ l → s_fail x = true → Exists (in_run (s_ts x) (s_msg x)) (runs_of_blocks first (blocks l)).
Proof.
  remember (length l) as n eqn:Hn. revert l lo first Hn.
  induction n as [n IH] using lt_wf_ind. intros [|s l] lo first Hn HS HF Hlo.
  { split; [done|]. by intros x ?%elem_of_nil. }
  pose proof HS as [Hl HS']%StronglySorted_cons. apply Forall_cons in HF as [Hs HF].
  destruct (s_fail s) eqn:Hf.
  - destruct (blocks_fail s l Hf) as (b & l' & -> & Hc & E). rewrite E. cbn [runs_of_blocks run_of]. rewrite Hf. cbn [app].
    assert (default s (last (s :: b)) = default s (last b)) as -> by (rewrite last_cons; by destruct (last b)).
    change (s :: b ++ l') with ((s :: b) ++ l') in HS. apply StronglySorted_app in HS as (Hcross & HSb & HSl').
    apply Forall_app in HF as [HFb HFl'].
    set (e := s_ts (default s (last b))).
    assert (∃ z, z ∈ s :: b ∧ s_ts z = e) as (z & Hz & Ez).
    { unfold e. destruct (last b) as [z|] eqn:Eb; [|exists s; split; [left|done]].
      exists z. split; [|done]. right. apply last_Some in Eb as [b' ->]. set_solver. }
    assert (s_ts s ≤ e < hi) as He.
    { rewrite <-Ez. apply elem_of_cons in Hz as [->|Hz]; [lia|]. rewrite Forall_forall in HFb, Hl.
      pose proof (HFb z Hz). split; [apply Hl; set_solver|lia]. }
    destruct (IH (length l') ltac:(subst n; simpl; rewrite length_app; lia) l' e false eq_refl HSl') as [Ho Hex]; [|lia|].
    { rewrite Forall_forall in HFl' |- *. intros x Hx. split; [|by apply HFl'].
      rewrite <-Ez. by apply (Hcross z x). }
    cbn [ordered run_Start run_End]. fold e. split; [by split_and!; [lia|lia|]|].
    intros x Hx Hxf. change (s :: b ++ l') with ((s :: b) ++ l') in Hx. apply elem_of_app in Hx as [Hx|Hx].
    + left. destruct (last_chain s b Hc Hf x Hx) as [_ ->]. split; [done|]. by apply last_ts.
    + right. by apply Hex.
  - rewrite (runs_success first) by done.
    destruct (IH (length l) ltac:(subst n; simpl; lia) l lo false eq_refl HS') as [Ho Hex]; [exact HF|done|].
    split; [done|]. intros x [->|Hx]%elem_of_cons Hxf; [congruence|by apply Hex].
Qed.
End blocks.

(** ** From runs to segments *)

Definition in_segment (loc m : string) (t : Z) (sg : segment) : Prop :=
  sg_loc sg = loc ∧ sg_msg sg = m ∧ sg_start sg ≤ t ≤ sg_end sg.

(** The segments of one location, all over by [b]. *)
Definition over_by (loc : string) (b : Z) (segs : list segment) : Prop :=
  Forall (λ sg, sg_loc sg = loc ∧ sg_start sg ≤ sg_end sg ≤ b) segs.

Lemma over_by_mono loc b b' segs : b ≤ b' → over_by loc b segs → over_by loc b' segs.
Proof. intros Hb H. eapply Forall_impl; [exact H|]. intros sg (? & ? & ?). split; [done|lia]. Qed.

(** A later list of segments covers what an earlier one covered. *)
Definition covers (segs segs' : list segment) : Prop :=
  ∀ loc m t, Exists (in_segment loc m t) segs → Exists (in_segment loc m t) segs'.

#[export] Instance covers_preorder : PreOrder covers.
Proof. split; [by intros segs loc m t|]. intros s1 s2 s3 H1 H2 loc m t H. by apply H2, H1. Qed.

Lemma stitch_run_covers loc opened b segs run segs' :
  stitch_run loc opened segs run = Some segs' → over_by loc b segs → b ≤ run_Start run → run_Start run ≤ run_End run →
  over_by loc (run_End run) segs' ∧ covers segs segs' ∧
  ∀ t m, in_run t m run → Exists (in_segment loc m t) segs'.
Proof.
  intros Hst Hb Hr He.
  assert (segs' = segs ++ [segment_of loc run] →
    over_by loc (run_End run) segs' ∧ covers segs segs' ∧ ∀ t m, in_run t m run → Exists (in_segment loc m t) segs') as Hnew.
  { intros ->. split; [|split].
    - apply Forall_app. split; [eapply over_by_mono; [|exact Hb]; lia|]. repeat constructor; simpl; lia.
    - intros l m t H. apply Exists_app. by left.
    - intros t m [Hm Ht]. apply Exists_app. right. constructor. split_and!; simpl; [done|done|lia|lia]. }
  unfold stitch_run in Hst. destruct (opened && OpenStart run); [|injection Hst as Hst; by exact (Hnew (eq_sym Hst))].
  destruct (last segs) as [sg|] eqn:El; [|done]. cbn [mbind option_bind] in Hst.
  destruct (continues sg run) eqn:Ec; [|injection Hst as Hst; by exact (Hnew (eq_sym Hst))]. injection Hst as <-.
  apply andb_true_iff in Ec as [Hm%bool_decide_eq_true _].
  pose proof (last_split segs sg El) as E. rewrite E in Hb. apply Forall_app in Hb as [Hb [Hsg _]%Forall_cons].
  destruct Hsg as (Hl & Hs1 & Hs2). split; [|split].
  - apply Forall_app. split; [eapply over_by_mono; [|exact Hb]; lia|]. repeat constructor; simpl; [done|lia|lia].
  - intros l m t H. rewrite E in H. apply Exists_app in H as [H|H]; apply Exists_app; [by left|right].
    apply Exists_cons in H as [(? & ? & ?)|H]; [|by apply Exists_nil in H]. constructor. split_and!; simpl; [done|done|lia|lia].
  - intros t m [Hm' Ht]. apply Exists_app. right. constructor. split_and!; simpl; [done|congruence|lia|lia].
Qed.

Lemma stitch_runs_covers loc opened hi segs runs segs' lo :
  stitch_runs loc opened segs runs = Some segs' → over_by loc lo segs → ordered lo hi runs →
  over_by loc hi segs' ∧ covers segs segs' ∧
  ∀ t m, Exists (in_run t m) runs → Exists (in_segment loc m t) segs'.
Proof.
  revert segs lo. induction runs as [|run runs IH]; intros segs lo; cbn [stitch_runs ordered].
  { intros [= <-] Hb Hlo. split; [by eapply over_by_mono|]. split; [done|]. by intros t m H%Exists_nil. }
  intros Hst Hb (H1 & H2 & Ho). destruct (stitch_run loc opened segs run) as [s1|] eqn:E; [|done].
  destruct (stitch_run_covers _ _ _ _ _ _ E Hb H1 H2) as (Hb1 & Hc1 & Hr1).
  destruct (IH s1 (run_End run) Hst Hb1 Ho) as (Hb2 & Hc2 & Hr2).
  split; [done|]. split; [by etransitivity|]. intros t m [H|H]%Exists_cons; [by apply Hc2, Hr1|by apply Hr2].
Qed.

(** *** The hours of one location *)

Lemma stitch_location_None h L : foldl (stitch_location h) None L = None.
Proof. by induction L. Qed.

(** One hour changes a location's state by its own rollup alone. *)
Lemma stitch_locations_at h L m m' loc :
  NoDup L.*1 → foldl (stitch_location h) (Some m) L = Some m' →
  match list_to_map (M:=gmap string LocationRollup) L !! loc with
  | Some lr => ∃ st, stitch_hour h loc lr (default no_state (m !! loc)) = Some st ∧ m' !! loc = Some st
  | None => m' !! loc = m !! loc
  end.
Proof.
  revert m. induction L as [|[l lr] L IH]; intros m Hnd; cbn [foldl]; [by intros [= <-]|].
  apply NoDup_cons in Hnd as [Hl Hnd]. unfold stitch_location at 2. cbn [mbind option_bind fst snd].
  destruct (stitch_hour h l lr (default no_state (m !! l))) as [st|] eqn:Est; cbn [mbind option_bind];
    [|by rewrite stitch_location_None].
  intros Hf. specialize (IH _ Hnd Hf). cbn [list_to_map foldr fst snd].
  change (foldr _ ∅ L) with (list_to_map (M:=gmap string LocationRollup) L).
  destruct (decide (loc = l)) as [->|Hne].
  - rewrite lookup_insert_eq. rewrite not_elem_of_list_to_map_1 in IH by done. exists st.
    split; [done|]. rewrite IH. apply lookup_insert_eq.
  - rewrite lookup_insert_ne by done. rewrite (lookup_insert_ne m) in IH by done. done.
Qed.

Lemma stitch_rollups_None L : foldl stitch_rollup None L = None.
Proof.
  induction L as [|p L IH]; [done|]. cbn [foldl]. unfold stitch_rollup at 2. by rewrite stitch_location_None.
Qed.

(** Hours one after the other, whole hours apart, with a location's runs in
    order inside each. *)
Definition timely (loc : string) (rollups : gmap Z AggregateRollup) : Prop :=
  map_Forall (λ h r, h `mod` 3600 = 0 ∧
    ∀ lr, PerLocation r !! loc = Some lr → hourly h (lr_Runs lr)) rollups.

Lemma stitch_rollups_covers loc L : ∀ m m' lo,
  StronglySorted (by_key Z.le fst) L → NoDup L.*1 →
  Forall (λ p, lo ≤ p.1 ∧ p.1 `mod` 3600 = 0 ∧
     ∀ lr, PerLocation p.2 !! loc = Some lr → hourly p.1 (lr_Runs lr)) L →
  over_by loc lo (ls_segs (default no_state (m !! loc))) →
  foldl stitch_rollup (Some m) L = Some m' →
  covers (ls_segs (default no_state (m !! loc))) (ls_segs (default no_state (m' !! loc))) ∧
  ∀ h r lr t msg, (h, r) ∈ L → PerLocation r !! loc = Some lr → Exists (in_run t msg) (lr_Runs lr) →
    Exists (in_segment loc msg t) (ls_segs (default no_state (m' !! loc))).
Proof.
  induction L as [|[h r] L IH]; intros m m' lo HS Hnd HF Hb; cbn [foldl].
  { intros [= <-]. split; [done|]. intros ? ? ? ? ? []%elem_of_nil. }
  unfold stitch_rollup at 2. cbn [fst snd].
  destruct (foldl (stitch_location h) (Some m) (map_to_list (PerLocation r))) as [m1|] eqn:E;
    [|by rewrite stitch_rollups_None].
  intros Hf. pose proof (stitch_locations_at h _ m m1 loc (NoDup_fst_map_to_list _) E) as Hat.
  rewrite list_to_map_to_list in Hat.
  apply StronglySorted_cons in HS as [Hle HS]. apply NoDup_cons in Hnd as [Hh Hnd].
  apply Forall_cons in HF as [(Hlo & Hm0 & Hr) HF]. cbn [fst snd] in *.
  assert (Forall (λ p, h + 3600 ≤ p.1 ∧ p.1 `mod` 3600 = 0 ∧
     ∀ lr, PerLocation p.2 !! loc = Some lr → hourly p.1 (lr_Runs lr)) L) as HF'.
  { rewrite Forall_forall in Hle, HF |- *. intros p Hp. destruct (HF p Hp) as (_ & Hm & Hp').
    split; [|done]. specialize (Hle p Hp). unfold by_key in Hle. simpl in Hle.
    assert (h ≠ p.1) by (intros ->; apply Hh; by apply list_elem_of_fmap_2).
    Z.div_mod_to_equations. lia. }
  destruct (PerLocation r !! loc) as [lr|] eqn:El.
  - destruct Hat as (st & Hst & Em). unfold stitch_hour in Hst.
    destruct (stitch_runs loc _ _ (lr_Runs lr)) as [segs|] eqn:Es; [|done]. injection Hst as <-.
    assert (over_by loc h (ls_segs (default no_state (m !! loc)))) as Hbh by (by eapply over_by_mono).
    destruct (stitch_runs_covers _ _ _ _ _ _ _ Es Hbh (Hr lr eq_refl)) as (Hb1 & Hc1 & Hr1).
    destruct (IH m1 m' (h + 3600) HS Hnd HF') as [Hc2 Hr2]; [by rewrite Em|done|]. rewrite Em in Hc2. cbn [default ls_segs] in Hc2.
    split; [by etransitivity|]. intros h' r' lr' t msg [Heq|Hin]%elem_of_cons Hlr Hrun.
    + simplify_eq. by apply Hc2, Hr1.
    + by eapply Hr2.
  - destruct (IH m1 m' (h + 3600) HS Hnd HF') as [Hc2 Hr2]; [rewrite Hat; eapply over_by_mono; [|exact Hb]; lia|done|].
    rewrite Hat in Hc2. split; [done|]. intros h' r' lr' t msg [Heq|Hin]%elem_of_cons Hlr Hrun.
    + simplify_eq.
    + by eapply Hr2.
Qed.

Lemma finish_covers live recent st segs : finish live recent st = Some segs → covers (ls_segs st) segs.
Proof.
  unfold finish. destruct (live && _ && _); [|by intros [= <-]].
  destruct (last (ls_segs st)) as [sg|] eqn:El; [|done]. intros [= <-] loc m t H.
  rewrite (last_split _ _ El) in H. apply Exists_app in H as [H|H]; apply Exists_app; [by left|right].
  apply Exists_cons in H as [H|H]; [|by apply Exists_nil in H]. by constructor.
Qed.

Lemma segments_cover rollups live now segs loc h r lr t m :
  timely loc rollups → segments_of rollups live now = Some segs →
  rollups !! h = Some r → PerLocation r !! loc = Some lr → Exists (in_run t m) (lr_Runs lr) →
  Exists (in_segment loc m t) segs.
Proof.
  intros Ht Hs Hr Hl Hrun. unfold segments_of in Hs.
  destruct (foldl stitch_rollup (Some ∅) (sorted_hours rollups)) as [states|] eqn:Ef; [|done]. cbn [mbind option_bind] in Hs.
  set (lo := foldr Z.min h (sorted_hours rollups).*1).
  assert (∀ p, p ∈ sorted_hours rollups → lo ≤ p.1) as Hlo.
  { intros p Hp. assert (p.1 ∈ (sorted_hours rollups).*1) as Hp' by (by apply list_elem_of_fmap_2).
    subst lo. clear -Hp'. induction (sorted_hours rollups).*1 as [|x l IH]; [by apply elem_of_nil in Hp'|].
    simpl. apply elem_of_cons in Hp' as [->|?]; [lia|]. specialize (IH ltac:(done)). lia. }
  destruct (stitch_rollups_covers loc (sorted_hours rollups) ∅ states lo) as [_ Hcov]; [| | |constructor|exact Ef|].
  - apply (merge_sort_sorted (by_key Z.le fst)).
  - unfold sorted_hours. rewrite merge_sort_Permutation. apply NoDup_fst_map_to_list.
  - apply Forall_forall. intros [h' r'] Hp. split; [by apply (Hlo (h', r'))|].
    unfold sorted_hours in Hp. rewrite merge_sort_Permutation, elem_of_map_to_list in Hp. by apply (Ht h' r').
  - assert (Exists (in_segment loc m t) (ls_segs (default no_state (states !! loc)))) as Hex.
    { eapply (Hcov h r lr); [|done..]. unfold sorted_hours. by rewrite merge_sort_Permutation, elem_of_map_to_list. }
    destruct (states !! loc) as [st|] eqn:Est; [|by apply Exists_nil in Hex]. cbn [default] in Hex.
    destruct (mapM _ (map_to_list states)) as [lists|] eqn:Em; [|done]. injection Hs as <-.
    apply mapM_Some in Em. apply elem_of_map_to_list in Est.
    apply list_elem_of_lookup in Est as [i Hi]. destruct (Forall2_lookup_l _ _ _ _ _ Em Hi) as (l & Hl' & Hfin).
    apply finish_covers in Hfin. apply Hfin in Hex. apply Exists_exists in Hex as (sg & Hsg & Hin).
    apply Exists_exists. exists sg. split; [|done]. apply elem_of_concat. exists l. split; [done|].
    by eapply list_elem_of_lookup_2.
Qed.

(** ** From segments to incidents *)

(** The incident lists the location and spans the time. *)
Definition in_incident (loc m : string) (t : Z) (w : FailureWindow) : Prop :=
  loc ∈ fw_Locations w ∧ fw_Message w = m ∧ fw_Start w ≤ t ≤ fw_End w.

Lemma merge_loop_covers segs : ∀ win loc m t,
  StronglySorted (by_key Z.le sg_start) segs → Forall (λ sg, ow_Start win ≤ sg_start sg) segs →
  Forall (λ sg, sg_msg sg = ow_Message win) segs →
  (loc ∈ ow_locs win ∧ ow_Message win = m ∧ ow_Start win ≤ t ≤ ow_End win) ∨ Exists (in_segment loc m t) segs →
  Exists (in_incident loc m t) (merge_loop win segs).
Proof.
  induction segs as [|sg segs IH]; intros win loc m t HS Hst Hmsg H; cbn [merge_loop].
  { destruct H as [(Hl & Hm & Ht)|H]; [|by apply Exists_nil in H]. constructor. split; [|done].
    cbn [close_window fw_Locations]. unfold sort_strings. by rewrite merge_sort_Permutation, elem_of_elements. }
  apply StronglySorted_cons in HS as [Hle HS]. apply Forall_cons in Hst as [Hst Hsts]. apply Forall_cons in Hmsg as [Hmsg Hmsgs].
  destruct (_ <=? _).
  - apply IH; [done|done|done|]. rewrite ow_End_absorb. cbn [absorb ow_locs ow_Message ow_Start].
    destruct H as [(Hl & Hm & Ht)|[(Hl & Hm & Ht)|H]%Exists_cons]; [| |by right]; left.
    + split_and!; [set_solver|done|lia|lia].
    + split_and!; [set_solver|congruence|lia|lia].
  - rewrite Exists_cons. destruct H as [(Hl & Hm & Ht)|H]; [left|right].
    + split; [|done]. cbn [close_window fw_Locations]. unfold sort_strings. by rewrite merge_sort_Permutation, elem_of_elements.
    + apply IH; [done|done| |].
      * eapply Forall_impl; [exact Hmsgs|]. intros x Hx. cbn [start_window ow_Message]. congruence.
      * apply Exists_cons in H as [(Hl & Hm & Ht)|H]; [left|by right].
        cbn [start_window ow_locs ow_Message ow_Start ow_End]. split_and!; [set_solver|done|lia|lia].
Qed.

Lemma incidents_cover segs loc m t :
  Exists (in_segment loc m t) segs → Exists (in_incident loc m t) (mergeSegments segs).
Proof.
  intros (sg & Hin & Hsg)%Exists_exists. unfold mergeSegments. rewrite merge_sort_Permutation. fold (byMsg segs).
  assert (sg ∈ concat (map_to_list (byMsg segs)).*2) as Hc by by rewrite byMsg_concat.
  apply elem_of_concat in Hc as (g & Hg & Hgs). apply list_elem_of_fmap in Hgs as ([m' g'] & -> & Hp). simpl in Hg.
  apply Exists_concat, Exists_exists. exists (merge_message g'). split.
  { apply list_elem_of_fmap. by exists (m', g'). }
  assert (Forall (λ x, sg_msg x = m') g') as Hm' by (by apply (byMsg_message segs), elem_of_map_to_list).
  unfold merge_message. assert (sg ∈ merge_sort (by_key Z.le sg_start) g') as Hg' by by rewrite merge_sort_Permutation.
  assert (Forall (λ x, sg_msg x = m') (merge_sort (by_key Z.le sg_start) g')) as Hms by by rewrite merge_sort_Permutation.
  pose proof (merge_sort_sorted (by_key Z.le sg_start) g') as HS.
  destruct (merge_sort (by_key Z.le sg_start) g') as [|s0 l]; [by apply elem_of_nil in Hg'|]. cbn [merge_sorted].
  apply StronglySorted_cons in HS as [Hle HS]. apply Forall_cons in Hms as [Hm0 Hms].
  apply merge_loop_covers; [done|done| |].
  - eapply Forall_impl; [exact Hms|]. intros x ->. done.
  - destruct Hsg as (Hl & Hm & Ht). apply elem_of_cons in Hg' as [->|Hg']; [left|right; apply Exists_exists; exists sg; exact (conj Hg' (conj Hl (conj Hm Ht)))].
    cbn [start_window ow_locs ow_Message ow_Start ow_End]. split_and!; [set_solver|done|lia|lia].
Qed.
