(* ===== verification/Sla.v ===== *)
(** * Uptime

    Percentages and day counts (dashboard/internal/store/store.go). *)

From S2P Require Import Prelude GoStd GoTime Ladder Float64 Rollups Valkey Store StoreProps.

(** [fmt.Sprintf("%02d", z)] for [0 <= z]. *)
Definition two (z : Z) : string := pad 2 z.

Definition FormatPercent (success total : Z) : string :=
  if total <=? 0 then ""
  else if total <=? success then "100%"
  else
    let bp := Z.quot (wrap64 (success * 10000)) total in
    let num := trim_right (is_char "0") (FormatInt (Z.quot bp 100) +:+ "." +:+ two (Z.rem bp 100)) in
    trim_right (is_char ".") num +:+ "%".

(** One day's number of checks and how many of them succeeded. *)
Record DayCount := { dc_Success : Z; dc_Total : Z }.

#[export] Instance DayCount_eq_dec : EqDecision DayCount.
Proof. solve_decision. Defined.

Definition zero_DayCount : DayCount := {| dc_Success := 0; dc_Total := 0 |}.

Definition count_hour (out : gmap string DayCount) (p : Z * AggregateRollup) : gmap string DayCount :=
  let key := FormatDate (of_Unix p.1) in
  let c := default zero_DayCount (out !! key) in
  <[key := {| dc_Success := wrap64 (dc_Success c + agg_Success p.2);
              dc_Total := wrap64 (dc_Total c + wrap64 (agg_Success p.2 + agg_Failure p.2)) |}]> out.

(** [key < today] on strings. *)
Definition string_lt (a b : string) : bool := bool_decide (String.le a b ∧ a ≠ b).

Definition count_day (today : string) (out : gmap string DayCount) (p : string * DailyRollup)
  : gmap string DayCount :=
  if string_lt p.1 today then
    <[p.1 := {| dc_Success := dr_Success p.2;
                dc_Total := wrap64 (dr_Success p.2 + dr_Failure p.2) |}]> out
  else out.

Definition ByDay (h : History_) (now : time) : gmap string DayCount :=
  foldl (count_day (FormatDate now)) (foldl count_hour ∅ (map_to_list (Hours h)))
    (map_to_list (Days h)).

(** [for d := 0; d < days; d++] *)
Definition day_keys (days : Z) (now : time) : list string :=
  (λ d, FormatDate (AddDays (Truncate now (24 * Hour)) (- d))) <$> seqZ 0 days.

Definition add_count (byDay : gmap string DayCount) (acc : Z * Z) (key : string) : Z * Z :=
  let c := default zero_DayCount (byDay !! key) in
  (wrap64 (acc.1 + dc_Success c), wrap64 (acc.2 + dc_Total c)).

Definition Uptime (h : History_) (days : Z) (now : time) : Z * Z :=
  foldl (add_count (ByDay h now)) (0, 0) (day_keys days now).

(** ** Percentages *)

(** The value of a decimal with at most two places, in hundredths. *)
Definition parse_hundredths (s : string) : option Z :=
  match cut "." s with
  | None => (λ n, 100 * n) <$> digits_value 0 s
  | Some (a, b) =>
      n ← digits_value 0 a;
      m ← digits_value 0 b;
      if slen b =? 1 then Some (100 * n + 10 * m)
      else if slen b =? 2 then Some (100 * n + m) else None
  end.

(** The rendering of [bp] hundredths of a percent. *)
Definition render (bp : Z) : string :=
  trim_right (is_char ".")
    (trim_right (is_char "0") (FormatInt (Z.quot bp 100) +:+ "." +:+ two (Z.rem bp 100))).

Definition render_ok (bp : Z) : bool := bool_decide (parse_hundredths (render bp) = Some bp).

Lemma render_ok_all bp : 0 ≤ bp < 10000 → render_ok bp = true.
Proof.
  intros H. apply (check_below_spec render_ok (Z.to_nat 10000) 0); [by vm_compute|lia].
Qed.

(** the percentage is exact and rounded down: it shows success/total in
    hundredths of a percent, rounded down, and 100 exactly when nothing
    failed, so no failure is ever rounded away. *)
Theorem FormatPercent_rounds_down (success total : Z) :
  0 ≤ success → 0 < total → success * 10000 < 2 ^ 63 →
  ∃ num, FormatPercent success total = num +:+ "%" ∧
    parse_hundredths num = Some (Z.min 10000 ((success * 10000) `div` total)) ∧
    (num = "100" ↔ total ≤ success).
Proof.
  intros Hs Ht Ho. unfold FormatPercent. rewrite (proj2 (Z.leb_gt _ _)) by done.
  destruct (total <=? success) eqn:E; zb.
  { exists "100". split; [done|]. split; [|done]. rewrite Z.min_l; [done|].
    apply Z.div_le_lower_bound; lia. }
  rewrite wrap64_id by (unfold is_int64; lia). rewrite (Z.quot_div_nonneg (success * 10000) total) by lia.
  set (bp := (success * 10000) `div` total).
  assert (0 ≤ bp < 10000) as Hbp.
  { subst bp. split; [apply Z.div_pos; lia|]. apply Z.div_lt_upper_bound; lia. }
  pose proof (render_ok_all bp Hbp) as Hr. apply bool_decide_eq_true in Hr.
  exists (render bp). split; [done|]. rewrite Z.min_r by lia. split; [done|].
  split; [|lia]. intros E'. rewrite E' in Hr. clearbody bp.
  change (parse_hundredths "100") with (Some 10000) in Hr. injection Hr as <-. lia.
Qed.

Lemma FormatPercent_rounds_down_witness :
  ∃ num, FormatPercent 9999 10001 = num +:+ "%" ∧ parse_hundredths num = Some 9998 ∧
    (num = "100" ↔ 10001 ≤ 9999).
Proof. exact (FormatPercent_rounds_down 9999 10001 ltac:(lia) ltac:(lia) ltac:(lia)). Defined.

(** ** Days *)

Definition hour_total (a : AggregateRollup) : Z := agg_Success a + agg_Failure a.

Lemma foldl_count_hour l m key :
  map_Forall (λ _ c, wrap64 (dc_Success c) = dc_Success c ∧ wrap64 (dc_Total c) = dc_Total c) m →
  foldl count_hour m l !! key =
  if is_nil (hours_of_day key l) then m !! key
  else
    let c := default zero_DayCount (m !! key) in
    Some {| dc_Success := wrap64 (dc_Success c + day_total agg_Success key l);
            dc_Total := wrap64 (dc_Total c + day_total hour_total key l) |}.
Proof.
  revert m. induction l as [|p l IH]; intros m Hm; [done|]. cbn [foldl]. rewrite IH.
  2:{ unfold count_hour. apply map_Forall_insert_2; [|done]. cbn [dc_Success dc_Total].
      split; apply wrap64_id, wrap64_range. }
  cbv zeta. rewrite !day_total_cons. unfold hours_of_day. rewrite filter_cons.
  unfold count_hour. case_decide as Hd; cbn [fst snd fmap list_fmap is_nil].
  - subst key. rewrite lookup_insert_eq. cbn [from_option id dc_Success dc_Total].
    fold (hours_of_day (FormatDate (of_Unix p.1)) l). unfold hour_total at 2.
    destruct (is_nil (hours_of_day (FormatDate (of_Unix p.1)) l)) eqn:E.
    + assert (∀ f, day_total f (FormatDate (of_Unix p.1)) l = 0) as Ht.
      { intros f. unfold day_total. by destruct (hours_of_day (FormatDate (of_Unix p.1)) l). }
      by rewrite !Ht, !Z.add_0_r, wrap64_idemp_r.
    + do 2 f_equal; [by rewrite wrap64_idemp_l, <-Z.add_assoc|].
      change (eqm (wrap64 (dc_Total (default zero_DayCount (m !! FormatDate (of_Unix p.1))) +
        wrap64 (agg_Success p.2 + agg_Failure p.2)) + day_total hour_total (FormatDate (of_Unix p.1)) l)
        (dc_Total (default zero_DayCount (m !! FormatDate (of_Unix p.1))) +
         (agg_Success p.2 + agg_Failure p.2 + day_total hour_total (FormatDate (of_Unix p.1)) l))).
      by rewrite !eqm_wrap, !Z.add_assoc.
  - by rewrite lookup_insert_ne by done.
Qed.

Lemma foldl_count_day today l m key :
  NoDup l.*1 →
  foldl (count_day today) m l !! key =
  match list_to_map (M:=gmap string DailyRollup) l !! key with
  | Some dr => if string_lt key today
               then Some {| dc_Success := dr_Success dr;
                            dc_Total := wrap64 (dr_Success dr + dr_Failure dr) |}
               else m !! key
  | None => m !! key
  end.
Proof.
  revert m. induction l as [|[k dr] l IH]; intros m Hnd; [done|].
  apply NoDup_cons in Hnd as [Hk Hnd]. cbn [foldl]. rewrite IH by done.
  cbn [list_to_map foldr fst snd uncurry]. unfold count_day. cbn [fst snd].
  change (foldr _ ∅ l) with (list_to_map (M:=gmap string DailyRollup) l).
  destruct (decide (key = k)) as [->|Hne].
  - assert (list_to_map (M:=gmap string DailyRollup) l !! k = None) as ->
      by by apply not_elem_of_list_to_map_1.
    rewrite lookup_insert_eq. destruct (string_lt k today); [by rewrite lookup_insert_eq|done].
  - rewrite lookup_insert_ne by done. destruct (list_to_map l !! key); [case_match; [done|]|];
      destruct (string_lt k today); rewrite ?lookup_insert_ne by done; done.
Qed.

(** The reference: what one day counts. *)
Definition day_count (h : History_) (now : time) (key : string) : option DayCount :=
  match Days h !! key with
  | Some dr =>
      if string_lt key (FormatDate now)
      then Some {| dc_Success := dr_Success dr; dc_Total := wrap64 (dr_Success dr + dr_Failure dr) |}
      else None
  | None => None
  end.

Definition hours_count (h : History_) (key : string) : option DayCount :=
  let l := map_to_list (Hours h) in
  if is_nil (hours_of_day key l) then None
  else Some {| dc_Success := wrap64 (day_total agg_Success key l);
               dc_Total := wrap64 (day_total hour_total key l) |}.

Definition counted_day (h : History_) (now : time) (key : string) : option DayCount :=
  match day_count h now key with Some c => Some c | None => hours_count h key end.

Lemma lookup_ByDay h now key : ByDay h now !! key = counted_day h now key.
Proof.
  unfold ByDay, counted_day, day_count, hours_count.
  rewrite foldl_count_day by apply NoDup_fst_map_to_list. rewrite list_to_map_to_list.
  rewrite foldl_count_hour by apply map_Forall_empty. rewrite lookup_empty.
  destruct (Days h !! key); [|done]. by destruct (string_lt _ _).
Qed.

Lemma foldl_add_count byDay keys acc :
  eqm (foldl (add_count byDay) acc keys).1
      (acc.1 + zsum ((λ k, dc_Success (default zero_DayCount (byDay !! k))) <$> keys)) ∧
  eqm (foldl (add_count byDay) acc keys).2
      (acc.2 + zsum ((λ k, dc_Total (default zero_DayCount (byDay !! k))) <$> keys)).
Proof.
  revert acc. induction keys as [|k keys IH]; intros acc; cbn [foldl].
  { simpl. by rewrite !Z.add_0_r. }
  destruct (IH (add_count byDay acc k)) as [-> ->]. unfold add_count. simpl.
  by rewrite !eqm_wrap, !Z.add_assoc.
Qed.

Lemma day_keys_NoDup days now :
  Forall (λ d, four_digit_year (AddDays (Truncate now (24 * Hour)) (- d))) (seqZ 0 days) →
  NoDup (day_keys days now).
Proof.
  intros HF. unfold day_keys. apply NoDup_fmap_2_strong; [|apply NoDup_seqZ].
  intros d e Hd He E. rewrite Forall_forall in HF.
  apply FormatDate_inj in E; [|by apply HF..].
  change (24 * Hour) with Day in E. unfold AddDays in E. rewrite !Truncate_day in E.
  rewrite !Z.div_add in E by done. rewrite !Z.div_mul in E by done.
  unfold Day, Hour, Minute, Second in E. lia.
Qed.

(** C32: the uptime over a number of days counts each of those UTC days once:
    a finished day from its daily rollup when there is one, and every other
    day from exactly the hours that fall on it. *)
Theorem Uptime_counts_each_day_once (h : History_) (days : Z) (now : time) :
  Forall (λ d, four_digit_year (AddDays (Truncate now (24 * Hour)) (- d))) (seqZ 0 days) →
  let count key := default zero_DayCount (counted_day h now key) in
  NoDup (day_keys days now) ∧ len (day_keys days now) = Z.max 0 days ∧
  eqm (Uptime h days now).1 (zsum (dc_Success ∘ count <$> day_keys days now)) ∧
  eqm (Uptime h days now).2 (zsum (dc_Total ∘ count <$> day_keys days now)).
Proof.
  intros HF count. split; [by apply day_keys_NoDup|]. split.
  { unfold len, day_keys. rewrite length_fmap, length_seqZ. lia. }
  assert (∀ f : DayCount → Z, (λ k, f (default zero_DayCount (ByDay h now !! k))) <$> day_keys days now =
    f ∘ count <$> day_keys days now) as Hc.
  { intros f. apply list_fmap_ext. intros i key _. unfold count. simpl. by rewrite lookup_ByDay. }
  unfold Uptime. destruct (foldl_add_count (ByDay h now) (day_keys days now) (0, 0)) as [-> ->].
  by rewrite (Hc dc_Success), (Hc dc_Total).
Qed.

Lemma Uptime_counts_each_day_once_witness :
  let now := of_Unix 1700000000 in
  let h := {| Hours := {[1699999200 := aggregate ∅]}; Days := ∅ |} in
  NoDup (day_keys 2 now).
Proof.
  apply (Uptime_counts_each_day_once
    {| Hours := {[1699999200 := aggregate ∅]}; Days := ∅ |} 2 (of_Unix 1700000000)).
  apply (bool_decide_unpack _). vm_compute. done.
Defined.
