(* ===== verification/Latency.v ===== *)
(** * The latency chart

    Each location's checks over a range, from raw samples and rollups, grouped
    into time buckets when there are too many
    (dashboard/internal/store/latency.go). *)

From S2P Require Import Prelude GoStd GoTime Errors Trace Keys Ladder Float64 Rollups Valkey Store.

Record Point := {
  p_T : Z; p_Span : Z; p_Avg : option float64; p_Min : option float64; p_Max : option float64;
  p_Checks : Z; p_Failed : Z }.

Record LatencyStats := {
  st_Avg : option float64; st_Min : option float64; st_Max : option float64;
  st_Checks : Z; st_Failed : Z }.

Record Latency_ := {
  lat_From : Z; lat_To : Z; lat_Bucket : Z;
  lat_Series : gmap string (list Point); lat_Stats : gmap string LatencyStats }.

Record entry := {
  e_t : Z; e_span : Z; e_checks : Z; e_failed : Z; e_okCount : Z;
  e_sum : float64; e_min : float64; e_max : float64 }.

#[export] Instance entry_eq_dec : EqDecision entry.
Proof. solve_decision. Defined.

Definition zero_entry : entry :=
  {| e_t := 0; e_span := 0; e_checks := 0; e_failed := 0; e_okCount := 0;
     e_sum := fzero; e_min := fzero; e_max := fzero |}.

Definition merge (e o : entry) : entry :=
  let has := 0 <? e_okCount o in
  {| e_t := e_t e; e_span := e_span e;
     e_checks := wrap64 (e_checks e + e_checks o);
     e_failed := wrap64 (e_failed e + e_failed o);
     e_okCount := wrap64 (e_okCount e + e_okCount o);
     e_sum := fadd (e_sum e) (e_sum o);
     e_min := if has && ((e_okCount e =? 0) || fltb (e_min o) (e_min e)) then e_min o else e_min e;
     e_max := if has && ((e_okCount e =? 0) || fltb (e_max e) (e_max o)) then e_max o else e_max e |}.

Definition point (e : entry) (t span : Z) : Point :=
  let has := 0 <? e_okCount e in
  {| p_T := t; p_Span := span;
     p_Avg := if has then Some (fdiv (e_sum e) (float_of_int (e_okCount e))) else None;
     p_Min := if has then Some (e_min e) else None;
     p_Max := if has then Some (e_max e) else None;
     p_Checks := e_checks e; p_Failed := e_failed e |}.

Record rawHour := { rh_entries : list entry; rh_total : Z }.

Definition rollupEntry (hour : Z) (lr : LocationRollup) : entry :=
  let measured := if (lr_Measured lr =? 0) && fltb fzero (lr_AvgMs lr)
                  then lr_Success lr else lr_Measured lr in
  let has := 0 <? measured in
  let flat := feqb (lr_MaxMs lr) fzero in
  {| e_t := hour; e_span := 3600; e_checks := lr_Total lr; e_failed := lr_Failure lr;
     e_okCount := if has then measured else 0;
     e_sum := if has then fmul (lr_AvgMs lr) (float_of_int measured) else fzero;
     e_min := if has then (if flat then lr_AvgMs lr else lr_MinMs lr) else fzero;
     e_max := if has then (if flat then lr_AvgMs lr else lr_MaxMs lr) else fzero |}.

(** ** One location's entries *)

#[export] Instance entry_le_dec : RelDecision (by_key Z.le e_t) := by_key_dec _ _.

(** The raw hours that no rollup covers. *)
Definition raw_only (name : string) (rollups : gmap Z AggregateRollup) (raw : gmap Z rawHour)
  : list entry :=
  concat ((λ p, match rollups !! p.1 with
                | Some r => match PerLocation r !! name with Some _ => [] | None => rh_entries p.2 end
                | None => rh_entries p.2
                end) <$> map_to_list raw).

(** What one rolled-up hour shows: its rollup or its raw checks. *)
Definition hour_entries (name : string) (from settled : Z) (raw : gmap Z rawHour)
    (p : Z * AggregateRollup) : list entry :=
  match PerLocation p.2 !! name with
  | None => []
  | Some lr =>
      match raw !! p.1 with
      | None => if from <=? p.1 then [rollupEntry p.1 lr] else []
      | Some rh =>
          if (from <=? p.1) && (p.1 <? settled) && (rh_total rh <? lr_Total lr)
          then [rollupEntry p.1 lr] else rh_entries rh
      end
  end.

Definition location_entries (name : string) (from settled : Z) (rollups : gmap Z AggregateRollup)
    (raw : gmap Z rawHour) : list entry :=
  merge_sort (by_key Z.le e_t)
    (raw_only name rollups raw ++
     concat (hour_entries name from settled raw <$> map_to_list rollups)).

(** ** Plotting *)

Fixpoint bucket_loop (from bucket : Z) (cur : entry) (curIdx : Z) (entries : list entry)
  : list Point :=
  match entries with
  | [] => [point cur (from + curIdx * bucket) bucket]
  | e :: entries =>
      let idx := Z.quot (e_t e - from) bucket in
      if idx =? curIdx then bucket_loop from bucket (merge cur e) curIdx entries
      else point cur (from + curIdx * bucket) bucket
           :: bucket_loop from bucket (merge zero_entry e) idx entries
  end.

Definition bucketed (from bucket : Z) (entries : list entry) : list Point :=
  match entries with
  | [] => []
  | e :: entries =>
      bucket_loop from bucket (merge zero_entry e) (Z.quot (e_t e - from) bucket) entries
  end.

Definition series (from bucket : Z) (entries : list entry) : list Point :=
  if bucket =? 0 then (λ e, point e (e_t e) (e_span e)) <$> entries
  else bucketed from bucket entries.

Definition stats (entries : list entry) : LatencyStats :=
  let p := point (foldl merge zero_entry entries) 0 0 in
  {| st_Avg := p_Avg p; st_Min := p_Min p; st_Max := p_Max p;
     st_Checks := p_Checks p; st_Failed := p_Failed p |}.

(** The bucket width: 0 unless a location has more entries than the limit. *)
Definition bucket_width (maxPoints span : Z) (byLocation : gmap string (list entry)) : Z :=
  if (0 <? maxPoints) &&
     existsb (λ p, maxPoints <? len p.2) (map_to_list byLocation)
  then Z.quot span maxPoints + 1 else 0.

Definition plot (from to maxPoints : Z) (byLocation : gmap string (list entry)) : Latency_ :=
  let bucket := bucket_width maxPoints (to - from) byLocation in
  {| lat_From := from; lat_To := to; lat_Bucket := bucket;
     lat_Series := series from bucket <$> byLocation; lat_Stats := stats <$> byLocation |}.

(** ** Reading *)

Definition raw_entry (from to : Z) (detailMap : gmap string string) (p : string * string)
  : option entry :=
  let '(tss, st) := p in
  match ParseInt tss with
  | (_, Some _) => None
  | (ts, None) =>
      if (ts <? from) || (to <? ts) then None
      else
        Some
          (if decide (st = "f") then
             {| e_t := ts; e_span := 0; e_checks := 1; e_failed := 1; e_okCount := 0;
                e_sum := fzero; e_min := fzero; e_max := fzero |}
           else match detailMap !! tss with
                | Some d =>
                    let ms := float_of_int (parseDetail d).1 in
                    {| e_t := ts; e_span := 0; e_checks := 1; e_failed := 0; e_okCount := 1;
                       e_sum := ms; e_min := ms; e_max := ms |}
                | None =>
                    {| e_t := ts; e_span := 0; e_checks := 1; e_failed := 0; e_okCount := 0;
                       e_sum := fzero; e_min := fzero; e_max := fzero |}
                end)
  end.

(** The starts of the hours from [h] on that are not after [to]. *)
Fixpoint hours_until (fuel : nat) (h to : time) : list time :=
  match fuel with
  | O => []
  | S fuel => if After h to then [] else h :: hours_until fuel (Add h Hour) to
  end.

(** Enough for every hour of the range: see [hours_until_complete]. *)
Definition hours_fuel (h to : time) : nat := Z.to_nat ((to - h) `div` Hour + 1).

Section reading.
Context {W : Type} `{!Valkey W, !Codec AggregateRollup}.

Notation V := (M command W).

(** DoMulti: both hashes of every hour, before any answer is looked at. *)
Fixpoint read_hours (c : Client) (dash svc : string) (hours : list time)
  : V (list (time * result verror (gmap string string) * result verror (gmap string string))) :=
  match hours with
  | [] => mret []
  | h :: hours =>
      st ← hgetall c (StatusHour dash svc (Unix h));
      d ← hgetall c (DetailHour dash svc (Unix h));
      rest ← read_hours c dash svc hours;
      mret ((h, st, d) :: rest)
  end.

Fixpoint raw_hours (from to : Z)
    (answers : list (time * result verror (gmap string string) * result verror (gmap string string)))
    (out : gmap Z rawHour) : result verror (gmap Z rawHour) :=
  match answers with
  | [] => Ok out
  | (_, Err e, _) :: _ => Err e
  | (_, Ok _, Err e) :: _ => Err e
  | (h, Ok statusMap, Ok detailMap) :: answers =>
      raw_hours from to answers
        (if decide (statusMap = ∅) then out
         else <[Unix h := {| rh_entries := omap (raw_entry from to detailMap) (map_to_list statusMap);
                             rh_total := Z.of_nat (size statusMap) |}]> out)
  end.

Definition rawEntries (c : Client) (dash svc : string) (from to : time)
  : V (result verror (gmap Z rawHour)) :=
  let h := Truncate from Hour in
  answers ← read_hours c dash svc (hours_until (hours_fuel h to) h to);
  mret (raw_hours (Unix from) (Unix to) answers ∅).

(** The locations one by one; a location whose samples cannot be read is
    drawn from its rollups alone. *)
Fixpoint entries_loop (s : Store) (dash svc : string) (from to : time) (settled : Z)
    (rollups : gmap Z AggregateRollup) (names : list string) (byLocation : gmap string (list entry))
  : V (gmap string (list entry)) :=
  match names with
  | [] => mret byLocation
  | name :: names =>
      match locations s !! name with
      | None => entries_loop s dash svc from to settled rollups names byLocation
      | Some c =>
          r ← rawEntries c dash svc from to;
          let raw := match r with Ok raw => raw | Err _ => ∅ end in
          let entries := location_entries name (Unix from) settled rollups raw in
          entries_loop s dash svc from to settled rollups names
            (if is_nil entries then byLocation else <[name := entries]> byLocation)
      end
  end.

Definition Latency (s : Store) (dash svc : string) (from to : time) (maxPoints : Z)
  : V (result verror Latency_) :=
  r ← GetAggregateRollups s dash svc (Truncate from Hour) to;
  match r with
  | Err e => mret (Err e)
  | Ok rollups =>
      let settled := Unix (Add (Truncate to Hour) (- Hour)) in
      byLocation ← entries_loop s dash svc from to settled rollups (LocationNames s) ∅;
      mret (Ok (plot (Unix from) (Unix to) maxPoints byLocation))
  end.
End reading.

(** ** Properties *)

(** The hours read are all those of the range. *)
Lemma hours_until_complete h to x :
  x ∈ hours_until (hours_fuel h to) h to ↔ ∃ k, 0 ≤ k ∧ x = h + k * Hour ∧ x ≤ to.
Proof.
  unfold hours_fuel. remember (Z.to_nat ((to - h) `div` Hour + 1)) as n eqn:Hn.
  assert ((to - h) `div` Hour + 1 ≤ Z.of_nat n) as Hle by lia. clear Hn.
  revert h Hle. induction n as [|n IH]; intros h Hle; simpl.
  - split; [by intros ?%elem_of_nil|]. intros (k & Hk & -> & Hx). exfalso.
    unfold Hour, Minute, Second in *. Z.div_mod_to_equations. lia.
  - unfold After, Add. destruct (to <? h) eqn:E; zb.
    + split; [by intros ?%elem_of_nil|]. intros (k & Hk & -> & Hx). exfalso.
      unfold Hour, Minute, Second in *. lia.
    + rewrite elem_of_cons, IH.
      2:{ replace (to - (h + Hour)) with (to - h + (-1) * Hour) by lia. rewrite Z.div_add by done. lia. }
      split.
      * intros [->|(k & Hk & -> & Hx)]; [exists 0|exists (k + 1)]; lia.
      * intros (k & Hk & -> & Hx). destruct (decide (k = 0)) as [->|]; [left; lia|].
        right. exists (k - 1). lia.
Qed.

(** An entry inside the range, in Unix seconds. *)
Definition in_chart (from to : Z) (e : entry) : Prop := from ≤ e_t e ≤ to.

(** *** The buckets of a sorted series *)

Lemma bucket_loop_counts from bucket cur idx l :
  eqm (zsum (p_Checks <$> bucket_loop from bucket cur idx l)) (e_checks cur + zsum (e_checks <$> l)) ∧
  eqm (zsum (p_Failed <$> bucket_loop from bucket cur idx l)) (e_failed cur + zsum (e_failed <$> l)).
Proof.
  revert cur idx. induction l as [|e l IH]; intros cur idx; cbn [bucket_loop]; [done|].
  case_match; simpl.
  - destruct (IH (merge cur e) idx) as [-> ->]. simpl. by rewrite !eqm_wrap, !Z.add_assoc.
  - destruct (IH (merge zero_entry e) (Z.quot (e_t e - from) bucket)) as [-> ->]. simpl.
    by rewrite !eqm_wrap.
Qed.

Lemma series_counts from bucket l :
  eqm (zsum (p_Checks <$> series from bucket l)) (zsum (e_checks <$> l)) ∧
  eqm (zsum (p_Failed <$> series from bucket l)) (zsum (e_failed <$> l)).
Proof.
  unfold series. destruct (bucket =? 0).
  - by rewrite <-!list_fmap_compose.
  - destruct l as [|e l]; [done|]. cbn [bucketed].
    destruct (bucket_loop_counts from bucket (merge zero_entry e) (Z.quot (e_t e - from) bucket) l) as [-> ->].
    simpl. by rewrite !eqm_wrap.
Qed.

Lemma stats_counts l :
  eqm (st_Checks (stats l)) (zsum (e_checks <$> l)) ∧ eqm (st_Failed (stats l)) (zsum (e_failed <$> l)).
Proof.
  assert (∀ e, eqm (e_checks (foldl merge e l)) (e_checks e + zsum (e_checks <$> l)) ∧
               eqm (e_failed (foldl merge e l)) (e_failed e + zsum (e_failed <$> l))) as Hf.
  { induction l as [|o l IH]; intros e; cbn [foldl]; [simpl; by rewrite !Z.add_0_r|].
    destruct (IH (merge e o)) as [-> ->]. simpl. by rewrite !eqm_wrap, !Z.add_assoc. }
  destruct (Hf zero_entry) as [H1 H2]. simpl in *. done.
Qed.

(** The buckets' starts grow, from the current one up to the last of the
    range. *)
Lemma bucket_loop_starts from bucket n cur idx l :
  0 < bucket → idx < n →
  Forall (λ e, idx ≤ Z.quot (e_t e - from) bucket < n) l →
  StronglySorted (by_key Z.le e_t) l → Forall (λ e, from ≤ e_t e) l →
  StronglySorted Z.lt (p_T <$> bucket_loop from bucket cur idx l) ∧
  Forall (λ p, from + idx * bucket ≤ p_T p) (bucket_loop from bucket cur idx l) ∧
  len (bucket_loop from bucket cur idx l) ≤ n - idx.
Proof.
  intros Hb. revert cur idx. induction l as [|e l IH]; intros cur idx Hn HF HS Hge; cbn [bucket_loop].
  { split_and!; [by repeat constructor|constructor; [simpl; lia|constructor]|unfold len; simpl; lia]. }
  apply Forall_cons in HF as [He HF]. apply StronglySorted_cons in HS as [Hle HS].
  apply Forall_cons in Hge as [Hge0 Hge].
  set (j := Z.quot (e_t e - from) bucket) in *.
  assert (Forall (λ x, j ≤ Z.quot (e_t x - from) bucket < n) l) as HFj.
  { apply Forall_forall. intros x Hx. rewrite Forall_forall in HF, Hle, Hge.
    specialize (Hle x Hx). specialize (HF x Hx). split; [|lia]. subst j.
    unfold by_key in Hle. apply Z.quot_le_mono; lia. }
  destruct (j =? idx) eqn:E; zb.
  - apply IH; [done| |done..]. by rewrite <-E.
  - destruct (IH (merge zero_entry e) j) as (Hs & Hf & Hl); [lia|done..|].
    assert (from + idx * bucket < from + j * bucket) as Hlt by nia.
    split_and!.
    + rewrite fmap_cons. constructor; [done|]. apply Forall_fmap.
      eapply Forall_impl; [exact Hf|]. intros p Hp. simpl in *. lia.
    + constructor; [simpl; lia|]. eapply Forall_impl; [exact Hf|]. intros p Hp. simpl in *. lia.
    + rewrite len_cons. lia.
Qed.

Lemma quot_bucket_range from to maxPoints t :
  0 < maxPoints → from ≤ t ≤ to →
  0 ≤ Z.quot (t - from) (Z.quot (to - from) maxPoints + 1) < maxPoints.
Proof.
  intros Hm Ht. rewrite !Z.quot_div_nonneg; [|lia..|].
  2:{ pose proof (Z.quot_pos (to - from) maxPoints). lia. }
  split.
  - apply Z.div_pos; [lia|]. pose proof (Z.div_pos (to - from) maxPoints). lia.
  - pose proof (Z.div_pos (to - from) maxPoints ltac:(lia) ltac:(lia)).
    apply Z.div_lt_upper_bound; [lia|].
    pose proof (Z.div_mod (to - from) maxPoints ltac:(lia)).
    pose proof (Z.mod_pos_bound (to - from) maxPoints ltac:(lia)). nia.
Qed.

Lemma series_bounded from to maxPoints l :
  0 < maxPoints → Forall (in_chart from to) l → StronglySorted (by_key Z.le e_t) l →
  len (series from (Z.quot (to - from) maxPoints + 1) l) ≤ maxPoints ∧
  StronglySorted Z.lt (p_T <$> series from (Z.quot (to - from) maxPoints + 1) l).
Proof.
  intros Hm HF HS. unfold series.
  destruct l as [|e l].
  { case_match; unfold len; simpl; (split; [lia|constructor]). }
  apply Forall_cons in HF as [He HF]. apply StronglySorted_cons in HS as [Hle HS].
  unfold in_chart in *.
  assert (0 ≤ Z.quot (to - from) maxPoints) by (apply Z.quot_pos; lia).
  rewrite (proj2 (Z.eqb_neq _ _)) by lia. cbn [bucketed].
  pose proof (quot_bucket_range from to maxPoints (e_t e) Hm He) as Hj.
  destruct (bucket_loop_starts from (Z.quot (to - from) maxPoints + 1) maxPoints
    (merge zero_entry e) (Z.quot (e_t e - from) (Z.quot (to - from) maxPoints + 1)) l)
    as (Hs & _ & Hl); [lia|lia| |done| |split; [lia|done]].
  - apply Forall_forall. intros x Hx. rewrite Forall_forall in HF, Hle.
    specialize (Hle x Hx). unfold by_key in Hle. split.
    + apply Z.quot_le_mono; lia.
    + by apply (quot_bucket_range from to maxPoints (e_t x) Hm), HF.
  - eapply Forall_impl; [exact HF|]. simpl. lia.
Qed.

Lemma plot_bounded from to maxPoints byLocation :
  0 < maxPoints →
  map_Forall (λ _ l, Forall (in_chart from to) l ∧ StronglySorted (by_key Z.le e_t) l) byLocation →
  map_Forall (λ _ ps, len ps ≤ maxPoints) (lat_Series (plot from to maxPoints byLocation)).
Proof.
  intros Hm HF name ps. unfold plot. simpl. rewrite lookup_fmap, fmap_Some.
  intros (l & Hl & ->). destruct (HF name l Hl) as [Hin Hs]. unfold bucket_width.
  rewrite (proj2 (Z.ltb_lt _ _)) by done. simpl.
  destruct (existsb _ _) eqn:E; [by apply series_bounded|].
  assert (len l ≤ maxPoints).
  { destruct (decide (len l ≤ maxPoints)); [done|]. exfalso.
    assert (existsb (λ p, maxPoints <? len p.2) (map_to_list byLocation) = true); [|congruence].
    apply existsb_exists. exists (name, l). split; [|apply Z.ltb_lt; simpl; lia].
    by apply list_elem_of_In, elem_of_map_to_list. }
  unfold series. simpl. unfold len in *. by rewrite length_fmap.
Qed.

(** *** What the entries are *)

(** Rollups of hours not after the end of the range. *)
Definition rollups_until (to : Z) (rollups : gmap Z AggregateRollup) : Prop :=
  map_Forall (λ h _, h ≤ to) rollups.

Definition raw_in_chart (from to : Z) (raw : gmap Z rawHour) : Prop :=
  map_Forall (λ _ rh, Forall (in_chart from to) (rh_entries rh)) raw.

Lemma location_entries_in_chart name from to settled rollups raw :
  rollups_until to rollups → raw_in_chart from to raw →
  Forall (in_chart from to) (location_entries name from settled rollups raw) ∧
  StronglySorted (by_key Z.le e_t) (location_entries name from settled rollups raw).
Proof.
  intros Hro Hra. split; [|apply merge_sort_sorted; apply _].
  unfold location_entries. rewrite merge_sort_Permutation. apply Forall_app. split.
  - unfold raw_only. apply Forall_concat, Forall_fmap, Forall_forall.
    intros [h rh] Hp%elem_of_map_to_list. specialize (Hra h rh Hp). simpl in *.
    destruct (rollups !! h) as [r|]; [|done]. by destruct (PerLocation r !! name).
  - apply Forall_concat, Forall_fmap, Forall_forall.
    intros [h r] Hp%elem_of_map_to_list. specialize (Hro h r Hp). simpl in *.
    unfold hour_entries. simpl. destruct (PerLocation r !! name) as [lr|]; [|constructor].
    assert (from ≤ h → Forall (in_chart from to) [rollupEntry h lr]) as Hone.
    { intros. constructor; [|constructor]. unfold in_chart. simpl. lia. }
    destruct (raw !! h) as [rh|] eqn:E.
    + destruct ((from <=? h) && _ && _) eqn:E'; [|by apply (Hra h)].
      apply Hone. zb. lia.
    + destruct (from <=? h) eqn:E'; [|constructor]. apply Hone. zb. lia.
Qed.

Lemma raw_hours_in_chart from to answers out raw :
  raw_in_chart from to out → raw_hours from to answers out = Ok raw → raw_in_chart from to raw.
Proof.
  revert out. induction answers as [|[[h [statusMap|e]] [detailMap|e']] answers IH];
    intros out Hout H; simpl in H; simplify_eq; [done|].
  apply (IH _) in H; [done|]. case_decide; [done|].
  apply map_Forall_insert_2; [|done]. simpl. apply Forall_forall.
  intros e ([tss st] & Hin & He)%list_elem_of_omap. unfold raw_entry in He.
  destruct (ParseInt tss) as [ts [|]]; [done|].
  destruct ((ts <? from) || (to <? ts)) eqn:E; [done|]. zb. simplify_eq.
  unfold in_chart. case_decide; simpl; [lia|]. destruct (detailMap !! tss); simpl; lia.
Qed.

Section latency_theorems.
Context {W : Type} `{!Valkey W, !Codec AggregateRollup}.

Lemma spec_rawEntries c dash svc from to :
  spec (rawEntries (W:=W) c dash svc from to)
    (λ r _, match r with Ok raw => raw_in_chart (Unix from) (Unix to) raw | Err _ => True end).
Proof.
  unfold rawEntries. eapply spec_bind with (Q := λ _ _, True); [by intros w|].
  intros answers t _. apply spec_ret.
  destruct (raw_hours _ _ answers ∅) as [raw|] eqn:E; [|done].
  eapply raw_hours_in_chart; [|exact E]. apply map_Forall_empty.
Qed.

Lemma spec_entries_loop s dash svc from to settled rollups names byLocation :
  let ok := map_Forall (λ _ l, Forall (in_chart (Unix from) (Unix to)) l ∧
                               StronglySorted (by_key Z.le e_t) l) in
  rollups_until (Unix to) rollups → ok byLocation →
  spec (entries_loop (W:=W) s dash svc from to settled rollups names byLocation) (λ out _, ok out).
Proof.
  intros ok Hro. revert byLocation. induction names as [|name names IH]; intros byLocation Hok; simpl.
  { by apply spec_ret. }
  destruct (locations s !! name) as [c|]; [|by apply IH].
  eapply spec_bind; [apply spec_rawEntries|]. intros r t Hr. cbv beta in Hr.
  eapply spec_mono; [apply IH|done]. destruct (is_nil _); [done|].
  apply map_Forall_insert_2; [|done]. apply location_entries_in_chart; [done|].
  destruct r; [done|apply map_Forall_empty].
Qed.

Lemma spec_GetAggregateRollups (s : Store) dash svc from to :
  spec (GetAggregateRollups (W:=W) s dash svc from to)
    (λ r _, match r with Ok rollups => rollups_until (Unix to) rollups | Err _ => True end).
Proof.
  unfold GetAggregateRollups. step_act. apply spec_ret. destruct a as [all|e]; [|done]. simpl.
  intros h r Hr. apply elem_of_list_to_map_2, list_elem_of_omap in Hr as ([field val] & _ & Hp).
  unfold read_hour in Hp. destruct (ParseInt field) as [epoch [|]]; [done|].
  destruct (Before _ _ || After _ _) eqn:E; [done|].
  destruct (unmarshal val); [|done]. simpl in Hp. simplify_eq.
  unfold Before, After in E. zb. unfold of_Unix, Unix, Second in *. Z.div_mod_to_equations. lia.
Qed.

(** C34: a chart never exceeds its point limit: with a positive limit, every
    location's series has at most that many points, whatever the servers
    answer. *)
Theorem Latency_respects_maxPoints (s : Store) (dash svc : string) (from to : time)
    (maxPoints : positive) (w : W) :
  match (Latency s dash svc from to (Z.pos maxPoints) w).1.1 with
  | Ok lat => map_Forall (λ _ ps, len ps ≤ Z.pos maxPoints) (lat_Series lat)
  | Err _ => True
  end.
Proof.
  cut (spec (W:=W) (Latency s dash svc from to (Z.pos maxPoints)) (λ r _,
    match r with Ok lat => map_Forall (λ _ ps, len ps ≤ Z.pos maxPoints) (lat_Series lat) | Err _ => True end)).
  { intros Hs. apply (Hs w). }
  unfold Latency. eapply spec_bind; [apply spec_GetAggregateRollups|].
  intros [rollups|e] t Hr; cbv beta in Hr; [|by apply spec_ret].
  eapply spec_bind; [by apply spec_entries_loop|]. intros byLocation t' Hb. cbv beta in Hb.
  apply spec_ret. by apply plot_bounded.
Qed.
End latency_theorems.

(** C33: the chart loses no check: for every location the counts of its points
    and its summary both add up to those of its entries, grouped or not, up to
    the wrap-around of the counters. *)
Theorem plot_conserves_checks (from to maxPoints : Z) (byLocation : gmap string (list entry))
    (name : string) :
  match lat_Series (plot from to maxPoints byLocation) !! name,
        lat_Stats (plot from to maxPoints byLocation) !! name, byLocation !! name with
  | Some ps, Some st, Some entries =>
      eqm (zsum (p_Checks <$> ps)) (zsum (e_checks <$> entries)) ∧
      eqm (zsum (p_Failed <$> ps)) (zsum (e_failed <$> entries)) ∧
      eqm (st_Checks st) (zsum (e_checks <$> entries)) ∧
      eqm (st_Failed st) (zsum (e_failed <$> entries))
  | None, None, None => True
  | _, _, _ => False
  end.
Proof.
  unfold plot. simpl. rewrite !lookup_fmap. destruct (byLocation !! name) as [l|]; [|done]. simpl.
  destruct (series_counts from (bucket_width maxPoints (to - from) byLocation) l) as [-> ->].
  by destruct (stats_counts l) as [-> ->].
Qed.

(** The one source of an hour's entries. *)
Definition hour_source (name : string) (from settled : Z) (rollups : gmap Z AggregateRollup)
    (raw : gmap Z rawHour) (h : Z) : list entry :=
  match r ← rollups !! h; PerLocation r !! name, raw !! h with
  | Some lr, Some rh =>
      if (from <=? h) && (h <? settled) && (rh_total rh <? lr_Total lr)
      then [rollupEntry h lr] else rh_entries rh
  | Some lr, None => if from <=? h then [rollupEntry h lr] else []
  | None, Some rh => rh_entries rh
  | None, None => []
  end.

Lemma concat_filter_nil {A B} (f : A → list B) (P : A → Prop) `{!∀ x, Decision (P x)} l :
  (∀ x, x ∈ l → ¬ P x → f x = []) → concat (f <$> l) = concat (f <$> filter P l).
Proof.
  induction l as [|x l IH]; intros Hnil; [done|]. rewrite filter_cons.
  cbn [fmap list_fmap concat]. rewrite IH by (intros; apply Hnil; [by right|done]).
  case_decide; [done|]. rewrite (Hnil x); [done|by left|done].
Qed.

Section one_source.
Variable name : string.
Variables from settled : Z.
Variable rollups : gmap Z AggregateRollup.
Variable raw : gmap Z rawHour.

Notation src := (hour_source name from settled rollups raw).

(** The hour's rollup has the location. *)
Definition covered (h : Z) : bool :=
  match r ← rollups !! h; PerLocation r !! name with Some _ => true | None => false end.

Lemma raw_only_sources :
  raw_only name rollups raw = concat (src <$> filter (λ h, covered h = false) (map_to_list raw).*1).
Proof.
  unfold raw_only.
  assert (∀ p, p ∈ map_to_list raw → raw !! p.1 = Some p.2) as Hin by (by intros [h rh] ?%elem_of_map_to_list).
  induction (map_to_list raw) as [|[h rh] l IH]; [done|].
  rewrite !fmap_cons, filter_cons. cbn [concat fst snd].
  rewrite IH by (intros; apply Hin; by right).
  specialize (Hin (h, rh) ltac:(left)). simpl in Hin. unfold covered, hour_source. simpl.
  destruct (rollups !! h) as [r|] eqn:Er; simpl; [destruct (PerLocation r !! name) eqn:Ep|];
    simpl; rewrite ?Er; simpl; rewrite ?Ep, ?Hin; done.
Qed.

Lemma hour_entries_sources :
  concat (hour_entries name from settled raw <$> map_to_list rollups) =
  concat (src <$> filter (λ h, covered h = true) (map_to_list rollups).*1).
Proof.
  assert (∀ p, p ∈ map_to_list rollups → rollups !! p.1 = Some p.2) as Hin by (by intros [h r] ?%elem_of_map_to_list).
  induction (map_to_list rollups) as [|[h r] l IH]; [done|].
  rewrite !fmap_cons, filter_cons. cbn [concat fst snd].
  rewrite IH by (intros; apply Hin; by right).
  specialize (Hin (h, r) ltac:(left)). simpl in Hin. unfold covered, hour_entries, hour_source. simpl.
  rewrite Hin. simpl. destruct (PerLocation r !! name) as [lr|] eqn:Ep; simpl; [|done].
  rewrite Hin. simpl. by rewrite Ep.
Qed.

(** The hours either list has, each once. *)
Definition source_hours : list Z :=
  filter (λ h, covered h = false) (map_to_list raw).*1 ++ filter (λ h, covered h = true) (map_to_list rollups).*1.

Lemma source_hours_spec h :
  h ∈ source_hours ↔ covered h = false ∧ h ∈ dom raw ∨ covered h = true ∧ h ∈ dom rollups.
Proof.
  assert (∀ {A} (m : gmap Z A) h, h ∈ (map_to_list m).*1 ↔ h ∈ dom m) as Hd.
  { clear. intros A m h. rewrite elem_of_dom, list_elem_of_fmap. split.
    - intros ([h' x] & -> & Hx%elem_of_map_to_list). by exists x.
    - intros [x Hx]. exists (h, x). split; [done|by apply elem_of_map_to_list]. }
  unfold source_hours. by rewrite elem_of_app, !list_elem_of_filter, !Hd.
Qed.

Lemma source_hours_NoDup : NoDup source_hours.
Proof.
  apply NoDup_app. split_and!.
  - apply NoDup_filter, NoDup_fst_map_to_list.
  - intros h [Hf _]%list_elem_of_filter [Ht _]%list_elem_of_filter. congruence.
  - apply NoDup_filter, NoDup_fst_map_to_list.
Qed.

Lemma other_hours_empty h : h ∉ source_hours → src h = [].
Proof.
  rewrite source_hours_spec, !elem_of_dom. unfold covered, hour_source.
  destruct (rollups !! h) as [r|]; simpl.
  - destruct (PerLocation r !! name); [naive_solver|]. destruct (raw !! h); naive_solver.
  - destruct (raw !! h); naive_solver.
Qed.
End one_source.

(** no check is drawn twice: a location's entries are those of exactly
    one source per hour - the hour's rollup, when it counts more checks than
    the raw samples of a settled hour still hold or the samples are gone, and
    otherwise the raw checks -, over every hour that either side has. *)
Theorem location_entries_one_source_per_hour (name : string) (from settled : Z)
    (rollups : gmap Z AggregateRollup) (raw : gmap Z rawHour) :
  location_entries name from settled rollups raw ≡ₚ
  concat (hour_source name from settled rollups raw <$>
            elements (dom raw ∪ dom rollups)).
Proof.
  unfold location_entries. rewrite merge_sort_Permutation, raw_only_sources with (from := from) (settled := settled),
    hour_entries_sources, <-concat_app, <-fmap_app. fold (source_hours name rollups raw).
  rewrite (concat_filter_nil _ (λ h, h ∈ source_hours name rollups raw) (elements (dom raw ∪ dom rollups))).
  - apply concat_Permutation, fmap_Permutation, NoDup_Permutation.
    + apply source_hours_NoDup.
    + apply NoDup_filter, NoDup_elements.
    + intros h. rewrite list_elem_of_filter, elem_of_elements, elem_of_union, source_hours_spec. tauto.
  - intros h _. apply other_hours_empty.
Qed.
