(* ===== verification/Runner.v ===== *)
(** * The rollup runner

    Periodic passes over the current hours and background backfills of older
    ones (dashboard/internal/rollup/rollup.go).  The runner's fields are part
    of the world its computations run in. *)

From S2P Require Import Prelude GoStd GoTime Errors Trace Keys Ladder Float64 Rollups Valkey Store.

Record Runner := {
  interval : duration; pace : duration; hours : Z;       (* fixed by New *)
  backfilling : bool; down : gmap string verror;
  readMissing : bool; recovered : bool; storeFailed : bool; needFull : bool;
  lastFull : time }.

Definition fullBackfillGap : duration := Hour.

Definition NewRunner (interval_ pace_ : duration) (retentionDays : Z) : Runner :=
  {| interval := interval_; pace := pace_; hours := wrap64 (retentionDays * 24);
     backfilling := false; down := ∅; readMissing := false; recovered := false;
     storeFailed := false; needFull := false; lastFull := zero_time |}.

(** ** The shared state, under the mutex *)

Definition noteStoreFailed (r : Runner) : Runner :=
  {| interval := interval r; pace := pace r; hours := hours r; backfilling := backfilling r;
     down := down r; readMissing := readMissing r; recovered := recovered r;
     storeFailed := true; needFull := true; lastFull := lastFull r |}.

(** What one service-hour's rollup notes: [missing] when a location could not
    be read, [failed] when the primary failed. *)
Definition noteHour (missing failed : bool) (r : Runner) : Runner :=
  {| interval := interval r; pace := pace r; hours := hours r; backfilling := backfilling r;
     down := down r; readMissing := readMissing r || missing; recovered := recovered r;
     storeFailed := storeFailed r || failed; needFull := needFull r || failed;
     lastFull := lastFull r |}.

(** [Start] before its first pass: a full backfill is under way. *)
Definition started (r : Runner) (now : time) : Runner :=
  {| interval := interval r; pace := pace r; hours := hours r; backfilling := true;
     down := down r; readMissing := readMissing r; recovered := recovered r;
     storeFailed := storeFailed r; needFull := needFull r; lastFull := now |}.

(** [time.NewTicker]; [None]: it panics. *)
Definition NewTicker (d : duration) : option duration := if d <=? 0 then None else Some d.

(** [Start] up to its loop: the state and the ticker it waits on. *)
Definition Start (r : Runner) (now : time) : option (Runner * duration) :=
  ticker ← NewTicker (interval r); Some (started r now, ticker).

(** The end of [launchBackfill]'s goroutine. *)
Definition backfill_done (r : Runner) : Runner :=
  {| interval := interval r; pace := pace r; hours := hours r; backfilling := false;
     down := down r; readMissing := readMissing r; recovered := recovered r;
     storeFailed := storeFailed r; needFull := needFull r; lastFull := lastFull r |}.

(** Some location of [old] answers again. *)
Definition answers_again (old new : gmap string verror) : bool :=
  existsb (λ p, is_None_b (new !! p.1)) (map_to_list old).

(** [afterPass]: the new state, and the kind of the backfill it launches. *)
Definition afterPass (r : Runner) (now : time) (down' : gmap string verror) (failed : bool)
  : Runner * option bool :=
  let recovered' := recovered r || answers_again (down r) down' in
  let full := needFull r && negb failed && (fullBackfillGap <=? Sub now (lastFull r)) in
  let repair := (readMissing r && (recovered' || bool_decide (down' = ∅))) ||
                (storeFailed r && negb failed) in
  if negb (backfilling r) && (full || repair) then
    ({| interval := interval r; pace := pace r; hours := hours r; backfilling := true;
        down := down'; readMissing := false; recovered := false; storeFailed := false;
        needFull := if full then false else needFull r;
        lastFull := if full then now else lastFull r |}, Some full)
  else
    ({| interval := interval r; pace := pace r; hours := hours r; backfilling := backfilling r;
        down := down'; readMissing := readMissing r; recovered := recovered';
        storeFailed := storeFailed r; needFull := needFull r; lastFull := lastFull r |}, None).

(** ** Passes and backfills *)

(** [ctx.Err() != nil], and the choice of [ctx.Done()] in a select. *)
Class Context (W : Type) := { ctx_done : W → bool * W }.

(** The runner's state beside the servers. *)
#[export] Instance Valkey_beside {R W} `{!Valkey W} : Valkey (R * W) := {|
  vk_Smembers := λ c k w, let '(a, w') := vk_Smembers c k w.2 in (a, (w.1, w'));
  vk_Hgetall := λ c k w, let '(a, w') := vk_Hgetall c k w.2 in (a, (w.1, w'));
  vk_Hkeys := λ c k w, let '(a, w') := vk_Hkeys c k w.2 in (a, (w.1, w'));
  vk_Hget := λ c k f w, let '(a, w') := vk_Hget c k f w.2 in (a, (w.1, w'));
  vk_Hset := λ c k f v w, let '(a, w') := vk_Hset c k f v w.2 in (a, (w.1, w'));
  vk_Hexpire := λ c k n f w, let '(a, w') := vk_Hexpire c k n f w.2 in (a, (w.1, w'));
  vk_Hdel := λ c k f w, let '(a, w') := vk_Hdel c k f w.2 in (a, (w.1, w'));
  vk_Persist := λ c k w, let '(a, w') := vk_Persist c k w.2 in (a, (w.1, w')) |}.

(** A service with the hours that have a complete rollup, those stored
    incomplete, the days a backfill wrote to, and its first stored hour. *)
Record svcRef := {
  dash : string; svc : string;
  existing : gset Z; marked : gset Z; touched : gset Z; first : Z }.

Definition MaxInt64 : Z := 2 ^ 63 - 1.

Definition add_rollup (ref : svcRef) (p : Z * AggregateRollup) : svcRef :=
  let '(epoch, rollup) := p in
  let complete := is_nil (Missing rollup) && negb (InProgress rollup) in
  {| dash := dash ref; svc := svc ref;
     existing := if complete then {[epoch]} ∪ existing ref else existing ref;
     marked := if complete then marked ref else {[epoch]} ∪ marked ref;
     touched := touched ref; first := Z.min (first ref) epoch |}.

Definition new_ref (d s : string) (rollups : gmap Z AggregateRollup) : svcRef :=
  foldl add_rollup {| dash := d; svc := s; existing := ∅; marked := ∅; touched := ∅; first := MaxInt64 |}
    (map_to_list rollups).

Definition touch (ref : svcRef) (day : Z) : svcRef :=
  {| dash := dash ref; svc := svc ref; existing := existing ref; marked := marked ref;
     touched := {[day]} ∪ touched ref; first := first ref |}.

(** Whether a backfill computes the hour for the service, and with which mark. *)
Definition wants (full : bool) (ref : svcRef) (hour : Z) : bool :=
  negb (bool_decide (hour ∈ existing ref) || (negb full && negb (bool_decide (hour ∈ marked ref)))).

Definition mark_of (ref : svcRef) (hour : Z) : bool :=
  bool_decide (hour ∈ marked ref) || (first ref <=? hour).

Section runner.
Context {W : Type} `{!Valkey W, !Context W, !Codec AggregateRollup, !Codec DailyRollup}.
Variable s : Store.

Notation R := (M command (Runner * W)).

Definition modify (f : Runner → Runner) : R () := λ w, ((), (f w.1, w.2), []).

Definition cancelled : R bool := λ w, let '(b, w') := ctx_done w.2 in (b, (w.1, w'), []).

Definition rollupServiceHour (d sv : string) (hour now : time) (mark : bool)
  : R (HourRollup * option verror) :=
  r ← RollupHour s d sv hour now mark;
  let missing := bool_decide (hr_Missing r.1 ≠ ∅) in
  let failed := negb (is_None_b r.2) in
  if missing || failed then _ ← modify (noteHour missing failed); mret r else mret r.

Definition updateDaily (d sv : string) (day now : time) : R (bool * option verror) :=
  r ← UpdateDailyRollup s d sv day now;
  match r.2 with
  | Some _ => _ ← modify noteStoreFailed; mret r
  | None => mret r
  end.

(** *** One pass *)

(** What a pass has gathered: the locations that are down, whether it rolled
    up anything, and whether anything failed on the primary. *)
Definition gathered : Type := gmap string verror * bool * bool.

(** The two hours of one service. *)
Fixpoint pass_hours (d sv : string) (now : time) (hours : list time) (g : gathered) : R gathered :=
  match hours with
  | [] => mret g
  | hour :: hours =>
      r ← rollupServiceHour d sv hour now true;
      let '(down_, _, failed) := g in
      let down_ := hr_Missing r.1 ∪ down_ in
      let failed := failed || negb (is_None_b r.2) in
      if Before hour (Truncate now (24 * Hour)) then
        u ← updateDaily d sv hour now;
        pass_hours d sv now hours (down_, true, failed || negb (is_None_b u.2))
      else pass_hours d sv now hours (down_, true, failed)
  end.

Definition pass_service_hours (now : time) : list time :=
  [Truncate now Hour; Add (Truncate now Hour) (- Hour)].

Fixpoint pass_services (d : string) (now : time) (services : list string) (g : gathered) : R gathered :=
  match services with
  | [] => mret g
  | sv :: services =>
      g ← pass_hours d sv now (pass_service_hours now) g;
      pass_services d now services g
  end.

Fixpoint pass_dashboards (now : time) (dashboards : list string) (g : gathered) : R gathered :=
  match dashboards with
  | [] => mret g
  | d :: dashboards =>
      r ← ListServices s d;
      match r with
      | Err _ =>
          _ ← modify noteStoreFailed;
          pass_dashboards now dashboards (g.1, true)
      | Ok services =>
          g ← pass_services d now services g;
          pass_dashboards now dashboards g
      end
  end.

Definition after_pass (now : time) (down_ : gmap string verror) (failed : bool) : R (option bool) :=
  λ w, let '(r, start) := afterPass w.1 now down_ failed in (start, (r, w.2), []).

(** [runOnce]; the result is the kind of the backfill it launches. *)
Definition runOnce (now : time) : R (option bool) :=
  r ← ListDashboards s;
  match r with
  | Err _ => _ ← modify noteStoreFailed; mret None
  | Ok dashboards =>
      g ← pass_dashboards now dashboards (∅, false, false);
      if (g.1.2 : bool) then after_pass now g.1.1 g.2 else mret None
  end.

(** *** A backfill *)

Fixpoint ref_services (d : string) (services : list string) (oldest now at_ : time) (full : bool)
    (refs : list svcRef) : R (list svcRef) :=
  match services with
  | [] => mret refs
  | sv :: services =>
      _ ← (if full then (_ ← ExpireRollupFields s d sv at_; mret ()) else mret ());
      r ← GetAggregateRollups s d sv oldest now;
      match r with
      | Err _ => ref_services d services oldest now at_ full refs
      | Ok rollups => ref_services d services oldest now at_ full (refs ++ [new_ref d sv rollups])
      end
  end.

Fixpoint ref_dashboards (dashboards : list string) (oldest now at_ : time) (full : bool)
    (refs : list svcRef) : R (list svcRef) :=
  match dashboards with
  | [] => mret refs
  | d :: dashboards =>
      r ← ListServices s d;
      match r with
      | Err _ => ref_dashboards dashboards oldest now at_ full refs
      | Ok services =>
          refs ← ref_services d services oldest now at_ full refs;
          ref_dashboards dashboards oldest now at_ full refs
      end
  end.

(** One hour across the services; [None]: the context was cancelled. *)
Fixpoint fill_refs (hour at_ : time) (full : bool) (refs : list svcRef) : R (option (list svcRef)) :=
  match refs with
  | [] => mret (Some [])
  | ref :: refs =>
      stop ← cancelled;
      if (stop : bool) then mret None
      else if negb (wants full ref (Unix hour)) then
        rest ← fill_refs hour at_ full refs;
        mret ((λ rest, ref :: rest) <$> rest)
      else
        res ← rollupServiceHour (dash ref) (svc ref) hour at_ (mark_of ref (Unix hour));
        let ref' := if Written res.1 then touch ref (Unix (Truncate hour (24 * Hour))) else ref in
        stop ← cancelled;
        if (stop : bool) then mret None
        else
          rest ← fill_refs hour at_ full refs;
          mret ((λ rest, ref' :: rest) <$> rest)
  end.

(** The most recent hour first. *)
Fixpoint fill_hours (at_ : time) (full : bool) (hours : list time) (refs : list svcRef)
  : R (option (list svcRef)) :=
  match hours with
  | [] => mret (Some refs)
  | hour :: hours =>
      r ← fill_refs hour at_ full refs;
      match r with
      | None => mret None
      | Some refs => fill_hours at_ full hours refs
      end
  end.

(** The hours [now-1h], [now-2h], ... of the window. *)
Definition backfill_hours (now : time) (n : Z) : list time :=
  (λ offset, Add now (wrap64 (- offset * Hour))) <$> seqZ 1 (n - 1).

(** The days from [day] on that begin before [today]. *)
Definition days_before (day today : time) : list time :=
  (λ d, AddDays day d) <$> seqZ 0 ((today - day + Day - 1) `div` Day).

(** [false]: the context was cancelled. *)
Fixpoint rebuild_days (at_ : time) (full : bool) (ref : svcRef) (dailies : gmap string DailyRollup)
    (days : list time) : R bool :=
  match days with
  | [] => mret true
  | day :: days =>
      let touched_ := bool_decide (Unix day ∈ touched ref) in
      let has := negb (is_None_b (dailies !! FormatDate day)) in
      if negb touched_ && (has || negb full) then rebuild_days at_ full ref dailies days
      else
        stop ← cancelled;
        if (stop : bool) then mret false
        else
          _ ← updateDaily (dash ref) (svc ref) day at_;
          stop ← cancelled;
          if (stop : bool) then mret false else rebuild_days at_ full ref dailies days
  end.

Fixpoint rebuild_refs (at_ firstFull today : time) (full : bool) (refs : list svcRef) : R () :=
  match refs with
  | [] => mret ()
  | ref :: refs =>
      d ← (if full then GetDailyRollups s (dash ref) (svc ref) firstFull (AddDays today (- 1))
           else mret (Ok ∅));
      match d with
      | Err _ => rebuild_refs at_ firstFull today full refs
      | Ok dailies =>
          go_on ← rebuild_days at_ full ref dailies (days_before firstFull today);
          if (go_on : bool) then rebuild_refs at_ firstFull today full refs else mret ()
      end
  end.

(** The first day that lies wholly inside the window. *)
Definition first_full_day (oldest : time) : time :=
  let d := Truncate oldest (24 * Hour) in
  if Before d oldest then AddDays d 1 else d.

Definition get_hours : R Z := λ w, (hours w.1, w, []).

Definition backfill (at_ : time) (full : bool) : R () :=
  r ← ListDashboards s;
  match r with
  | Err _ => mret ()
  | Ok dashboards =>
      n ← get_hours;
      let now := Truncate at_ Hour in
      let oldest := Add now (wrap64 (- wrap64 (n - 1) * Hour)) in
      refs ← ref_dashboards dashboards oldest now at_ full [];
      r ← fill_hours at_ full (backfill_hours now n) refs;
      match r with
      | None => mret ()
      | Some refs =>
          rebuild_refs at_ (first_full_day oldest) (Truncate at_ (24 * Hour)) full refs
      end
  end.

(** The goroutine of [launchBackfill]. *)
Definition launchBackfill (at_ : time) (full : bool) : R () :=
  _ ← backfill at_ full; modify backfill_done.
End runner.
