(* ===== verification/RunnerProps.v ===== *)
(** * Properties of the rollup runner *)

From S2P Require Import Prelude GoStd GoTime Errors Trace Keys Ladder Float64 Rollups RollupProps.
From S2P Require Import Valkey Store StoreProps Runner.

(** ** The runner as a state machine

    What changes the shared state under the mutex, in any interleaving of the
    periodic passes with the backfill goroutines. *)

Inductive event :=
| EPass (now : time) (down : gmap string verror) (failed : bool)  (* afterPass *)
| EHour (missing failed : bool)                                    (* rollupServiceHour *)
| EStoreFailed                                                     (* noteStoreFailed *)
| EDone.                                                           (* a backfill ends *)

(** The next state and the kind of the backfill the event launches. *)
Definition step (r : Runner) (e : event) : Runner * option bool :=
  match e with
  | EPass now down failed => afterPass r now down failed
  | EHour missing failed => (noteHour missing failed r, None)
  | EStoreFailed => (noteStoreFailed r, None)
  | EDone => (backfill_done r, None)
  end.

(** The reachable states: the runner, the number of backfill goroutines, and
    the start times of the full backfills, latest first. *)
Inductive reachable : Runner → nat → list time → Prop :=
| reach_start interval pace days now :
    reachable (started (NewRunner interval pace days) now) 1 [now]
| reach_step r n fulls e r' :
    reachable r n fulls → e ≠ EDone → step r e = (r', None) → reachable r' n fulls
| reach_launch r n fulls now down failed r' (full : bool) :
    reachable r n fulls → step r (EPass now down failed) = (r', Some full) →
    reachable r' (S n) (if full then now :: fulls else fulls)
| reach_done r n fulls :
    reachable r (S n) fulls → reachable (backfill_done r) n fulls.

(** Consecutive start times at least [gap] apart. *)
Fixpoint spaced (gap : duration) (l : list time) : Prop :=
  match l with
  | t :: ((u :: _) as l) => gap ≤ t - u ∧ spaced gap l
  | _ => True
  end.

Lemma afterPass_launch r now d failed r' full :
  afterPass r now d failed = (r', Some full) →
  backfilling r = false ∧ backfilling r' = true ∧
  (full = true → fullBackfillGap ≤ now - lastFull r ∧ lastFull r' = now) ∧
  (full = false → lastFull r' = lastFull r).
Proof.
  unfold afterPass. destruct (backfilling r); simpl; [done|].
  set (f := needFull r && negb failed && _). destruct (f || _) eqn:E; [|done].
  intros [= <- <-]. simpl. split_and!; [done|done|intros Hf; rewrite Hf|intros Hf; by rewrite Hf].
  split; [|done]. subst f. apply andb_true_iff in Hf as [_ Hf]. zb.
  unfold Sub, fullBackfillGap, Hour, Minute, Second in *. lia.
Qed.

Lemma afterPass_quiet r now d failed r' :
  afterPass r now d failed = (r', None) → backfilling r' = backfilling r ∧ lastFull r' = lastFull r.
Proof. unfold afterPass. destruct (_ && _); [done|]. by intros [= <-]. Qed.

Lemma step_quiet r e r' :
  e ≠ EDone → step r e = (r', None) → backfilling r' = backfilling r ∧ lastFull r' = lastFull r.
Proof.
  destruct e; simpl; intros He H; [by eapply afterPass_quiet|by simplify_eq..].
Qed.

(** at most one backfill runs at any time, and full backfills start at
    least fullBackfillGap apart, in every interleaving of passes, notes and
    the ends of backfills; the runner's own fields say which backfill runs and
    when the last full one began. *)
Theorem one_backfill_at_a_time (r : Runner) (n : nat) (fulls : list time) :
  reachable r n fulls →
  n = (if backfilling r then 1 else 0)%nat ∧ spaced fullBackfillGap fulls ∧
  head fulls = Some (lastFull r).
Proof.
  induction 1 as [interval pace days now|r n fulls e r' _ (Hn & Hs & Hh) He Hstep
                 |r n fulls now d failed r' full _ (Hn & Hs & Hh) Hstep|r n fulls _ (Hn & Hs & Hh)].
  - done.
  - destruct (step_quiet r e r' He Hstep) as [-> ->]. done.
  - destruct (afterPass_launch _ _ _ _ _ _ Hstep) as (Hb & Hb' & Hf & Hnf). rewrite Hb in Hn. subst n.
    rewrite Hb'. split; [done|]. destruct full.
    + destruct Hf as [Hgap ->]; [done|]. split; [|done].
      destruct fulls as [|t fulls]; [done|]. simpl in Hh. injection Hh as ->. by split.
    + by rewrite Hnf.
  - simpl. split; [|done]. by destruct (backfilling r); simplify_eq.
Qed.

Lemma one_backfill_at_a_time_witness :
  let r := started (NewRunner Minute Nanosecond 90) 0 in
  1%nat = 1%nat ∧ spaced fullBackfillGap [0] ∧ head [0] = Some (lastFull r).
Proof.
  exact (one_backfill_at_a_time (started (NewRunner Minute Nanosecond 90) 0) 1 [0]
    (reach_start Minute Nanosecond 90 0)).
Defined.

(** *** Nothing noted is forgotten *)

(** The state after some events, and whether any of them launched. *)
Fixpoint run (r : Runner) (es : list event) : Runner * bool :=
  match es with
  | [] => (r, false)
  | e :: es =>
      let '(r, start) := step r e in
      let '(r', more) := run r es in (r', negb (is_None_b start) || more)
  end.

(** What is noted and what a backfill must repair. *)
Definition noted (r r' : Runner) : Prop :=
  (storeFailed r = true → storeFailed r' = true) ∧ (needFull r = true → needFull r' = true) ∧
  (readMissing r = true → readMissing r' = true) ∧ (recovered r = true → recovered r' = true).

Lemma step_noted r e r' : step r e = (r', None) → noted r r'.
Proof.
  unfold noted. destruct e as [now d failed|m f| |]; simpl.
  - unfold afterPass. destruct (_ && _); [done|]. intros [= <-]. simpl.
    split_and!; [done..|]. intros ->. done.
  - intros [= <-]. simpl. split_and!; [by intros ->..|done].
  - intros [= <-]. simpl. done.
  - intros [= <-]. done.
Qed.

Lemma run_noted r es : (run r es).2 = false → noted r (run r es).1.
Proof.
  revert r. induction es as [|e es IH]; intros r; simpl; [done|].
  destruct (step r e) as [r1 start] eqn:E. specialize (IH r1). destruct (run r1 es) as [r2 more].
  simpl in *. intros [Hs ->]%orb_false_iff. destruct start; [done|].
  apply step_noted in E. unfold noted in *. naive_solver.
Qed.

(** nothing noted is forgotten: once the primary failed, or a location
    could not be read, then whatever happens until a backfill starts, the
    first pass that finds no backfill running and stores everything, or that
    reaches every location, starts one - a full one when the primary failed
    and the last full one began at least fullBackfillGap before. *)
Theorem noted_failure_starts_backfill (r : Runner) (es : list event) (now : time)
    (down' : gmap string verror) (failed : bool) :
  (run r es).2 = false → backfilling (run r es).1 = false →
  (storeFailed r = true ∧ failed = false ∨ readMissing r = true ∧ down' = ∅ →
   ∃ full, (afterPass (run r es).1 now down' failed).2 = Some full) ∧
  (needFull r = true ∧ failed = false ∧ fullBackfillGap ≤ Sub now (lastFull (run r es).1) →
   (afterPass (run r es).1 now down' failed).2 = Some true).
Proof.
  intros Hrun Hb. destruct (run_noted r es Hrun) as (Hsf & Hnf & Hrm & _).
  unfold afterPass. rewrite Hb. simpl. split.
  - intros [[Hs ->]|[Hm ->]].
    + rewrite (Hsf Hs). simpl. rewrite !orb_true_r. eauto.
    + rewrite (Hrm Hm), bool_decide_eq_true_2, !orb_true_r by done. eauto.
  - intros (Hn & -> & Hg). rewrite (Hnf Hn). simpl. rewrite (proj2 (Z.leb_le _ _)) by done. done.
Qed.

Lemma noted_failure_starts_backfill_witness :
  let r := noteStoreFailed (started (NewRunner Minute Nanosecond 90) 0) in
  (afterPass (run r [EHour true false; EDone]).1 (2 * Hour) ∅ false).2 = Some true.
Proof.
  apply (noted_failure_starts_backfill (noteStoreFailed (started (NewRunner Minute Nanosecond 90) 0))
    [EHour true false; EDone] (2 * Hour) ∅ false); [reflexivity|reflexivity|].
  split_and!; [reflexivity|reflexivity|vm_compute; discriminate].
Defined.

(** ** The code implements the state machine

    The computations of the runner change its state only by the events above:
    the store's own computations leave it alone. *)

Section refinement.
Context {W : Type} `{!Valkey W, !Context W, !Codec AggregateRollup, !Codec DailyRollup}.
Variable s : Store.

Notation R := (M command (Runner * W)).

(** The computation leaves the runner's state alone. *)
Definition frame {A} (m : R A) : Prop := ∀ w, (m w).1.2.1 = w.1.

Lemma frame_ret {A} (a : A) : frame (mret a).
Proof. by intros w. Qed.

Lemma frame_bind {A B} (m : R A) (f : A → R B) : frame m → (∀ a, frame (f a)) → frame (m ≫= f).
Proof.
  intros Hm Hf w. specialize (Hm w). unfold mbind, M_bind.
  destruct (m w) as [[a w1] t]. simpl in *. specialize (Hf a w1).
  destruct (f a w1) as [[b w2] t']. simpl in *. congruence.
Qed.

Lemma frame_commands :
  (∀ c k, frame (smembers c k)) ∧ (∀ c k, frame (hgetall c k)) ∧ (∀ c k, frame (hkeys c k)) ∧
  (∀ c k f, frame (hget c k f)) ∧ (∀ c k f v, frame (hset c k f v)) ∧
  (∀ c k n f, frame (hexpire c k n f)) ∧ (∀ c k f, frame (hdel c k f)) ∧ (∀ c k, frame (persist c k)).
Proof.
  split_and!; intros; intros w;
    unfold smembers, hgetall, hkeys, hget, hset, hexpire, hdel, persist; simpl;
    repeat case_match; by simplify_eq/=.
Qed.

(** One step of a frame proof: a bind, a return, a command or a case. *)
Ltac frame_step :=
  first
    [ apply frame_ret
    | apply frame_commands
    | progress eauto 2
    | apply frame_bind; [|intros ?]
    | case_match
    | progress simpl ].

Lemma frame_writeExpiring key field value at_ now :
  frame (writeExpiring (W:=Runner * W) s key field value at_ now).
Proof. unfold writeExpiring. repeat frame_step. Qed.

Lemma frame_ComputeLocationRollup loc d sv hour :
  frame (ComputeLocationRollup (W:=Runner * W) s loc d sv hour).
Proof. unfold ComputeLocationRollup. repeat frame_step. Qed.

Lemma frame_computeAggregate d sv hour : frame (computeAggregate (W:=Runner * W) s d sv hour).
Proof.
  unfold computeAggregate. apply frame_bind; [|intros [[??]?]; apply frame_ret].
  generalize (∅ : gmap string LocationRollup) (@nil string) (∅ : gmap string verror).
  induction (LocationNames s) as [|loc names IH]; intros per missing failed; simpl; [apply frame_ret|].
  apply frame_bind; [apply frame_ComputeLocationRollup|]. intros []; apply IH.
Qed.

Lemma frame_RollupHour d sv hour now mark : frame (RollupHour (W:=Runner * W) s d sv hour now mark).
Proof.
  unfold RollupHour. case_match; [apply frame_ret|].
  apply frame_bind; [apply frame_computeAggregate|]. intros [agg failed].
  repeat first [apply frame_writeExpiring | frame_step].
Qed.

Lemma frame_GetAggregateRollups d sv from to :
  frame (GetAggregateRollups (W:=Runner * W) s d sv from to).
Proof. unfold GetAggregateRollups. repeat frame_step. Qed.

Lemma frame_UpdateDailyRollup d sv day now : frame (UpdateDailyRollup (W:=Runner * W) s d sv day now).
Proof.
  unfold UpdateDailyRollup, WriteDailyRollup.
  apply frame_bind; [apply frame_GetAggregateRollups|]. intros [];
    repeat first [apply frame_writeExpiring | frame_step].
Qed.

Lemma frame_union key : frame (union (W:=Runner * W) s key).
Proof.
  unfold union. apply frame_bind; [|intros [out errs]; repeat frame_step].
  generalize (∅ : gset string) (@nil string) (@nil error).
  induction (LocationNames s) as [|name names IH]; intros seen out errs; simpl; [apply frame_ret|].
  destruct (locations s !! name); [|apply IH].
  apply frame_bind; [apply frame_commands|]. intros [items|e]; [|apply IH].
  destruct (add_items seen out items); apply IH.
Qed.

(** The events of a pass or a backfill that is under way. *)
Definition is_note (e : event) : Prop :=
  match e with EHour _ _ | EStoreFailed => True | EPass _ _ _ | EDone => False end.

(** *** The calls of a pass

    The calls a pass makes on the store, each with its answer, what a call
    notes, and the calls a pass must make. *)

Inductive call :=
| CDashboards (answer : result error (list string))
| CServices (d : string) (answer : result error (list string))
| CHour (d sv : string) (hour : time) (answer : HourRollup * option verror)
| CDaily (d sv : string) (day : time) (answer : bool * option verror).

(** The answer is the store's, in the state the call is made in. *)
Definition asks (now : time) (c : call) (w : Runner * W) (t : list command) (w' : Runner * W) : Prop :=
  match c with
  | CDashboards a => ListDashboards s w = (a, w', t)
  | CServices d a => ListServices s d w = (a, w', t)
  | CHour d sv hour a => RollupHour s d sv hour now true w = (a, w', t)
  | CDaily d sv day a => UpdateDailyRollup s d sv day now w = (a, w', t)
  end.

(** The primary failed in the call. *)
Definition call_failed (c : call) : bool :=
  match c with
  | CDashboards a | CServices _ a => match a with Err _ => true | Ok _ => false end
  | CHour _ _ _ a => negb (is_None_b a.2)
  | CDaily _ _ _ a => negb (is_None_b a.2)
  end.

(** The locations the call could not read. *)
Definition call_missing (c : call) : gmap string verror :=
  match c with CHour _ _ _ a => hr_Missing a.1 | _ => ∅ end.

Definition is_hour (c : call) : bool := match c with CHour _ _ _ _ => true | _ => false end.

(** What a call notes: nothing when nothing failed. *)
Definition note_of (c : call) : option event :=
  match c with
  | CHour _ _ _ _ =>
      let missing := bool_decide (call_missing c ≠ ∅) in
      if missing || call_failed c then Some (EHour missing (call_failed c)) else None
  | _ => if call_failed c then Some EStoreFailed else None
  end.

Definition noted_by (c : call) (r : Runner) : Runner :=
  match note_of c with Some e => (step r e).1 | None => r end.

(** The calls are made one after the other: the store's part of a call leaves
    the runner alone, and the next call finds what it noted. *)
Inductive performs (now : time) : Runner * W → list call → list command → Runner * W → Prop :=
| no_calls w : performs now w [] [] w
| a_call r x c t x' cs t' w' :
    asks now c (r, x) t (r, x') → performs now (noted_by c r, x') cs t' w' →
    performs now (r, x) (c :: cs) (t ++ t') w'.

(** The calls for one hour of a service: its rollup, and when it lies on a
    finished day that day's. *)
Definition hour_calls (now : time) (d sv : string) (hour : time) (cs : list call) : Prop :=
  ∃ a, if hour <? Truncate now Day then ∃ u, cs = [CHour d sv hour a; CDaily d sv hour u]
       else cs = [CHour d sv hour a].

(** For every item of a list in turn, its calls. *)
Definition each {A} (P : A → list call → Prop) (l : list A) (cs : list call) : Prop :=
  ∃ css, Forall2 P l css ∧ cs = concat css.

Definition service_calls (now : time) (d sv : string) : list call → Prop :=
  each (hour_calls now d sv) [Truncate now Hour; Truncate now Hour - Hour].

Definition dashboard_calls (now : time) (d : string) (cs : list call) : Prop :=
  ∃ a cs', cs = CServices d a :: cs' ∧
    match a with Ok services => each (service_calls now d) services cs' | Err _ => cs' = [] end.

Definition pass_calls (now : time) (cs : list call) : Prop :=
  ∃ a cs', cs = CDashboards a :: cs' ∧
    match a with Ok dashboards => each (dashboard_calls now) dashboards cs' | Err _ => cs' = [] end.

(** The locations some call could not read, with the last error of each. *)
Definition down_of (cs : list call) : gmap string verror :=
  foldl (λ down c, call_missing c ∪ down) ∅ cs.

(** *** A computation and its calls *)

Definition calling (now : time) {A} (m : R A) (Q : A → list call → Prop) : Prop :=
  ∀ w, ∃ cs, performs now w cs (m w).2 (m w).1.2 ∧ Q (m w).1.1 cs.

Lemma performs_app now w cs t w1 cs' t' w2 :
  performs now w cs t w1 → performs now w1 cs' t' w2 → performs now w (cs ++ cs') (t ++ t') w2.
Proof.
  induction 1 as [|r x c t x' cs t1 w1 Ha _ IH]; intros H; [done|].
  rewrite <-app_assoc. simpl. econstructor; [exact Ha|by apply IH].
Qed.

Lemma calling_ret now {A} (a : A) (Q : A → list call → Prop) : Q a [] → calling now (mret a) Q.
Proof. intros H w. exists []. split; [constructor|done]. Qed.

Lemma calling_bind now {A B} (m : R A) (f : A → R B) P (Q : B → list call → Prop) :
  calling now m P → (∀ a cs, P a cs → calling now (f a) (λ b cs', Q b (cs ++ cs'))) →
  calling now (m ≫= f) Q.
Proof.
  intros Hm Hf w. destruct (Hm w) as (cs & Hp & HP). unfold mbind, M_bind.
  destruct (m w) as [[a w1] t]. simpl in *. destruct (Hf a cs HP w1) as (cs' & Hp' & HQ).
  destruct (f a w1) as [[b w2] t']. simpl in *. exists (cs ++ cs'). split; [by eapply performs_app|done].
Qed.

Lemma calling_mono now {A} (m : R A) (P Q : A → list call → Prop) :
  calling now m P → (∀ a cs, P a cs → Q a cs) → calling now m Q.
Proof. intros Hm HPQ w. destruct (Hm w) as (cs & ? & ?). eauto. Qed.

(** One call on the store, and what it notes. *)
Lemma calling_call now {A B} (m : R A) (c : A → call) (f k : A → R B) (Q : B → list call → Prop) :
  frame m → (∀ w, asks now (c (m w).1.1) w (m w).2 (m w).1.2) →
  (∀ a w, f a w = k a (noted_by (c a) w.1, w.2)) →
  (∀ a, calling now (k a) (λ b cs, Q b (c a :: cs))) → calling now (m ≫= f) Q.
Proof.
  intros Hfr Ha Hf Hk w. specialize (Hfr w). specialize (Ha w). unfold mbind, M_bind.
  destruct (m w) as [[a w1] t]. simpl in *. rewrite Hf.
  destruct (Hk a (noted_by (c a) w1.1, w1.2)) as (cs & Hp & HQ).
  destruct (k a _) as [[b w2] t']. simpl in *. exists (c a :: cs). split; [|done].
  destruct w as [r x], w1 as [r1 x1]. simpl in *. subst r1. by econstructor.
Qed.

Lemma calling_rollupServiceHour now d sv hour :
  calling now (rollupServiceHour (W:=W) s d sv hour now true) (λ a cs, cs = [CHour d sv hour a]).
Proof.
  eapply calling_call with (c := CHour d sv hour) (k := mret).
  - apply frame_RollupHour.
  - intros w. simpl. by destruct (RollupHour s d sv hour now true w) as [[??]?].
  - intros a [r x]. unfold noted_by, note_of, call_failed, call_missing.
    by destruct (bool_decide (hr_Missing a.1 ≠ ∅)), (is_None_b a.2).
  - intros a. by apply calling_ret.
Qed.

Lemma calling_updateDaily now d sv day :
  calling now (updateDaily (W:=W) s d sv day now) (λ a cs, cs = [CDaily d sv day a]).
Proof.
  eapply calling_call with (c := CDaily d sv day) (k := mret).
  - apply frame_UpdateDailyRollup.
  - intros w. simpl. by destruct (UpdateDailyRollup s d sv day now w) as [[??]?].
  - intros a [r x]. unfold noted_by, note_of, call_failed. by destruct (a.2).
  - intros a. by apply calling_ret.
Qed.

(** What a pass has gathered after some calls. *)
Definition gathers (g : gathered) (cs : list call) : gathered :=
  (foldl (λ down c, call_missing c ∪ down) g.1.1 cs, g.1.2 || existsb is_hour cs,
   g.2 || existsb call_failed cs).

Lemma gathers_app g cs cs' : gathers g (cs ++ cs') = gathers (gathers g cs) cs'.
Proof. unfold gathers. by rewrite foldl_app, !existsb_app, !orb_assoc. Qed.

(** A loop that gathers item by item. *)
Lemma calling_each now {A} (P : A → list call → Prop) (loop : list A → gathered → R gathered) :
  (∀ g, calling now (loop [] g) (λ g' cs, cs = [] ∧ g' = g)) →
  (∀ a l, (∀ g, calling now (loop l g) (λ g' cs, each P l cs ∧ g' = gathers g cs)) →
    ∀ g, calling now (loop (a :: l) g)
      (λ g' cs, ∃ c1 c2, cs = c1 ++ c2 ∧ P a c1 ∧ each P l c2 ∧ g' = gathers g cs)) →
  ∀ l g, calling now (loop l g) (λ g' cs, each P l cs ∧ g' = gathers g cs).
Proof.
  intros H0 Hs. induction l as [|a l IH]; intros g.
  - eapply calling_mono; [apply H0|]. intros g' cs [-> ->]. split; [by exists []|].
    unfold gathers. destruct g as [[??]?]. simpl. by rewrite !orb_false_r.
  - eapply calling_mono; [by apply Hs|]. intros g' cs (c1 & c2 & -> & Hc & (css & Hl & ->) & ->).
    split; [|done]. exists (c1 :: css). split; [by constructor|done].
Qed.

Lemma calling_pass_hours now d sv hours g :
  calling now (pass_hours (W:=W) s d sv now hours g)
    (λ g' cs, each (hour_calls now d sv) hours cs ∧ g' = gathers g cs).
Proof.
  revert hours g. apply calling_each; [intros g; by apply calling_ret|].
  intros hour hours IH [[down rolled] failed]. cbn [pass_hours].
  eapply calling_bind; [apply calling_rollupServiceHour|]. intros a ? ->.
  unfold hour_calls. change (Before hour (Truncate now (24 * Hour))) with (hour <? Truncate now Day).
  destruct (hour <? Truncate now Day).
  - eapply calling_bind; [apply calling_updateDaily|]. intros u ? ->.
    eapply calling_mono; [apply IH|]. intros g' cs [Hcs ->].
    exists [CHour d sv hour a; CDaily d sv hour u], cs. split_and!; [done|by eexists _, _|done|].
    rewrite app_assoc, gathers_app. f_equal. unfold gathers. simpl.
    by rewrite !orb_false_r, map_empty_union, orb_true_r, orb_assoc.
  - eapply calling_mono; [apply IH|]. intros g' cs [Hcs ->].
    exists [CHour d sv hour a], cs. split_and!; [done|by eexists _|done|].
    rewrite gathers_app. f_equal. unfold gathers. simpl. by rewrite orb_false_r, orb_true_r.
Qed.

Lemma calling_pass_services now d services g :
  calling now (pass_services (W:=W) s d now services g)
    (λ g' cs, each (service_calls now d) services cs ∧ g' = gathers g cs).
Proof.
  revert services g. apply calling_each; [intros g; by apply calling_ret|].
  intros sv services IH g. cbn [pass_services].
  eapply calling_bind; [apply calling_pass_hours|]. intros g' c1 [Hc1 ->].
  eapply calling_mono; [apply IH|]. intros g' c2 [Hc2 ->].
  exists c1, c2. split_and!; [done|exact Hc1|done|by rewrite gathers_app].
Qed.

Lemma calling_pass_dashboards now dashboards g :
  calling now (pass_dashboards (W:=W) s now dashboards g)
    (λ g' cs, each (dashboard_calls now) dashboards cs ∧ g' = gathers g cs).
Proof.
  revert dashboards g. apply calling_each; [intros g; by apply calling_ret|].
  intros d dashboards IH g. cbn [pass_dashboards].
  eapply calling_call with (c := CServices d) (k := λ a, match a with
    | Err _ => pass_dashboards s now dashboards (g.1, true)
    | Ok services => g ← pass_services s d now services g; pass_dashboards s now dashboards g
    end).
  - apply frame_union.
  - intros w. simpl. by destruct (ListServices s d w) as [[??]?].
  - intros [services|e] [r x]; [done|]. unfold mbind, M_bind, modify. simpl.
    by destruct (pass_dashboards _ _ _ _ _) as [[??]?].
  - intros [services|e].
    + eapply calling_bind; [apply calling_pass_services|]. intros g' c1 [Hc1 ->].
      eapply calling_mono; [apply IH|]. intros g' c2 [Hc2 ->].
      exists (CServices d (Ok services) :: c1), c2. split_and!; [done|by eexists _, _|done|].
      change (CServices d (Ok services) :: c1 ++ c2) with ([CServices d (Ok services)] ++ c1 ++ c2).
      rewrite !gathers_app. do 2 f_equal. unfold gathers. destruct g as [[??]?]. simpl.
      by rewrite map_empty_union, !orb_false_r.
    + eapply calling_mono; [apply IH|]. intros g' c2 [Hc2 ->].
      exists [CServices d (Err e)], c2. split_and!; [done|by eexists _, _|done|].
      change (CServices d (Err e) :: c2) with ([CServices d (Err e)] ++ c2). rewrite gathers_app. f_equal.
      unfold gathers. destruct g as [[??]?]. simpl. by rewrite map_empty_union, orb_false_r, orb_true_r.
Qed.

(** C12: a pass implements the state machine: whatever the servers answer,
    runOnce asks the store for the dashboards, for each dashboard's services
    and for each service's two hours (with the day of an hour before today),
    in that order and with no other commands; every call that fails is noted
    before the next one is made, and nothing else touches the runner's state;
    and exactly when some hour was rolled up the pass ends with afterPass,
    given the locations the hours could not read with their last errors and
    whether any call failed on the primary, and launches the backfill that
    step launches. *)
Theorem runOnce_refines_events (now : time) (w : Runner * W) :
  let '(start, w', t) := runOnce s now w in
  ∃ cs w1, pass_calls now cs ∧ performs now w cs t w1 ∧ w'.2 = w1.2 ∧
    (w'.1, start) =
      if existsb is_hour cs then step w1.1 (EPass now (down_of cs) (existsb call_failed cs))
      else (w1.1, None).
Proof.
  unfold runOnce. unfold mbind at 1, M_bind at 1.
  pose proof (frame_union Dashboards w) as Hu. change (union s Dashboards w) with (ListDashboards s w) in Hu.
  destruct (ListDashboards s w) as [[a w0] t0] eqn:Ea. simpl in Hu.
  destruct w as [r x], w0 as [r0 x0]. simpl in Hu. subst r0. destruct a as [dashboards|e].
  - unfold mbind at 1, M_bind at 1.
    destruct (calling_pass_dashboards now dashboards (∅, false, false) (r, x0)) as (cs & Hp & Hcs & Hg).
    destruct (pass_dashboards s now dashboards (∅, false, false) (r, x0)) as [[g w1] t1]. simpl in *. subst g.
    assert (performs now (r, x) (CDashboards (Ok dashboards) :: cs) (t0 ++ t1) w1) as Hp'
      by (by econstructor).
    assert (pass_calls now (CDashboards (Ok dashboards) :: cs)) as Hc by (by eexists _, _).
    assert (down_of (CDashboards (Ok dashboards) :: cs) = down_of cs) as Hd
      by (unfold down_of; simpl; by rewrite map_empty_union).
    simpl. destruct (existsb is_hour cs) eqn:Eh.
    + unfold after_pass. destruct (afterPass w1.1 now _ _) as [r' start] eqn:Es. rewrite app_nil_r.
      eexists _, w1. split_and!; [exact Hc|done|done|]. simpl. by rewrite Eh, Hd, <-Es.
    + simpl. rewrite app_nil_r. eexists _, w1. split_and!; [exact Hc|done|done|]. simpl. by rewrite Eh.
  - simpl. eexists [CDashboards (Err e)], (noteStoreFailed r, x0). split_and!; [by eexists _, _| |done|done].
    econstructor; [done|constructor].
Qed.
End refinement.

(** ** What a backfill computes *)

(** A rollup that needs no repair. *)
Definition complete (r : AggregateRollup) : Prop := Missing r = [] ∧ InProgress r = false.

Lemma exists_in_cons {A B} (P : B → Prop) (k k' : A) (v : B) l :
  (∃ x, (k, x) ∈ (k', v) :: l ∧ P x) ↔ (k = k' ∧ P v) ∨ ∃ x, (k, x) ∈ l ∧ P x.
Proof. setoid_rewrite elem_of_cons. naive_solver. Qed.

Lemma foldl_add_rollup l ref :
  let ref' := foldl add_rollup ref l in
  dash ref' = dash ref ∧ svc ref' = svc ref ∧
  (∀ h, h ∈ existing ref' ↔ h ∈ existing ref ∨ ∃ r, (h, r) ∈ l ∧ complete r) ∧
  (∀ h, h ∈ marked ref' ↔ h ∈ marked ref ∨ ∃ r, (h, r) ∈ l ∧ ¬ complete r).
Proof.
  revert ref. induction l as [|[epoch rollup] l IH]; intros ref; cbn [foldl].
  { split_and!; [done..| |]; intros h; split; [by left|intros [?|(? & ?%elem_of_nil & _)]; done
      |by left|intros [?|(? & ?%elem_of_nil & _)]; done]. }
  destruct (IH (add_rollup ref (epoch, rollup))) as (-> & -> & He & Hm).
  assert (is_nil (Missing rollup) && negb (InProgress rollup) = true ↔ complete rollup) as Hc.
  { unfold complete. destruct (Missing rollup), (InProgress rollup); simpl; naive_solver. }
  split_and!; [done|done|intros h|intros h].
  - rewrite He, exists_in_cons. simpl. destruct (is_nil _ && _); set_unfold; intuition congruence.
  - rewrite Hm, exists_in_cons. simpl. destruct (is_nil _ && _); set_unfold; intuition congruence.
Qed.

Lemma new_ref_spec d sv rollups h :
  (h ∈ existing (new_ref d sv rollups) ↔ ∃ r, rollups !! h = Some r ∧ complete r) ∧
  (h ∈ marked (new_ref d sv rollups) ↔ ∃ r, rollups !! h = Some r ∧ ¬ complete r).
Proof.
  unfold new_ref.
  destruct (foldl_add_rollup (map_to_list rollups)
    {| dash := d; svc := sv; existing := ∅; marked := ∅; touched := ∅; first := MaxInt64 |})
    as (_ & _ & He & Hm).
  rewrite (He h), (Hm h). setoid_rewrite elem_of_map_to_list. set_solver.
Qed.

(** A backfill wants an hour exactly when its rollup is missing or incomplete;
    one that is not full wants only the incomplete ones. *)
Lemma wants_spec full d sv rollups h :
  wants full (new_ref d sv rollups) h = true ↔
  match rollups !! h with Some r => ¬ complete r | None => full = true end.
Proof.
  unfold wants. destruct (new_ref_spec d sv rollups h) as [He Hm].
  repeat case_bool_decide; destruct full; simpl; destruct (rollups !! h) as [r|]; naive_solver.
Qed.

(** The same service, with the same hours stored when the backfill began. *)
Definition same_ref (ref ref' : svcRef) : Prop :=
  dash ref' = dash ref ∧ svc ref' = svc ref ∧ existing ref' = existing ref ∧ marked ref' = marked ref.

(** A command that, if it writes a field, writes the given one. *)
Definition writes_at (P : string → string → Prop) (a : command) : Prop :=
  match a with
  | HSet _ key field _ _ | HDel _ key field _ | HExpire _ key _ field _ => P key field
  | Read _ _ | HGet _ _ _ _ | Persist _ _ _ => True
  end.

Lemma writes_at_mono (P Q : string → string → Prop) t :
  (∀ key field, P key field → Q key field) → Forall (writes_at P) t → Forall (writes_at Q) t.
Proof. intros HPQ HF. eapply Forall_impl; [exact HF|]. intros []; simpl; auto. Qed.

(** The field of an hour that the backfill wants for one of the services. *)
Definition wanted_hour (full : bool) (hours : list time) (refs : list svcRef) (key field : string) : Prop :=
  ∃ ref hour, ref ∈ refs ∧ hour ∈ hours ∧ wants full ref (Unix hour) = true ∧
    key = RollupAggregateHour (dash ref) (svc ref) ∧ field = FormatInt (Unix hour).

Lemma wanted_hour_mono full hours hours' refs refs' key field :
  hours ⊆ hours' → (∀ ref, ref ∈ refs → ∃ ref', ref' ∈ refs' ∧ same_ref ref' ref) →
  wanted_hour full hours refs key field → wanted_hour full hours' refs' key field.
Proof.
  intros Hh Hr (ref & hour & Href & Hhour & Hw & -> & ->).
  destruct (Hr ref Href) as (ref' & Href' & Hd & Hs & He & Hm).
  exists ref', hour. split_and!; [done|by apply Hh| |by rewrite Hd, Hs|done].
  unfold wants in *. by rewrite <-He, <-Hm.
Qed.

Section backfill.
Context {W : Type} `{!Valkey W, !Context W, !Codec AggregateRollup, !Codec DailyRollup}.
Variable s : Store.

Lemma hour_commands_writes_at c key field ttl in_hour mark t :
  hour_commands c key field ttl in_hour mark t → Forall (writes_at (λ k f, k = key ∧ f = field)) t.
Proof.
  assert (∀ t0, reads t0 → Forall (writes_at (λ k f, k = key ∧ f = field)) t0) as Hreads.
  { intros t0 H0. eapply Forall_impl; [exact H0|]. by intros []. }
  intros [|t0 answer e Ht0 _|t0 answer Ht0|t0 answer old agg ok Ht0 _ _
    |t0 answer old agg rollup data written t' Ht0 _ _ _ _ Hw]; [by constructor|..];
    apply Forall_app; (split; [by apply Hreads|]); repeat constructor; try done.
  destruct Hw; by repeat constructor.
Qed.

Lemma spec_rollupServiceHour d sv hour now mark :
  spec (rollupServiceHour (W:=W) s d sv hour now mark)
    (λ _ t, Forall (writes_at (λ k f, k = RollupAggregateHour d sv ∧ f = FormatInt (Unix hour))) t).
Proof.
  unfold rollupServiceHour. eapply spec_bind; [apply spec_RollupHour|].
  intros r t Ht%hour_commands_writes_at.
  case_match; [intros w; simpl|apply spec_ret]; by rewrite app_nil_r.
Qed.

Lemma spec_cancelled : spec (cancelled (W:=W)) (λ _ t, t = []).
Proof. intros w. unfold cancelled. by destruct (ctx_done w.2). Qed.

Lemma wanted_hour_cons full hour ref refs t :
  Forall (writes_at (wanted_hour full [hour] refs)) t →
  Forall (writes_at (wanted_hour full [hour] (ref :: refs))) t.
Proof.
  apply writes_at_mono. intros key field. apply wanted_hour_mono; [done|].
  intros ref' Href. exists ref'. split; [by right|done].
Qed.

Lemma spec_fill_refs hour at_ full refs :
  spec (fill_refs (W:=W) s hour at_ full refs) (λ r t,
    Forall (writes_at (wanted_hour full [hour] refs)) t ∧
    match r with Some refs' => Forall2 same_ref refs refs' | None => True end).
Proof.
  induction refs as [|ref refs IH]; cbn [fill_refs]; [by apply spec_ret|].
  eapply spec_bind_silent; [apply spec_cancelled|]. intros []; [by apply spec_ret|].
  destruct (wants full ref (Unix hour)) eqn:Hw; simpl.
  - eapply spec_bind; [apply spec_rollupServiceHour|]. intros res t Ht.
    eapply spec_bind_silent; [apply spec_cancelled|].
    assert (Forall (writes_at (wanted_hour full [hour] (ref :: refs))) t) as Ht'.
    { eapply writes_at_mono; [|exact Ht]. intros key field [-> ->].
      exists ref, hour. split_and!; [by left|by left|done..]. }
    intros []; [apply spec_ret; by rewrite app_nil_r|].
    eapply spec_bind; [exact IH|]. intros r t' [Ht'' Hr]. cbv beta in *. apply spec_ret.
    rewrite app_nil_r. split.
    + apply Forall_app. split; [done|by apply wanted_hour_cons].
    + destruct r as [refs'|]; simpl; [|done]. constructor; [|done]. by case_match.
  - eapply spec_bind; [exact IH|]. intros r t' [Ht'' Hr]. cbv beta in *. apply spec_ret.
    rewrite app_nil_r. split; [by apply wanted_hour_cons|].
    destruct r as [refs'|]; simpl; [|done]. by constructor.
Qed.

(** a backfill writes only what it is for: whatever the servers answer
    and whenever it is cancelled, every hourly field it writes or deletes is
    an hour of its window that, when the backfill began, had no rollup of the
    service or an incomplete one - and had an incomplete one when the backfill
    is not full. *)
Theorem backfill_leaves_complete_hours (at_ : time) (full : bool) (hours : list time)
    (services : list (string * string * gmap Z AggregateRollup)) (w : Runner * W) :
  let refs := (λ x, new_ref x.1.1 x.1.2 x.2) <$> services in
  Forall (writes_at (λ key field, ∃ d sv rollups hour,
      (d, sv, rollups) ∈ services ∧ hour ∈ hours ∧
      key = RollupAggregateHour d sv ∧ field = FormatInt (Unix hour) ∧
      match rollups !! Unix hour with Some r => ¬ complete r | None => full = true end))
    (fill_hours s at_ full hours refs w).2.
Proof.
  intros refs.
  assert (∀ refs', Forall2 same_ref refs refs' →
    spec (W:=Runner * W) (fill_hours s at_ full hours refs') (λ _ t,
      Forall (writes_at (wanted_hour full hours refs)) t)) as Hf.
  { induction hours as [|hour hours IH]; intros refs' Href; cbn [fill_hours]; [by apply spec_ret|].
    assert (∀ ref, ref ∈ refs' → ∃ ref0, ref0 ∈ refs ∧ same_ref ref0 ref) as Hin.
    { intros ref Hr. apply list_elem_of_lookup in Hr as [i Hi].
      destruct (Forall2_lookup_r _ _ _ _ _ Href Hi) as (ref0 & Hi0 & Hs).
      exists ref0. split; [by eapply list_elem_of_lookup_2|done]. }
    eapply spec_bind; [apply spec_fill_refs|]. intros r t [Ht Hr]. cbv beta in *.
    assert (Forall (writes_at (wanted_hour full (hour :: hours) refs)) t) as Ht'.
    { eapply writes_at_mono; [|exact Ht]. intros key field. apply wanted_hour_mono; [set_solver|done]. }
    destruct r as [refs''|]; [|apply spec_ret; by rewrite app_nil_r].
    eapply spec_mono; [apply IH|].
    - clear -Href Hr. revert refs'' Hr. induction Href as [|x y l k Hxy _ IH];
        intros [|z m] Hr; inversion Hr; subst; constructor; [|by apply IH].
      unfold same_ref in *. naive_solver congruence.
    - intros ? t' Ht''. cbv beta in Ht''. apply Forall_app. split; [done|].
      eapply writes_at_mono; [|exact Ht'']. intros key field. apply wanted_hour_mono; [set_solver|].
      intros ref0 Hr0. exists ref0. split; [done|by repeat split]. }
  eapply writes_at_mono; [|apply (Hf refs)].
  - intros key field (ref & hour & Href & Hhour & Hw & -> & ->).
    subst refs. apply list_elem_of_fmap in Href as ([[d sv] rollups] & -> & Hin). simpl in *.
    apply wants_spec in Hw.
    destruct (foldl_add_rollup (map_to_list rollups)
      {| dash := d; svc := sv; existing := ∅; marked := ∅; touched := ∅; first := MaxInt64 |})
      as (Hd & Hs & _). fold (new_ref d sv rollups) in Hd, Hs. rewrite Hd, Hs. eauto 10.
  - apply Forall_Forall2_diag, Forall_true. by repeat split.
Qed.
End backfill.
