(* ===== verification/BackfillProps.v ===== *)
(** * A backfill reaches every gap

    Unless it is cancelled, a backfill computes every hour of the retention
    window whose rollup is missing or incomplete
    (dashboard/internal/rollup/rollup.go). *)

From S2P Require Import Prelude GoStd GoTime Errors Trace Keys Ladder Float64 Rollups RollupProps.
From S2P Require Import Valkey Store StoreProps Runner RunnerProps.

(** The hour is computed: the samples of every location are read, and the
    stored rollup. *)
Definition computes (s : Store) (d sv : string) (hour : time) (t : list command) : Prop :=
  (∀ name c, locations s !! name = Some c → Read c (StatusHour d sv (Unix hour)) ∈ t) ∧
  ∃ answer, HGet (primary s) (RollupAggregateHour d sv) (FormatInt (Unix hour)) answer ∈ t.

Lemma computes_app s d sv hour t t' :
  computes s d sv hour t ∨ computes s d sv hour t' → computes s d sv hour (t ++ t').
Proof.
  intros [[Hr [a Ha]]|[Hr [a Ha]]]; (split; [intros name c H; specialize (Hr name c H)|exists a]); set_solver.
Qed.

Section store.
Context {W : Type} `{!Valkey W, !Codec AggregateRollup, !Codec DailyRollup}.
Variable s : Store.

Lemma reads_ComputeLocationRollup name d sv hour :
  spec (ComputeLocationRollup (W:=W) s name d sv hour) (λ _ t,
    ∀ c, locations s !! name = Some c → Read c (StatusHour d sv (Unix hour)) ∈ t).
Proof.
  unfold ComputeLocationRollup. destruct (locations s !! name) as [c|]; [|by apply spec_ret].
  eapply spec_bind; [apply spec_hgetall|]. intros st t ->.
  eapply (spec_mono _ (λ _ _, True)); [by intros w|]. intros r t _ c' [= <-]. left.
Qed.

Lemma reads_compute_loop d sv hour names per missing failed :
  spec (compute_loop (W:=W) s d sv hour names per missing failed) (λ _ t,
    ∀ name c, name ∈ names → locations s !! name = Some c → Read c (StatusHour d sv (Unix hour)) ∈ t).
Proof.
  revert per missing failed. induction names as [|n names IH]; intros per missing failed; cbn [compute_loop].
  { apply spec_ret. by intros name c ?%elem_of_nil. }
  eapply spec_bind; [apply reads_ComputeLocationRollup|]. intros r t Ht. cbv beta in Ht.
  destruct r; (eapply spec_mono; [apply IH|]; intros ? t' Ht' name c [->|Hn]%elem_of_cons Hc;
    apply elem_of_app; [left; by apply Ht|right; by eapply Ht']).
Qed.

Lemma names_of_locations name c : locations s !! name = Some c → name ∈ LocationNames s.
Proof.
  intros H. unfold LocationNames, sort_strings. rewrite merge_sort_Permutation, list_elem_of_fmap.
  exists (name, c). split; [done|by apply elem_of_map_to_list].
Qed.

Lemma reads_RollupHour d sv hour now mark :
  After (hour_expiry s hour) now = true →
  spec (RollupHour (W:=W) s d sv hour now mark) (λ _ t, computes s d sv hour t).
Proof.
  intros Hx. unfold RollupHour. rewrite Hx. cbn [negb]. eapply (spec_bind _ _ (λ _ t,
    ∀ name c, locations s !! name = Some c → Read c (StatusHour d sv (Unix hour)) ∈ t)).
  { unfold computeAggregate. eapply spec_bind; [apply reads_compute_loop|].
    intros [[per missing] failed] t Ht. apply spec_ret. rewrite app_nil_r. intros name c Hc.
    by eapply Ht; [eapply names_of_locations|]. }
  intros [agg failed] t Ht. cbv beta in Ht. eapply spec_bind; [apply spec_hget|]. intros answer t' ->.
  eapply (spec_mono _ (λ _ _, True)); [by intros w|]. intros r t' _. split.
  - intros name c Hc. apply elem_of_app. left. by eapply Ht.
  - exists answer. apply elem_of_app. right. left.
Qed.
End store.

Section backfill.
Context {W : Type} `{!Valkey W, !Context W, !Codec AggregateRollup, !Codec DailyRollup}.
Variable s : Store.

Lemma reads_rollupServiceHour d sv hour now mark :
  After (hour_expiry s hour) now = true →
  spec (rollupServiceHour (W:=W) s d sv hour now mark) (λ _ t, computes s d sv hour t).
Proof.
  intros Hx. unfold rollupServiceHour. eapply spec_bind; [by apply reads_RollupHour|]. intros r t Ht. cbv beta in Ht.
  eapply (spec_mono _ (λ _ _, True)); [by intros w|]. intros ? t' _. apply computes_app. by left.
Qed.

(** The wanted hours of the services, all computed. *)
Definition gaps_computed (full : bool) (hour : time) (refs : list svcRef) (t : list command) : Prop :=
  ∀ ref, ref ∈ refs → wants full ref (Unix hour) = true → computes s (dash ref) (svc ref) hour t.

Lemma gaps_computed_app full hour refs t t' :
  gaps_computed full hour refs t ∨ gaps_computed full hour refs t' → gaps_computed full hour refs (t ++ t').
Proof. intros [H|H] ref Href Hw; apply computes_app; [left|right]; by apply H. Qed.

Lemma fill_refs_computes hour at_ full refs :
  After (hour_expiry s hour) at_ = true →
  spec (fill_refs (W:=W) s hour at_ full refs) (λ r t, r ≠ None → gaps_computed full hour refs t).
Proof.
  intros Hx. induction refs as [|ref refs IH]; cbn [fill_refs].
  { apply spec_ret. by intros _ ref ?%elem_of_nil. }
  eapply spec_bind_silent; [apply spec_cancelled|]. intros []; [by apply spec_ret|].
  destruct (wants full ref (Unix hour)) eqn:Hw; simpl.
  - eapply spec_bind; [by apply reads_rollupServiceHour|]. intros res t Ht. cbv beta in Ht.
    eapply spec_bind_silent; [apply spec_cancelled|]. intros []; [by apply spec_ret|].
    eapply spec_bind; [exact IH|]. intros r t' Ht'. cbv beta in Ht'. apply spec_ret. rewrite app_nil_r. intros Hr.
    intros ref' [->|Href]%elem_of_cons Hw'; apply computes_app; [by left|right].
    apply Ht'; [|done..]. intros ->. by destruct Hr.
  - eapply spec_bind; [exact IH|]. intros r t' Ht'. cbv beta in Ht'. apply spec_ret. rewrite app_nil_r. intros Hr.
    intros ref' [->|Href]%elem_of_cons Hw'; [congruence|]. apply Ht'; [|done..]. intros ->. by destruct Hr.
Qed.

Lemma gaps_computed_same full hour refs refs' t :
  Forall2 same_ref refs refs' → gaps_computed full hour refs' t → gaps_computed full hour refs t.
Proof.
  intros HF H ref Href Hw. apply list_elem_of_lookup in Href as [i Hi].
  destruct (Forall2_lookup_l _ _ _ _ _ HF Hi) as (ref' & Hi' & Hd & Hs & He & Hm).
  rewrite <-Hd, <-Hs. apply H; [by eapply list_elem_of_lookup_2|]. unfold wants in *. by rewrite He, Hm.
Qed.

Lemma fill_hours_computes at_ full hours : ∀ refs,
  Forall (λ hour, After (hour_expiry s hour) at_ = true) hours →
  spec (fill_hours (W:=W) s at_ full hours refs) (λ r t,
    r ≠ None → ∀ hour, hour ∈ hours → gaps_computed full hour refs t).
Proof.
  induction hours as [|h hours IH]; intros refs HF; cbn [fill_hours].
  { apply spec_ret. by intros _ hour ?%elem_of_nil. }
  apply Forall_cons in HF as [Hx HF].
  eapply (spec_bind _ _ (λ r t, (r ≠ None → gaps_computed full h refs t) ∧
    match r with Some refs' => Forall2 same_ref refs refs' | None => True end)).
  { intros w. split; [by apply fill_refs_computes|]. apply (spec_fill_refs s h at_ full refs w). }
  intros [refs'|] t [Ht Hr]; cbv beta in *; [|by apply spec_ret].
  eapply spec_mono; [by apply IH|]. intros r t' Ht' Hne hour [->|Hh]%elem_of_cons.
  - apply gaps_computed_app. left. by apply Ht.
  - apply gaps_computed_app. right. eapply gaps_computed_same; [exact Hr|]. by apply Ht'.
Qed.
End backfill.

(** The hours of the window are not expired. *)
Lemma window_not_expired (s : Store) (at_ hour : time) (n : Z) :
  0 ≤ at_ → 0 ≤ n → n * Hour < 2 ^ 63 → retention s = n * 3600 → hour ∈ backfill_hours (Truncate at_ Hour) n →
  After (hour_expiry s hour) at_ = true.
Proof.
  intros H0 Hn Hmax Hret (k & -> & Hk%elem_of_seqZ)%list_elem_of_fmap.
  pose proof (Truncate_le at_ Hour ltac:(done)).
  assert (Hour = 3600 * Second) as EH by done. assert (0 < Second) by done.
  unfold hour_expiry, Add, After. rewrite !wrap64_id by (unfold is_int64; nia).
  apply Z.ltb_lt. nia.
Qed.

(** C13: a backfill reaches every gap: when the filling is not cancelled, every
    hour of the retention window before the current one, for every service
    that has no complete rollup of it - or, when the backfill is not full, an
    incomplete one -, is computed: the samples of every location are read for
    it, and the stored rollup it is merged with. *)
Theorem backfill_reaches_every_gap {W} `{!Valkey W, !Context W, !Codec AggregateRollup, !Codec DailyRollup}
    (s : Store) (at_ : time) (full : bool) (n : Z)
    (services : list (string * string * gmap Z AggregateRollup)) (w : Runner * W) :
  0 ≤ at_ → 0 ≤ n → n * Hour < 2 ^ 63 → retention s = n * 3600 →
  let now := Truncate at_ Hour in
  let refs := (λ x, new_ref x.1.1 x.1.2 x.2) <$> services in
  let '(r, _, t) := fill_hours s at_ full (backfill_hours now n) refs w in
  r ≠ None →
  ∀ d sv rollups k, (d, sv, rollups) ∈ services → 1 ≤ k < n →
    let hour := now - k * Hour in
    match rollups !! Unix hour with Some r => ¬ complete r | None => full = true end →
    computes s d sv hour t.
Proof.
  intros H0 Hn Hmax Hret now refs.
  assert (Forall (λ hour, After (hour_expiry s hour) at_ = true) (backfill_hours now n)) as HF.
  { apply Forall_forall. intros hour Hh. by eapply window_not_expired. }
  pose proof (fill_hours_computes s at_ full (backfill_hours now n) refs HF w) as H.
  destruct (fill_hours s at_ full (backfill_hours now n) refs w) as [[r w'] t]. cbn [fst snd] in H.
  intros Hr d sv rollups k Hin Hk hour Hgap.
  assert (hour ∈ backfill_hours now n) as Hh.
  { unfold backfill_hours. apply list_elem_of_fmap. exists k. split; [|by apply elem_of_seqZ; lia].
    unfold Add, hour. assert (0 < Hour) by done. rewrite wrap64_id by (unfold is_int64; nia). lia. }
  assert (new_ref d sv rollups ∈ refs) as Href by (apply list_elem_of_fmap; by exists (d, sv, rollups)).
  pose proof (H Hr hour Hh _ Href) as Hc.
  destruct (foldl_add_rollup (map_to_list rollups)
    {| dash := d; svc := sv; existing := ∅; marked := ∅; touched := ∅; first := MaxInt64 |}) as (Hd & Hs & _).
  fold (new_ref d sv rollups) in Hd, Hs. rewrite Hd, Hs in Hc. apply Hc. by apply wants_spec.
Qed.

(** A server that holds nothing, and a context that is never cancelled. *)
#[local] Instance Valkey_empty : Valkey () := {|
  vk_Smembers := λ _ _ w, (Ok [], w); vk_Hgetall := λ _ _ w, (Ok ∅, w); vk_Hkeys := λ _ _ w, (Ok [], w);
  vk_Hget := λ _ _ _ w, (Err VNil, w); vk_Hset := λ _ _ _ _ w, (None, w); vk_Hexpire := λ _ _ _ _ w, (None, w);
  vk_Hdel := λ _ _ _ w, (None, w); vk_Persist := λ _ _ w, (None, w) |}.
#[local] Instance Context_background : Context () := {| ctx_done := λ w, (false, w) |}.
#[local] Instance plain_aggregates : Codec AggregateRollup := {| marshal := λ _, Some ""; unmarshal := λ _, None |}.
#[local] Instance plain_days : Codec DailyRollup := {| marshal := λ _, Some ""; unmarshal := λ _, None |}.

Definition gap_client : Client := {| cl_name := "eu"; cl_id := 0 |}.

Definition gap_store : Store :=
  {| locations := {["eu" := gap_client]}; primary := gap_client; retention := 48 * 3600; retentionDays := 2 |}.

Lemma backfill_reaches_every_gap_witness :
  let at_ := of_Unix 1700000123 in
  let t := (fill_hours gap_store at_ true (backfill_hours (Truncate at_ Hour) 48)
    [new_ref "prod" "api" ∅] (NewRunner Minute Second 2, ())).2 in
  computes gap_store "prod" "api" (Truncate at_ Hour - 47 * Hour) t.
Proof.
  pose proof (backfill_reaches_every_gap gap_store (of_Unix 1700000123) true 48 [("prod", "api", ∅)]
    (NewRunner Minute Second 2, ()) ltac:(vm_compute; discriminate) ltac:(lia) ltac:(vm_compute; reflexivity)
    ltac:(reflexivity)) as H.
  cbv zeta in H |- *. cbn [fmap list_fmap fst snd] in H.
  assert ((fill_hours gap_store (of_Unix 1700000123) true (backfill_hours (Truncate (of_Unix 1700000123) Hour) 48)
    [new_ref "prod" "api" ∅] (NewRunner Minute Second 2, ())).1.1 ≠ None) as Hr by (vm_compute; discriminate).
  destruct (fill_hours _ _ _ _ _ _) as [[r w'] t]. cbn [fst snd] in *.
  apply (H Hr "prod" "api" ∅ 47); [by left|lia|]. by rewrite lookup_empty.
Defined.
