(* ===== verification/Process.v ===== *)
(** * The reached dashboard

    The goroutines of the dashboard once it has started
    (dashboard/cmd/dashboard/main.go, Start in
    dashboard/internal/rollup/rollup.go): main waits for a signal, the runner
    makes its passes and starts backfills, the web server listens.  Their
    steps interleave as they may. *)

From S2P Require Import Prelude GoStd GoTime Errors Trace Keys Ladder Float64 Rollups RollupProps.
From S2P Require Import Valkey Store StoreProps Runner RunnerProps.

Inductive main_state := MWaiting | MShutdown | MExited (code : Z).
(** The goroutine that listens: in ListenAndServe, back with an error that is
    not ErrServerClosed, in [log.Fatalf], or back after Shutdown. *)
Inductive http_state := HServing | HFailing | HFailed | HReturned.
Inductive runner_state := RStarting | RPassing | RSelecting | RReturned.

Record Process := {
  p_done : bool;                (* ctx is done: a signal came *)
  p_main : main_state;
  p_http : http_state;
  p_closed : bool;              (* Shutdown was called *)
  p_runner : runner_state;
  p_tick : bool;                (* a tick waits in the ticker's channel *)
  p_ticks : nat;                (* ticks that were not dropped *)
  p_passes : nat;
  p_backfills : nat;            (* goroutines of launchBackfill *)
  p_state : Runner }.           (* the runner's fields *)

(** After main's [go] statements. *)
Definition launched (r : Runner) : Process :=
  {| p_done := false; p_main := MWaiting; p_http := HServing; p_closed := false;
     p_runner := RStarting; p_tick := false; p_ticks := 0; p_passes := 0; p_backfills := 0; p_state := r |}.

Definition with_main (p : Process) (m : main_state) (h : http_state) (closed : bool) : Process :=
  {| p_done := p_done p; p_main := m; p_http := h; p_closed := closed; p_runner := p_runner p; p_tick := p_tick p;
     p_ticks := p_ticks p; p_passes := p_passes p; p_backfills := p_backfills p; p_state := p_state p |}.

Definition with_runner (p : Process) (st : runner_state) (backfills : nat) (r : Runner) : Process :=
  {| p_done := p_done p; p_main := p_main p; p_http := p_http p; p_closed := p_closed p; p_runner := st; p_tick := p_tick p;
     p_ticks := p_ticks p; p_passes := p_passes p; p_backfills := backfills; p_state := r |}.

(** A pass begins; [tick]: whether one is left in the channel. *)
Definition with_pass (p : Process) : Process :=
  {| p_done := p_done p; p_main := p_main p; p_http := p_http p; p_closed := p_closed p; p_runner := RPassing; p_tick := false;
     p_ticks := p_ticks p; p_passes := S (p_passes p); p_backfills := p_backfills p; p_state := p_state p |}.

(** A tick, dropped when one is waiting already. *)
Definition tick (p : Process) : Process :=
  {| p_done := p_done p; p_main := p_main p; p_http := p_http p; p_closed := p_closed p; p_runner := p_runner p; p_tick := true;
     p_ticks := if p_tick p then p_ticks p else S (p_ticks p); p_passes := p_passes p;
     p_backfills := p_backfills p; p_state := p_state p |}.

Definition signal (p : Process) : Process :=
  {| p_done := true; p_main := p_main p; p_http := p_http p; p_closed := p_closed p; p_runner := p_runner p; p_tick := p_tick p;
     p_ticks := p_ticks p; p_passes := p_passes p; p_backfills := p_backfills p; p_state := p_state p |}.

Definition alive (p : Process) : Prop := match p_main p with MExited _ => False | _ => True end.

(** The steps of main. *)
Inductive main_step (p : Process) : Process → Prop :=
| main_shutdown : p_main p = MWaiting → p_done p = true → main_step p (with_main p MShutdown (p_http p) true)
| main_returns : p_main p = MShutdown → main_step p (with_main p (MExited 0) (p_http p) (p_closed p)).

(** The goroutine that listens. *)
Inductive listen_step (p : Process) : Process → Prop :=
| listen_fails : p_http p = HServing → listen_step p (with_main p (p_main p) HFailing (p_closed p))
| listen_returns :
    p_http p = HServing → p_closed p = true → listen_step p (with_main p (p_main p) HReturned (p_closed p))
| listen_fatal : p_http p = HFailing → listen_step p (with_main p (MExited 1) HFailed (p_closed p)).

(** The runner's [Start], with the ticker: a pass leaves notes in the fields,
    returns early or ends in afterPass. *)
Inductive loop_step (p : Process) : Process → Prop :=
| loop_starts now :
    p_runner p = RStarting →
    loop_step p (with_pass (with_runner p RPassing (S (p_backfills p)) (started (p_state p) now)))
| loop_tick : p_runner p = RPassing ∨ p_runner p = RSelecting → loop_step p (tick p)
| pass_begins : p_runner p = RSelecting → p_tick p = true → loop_step p (with_pass p)
| pass_notes e :
    is_note e → p_runner p = RPassing →
    loop_step p (with_runner p (p_runner p) (p_backfills p) (step (p_state p) e).1)
| pass_returns : p_runner p = RPassing → loop_step p (with_runner p RSelecting (p_backfills p) (p_state p))
| pass_ends now down failed r launch :
    p_runner p = RPassing → afterPass (p_state p) now down failed = (r, launch) →
    loop_step p (with_runner p RSelecting (if launch then S (p_backfills p) else p_backfills p) r)
| loop_returns : p_runner p = RSelecting → p_done p = true →
    loop_step p (with_runner p RReturned (p_backfills p) (p_state p)).

(** The goroutines of launchBackfill. *)
Inductive backfill_step (p : Process) : Process → Prop :=
| backfill_notes e :
    is_note e → (0 < p_backfills p)%nat →
    backfill_step p (with_runner p (p_runner p) (p_backfills p) (step (p_state p) e).1)
| backfill_ends n :
    p_backfills p = S n → backfill_step p (with_runner p (p_runner p) n (backfill_done (p_state p))).

Inductive other_step (p p' : Process) : Prop :=
| by_signal : p' = signal p → other_step p p'
| by_listener : listen_step p p' → other_step p p'
| by_loop : loop_step p p' → other_step p p'
| by_backfill : backfill_step p p' → other_step p p'.

Inductive process_step (p p' : Process) : Prop :=
| by_main : alive p → main_step p p' → process_step p p'
| by_other : alive p → other_step p p' → process_step p p'.

Inductive reached (r : Runner) : Process → Prop :=
| reached_start : reached r (launched r)
| reached_step p p' : reached r p → process_step p p' → reached r p'.

(** ** Invariants *)

Definition backfills_ok (p : Process) : Prop :=
  match p_runner p with
  | RStarting => p_backfills p = 0%nat ∧ backfilling (p_state p) = false
  | _ => p_backfills p = (if backfilling (p_state p) then 1 else 0)%nat
  end.

Definition passes_ok (p : Process) : Prop :=
  match p_runner p with
  | RStarting => p_passes p = 0%nat ∧ p_tick p = false ∧ p_ticks p = 0%nat
  | _ => (p_passes p + (if p_tick p then 1 else 0) = p_ticks p + 1)%nat
  end.

Definition exit_ok (p : Process) : Prop :=
  match p_main p with
  | MWaiting => p_closed p = false ∧ p_http p ≠ HFailed
  | MShutdown => p_done p = true ∧ p_closed p = true ∧ p_http p ≠ HFailed
  | MExited 0 => p_done p = true ∧ p_closed p = true ∧ p_http p ≠ HFailed
  | MExited code => code = 1 ∧ p_http p = HFailed
  end.

(** The steps main has still to make. *)
Definition main_left (p : Process) : nat :=
  match p_main p with MWaiting => 2 | MShutdown => 1 | MExited _ => 0 end.

Lemma note_backfilling r e : is_note e → backfilling (step r e).1 = backfilling r.
Proof. by destruct e. Qed.

Lemma backfills_step p p' : alive p → other_step p p' → backfills_ok p → backfills_ok p'.
Proof.
  unfold backfills_ok.
  intros _
    [->|[Hh|Hh Hc|Hh]|[now Hr|Hr|Hr Ht|e He Hr|Hr|now down failed r launch Hr Ha|Hr Hd]|[e He Hn|n Hn]];
    cbn [signal with_main with_runner with_pass tick p_runner p_backfills p_state];
    rewrite ?Hr; try done.
  - intros [-> _]. done.
  - by rewrite note_backfilling.
  - intros Hb. destruct launch as [full|].
    + destruct (afterPass_launch _ _ _ _ _ _ Ha) as (Hbf & -> & _). rewrite Hbf in Hb. by rewrite Hb.
    + by destruct (afterPass_quiet _ _ _ _ _ Ha) as [-> _].
  - by destruct (p_runner p); rewrite ?note_backfilling.
  - destruct (p_runner p); [intros [? _]; congruence|..]; (destruct (backfilling (p_state p)); intros; simpl; congruence).
Qed.

Lemma passes_step p p' : other_step p p' → passes_ok p → passes_ok p'.
Proof.
  unfold passes_ok.
  intros [->|[Hh|Hh Hc|Hh]|[now Hr|Hr|Hr Ht|e He Hr|Hr|now down failed r launch Hr Ha|Hr Hd]|[e He Hn|n Hn]];
    cbn [signal with_main with_runner with_pass tick p_runner p_passes p_tick p_ticks];
    rewrite ?Hr; try done.
  - intros (-> & _ & ->). done.
  - destruct Hr as [-> | ->]; destruct (p_tick p); lia.
  - rewrite Ht. lia.
Qed.

Lemma exit_step p p' : process_step p p' → exit_ok p → exit_ok p'.
Proof.
  unfold exit_ok. intros [Ha Hs|Ha Hs]; unfold alive in Ha.
  - destruct Hs as [Hm Hd|Hm]; cbn; rewrite Hm; [|done]. intros (_ & Hh). done.
  - destruct Hs as [->|[]|[]|[]]; cbn; destruct (p_main p); naive_solver.
Qed.

Lemma backfills_main p p' : main_step p p' → backfills_ok p → backfills_ok p'.
Proof. by destruct 1. Qed.

Lemma passes_main p p' : main_step p p' → passes_ok p → passes_ok p'.
Proof. by destruct 1. Qed.

Lemma reached_ok r p :
  backfilling r = false → reached r p → backfills_ok p ∧ passes_ok p ∧ exit_ok p.
Proof.
  intros Hb. induction 1 as [|p p' _ (IH1 & IH2 & IH3) Hs].
  - repeat split; done.
  - split; [|split]; [destruct Hs| destruct Hs|]; eauto using backfills_main, backfills_step, passes_main,
      passes_step, exit_step.
Qed.

Lemma other_keeps_main p p' : other_step p p' → (main_left p' ≤ main_left p)%nat ∧ (p_done p = true → p_done p' = true).
Proof. unfold main_left. intros [->|[]|[]|[]]; cbn; (split; [|done]); lia. Qed.

Lemma main_advances p p' : main_step p p' → (main_left p' < main_left p)%nat ∧ p_done p' = p_done p.
Proof. unfold main_left. destruct 1 as [Hm|Hm]; cbn; rewrite Hm; (split; [lia|done]). Qed.

Lemma main_enabled p : exit_ok p → p_done p = true → alive p → ∃ p', main_step p p'.
Proof.
  unfold exit_ok, alive. intros _ Hd Ha. destruct (p_main p) eqn:Hm; [..|done];
    eexists; [by apply main_shutdown|by apply main_returns].
Qed.

(** C37: however the goroutines of a started dashboard interleave, at most one
    backfill runs and the flag backfilling says whether one does, no tick
    starts two passes, the process exits with 0 only when a signal came and
    Shutdown ended, with 1 only when listening failed, and with nothing else;
    once a signal came main can always go on, and each of its steps brings its
    end nearer, which no step of another goroutine undoes. *)
Theorem dashboard_stops_on_signal (r : Runner) (p : Process) :
  backfilling r = false → reached r p →
  (p_backfills p ≤ 1)%nat ∧ (p_runner p ≠ RStarting → p_backfills p = 1%nat ↔ backfilling (p_state p) = true) ∧
  (p_passes p ≤ p_ticks p + 1)%nat ∧
  (∀ code, p_main p = MExited code →
     (code = 0 ∧ p_done p = true ∧ p_closed p = true ∧ p_http p ≠ HFailed) ∨ (code = 1 ∧ p_http p = HFailed)) ∧
  (p_done p = true → alive p → ∃ p', main_step p p') ∧
  (∀ p', main_step p p' → (main_left p' < main_left p)%nat ∧ p_done p' = true) ∧
  (∀ p', other_step p p' → (main_left p' ≤ main_left p)%nat ∧ (p_done p = true → p_done p' = true)).
Proof.
  intros Hb Hr. destruct (reached_ok r p Hb Hr) as (H1 & H2 & H3).
  split; [|split; [|split; [|split; [|split; [|split]]]]].
  - unfold backfills_ok in H1. destruct (p_runner p), (backfilling (p_state p)); (lia || (destruct H1; lia)).
  - unfold backfills_ok in H1. intros Hs. destruct (p_runner p); [done|..]; rewrite H1; destruct (backfilling (p_state p)); by split.
  - unfold passes_ok in H2. destruct (p_runner p), (p_tick p); lia.
  - intros code Hm. unfold exit_ok in H3. rewrite Hm in H3. clear -H3.
    destruct code as [|[c|c|]|c]; [left|right..]; naive_solver.
  - by apply main_enabled.
  - intros p' Hs. destruct (main_advances p p' Hs) as [? ->]. split; [done|].
    unfold exit_ok in H3. destruct Hs as [|Hm]; [done|]. rewrite Hm in H3. by destruct H3.
  - intros p' Hs. by apply other_keeps_main.
Qed.

(** A signal in the middle of the first pass; main shuts the listener. *)
Definition sim_runner : Runner := NewRunner (5 * Minute) (10 * 10 ^ 6) 30.
Definition sim_started : Process :=
  with_pass (with_runner (launched sim_runner) RPassing 1 (Runner.started sim_runner 0)).
Definition sim_shutdown : Process := with_main (signal sim_started) MShutdown HServing true.

Lemma sim_shutdown_reached : reached sim_runner sim_shutdown.
Proof.
  apply (reached_step _ (signal sim_started)).
  - apply (reached_step _ sim_started).
    + apply (reached_step _ (launched sim_runner)); [constructor|].
      apply by_other; [done|]. by apply by_loop, (loop_starts (launched sim_runner) 0).
    + apply by_other; [done|]. by apply by_signal.
  - apply by_main; [done|]. by apply (main_shutdown (signal sim_started)).
Qed.

Lemma dashboard_stops_on_signal_witness :
  p_backfills sim_shutdown = 1%nat ∧ ∃ p', main_step sim_shutdown p' ∧ p_main p' = MExited 0.
Proof.
  destruct (dashboard_stops_on_signal sim_runner sim_shutdown eq_refl sim_shutdown_reached)
    as (_ & H2 & _ & _ & H5 & _).
  split; [by apply H2|]. destruct (H5 eq_refl I) as [p' Hp]. exists p'. split; [done|].
  by inversion Hp.
Defined.
