(* ===== verification/Resp.v ===== *)
(** * The Valkey wire protocol

    Commands and replies of the serialization protocol: the valkey notifier's
    client (internal/notifier/valkey/client.go), the encoder of the redis
    driver (internal/driver/redis.go) and the command reader of the in-memory
    server (dashboard/internal/valkeytest/valkeytest.go).  A buffered reader
    is the string of bytes the connection still delivers; a read past its end
    fails. *)

From S2P Require Import Prelude GoStd Errors.

(** ** Encoding *)

Definition bulk (arg : string) : string := "$" +:+ FormatInt (slen arg) +:+ CRLF +:+ arg +:+ CRLF.

Fixpoint bulks (args : list string) : string :=
  match args with [] => "" | arg :: args => bulk arg +:+ bulks args end.

(** The client's [encodeCommand]. *)
Definition encodeCommand (cmd : list string) : string :=
  "*" +:+ FormatInt (len cmd) +:+ CRLF +:+ bulks cmd.

(** The redis driver's [redisEncode], which builds the same text in a string. *)
Definition redisEncode (args : list string) : string :=
  foldl (λ b arg, b +:+ ("$" +:+ FormatInt (slen arg) +:+ CRLF +:+ arg +:+ CRLF))
    ("*" +:+ FormatInt (len args) +:+ CRLF) args.

(** ** Decoding *)

(** The result of reading from the connection: a value and the bytes left,
    an error, or a panic of [make] or of a slice expression. *)
Inductive outcome (A : Type) :=
| Done (a : A) (rest : string)
| Failed (e : error)
| Panicked
| OutOfFuel.
Arguments Done {A}. Arguments Failed {A}. Arguments Panicked {A}. Arguments OutOfFuel {A}.

(** The error of a read past the end, and those of [strconv.Atoi]. *)
Definition read_error : error := EExt KOther "EOF".
Definition atoi_error (e : num_error) : error :=
  EExt KOther (match e with ErrSyntax => "invalid syntax" | ErrRange => "value out of range" end).

(** [make] of [n] elements of [size] bytes panics when [n] is negative or the
    memory exceeds the address space of the runtime. *)
Definition maxAlloc : Z := 2 ^ 48.
Definition make_ok (size n : Z) : bool := (0 <=? n) && (n * size <=? maxAlloc).

(** [r.ReadString('\n')]: the line with its newline. *)
Definition ReadString (s : string) : option (string * string) :=
  match cut LF s with Some (line, rest) => Some (line +:+ String LF "", rest) | None => None end.

(** [io.ReadFull(r, buf)] for a buffer of [n] bytes. *)
Definition ReadFull (n : Z) (s : string) : option (string * string) :=
  if slen s <? n then None else Some (stake (Z.to_nat n) s, sdrop (Z.to_nat n) s).

(** What [readReply] returns: [string], [int64], [nil] or [[]any]. *)
Inductive reply :=
| GString (s : string)
| GInt (z : Z)
| GNil
| GArray (items : list reply).

(** The loop over the items of an array, each read by [read]. *)
Definition read_items (read : string → outcome reply) : nat → Z → string → outcome (list reply) :=
  fix items (k : nat) (count : Z) (s : string) : outcome (list reply) :=
    if count <=? 0 then Done [] s
    else match k with
         | O => OutOfFuel
         | S k =>
             match read s with
             | Done item s =>
                 match items k (count - 1) s with
                 | Done l s => Done (item :: l) s
                 | o => o
                 end
             | Failed e => Failed e | Panicked => Panicked | OutOfFuel => OutOfFuel
             end
         end.

Section read.
(** [strconv.Quote], the [%q] of the messages. *)
Variable Quote : string → string.

Fixpoint readReply (fuel : nat) (s : string) : outcome reply :=
  match fuel with
  | O => OutOfFuel
  | S fuel =>
      match ReadString s with
      | None => Failed read_error
      | Some ("", _) => Failed (ENew "empty reply")
      | Some (String c line as whole, rest) =>
          if decide (c = "+"%char) then Done (GString (trim_suffix CRLF line)) rest
          else if decide (c = "-"%char) then Failed (ENew ("valkey error: " +:+ trim_space line))
          else if decide (c = ":"%char) then
            match ParseInt (trim_space line) with
            | (_, Some e) => Failed (atoi_error e)
            | (n, None) => Done (GInt n) rest
            end
          else if decide (c = "$"%char) then
            match ParseInt (trim_space line) with
            | (_, Some e) => Failed (atoi_error e)
            | (size, None) =>
                if size <? 0 then Done GNil rest
                else if negb (make_ok 1 (wrap64 (size + 2))) then Panicked
                else match ReadFull (wrap64 (size + 2)) rest with
                     | None => Failed read_error
                     | Some (buf, rest) => Done (GString (stake (Z.to_nat size) buf)) rest
                     end
            end
          else if decide (c = "*"%char) then
            match ParseInt (trim_space line) with
            | (_, Some e) => Failed (atoi_error e)
            | (count, None) =>
                if negb (make_ok 16 count) then Panicked
                else
                  match read_items (readReply fuel) fuel count rest with
                  | Done l s => Done (GArray l) s
                  | Failed e => Failed e | Panicked => Panicked | OutOfFuel => OutOfFuel
                  end
            end
          else Failed (ENew ("unknown reply type: " +:+ Quote whole))
      end
  end.

(** ** The server's side *)

(** [readLine]: without the trailing newline and carriage returns. *)
Definition readLine (s : string) : option (string * string) :=
  match ReadString s with
  | Some (line, rest) => Some (trim_right (λ c, bool_decide (c = CR ∨ c = LF)) line, rest)
  | None => None
  end.

Fixpoint read_args (k : nat) (n : Z) (s : string) : outcome (list string) :=
  if n <=? 0 then Done [] s
  else match k with
       | O => OutOfFuel
       | S k =>
           match readLine s with
           | None => Failed read_error
           | Some (line, rest) =>
               match line with
               | String "$" line' =>
                   match ParseInt line' with
                   | (_, Some e) => Failed (atoi_error e)
                   | (size, None) =>
                       if negb (make_ok 1 (wrap64 (size + 2))) then Panicked
                       else match ReadFull (wrap64 (size + 2)) rest with
                            | None => Failed read_error
                            | Some (buf, rest) =>
                                if size <? 0 then Panicked
                                else match read_args k (n - 1) rest with
                                     | Done args rest => Done (stake (Z.to_nat size) buf :: args) rest
                                     | o => o
                                     end
                            end
                   end
               | _ => Failed (ENew ("unexpected " +:+ Quote line))
               end
           end
       end.

Definition readCommand (s : string) : outcome (list string) :=
  match readLine s with
  | None => Failed read_error
  | Some (line, rest) =>
      match line with
      | String "*" line' =>
          match ParseInt line' with
          | (_, Some e) => Failed (atoi_error e)
          | (n, None) =>
              if negb (make_ok 16 n) then Panicked
              else read_args (S (String.length rest)) n rest
          end
      | _ => Failed (ENew ("unexpected " +:+ Quote line))
      end
  end.
End read.

Lemma trim_left_none p s : sforall (λ c, p c = false) s → trim_left p s = s.
Proof. destruct s as [|c s]; [done|]. rewrite sforall_cons. intros [Hc _]. simpl. by rewrite Hc. Qed.

Lemma trim_right_none p s : sforall (λ c, p c = false) s → trim_right p s = s.
Proof.
  induction s as [|c s IH]; [done|]. rewrite sforall_cons. intros [Hc Hs]. simpl.
  rewrite IH by done. destruct s; [by rewrite Hc|done].
Qed.

Lemma trim_right_app p s t : trim_right p t = "" → trim_right p (s +:+ t) = trim_right p s.
Proof. intros Ht. induction s as [|c s IH]; [done|]. simpl. by rewrite IH. Qed.

Lemma FormatInt_sforall (P : ascii → Prop) z :
  (∀ c, digit_value c ≠ None ∨ c = "-"%char → P c) → sforall P (FormatInt z).
Proof.
  intros HP c Hc. apply HP. destruct (digit_value c) eqn:E; [by left|].
  destruct (decide (c = "-"%char)); [by right|]. by rewrite FormatInt_no_byte in Hc.
Qed.

Lemma digit_or_minus (p : ascii → bool) :
  (∀ c, p c = true → digit_value c = None ∧ c ≠ "-"%char) →
  ∀ z, sforall (λ c, p c = false) (FormatInt z).
Proof.
  intros Hp z. apply FormatInt_sforall. intros c Hc. destruct (p c) eqn:E; [|done].
  destruct (Hp c E). naive_solver.
Qed.

Lemma is_space_number c : is_space c = true → digit_value c = None ∧ c ≠ "-"%char.
Proof.
  unfold is_space. rewrite bool_decide_eq_true. intros H.
  repeat (apply elem_of_cons in H as [->|H]; [by split|]). by apply elem_of_nil in H.
Qed.

Lemma trim_space_number z : trim_space (FormatInt z +:+ CRLF) = FormatInt z.
Proof.
  pose proof (digit_or_minus is_space is_space_number z) as H. unfold trim_space.
  destruct (FormatInt z) as [|c s] eqn:E; [done|].
  assert (is_space c = false) as Hc by (by apply sforall_cons in H as [? _]).
  cbn [String.append trim_left]. rewrite Hc.
  change (String c (s +:+ CRLF)) with (String c s +:+ CRLF).
  rewrite trim_right_app by done. by apply trim_right_none.
Qed.

Lemma ReadString_number c z rest :
  ReadString (String c (FormatInt z +:+ CRLF +:+ rest)) =
  if decide (c = LF) then ReadString (String c (FormatInt z +:+ CRLF +:+ rest))
  else Some (String c (FormatInt z +:+ CRLF), rest).
Proof.
  case_decide as Hc; [done|]. unfold ReadString.
  replace (String c (FormatInt z +:+ CRLF +:+ rest))
    with (String c (FormatInt z +:+ String CR "") +:+ String LF rest)
    by (simpl; by rewrite <-sapp_assoc).
  rewrite cut_app.
  - simpl. by rewrite <-sapp_assoc.
  - change (String c (FormatInt z +:+ String CR "")) with (String c "" +:+ FormatInt z +:+ String CR "").
    rewrite !has_byte_app. rewrite FormatInt_no_byte by done. simpl. by rewrite decide_False by congruence.
Qed.

Lemma ReadFull_app s1 s2 n : slen s1 = n → ReadFull n (s1 +:+ s2) = Some (s1, s2).
Proof.
  intros <-. unfold ReadFull, slen. rewrite slength_app. case_match eqn:E; zb; [lia|].
  by rewrite Nat2Z.id, stake_app, sdrop_app.
Qed.

(** ** Round trips *)

(** A command the memory of a process can hold. *)
Definition fits (cmd : list string) : Prop :=
  len cmd * 16 ≤ maxAlloc ∧ Forall (λ arg, slen arg + 2 ≤ maxAlloc) cmd.

Lemma slen_nonneg s : 0 ≤ slen s.
Proof. unfold slen. lia. Qed.

Lemma int64_small z : 0 ≤ z ≤ maxAlloc → is_int64 z.
Proof. unfold is_int64, maxAlloc. lia. Qed.

Lemma make_ok_small size n : 0 ≤ n → n * size ≤ maxAlloc → make_ok size n = true.
Proof. intros. unfold make_ok. apply andb_true_iff. split; by apply Z.leb_le. Qed.

Lemma redisEncode_encodeCommand args : redisEncode args = encodeCommand args.
Proof.
  assert (∀ b, foldl (λ b arg, b +:+ bulk arg) b args = b +:+ bulks args) as H.
  { induction args as [|arg args IH]; intros b; cbn [foldl bulks]; [by rewrite sapp_nil_r|].
    by rewrite IH, sapp_assoc. }
  unfold redisEncode, encodeCommand. etrans; [apply H|]. by rewrite !sapp_assoc.
Qed.

Section roundtrip.
Variable Quote : string → string.

Lemma readLine_number c z rest :
  c ≠ LF → readLine (String c (FormatInt z +:+ CRLF +:+ rest)) = Some (String c (FormatInt z), rest).
Proof.
  intros Hc. unfold readLine. rewrite ReadString_number, decide_False by done. do 2 f_equal.
  change (String c (FormatInt z +:+ CRLF)) with (String c (FormatInt z) +:+ CRLF).
  rewrite trim_right_app by done.
  assert (sforall (λ d, bool_decide (d = CR ∨ d = LF) = false) (FormatInt z)) as H.
  { apply (digit_or_minus (λ d, bool_decide (d = CR ∨ d = LF))).
    intros d Hd. apply bool_decide_eq_true in Hd as [->| ->]; by split. }
  cbn [trim_right]. rewrite (trim_right_none _ _ H).
  pose proof (pretty_N_ne_nil) as Hne. destruct (FormatInt z) eqn:E; [|done].
  exfalso. unfold FormatInt in E. destruct z; [done|by apply (Hne (N.pos p))|done].
Qed.

Lemma read_args_bulks k args rest :
  (length args ≤ k)%nat → Forall (λ arg, slen arg + 2 ≤ maxAlloc) args →
  read_args Quote k (len args) (bulks args +:+ rest) = Done args rest.
Proof.
  revert k. induction args as [|arg args IH]; intros k Hk Hf; [by destruct k|].
  apply Forall_cons in Hf as [Ha Hf]. destruct k as [|k]; [simpl in Hk; lia|].
  pose proof (slen_nonneg arg). cbn [read_args]. rewrite len_cons.
  rewrite (proj2 (Z.leb_gt _ _)) by (pose proof (len_nonneg args); lia).
  cbn [bulks]. unfold bulk.
  cbn [String.append]. rewrite <-!sapp_assoc, readLine_number by done.
  rewrite ParseInt_FormatInt by (apply int64_small; lia).
  rewrite wrap64_id by (apply int64_small; lia).
  rewrite make_ok_small by lia. cbn [negb].
  rewrite (sapp_assoc arg), (ReadFull_app (arg +:+ CRLF))
    by (unfold slen; rewrite slength_app; simpl; lia).
  rewrite (proj2 (Z.ltb_ge _ _)) by lia.
  replace (1 + len args - 1) with (len args) by lia.
  rewrite IH by (simpl in Hk; (lia || done)). do 2 f_equal.
  unfold slen. by rewrite Nat2Z.id, stake_app.
Qed.

Lemma bulks_length args : (length args ≤ String.length (bulks args))%nat.
Proof. induction args as [|a args IH]; simpl; [lia|]. rewrite slength_app. lia. Qed.

Lemma readCommand_encode cmd rest :
  fits cmd → readCommand Quote (encodeCommand cmd +:+ rest) = Done cmd rest.
Proof.
  intros [Hl Hf]. pose proof (len_nonneg cmd). unfold readCommand, encodeCommand.
  cbn [String.append]. rewrite <-!sapp_assoc, readLine_number by done.
  rewrite ParseInt_FormatInt by (apply int64_small; lia).
  rewrite make_ok_small by lia. cbn [negb]. apply read_args_bulks; [|done].
  rewrite slength_app. pose proof (bulks_length cmd). lia.
Qed.

Lemma readReply_bulk fuel arg rest :
  slen arg + 2 ≤ maxAlloc → readReply Quote (S fuel) (bulk arg +:+ rest) = Done (GString arg) rest.
Proof.
  intros Ha. pose proof (slen_nonneg arg). unfold bulk. cbn [String.append readReply].
  rewrite <-!sapp_assoc, ReadString_number, decide_False by done.
  rewrite !decide_False, decide_True by done. rewrite trim_space_number.
  rewrite ParseInt_FormatInt by (apply int64_small; lia).
  rewrite (proj2 (Z.ltb_ge _ _)), wrap64_id by (lia || apply int64_small; lia).
  rewrite make_ok_small by lia. cbn [negb].
  rewrite (sapp_assoc arg), (ReadFull_app (arg +:+ CRLF))
    by (unfold slen; rewrite slength_app; simpl; lia).
  do 2 f_equal. unfold slen. by rewrite Nat2Z.id, stake_app.
Qed.

Lemma read_items_bulks fuel k args rest :
  (length args ≤ k)%nat → Forall (λ arg, slen arg + 2 ≤ maxAlloc) args →
  read_items (readReply Quote (S fuel)) k (len args) (bulks args +:+ rest) = Done (GString <$> args) rest.
Proof.
  revert k. induction args as [|arg args IH]; intros k Hk Hf; [by destruct k|].
  apply Forall_cons in Hf as [Ha Hf]. destruct k as [|k]; [simpl in Hk; lia|].
  cbn [read_items bulks]. rewrite len_cons.
  rewrite (proj2 (Z.leb_gt _ _)) by (pose proof (len_nonneg args); lia).
  rewrite <-sapp_assoc, readReply_bulk by done.
  replace (1 + len args - 1) with (len args) by lia.
  by rewrite IH by (simpl in Hk; (lia || done)).
Qed.

Lemma readReply_encode fuel cmd rest :
  fits cmd → (String.length (encodeCommand cmd) < fuel)%nat →
  readReply Quote fuel (encodeCommand cmd +:+ rest) = Done (GArray (GString <$> cmd)) rest.
Proof.
  intros [Hl Hf] Hfuel. pose proof (len_nonneg cmd). pose proof (bulks_length cmd).
  unfold encodeCommand in *. rewrite !slength_app in Hfuel. simpl in Hfuel.
  destruct fuel as [|fuel]; [lia|].
  cbn [String.append readReply]. rewrite <-!sapp_assoc, ReadString_number, decide_False by done.
  rewrite !decide_False, decide_True by done. rewrite trim_space_number.
  rewrite ParseInt_FormatInt by (apply int64_small; lia).
  rewrite make_ok_small by lia. cbn [negb]. destruct fuel as [|fuel]; [lia|].
  by rewrite read_items_bulks by (lia || done).
Qed.

(** ** Termination *)

Lemma cut_length c s a b : cut c s = Some (a, b) → (String.length a + S (String.length b) = String.length s)%nat.
Proof.
  revert a. induction s as [|d s IH]; intros a; simpl; [done|]. case_decide; [intros [= <- <-]; done|].
  destruct (cut c s) as [[a' b']|]; [|done]. intros [= <- <-]. simpl. specialize (IH a' eq_refl). lia.
Qed.

Lemma ReadString_length s line rest :
  ReadString s = Some (line, rest) → (String.length rest < String.length s)%nat.
Proof.
  unfold ReadString. destruct (cut LF s) as [[a b]|] eqn:E; [|done]. intros [= <- <-].
  apply cut_length in E. lia.
Qed.

Lemma ReadFull_length n s buf rest :
  ReadFull n s = Some (buf, rest) → (String.length rest ≤ String.length s)%nat.
Proof. unfold ReadFull. case_match; [done|]. intros [= _ <-]. rewrite sdrop_length. lia. Qed.

(** A read that ends leaves less to read, and it ends. *)
Definition ends {A} (s : string) (o : outcome A) : Prop :=
  match o with Done _ rest => (String.length rest < String.length s)%nat | OutOfFuel => False | _ => True end.

Lemma read_items_ends (read : string → outcome reply) (bound : nat) :
  (∀ s, (String.length s < bound)%nat → ends s (read s)) →
  ∀ k count s, (String.length s < bound)%nat → (String.length s < k)%nat →
    match read_items read k count s with
    | Done _ rest => (String.length rest ≤ String.length s)%nat | OutOfFuel => False | _ => True
    end.
Proof.
  intros Hread k. induction k as [|k IH]; intros count s Hb Hk; cbn [read_items];
    (destruct (count <=? 0); [done|]); specialize (Hread s Hb) as Hs; unfold ends in Hs.
  - lia.
  - destruct (read s) as [item s'| | |]; try done.
    specialize (IH (count - 1) s' ltac:(lia) ltac:(lia)).
    destruct (read_items read k (count - 1) s'); try done. lia.
Qed.
Lemma readLine_length s line rest :
  readLine s = Some (line, rest) → (String.length rest < String.length s)%nat.
Proof. unfold readLine. destruct (ReadString s) as [[l r]|] eqn:E; [|done]. intros [= _ <-]. by eapply ReadString_length. Qed.

Lemma read_args_ends k n s :
  (String.length s < k)%nat →
  match read_args Quote k n s with
  | Done _ rest => (String.length rest ≤ String.length s)%nat | OutOfFuel => False | _ => True
  end.
Proof.
  revert n s. induction k as [|k IH]; intros n s Hk; cbn [read_args]; (destruct (n <=? 0); [done|]); [lia|].
  destruct (readLine s) as [[line rest]|] eqn:E; [|done]. apply readLine_length in E.
  destruct line as [|c line]; [done|]. destruct (ascii_dec c "$") as [->|Hc].
  2:{ by destruct c as [[] [] [] [] [] [] [] []]. }
  destruct (ParseInt line) as [size [e|]]; [done|]. destruct (negb _); [done|].
  destruct (ReadFull (wrap64 (size + 2)) rest) as [[buf rest']|] eqn:Ef; [|done]. apply ReadFull_length in Ef.
  destruct (size <? 0); [done|]. specialize (IH (n - 1) rest' ltac:(lia)).
  destruct (read_args Quote k (n - 1) rest'); try done. lia.
Qed.

(** A command is read to its end with the fuel the server has. *)
Lemma readCommand_ends s : ends s (readCommand Quote s).
Proof.
  unfold readCommand. destruct (readLine s) as [[line rest]|] eqn:E; [|done]. apply readLine_length in E.
  destruct line as [|c line]; [done|]. destruct (ascii_dec c "*") as [->|Hc].
  2:{ by destruct c as [[] [] [] [] [] [] [] []]. }
  destruct (ParseInt line) as [n [e|]]; [done|]. destruct (negb _); [done|].
  pose proof (read_args_ends (S (String.length rest)) n rest ltac:(lia)) as Ha.
  destruct (read_args _ _ _ _); try done. simpl. lia.
Qed.

Lemma readReply_ends fuel s : (String.length s < fuel)%nat → ends s (readReply Quote fuel s).
Proof.
  revert s. induction fuel as [|fuel IH]; intros s Hf; [lia|]. cbn [readReply].
  destruct (ReadString s) as [[line rest]|] eqn:E; [|done]. apply ReadString_length in E.
  destruct line as [|c line]; [done|].
  case_decide; [done|]. case_decide; [done|].
  case_decide; [by destruct (ParseInt (trim_space line)) as [n [e|]]|].
  case_decide.
  { destruct (ParseInt (trim_space line)) as [n [e|]]; [done|].
    destruct (n <? 0); [done|]. destruct (negb _); [done|].
    destruct (ReadFull (wrap64 (n + 2)) rest) as [[buf rest']|] eqn:Ef; [|done].
    apply ReadFull_length in Ef. simpl. lia. }
  case_decide; [|done].
  destruct (ParseInt (trim_space line)) as [n [e|]]; [done|]. destruct (negb _); [done|].
  pose proof (read_items_ends (readReply Quote fuel) fuel IH fuel n rest ltac:(lia) ltac:(lia)) as Hi.
  destruct (read_items _ _ _ _); try done. simpl in *. lia.
Qed.
End roundtrip.

(** C27: the protocol is read back: the server reads from a stream exactly the
    command the notifier's client or the redis driver encoded and leaves what
    follows it, and the client's own reader reads it as the array of its
    arguments. *)
Theorem commands_roundtrip (Quote : string → string) (cmd : list string) (rest : string) (fuel : nat) :
  fits cmd → (String.length (encodeCommand cmd) < fuel)%nat →
  redisEncode cmd = encodeCommand cmd ∧
  readCommand Quote (encodeCommand cmd +:+ rest) = Done cmd rest ∧
  readReply Quote fuel (encodeCommand cmd +:+ rest) = Done (GArray (GString <$> cmd)) rest.
Proof.
  intros Hc Hf. split_and!.
  - apply redisEncode_encodeCommand.
  - by apply readCommand_encode.
  - by apply readReply_encode.
Qed.

Lemma commands_roundtrip_witness :
  let cmd := ["HSET"; "emo:a:b:meta"; "name"; ""] in
  readReply id 100 (encodeCommand cmd +:+ "+OK") = Done (GArray (GString <$> cmd)) "+OK".
Proof.
  apply (commands_roundtrip id ["HSET"; "emo:a:b:meta"; "name"; ""] "+OK" 100).
  - split; [by vm_compute|]. repeat constructor; by vm_compute.
  - apply (bool_decide_unpack _). by vm_compute.
Defined.

(** the client's reader always ends: for any bytes of a server, fuel
    beyond their number is enough, and a reply leaves strictly less to
    read. *)
Theorem readReply_terminates (Quote : string → string) (s : string) :
  match readReply Quote (S (String.length s)) s with
  | Done _ rest => (String.length rest < String.length s)%nat
  | OutOfFuel => False
  | _ => True
  end.
Proof. apply (readReply_ends Quote (S (String.length s)) s). lia. Qed.

(** A command that is cut short fails. *)
Example readCommand_cut (Quote : string → string) :
  readCommand Quote ("*1" +:+ CRLF) = Failed read_error.
Proof. reflexivity. Qed.

(** The null array panics, although the null string is read as nil. *)
Lemma readReply_null_array (Quote : string → string) :
  readReply Quote 10 ("*-1" +:+ CRLF) = Panicked ∧ readReply Quote 10 ("$-1" +:+ CRLF) = Done GNil "".
Proof. split; reflexivity. Qed.
