(* ===== verification/ValkeyNotifier.v ===== *)
(** * The valkey notifier (internal/notifier/valkey)

    What one check writes to a Valkey server for the dashboard, and the client
    that sends it.  The connection, the Secret read and the clock are the
    world's; the bytes written and the clock's readings are recorded in order. *)

From S2P Require Import Prelude GoStd GoTime Errors Api Notifier Trace Resp.

(** ** The world of a notifier's connection *)

Inductive net_action :=
| NDial (tls : bool) (addr : string)
| NWrite (bytes : string)
| NNow (t : time)          (* the clock was read and showed [t] *)
| NClose.

Class NetWorld (W : Type) := {
  nw_Secret : NamespacedName → W → result error (gmap string string) * W; (* notifier.GetSecret *)
  nw_Dial : bool → string → W → option error * W;   (* tls.DialWithDialer, net.DialTimeout *)
  nw_SetDeadline : W → option error * W;
  nw_Write : string → W → option error * W;
  (** the bytes the connection delivers before it ends, and the world in which
      only the given bytes are left *)
  nw_Unread : W → string;
  nw_Consume : string → W → W;
  nw_Now : W → time * W }.

(** A call that fails or panics. *)
Inductive fault := FErr (e : error) | FPanic.

Definition map_fault (prefix : string) (f : fault) : fault :=
  match f with FErr e => FErr (EWrap prefix e) | FPanic => FPanic end.

(** ** Messages *)

Definition sanitizeMessage (msg : string) : string :=
  let msg := replace_byte CR " " msg in
  let msg := replace_byte LF " " msg in
  let msg := replace_byte "|" "/" msg in
  if 500 <? slen msg then stake (Z.to_nat 500) msg else msg.

Section notifier.
Context {W : Type} `{!NetWorld W}.
Variable Quote : string → string.

Notation V := (M net_action W).

(** ** The client *)

Definition conn_write (bytes : string) : V (option error) :=
  λ w, let '(r, w) := nw_Write bytes w in (r, w, [NWrite bytes]).

Definition conn_close : V () := log NClose.

Definition read_clock : V time :=
  λ w, let '(t, w) := nw_Now w in (t, w, [NNow t]).

(** [readReply] on the connection; fuel beyond the unread bytes is enough. *)
Definition read_reply : V (result fault reply) := λ w,
  let input := nw_Unread w in
  match readReply Quote (S (String.length input)) input with
  | Done a rest => (Ok a, nw_Consume rest w, [])
  | Failed e => (Err (FErr e), w, [])
  | Panicked | OutOfFuel => (Err FPanic, w, [])
  end.

Definition do_cmd (cmd : list string) : V (result fault ()) :=
  err ← conn_write (encodeCommand cmd);
  match err with
  | Some e => mret (Err (FErr e))
  | None =>
      r ← read_reply;
      mret (match r with Ok _ => Ok () | Err f => Err f end)
  end.

(** The two loops of [Pipeline]. *)
Fixpoint pipeline_write (cmds : list (list string)) : V (option error) :=
  match cmds with
  | [] => mret None
  | cmd :: cmds =>
      err ← conn_write (encodeCommand cmd);
      match err with Some e => mret (Some e) | None => pipeline_write cmds end
  end.

Fixpoint pipeline_read (cmds : list (list string)) : V (result fault ()) :=
  match cmds with
  | [] => mret (Ok ())
  | _ :: cmds =>
      r ← read_reply;
      match r with Ok _ => pipeline_read cmds | Err f => mret (Err f) end
  end.

Definition Pipeline (cmds : list (list string)) : V (result fault ()) :=
  err ← pipeline_write cmds;
  match err with
  | Some e => mret (Err (FErr e))
  | None => pipeline_read cmds
  end.

Definition Close : V () :=
  _ ← conn_write ("QUIT" +:+ CRLF); conn_close.

(** The address [Dial] connects to. *)
Definition dial_addr (endpoint : string) : string :=
  match SplitHostPort endpoint with
  | Ok (hostPart, port) => JoinHostPort hostPart port
  | Err _ => JoinHostPort endpoint "6379"
  end.

(** An IPv6 address in brackets without a port gets a second pair. *)
Example dial_addr_samples :
  dial_addr <$> ["valkey"; "valkey:7000"; "[::1]:6379"; "::1"; "[::1]"] =
  ["valkey:6379"; "valkey:7000"; "[::1]:6379"; "[::1]:6379"; "[[::1]]:6379"].
Proof. vm_compute. reflexivity. Qed.

Definition auth_cmd (username password : string) : list string :=
  if decide (username = "") then ["AUTH"; password] else ["AUTH"; username; password].

(** A command of the handshake; the connection is closed when it fails (and
    left open by a panic). *)
Definition handshake (prefix : string) (cmd : list string) : V (result fault ()) :=
  r ← do_cmd cmd;
  match r with
  | Ok _ => mret (Ok ())
  | Err (FErr e) => _ ← conn_close; mret (Err (FErr (EWrap prefix e)))
  | Err FPanic => mret (Err FPanic)
  end.

Definition Dial (endpoint : string) (tlsEnabled : bool) (username password : string) (db : Z)
  : V (result fault ()) :=
  let addr := dial_addr endpoint in
  err ← (λ w, let '(r, w) := nw_Dial tlsEnabled addr w in (r, w, [NDial tlsEnabled addr]));
  match err with
  | Some e => mret (Err (FErr (EWrap "dial valkey: " e)))
  | None =>
      err ← lift nw_SetDeadline;
      match err with
      | Some e => _ ← conn_close; mret (Err (FErr e))
      | None =>
          r ← (if decide (password = "") then mret (Ok ())
               else handshake "auth: " (auth_cmd username password));
          match r with
          | Err f => mret (Err f)
          | Ok _ =>
              if 0 <? db then handshake "select db: " ["SELECT"; FormatInt db] else mret (Ok ())
          end
      end
  end.

(** ** The notifier *)

Record ValkeyNotifier := { vn_cfg : ValkeyConfig; retentionSeconds : Z }.

Definition defaultRetentionDays : Z := 7.

Fixpoint check_dashboards (dashes : list string) : option error :=
  match dashes with
  | [] => None
  | dash :: dashes =>
      if decide (dash = "" ∨ has_byte ":" dash = true) then
        Some (ENew ("valkey dashboard name " +:+ Quote dash +:+ " must not be empty or contain ':'"))
      else check_dashboards dashes
  end.

Definition NewValkey (config : option ValkeyConfig) : result error ValkeyNotifier :=
  match config with
  | None => Err (ENew "invalid Valkey config")
  | Some config =>
      if negb (valkey_Enabled config) || bool_decide (valkey_Endpoint config = "") then
        Err (ENew "invalid Valkey config")
      else if is_nil (valkey_Dashboards config) then
        Err (ENew "valkey notifier requires at least one dashboard")
      else
        match check_dashboards (valkey_Dashboards config) with
        | Some e => Err e
        | None =>
            if has_byte ":" (valkey_Name config) then
              Err (ENew ("valkey name " +:+ Quote (valkey_Name config) +:+ " must not contain ':'"))
            else
              let days := default defaultRetentionDays (valkey_RetentionDays config) in
              if days <? 1 then
                Err (ENew ("valkey retentionDays must be at least 1, got " +:+ FormatInt days))
              else Ok {| vn_cfg := config; retentionSeconds := wrap64 (days * 24 * 3600) |}
        end
  end.

Definition credentials (v : ValkeyNotifier) (namespace : string)
  : V (result error (string * string)) :=
  let name := secretName (valkey_SecretRef (vn_cfg v)) in
  if decide (name = "") then mret (Ok ("", ""))
  else
    r ← lift (nw_Secret {| nn_Namespace := namespace; nn_Name := name |});
    mret (match r with
          | Err e => Err (EWrap "unable to read valkey secret: " e)
          | Ok data => Ok (default "" (data !! "username"), default "" (data !! "password"))
          end).

(** The commands for one dashboard. *)
Definition dashboard_cmds (retention : Z) (dash svc ts hourEpoch statusVal detailVal : string)
    (v : NoticeValues) : list (list string) :=
  let statusKey := "emo:" +:+ dash +:+ ":" +:+ svc +:+ ":s:" +:+ hourEpoch in
  let detailKey := "emo:" +:+ dash +:+ ":" +:+ svc +:+ ":d:" +:+ hourEpoch in
  [["HSET"; statusKey; ts; statusVal];
   ["HEXPIRE"; statusKey; FormatInt retention; "FIELDS"; "1"; ts];
   ["HSET"; detailKey; ts; detailVal];
   ["HEXPIRE"; detailKey; FormatInt retention; "FIELDS"; "1"; ts];
   ["SADD"; "emo:dashboards"; dash];
   ["SADD"; "emo:" +:+ dash +:+ ":svcs"; svc];
   ["HSET"; "emo:" +:+ dash +:+ ":" +:+ svc +:+ ":meta"; "endpoint"; nv_Endpoint v;
    "driver"; nv_Driver v; "name"; svc]].

Definition service_of (v : ValkeyNotifier) (values : NoticeValues) : string :=
  if decide (valkey_Name (vn_cfg v) = "") then nv_Name values else valkey_Name (vn_cfg v).

Definition detail_of (status : string) (values : NoticeValues) : string :=
  FormatInt (nv_ResponseTimeMs values) +:+
  (if decide (status = "failure" ∧ nv_Message values ≠ "") then "|" +:+ sanitizeMessage (nv_Message values)
   else "").

Definition alert_cmds (v : ValkeyNotifier) (status : string) (values : NoticeValues) (now : time)
  : list (list string) :=
  let ts := FormatInt (Unix now) in
  let hourEpoch := FormatInt (Unix (Truncate now Hour)) in
  let statusVal := if decide (status = "success") then "s" else "f" in
  concat ((λ dash, dashboard_cmds (retentionSeconds v) dash (service_of v values) ts hourEpoch
                     statusVal (detail_of status values) values) <$> valkey_Dashboards (vn_cfg v)).

Definition SendAlertValkey (v : ValkeyNotifier) (status : string) (values : NoticeValues)
  : V (result fault ()) :=
  if decide (status ≠ "success" ∧ status ≠ "failure") then mret (Ok ())
  else
    c ← credentials v (nv_Namespace values);
    match c with
    | Err e => mret (Err (FErr e))
    | Ok (username, password) =>
        r ← Dial (valkey_Endpoint (vn_cfg v)) (valkey_Tls (vn_cfg v)) username password
              (valkey_DB (vn_cfg v));
        match r with
        | Err f => mret (Err f)
        | Ok _ =>
            now ← read_clock;
            r ← Pipeline (alert_cmds v status values now);
            _ ← Close;
            mret r
        end
    end.
End notifier.
