(* ===== verification/HttpChecks.v ===== *)
(** * The checks over HTTP (internal/driver: http.go, httpjson.go, trino.go,
    opensearch.go, driver.go)

    One GET each, judged by its status, its certificate and its body.  The
    HTTP client is the standard library's, decoding JSON is encoding/json's;
    both are interfaces. *)

From S2P Require Import Prelude GoStd GoTime Errors Api Notifier Float64 Trace Net ErrText Json Drivers Notifiers.

(** ** Bodies *)

Definition maxBody : nat := N.to_nat 1048576.

(** [errBodyTooLarge], which [errors.Is] tells from every other error. *)
Inductive body_error := BodyTooLarge | BodyErr (e : error).

Definition body_err (e : body_error) : error :=
  match e with BodyTooLarge => ENew "response body exceeds 1 MiB" | BodyErr e => e end.

(** A body: the bytes it delivers, and the error that ends it early. *)
Record body_stream := { bs_Bytes : string; bs_Err : option error }.

(** [io.ReadAll(io.LimitReader(r, n))] *)
Definition read_limited (n : nat) (r : body_stream) : string * option error :=
  if (n <=? String.length (bs_Bytes r))%nat then (stake n (bs_Bytes r), None) else (bs_Bytes r, bs_Err r).

Definition readBody (r : body_stream) : string * option body_error :=
  let '(body, err) := read_limited (S maxBody) r in
  match err with
  | Some e => (body, Some (BodyErr e))
  | None => if (maxBody <? String.length body)%nat then (stake maxBody body, Some BodyTooLarge) else (body, None)
  end.

(** ** The world *)

Record http_response := {
  hr_StatusCode : Z;
  hr_PeerCertificates : option (list certificate); (* of resp.TLS *)
  hr_Body : body_stream }.

Class HttpClients (W : Type) := {
  hc_NewRequest : string → string → option error;
  hc_Do : http_client → request → W → result error http_response * W }.

Record trino_info := {
  ti_Uptime : string; ti_Coordinator : bool; ti_Starting : bool; ti_Environment : string; ti_Version : string }.

Record cluster_health := { ch_Status : string; ch_NumberOfNodes : Z; ch_ActiveShards : Z }.

Class JsonDecoder := {
  Decode_value : string → result error (json * string);    (* the first value, and the bytes after it *)
  unmarshal_type : json → error;                           (* a value that is no object *)
  Decode_trino : string → result error trino_info;
  Decode_health : string → result error cluster_health }.

Definition bool_text (b : bool) : string := if b then "true" else "false".

Section checks.
Context {W : Type} `{CW : !Clock W, HC : !HttpClients W, GT : !GoText, VE : !Version, JD : !JsonDecoder}.

(** ** Results *)

Definition failed (d : duration) (err : option error) (msg : string) : CheckResult :=
  {| Success := false; ResponseTime := d; res_Error := err; res_Message := msg |}.

Definition succeeded (d : duration) (msg : string) : CheckResult :=
  {| Success := true; ResponseTime := d; res_Error := None; res_Message := msg |}.

(** A check: it reads the clock when it starts, and again for the response
    time. *)
Definition CK := W → CheckResult * W.

(** GET with the operator's User-Agent, or without it. *)
Definition get (client : http_client) (url : string) (agent : bool) (w : W) : result error http_response * W :=
  match hc_NewRequest (W:=W) "GET" url with
  | Some e => (Err e, w)
  | None =>
      hc_Do client {| rq_method := "GET"; rq_url := url;
                      rq_headers := if agent then [("User-Agent", UserAgent)] else []; rq_body := "" |} w
  end.

(** A GET and the time it took. *)
Definition timed_get (client : http_client) (url : string) (agent : bool) (w : W)
  : result error http_response * duration * W :=
  let '(start, w) := Now w in
  let '(r, w) := get client url agent w in
  let '(stop, w) := Now w in
  (r, Sub stop start, w).

Definition took (d : duration) : string := "response time: " +:+ duration_String d.

(** ** http *)

(** The certificate's days, when a window is set and there is a certificate. *)
Definition cert_window (check : option TlsCheck) (resp : http_response) (w : W) : option error * W :=
  match check, hr_PeerCertificates resp with
  | Some check, Some (cert :: _) =>
      if 0 <? DaysToExpire check then
        let '(now, w) := Now w in
        (if days_left (NotAfter cert) now <? DaysToExpire check
         then Some (expiry_error (NotAfter cert) (DaysToExpire check)) else None, w)
      else (None, w)
  | _, _ => (None, w)
  end.

Definition body_check (httpCheck : option HttpCheck) (resp : http_response) (d : duration) : option CheckResult :=
  match httpCheck with
  | Some hc =>
      if decide (BodyContains hc = "") then None
      else
        let '(body, err) := readBody (hr_Body resp) in
        match err with
        | Some (BodyErr e) => Some (failed d (Some e) ("HTTP check failed to read body: " +:+ errorText e))
        | _ =>
            if contains (BodyContains hc) body then None
            else
              let where_ := match err with Some _ => "the first 1 MiB of the body" | None => "body" end in
              Some (failed d None ("HTTP check failed: " +:+ where_ +:+ " does not contain '" +:+ BodyContains hc +:+
                                   "' (status: " +:+ FormatInt (hr_StatusCode resp) +:+ ")"))
        end
  | None => None
  end.

Definition http_Check (endpoint : string) (client : http_client) (check : option TlsCheck)
    (httpCheck : option HttpCheck) : CK := λ w,
  let '(r, d, w) := timed_get client endpoint true w in
  let '(err, w) := match r with Err e => (Some e, w) | Ok resp => cert_window check resp w end in
  (match err, r with
   | Some e, _ | None, Err e => failed d (Some e) ("HTTP check failed: " +:+ errorText e)
   | None, Ok resp =>
       if ok_status (hr_StatusCode resp) then
         match body_check httpCheck resp d with
         | Some res => res
         | None => succeeded d ("HTTP check successful (status: " +:+ FormatInt (hr_StatusCode resp) +:+ ", " +:+ took d +:+ ")")
         end
       else failed d None ("HTTP check failed (status: " +:+ FormatInt (hr_StatusCode resp) +:+ ")")
   end, w).

(** ** http-json *)

(** [decoder.Token()] answers [io.EOF]: white space alone is left. *)
Fixpoint json_blank (s : string) : bool :=
  match s with "" => true | String c s => has_byte c (String " " (String "009" CRLF)) && json_blank s end.

(** The payload, an object alone; null is the object without fields. *)
Definition decode_payload (body : string) : result error (list (string * json)) :=
  match Decode_value body with
  | Err e => Err e
  | Ok (v, rest) =>
      match v with
      | JObject fields =>
          if json_blank rest then Ok fields else Err (ENew "unexpected data after the JSON value")
      | JNull => if json_blank rest then Ok [] else Err (ENew "unexpected data after the JSON value")
      | _ => Err (unmarshal_type v)
      end
  end.

Definition holds_at (payload : list (string * json)) (p : string * string) : bool :=
  match resolveJSONPath payload p.1 with Some actual => jsonValueMatches actual p.2 | None => false end.

(** The assertions in the order of their paths. *)
Definition sorted_assertions (assertions : gmap string string) : list (string * string) :=
  merge_sort (by_key String.le fst) (map_to_list assertions).

Definition first_failing (payload : list (string * json)) (assertions : gmap string string)
  : option (string * string) :=
  find (λ p, negb (holds_at payload p)) (sorted_assertions assertions).

Definition status_expected (expectedStatus code : Z) : bool :=
  if expectedStatus =? 0 then ok_status code else code =? expectedStatus.

Definition httpjson_Check (endpoint : string) (client : http_client) (assertions : gmap string string)
    (expectedStatus : Z) : CK := λ w,
  let '(r, d, w) := timed_get client endpoint true w in
  (match r with
   | Err e => failed d (Some e) ("HTTP-JSON request failed: " +:+ errorText e)
   | Ok resp =>
       if negb (status_expected expectedStatus (hr_StatusCode resp)) then
         failed d None ("HTTP-JSON check failed (status: " +:+ FormatInt (hr_StatusCode resp) +:+ ", expected " +:+
                        (if expectedStatus =? 0 then "2xx" else FormatInt expectedStatus) +:+ ")")
       else
         match readBody (hr_Body resp) with
         | (_, Some BodyTooLarge) =>
             failed d (Some (body_err BodyTooLarge)) "HTTP-JSON check failed: response body exceeds 1 MiB"
         | (_, Some (BodyErr e)) => failed d (Some e) "failed to read HTTP response body"
         | (body, None) =>
             match decode_payload body with
             | Err e => failed d (Some e) "invalid JSON response"
             | Ok payload =>
                 match first_failing payload assertions with
                 | Some (path, expected) =>
                     failed d None ("assertion failed at '" +:+ path +:+ "': expected '" +:+ expected +:+ "', got '" +:+
                                    show_opt (resolveJSONPath payload path) +:+ "'")
                 | None => succeeded d ("HTTP-JSON check successful (" +:+ took d +:+ ")")
                 end
             end
         end
   end, w).

(** ** trino and opensearch *)

(** A body read whole and decoded. *)
Definition decode_body {A} (decode : string → result error A) (r : body_stream) : result error A :=
  match readBody r with
  | (_, Some e) => Err (body_err e)
  | (body, None) => decode body
  end.

Definition trino_Check (endpoint : string) (client : http_client) : CK := λ w,
  let '(r, d, w) := timed_get client (endpoint +:+ "/v1/info") false w in
  (match r with
   | Err e => failed d (Some e) ("Trino check failed: " +:+ errorText e)
   | Ok resp =>
       if negb (hr_StatusCode resp =? 200) then
         failed d None ("Trino check failed (status: " +:+ FormatInt (hr_StatusCode resp) +:+ ")")
       else
         match decode_body Decode_trino (hr_Body resp) with
         | Err e => failed d (Some e) ("Trino check failed to parse response: " +:+ errorText e)
         | Ok i =>
             let state := "coordinator: " +:+ bool_text (ti_Coordinator i) +:+ ", starting: " +:+ bool_text (ti_Starting i) in
             if ti_Coordinator i && negb (ti_Starting i) then
               succeeded d ("Trino check successful (" +:+ state +:+ ", uptime: " +:+ ti_Uptime i +:+ ", version: " +:+
                            ti_Version i +:+ ", env: " +:+ ti_Environment i +:+ ", " +:+ took d +:+ ")")
             else failed d None ("Trino check failed (" +:+ state +:+ ", version: " +:+ ti_Version i +:+ ", env: " +:+
                                 ti_Environment i +:+ ")")
         end
   end, w).

Definition opensearch_Check (endpoint : string) (client : http_client) : CK := λ w,
  let '(r, d, w) := timed_get client (endpoint +:+ "/_cluster/health") true w in
  (match r with
   | Err e => failed d (Some e) ("OpenSearch check failed: " +:+ errorText e)
   | Ok resp =>
       if negb (hr_StatusCode resp =? 200) then
         failed d None ("OpenSearch check failed (status: " +:+ FormatInt (hr_StatusCode resp) +:+ ")")
       else
         match decode_body Decode_health (hr_Body resp) with
         | Err e => failed d (Some e) ("OpenSearch check failed to parse response: " +:+ errorText e)
         | Ok h =>
             let status := to_lower (ch_Status h) in
             let quoted := " (status: " +:+ ch_Status h +:+ ")" in
             if decide (status = "green") then
               succeeded d ("OpenSearch cluster is healthy (status: " +:+ ch_Status h +:+ ", nodes: " +:+
                            FormatInt (ch_NumberOfNodes h) +:+ ", active_shards: " +:+ FormatInt (ch_ActiveShards h) +:+
                            ", " +:+ took d +:+ ")")
             else if decide (status = "yellow") then failed d None ("OpenSearch cluster has issues" +:+ quoted)
             else if decide (status = "red") then failed d None ("OpenSearch cluster is unhealthy" +:+ quoted)
             else failed d None ("OpenSearch cluster status unknown" +:+ quoted)
         end
   end, w).

(** ** Properties *)

(** What the GET of a check is answered. *)
Definition answer (client : http_client) (url : string) (w : W) : result error http_response :=
  (timed_get client url true w).1.1.

(** A body that is read whole. *)
Definition whole_body (r : body_stream) (body : string) : Prop :=
  bs_Bytes r = body ∧ bs_Err r = None ∧ (String.length body ≤ maxBody)%nat.

Lemma stake_length n s : (n ≤ String.length s)%nat → String.length (stake n s) = n.
Proof.
  revert n. induction s as [|c s IH]; intros [|n] Hn; simpl in *; try lia. by rewrite IH by lia.
Qed.

Lemma readBody_whole r body : readBody r = (body, None) ↔ whole_body r body.
Proof.
  unfold readBody, read_limited, whole_body. generalize maxBody as n. intros n.
  destruct (_ <=? _)%nat eqn:E; [apply Nat.leb_le in E|apply Nat.leb_gt in E].
  - rewrite stake_length, (proj2 (Nat.ltb_lt _ _)) by lia. split; [done|]. intros (<- & _ & ?). lia.
  - destruct (bs_Err r) as [e|]; [split; [done|naive_solver]|].
    rewrite (proj2 (Nat.ltb_ge _ _)) by lia. split; [intros [= <-]; split_and!; [done..|lia]|]. by intros (<- & _).
Qed.

(** A body that is an object alone, or null. *)
Definition object_alone (body : string) (fields : list (string * json)) : Prop :=
  ∃ v rest, Decode_value body = Ok (v, rest) ∧ json_blank rest = true ∧
    (v = JObject fields ∨ (v = JNull ∧ fields = [])).

Lemma decode_payload_object body fields : decode_payload body = Ok fields ↔ object_alone body fields.
Proof.
  unfold decode_payload, object_alone. destruct (Decode_value body) as [[v rest]|e]; [|split; [done|naive_solver]].
  destruct v as [|b|l|t|l|fs].
  2-5: split; [done|]; intros (v & r & [= <- <-] & _ & [?|[? ?]]); done.
  - destruct (json_blank rest) eqn:E.
    + split; [intros [= <-]; exists JNull, rest; naive_solver|]. intros (v & r & [= <- <-] & _ & [?|[? ->]]); done.
    + split; [done|]. intros (v & r & [= <- <-] & Hb & _). congruence.
  - destruct (json_blank rest) eqn:E.
    + split; [intros [= <-]; exists (JObject fs), rest; naive_solver|].
      intros (v & r & [= <- <-] & _ & [[= ->]|[? ?]]); done.
    + split; [done|]. intros (v & r & [= <- <-] & Hb & _). congruence.
Qed.

(** Every assertion holds of the payload. *)
Definition all_hold (fields : list (string * json)) (assertions : gmap string string) : Prop :=
  ∀ path expected, assertions !! path = Some expected →
    ∃ actual, resolveJSONPath fields path = Some actual ∧ jsonValueMatches actual expected = true.

Lemma holds_at_spec fields path expected :
  holds_at fields (path, expected) = true ↔
  ∃ actual, resolveJSONPath fields path = Some actual ∧ jsonValueMatches actual expected = true.
Proof. unfold holds_at. simpl. destruct (resolveJSONPath fields path); naive_solver. Qed.

Lemma sorted_assertions_elem assertions p : p ∈ sorted_assertions assertions ↔ assertions !! p.1 = Some p.2.
Proof.
  unfold sorted_assertions. rewrite (merge_sort_Permutation (by_key String.le fst) (map_to_list assertions)).
  destruct p. apply elem_of_map_to_list.
Qed.

Lemma first_failing_none fields assertions :
  first_failing fields assertions = None ↔ all_hold fields assertions.
Proof.
  unfold first_failing, all_hold. split.
  - intros Hn path expected Hp. apply holds_at_spec.
    assert (In (path, expected) (sorted_assertions assertions)) as Hin.
    { apply list_elem_of_In, sorted_assertions_elem, Hp. }
    pose proof (find_none _ _ Hn _ Hin) as Hh. by apply negb_false_iff in Hh.
  - intros Hall. destruct (find _ _) as [[path expected]|] eqn:E; [|done]. exfalso.
    apply find_some in E as [Hin Hf]. apply list_elem_of_In, sorted_assertions_elem in Hin.
    apply negb_true_iff in Hf. apply not_true_iff_false in Hf. apply Hf, holds_at_spec. by apply Hall.
Qed.

(** C30: an http-json check is a success exactly when the endpoint answers with
    the status expected (any 2xx when none is named), its body can be read
    whole and is at most 1 MiB, holds a JSON object or null and nothing else,
    and every assertion resolves to a value that matches; and it always
    returns a result. *)
Theorem httpjson_check_verdict (endpoint : string) (client : http_client) (assertions : gmap string string)
    (expectedStatus : Z) (w : W) :
  Success (httpjson_Check endpoint client assertions expectedStatus w).1 = true ↔
  ∃ resp body fields,
    answer client endpoint w = Ok resp ∧
    (if decide (expectedStatus = 0) then 200 ≤ hr_StatusCode resp < 300 else hr_StatusCode resp = expectedStatus) ∧
    whole_body (hr_Body resp) body ∧ object_alone body fields ∧ all_hold fields assertions.
Proof.
  unfold httpjson_Check, answer. destruct (timed_get client endpoint true w) as [[r d] w']. cbn [fst].
  destruct r as [resp|e]; [|split; [done|naive_solver]].
  assert (status_expected expectedStatus (hr_StatusCode resp) = true ↔
    (if decide (expectedStatus = 0) then 200 ≤ hr_StatusCode resp < 300 else hr_StatusCode resp = expectedStatus)) as Hs.
  { unfold status_expected, ok_status. case_decide; [subst; simpl; lia|].
    rewrite (proj2 (Z.eqb_neq expectedStatus 0)) by done. lia. }
  destruct (status_expected expectedStatus (hr_StatusCode resp)); cbn [negb].
  2: { split; [done|]. intros (resp' & body & fields & [= <-] & H & _). by apply Hs in H. }
  destruct (readBody (hr_Body resp)) as [body [[]|]] eqn:Eb.
  1, 2: split; [done|]; intros (resp' & body' & fields & [= <-] & _ & H & _); apply readBody_whole in H; congruence.
  destruct (decode_payload body) as [fields|e] eqn:Ed.
  2: { split; [done|]. intros (resp' & body' & fields & [= <-] & _ & H1 & H2 & _).
       apply readBody_whole in H1. apply decode_payload_object in H2. congruence. }
  destruct (first_failing fields assertions) as [[path expected]|] eqn:Ef.
  - split; [done|]. intros (resp' & body' & fields' & [= <-] & _ & H1 & H2 & H3).
    apply readBody_whole in H1. apply decode_payload_object in H2. apply first_failing_none in H3. congruence.
  - split; [|done]. intros _. exists resp, body, fields. split; [done|]. split; [by apply Hs|].
    split; [by apply readBody_whole|]. split; [by apply decode_payload_object|by apply first_failing_none].
Qed.
End checks.
