(* ===== verification/ConnChecks.v ===== *)
(** * The checks over connections (internal/driver: tcp.go, ping.go, tls.go,
    redis.go, dns.go, smtp.go, family.go)

    Each check dials, talks and judges; the connection, the resolver and the
    clock are the world's, and what is sent is recorded. *)

From S2P Require Import Prelude GoStd GoTime Errors Api Notifier Float64 Trace Net Dane ErrText Drivers Smtp.
From S2P Require Import Resp Json HttpChecks.

(** ** Addresses *)

(** What [netip.ParseAddr] finds. *)
Inductive addr_kind := Addr4 | Addr6 | Addr4In6.

Class Addresses := {
  ParseAddr : string → option addr_kind;
  ParseIP : string → option string      (* net.ParseIP: 16 bytes *) }.

(** [fmt.Sprint] of a []string. *)
Definition show_list (l : list string) : string := "[" +:+ join " " l +:+ "]".

Section addresses.
Context `{AD : !Addresses}.

Definition in_family (family : string) (k : addr_kind) : bool :=
  match k with
  | Addr4 | Addr4In6 => bool_decide (family = FamilyIPv4)
  | Addr6 => bool_decide (family = FamilyIPv6)
  end.

Definition keeps_family (family a : string) : bool :=
  bool_decide (family = "") || from_option (in_family family) false (ParseAddr a).

Definition pickFamily (addrs : list string) (family : string) : result error string :=
  match find (keeps_family family) addrs with
  | Some a => Ok a
  | None => Err (ENew ("no " +:+ family +:+ " address in " +:+ show_list addrs))
  end.
End addresses.

(** [ip.Equal(x)] on 4 or 16 bytes. *)
Definition v4InV6Prefix : string :=
  String "000" (String "000" (String "000" (String "000" (String "000" (String "000" (String "000"
  (String "000" (String "000" (String "000" (String "255" (String "255" ""))))))))))).

Definition ip_Equal (ip x : string) : bool :=
  if (String.length ip =? String.length x)%nat then bool_decide (ip = x)
  else if ((String.length ip =? 4) && (String.length x =? 16))%nat then bool_decide (x = v4InV6Prefix +:+ ip)
  else if ((String.length ip =? 16) && (String.length x =? 4))%nat then bool_decide (ip = v4InV6Prefix +:+ x)
  else false.

(** ** Resolvers *)

(** Which servers a [net.Resolver] asks: the system's over a family, or one
    server, perhaps over TLS. *)
Inductive resolver :=
| SystemResolver (family : string)
| ServerResolver (tls : option string) (family server : string).

Class Resolvers (W : Type) := {
  rv_LookupHost : resolver → string → W → result error (list string) * W;
  rv_LookupTXT : resolver → string → W → result error (list string) * W;
  rv_LookupCNAME : resolver → string → W → result error string * W;
  rv_LookupAddr : resolver → string → W → result error (list string) * W;
  rv_LookupIP : resolver → string → string → W → result error (list string) * W }.

Section checks.
Context {W : Type} `{CW : !Clock W, CN : !Conns W, RV : !Resolvers W, DC : !DnsClient W, DG : !Digests}
  `{AD : !Addresses, GT : !GoText}.
Variable Quote : string → string.
(** The texts of hex's and base64's errors, and how many challenges an SMTP
    server gets in before the deadline. *)
Variable hex_error : string → string.
Variable corrupt : string → error.
Variable rounds : nat.

Notation IO := (M io_action W).

(** The result of a check of [name] that ended with [err]. *)
Definition verdict (name : string) (start stop : time) (err : option error) : CheckResult :=
  let d := Sub stop start in
  match err with
  | Some e => failed d (Some e) (name +:+ " check failed: " +:+ errorText e)
  | None => succeeded d (name +:+ " check successful (" +:+ took d +:+ ")")
  end.

Definition timed (name : string) (m : IO (option error)) : IO CheckResult :=
  start ← now;
  err ← m;
  stop ← now;
  mret (verdict name start stop err).

(** ** tcp and ping *)

(** A dial whose connection is closed again after the time is taken. *)
Definition dial_check (name network addr : string) : IO CheckResult :=
  start ← now;
  err ← dial network addr;
  stop ← now;
  _ ← (match err with None => close | Some _ => mret () end);
  mret (verdict name start stop err).

Definition tcp_Check (endpoint family : string) : IO CheckResult :=
  dial_check "TCP" (familyNetwork "tcp" family) endpoint.

Definition ping_Check (endpoint family : string) : IO CheckResult :=
  let '(host, port) := hostPort endpoint "80" in
  dial_check "Ping" (familyNetwork "tcp" family) (JoinHostPort host port).

(** ** tls *)

(** [target]. *)
Definition tls_target (endpoint : string) (check : TlsCheck) : string * string * string :=
  let '(host, port) := hostPort endpoint "443" in
  (JoinHostPort host port, if decide (tls_Host check = "") then host else tls_Host check, port).

Definition dane (domain port : string) (certs : list certificate) : IO (option error) :=
  lift (ResolveAndVerifyDANE hex_error domain port certs).

(** The certificate's days: [PeerCertificates[0]] of a verified connection. *)
Definition tls_window (check : TlsCheck) (certs : list certificate) : IO (option error) :=
  match certs with
  | cert :: _ =>
      if 0 <? DaysToExpire check then
        t ← now;
        mret (if days_left (NotAfter cert) t <? DaysToExpire check
              then Some (expiry_error (NotAfter cert) (DaysToExpire check)) else None)
      else mret None
  | [] => mret None
  end.

Definition tls_run (endpoint family : string) (check : TlsCheck) : IO (option error * bool) :=
  let '(addr, serverName, port) := tls_target endpoint check in
  r ← dial_tls serverName (familyNetwork "tcp" family) addr;
  match r with
  | Err e => mret (Some e, false)
  | Ok certs =>
      e ← tls_window check certs;
      match e with
      | Some e => mret (Some e, true)
      | None => e ← dane serverName port certs; mret (e, true)
      end
  end.

Definition tls_Check (endpoint family : string) (check : TlsCheck) : IO CheckResult :=
  start ← now;
  r ← tls_run endpoint family check;
  stop ← now;
  let '(err, opened) := r in
  _ ← (if (opened : bool) then close else mret ());
  mret (verdict "TLS" start stop err).

(** ** redis *)

Definition redis_buffer : nat := N.to_nat 65536.

(** [r.ReadSlice('\n')]: a line with its end. *)
Definition read_slice : IO (result (option error) string) := λ w,
  let input := cn_Unread w in
  match cut LF (stake redis_buffer input) with
  | Some (line, _) =>
      (Ok (line +:+ String LF ""), cn_Consume (sdrop (S (String.length line)) input) w, [])
  | None =>
      if (redis_buffer <=? String.length input)%nat then (Err None, w, []) else (Err (Some (cn_ReadErr w)), w, [])
  end.

(** The part of a reply an error shows: of AUTH's the first word alone. *)
Definition shown_reply (name reply : string) : string :=
  let reply := if decide (name = "AUTH") then (cut_or " " reply).1 else reply in
  if 128 <? slen reply then stake 128 reply +:+ "..." else reply.

Definition redisCommand (tls : option string) (want : string) (args : list string) : IO (option error) :=
  let name := default "" (head args) in
  err ← write tls (redisEncode args);
  match err with
  | Some e => mret (Some (EWrap (name +:+ ": ") e))
  | None =>
      line ← read_slice;
      mret (match line with
            | Err None => Some (ENew (name +:+ ": reply longer than 64 KiB"))
            | Err (Some e) => Some (EWrap (name +:+ ": ") e)
            | Ok line =>
                let reply := trim_right (λ c, has_byte c CRLF) line in
                if decide (reply = want) then None
                else Some (ENew (name +:+ ": unexpected reply " +:+ Quote (shown_reply name reply)))
            end)
  end.

(** Dialling, plain or over TLS, for the checks with a [tls] option: the
    connection and its certificates. *)
Definition dial_maybe_tls (tls : bool) (host network addr : string)
  : IO (result error (option string * list certificate)) :=
  if tls then
    r ← dial_tls host network addr;
    mret (match r with Ok certs => Ok (Some host, certs) | Err e => Err e end)
  else
    e ← dial network addr;
    mret (match e with Some e => Err e | None => Ok (None, []) end).

(** [if err == nil { err = next }] *)
Definition and_then (m : IO (option error)) (next : IO (option error)) : IO (option error) :=
  err ← m;
  match err with Some e => mret (Some e) | None => next end.

Definition redis_talk (tls : option string) (auth : list string) : IO (option error) :=
  err ← and_then set_deadline
          (and_then (if is_nil auth then mret None else redisCommand tls "+OK" auth)
             (redisCommand tls "+PONG" ["PING"]));
  match err with
  | Some e => mret (Some e)
  | None => _ ← write tls (redisEncode ["QUIT"]); mret None
  end.

Definition redis_Check (endpoint family : string) (auth : list string) (check : RedisCheck) : IO CheckResult :=
  let '(hostPart, port) := hostPort endpoint "6379" in
  start ← now;
  conn ← dial_maybe_tls (redis_Tls check) hostPart (familyNetwork "tcp" family) (JoinHostPort hostPart port);
  match conn with
  | Err e => stop ← now; mret (verdict "REDIS" start stop (Some e))
  | Ok (tls, _) =>
      err ← redis_talk tls auth;
      stop ← now;
      _ ← close;
      mret (verdict "REDIS" start stop err)
  end.

(** ** dns *)

Definition sameName (a b : string) : bool :=
  bool_decide (to_lower (trim_suffix "." a) = to_lower (trim_suffix "." b)).

Definition errVerify : error := ENew "returned dns result did not match Verify value".

(** The result of a lookup, when a value to verify is set. *)
Definition verify_values {A} (verify : string) (same : A → bool) (r : result error (list A)) : option error :=
  match r with
  | Err e => Some e
  | Ok values => if decide (verify = "") then None else if existsb same values then None else Some errVerify
  end.

(** The resolver a check asks, which may take a lookup of the server's name. *)
Definition dns_resolver (family : string) (check : DnsCheck) : IO (result error resolver) :=
  if decide (dns_Server check = "") then mret (Ok (SystemResolver family))
  else
    let '(hostPart, port) := hostPort (dns_Server check) (if dns_Tls check then "853" else "53") in
    r ← lift (rv_LookupHost (SystemResolver "") hostPart);
    mret (match r with
          | Err e => Err e
          | Ok hosts =>
              match pickFamily hosts family with
              | Err e => Err e
              | Ok addr =>
                  Ok (ServerResolver (if dns_Tls check then Some hostPart else None) family (JoinHostPort addr port))
              end
          end).

Definition same_ip (verify ip : string) : bool :=
  match ParseIP verify with Some x => ip_Equal ip x | None => false end.

Definition dns_lookup (rv : resolver) (endpoint : string) (check : DnsCheck) : IO (option error) :=
  let v := dns_Verify check in
  let type := to_upper (dns_Type check) in
  let exact := λ x : string, bool_decide (x = v) in
  let names := λ x : string, sameName x v in
  if decide (type = "TXT") then
    r ← lift (rv_LookupTXT rv endpoint); mret (verify_values v exact r)
  else if decide (type = "CNAME") then
    r ← lift (rv_LookupCNAME rv endpoint); mret (verify_values v names ((λ x, [x]) <$> r))
  else if decide (type = "PTR") then
    r ← lift (rv_LookupAddr rv endpoint); mret (verify_values v names r)
  else if decide (type = "AAAA") then
    r ← lift (rv_LookupIP rv "ip6" endpoint); mret (verify_values v (same_ip v) r)
  else if decide (type = "A") then
    r ← lift (rv_LookupIP rv "ip4" endpoint); mret (verify_values v (same_ip v) r)
  else
    r ← lift (rv_LookupHost rv endpoint); mret (verify_values v exact r).

Definition dns_Check (endpoint family : string) (check : DnsCheck) : IO CheckResult :=
  timed "DNS" (
    rv ← dns_resolver family check;
    match rv with
    | Err e => mret (Some e)
    | Ok rv => dns_lookup rv endpoint check
    end).

(** ** smtp *)

(** [errors.As(err, &reply)] for a [*textproto.Error]: its code. *)
Fixpoint reply_code (e : error) : option Z :=
  match e with
  | EExt (KReply code) _ => Some code
  | EExt _ _ | ENew _ => None
  | EWrap _ e | EText _ e | ERetryable e => reply_code e
  | EJoin es => head (omap reply_code es)
  end.

Definition withholdCredentials (secrets : list string) (err : error) : error :=
  if existsb (λ s, contains s (error_text err)) secrets then
    match reply_code err with
    | Some code => ENew ("AUTH rejected with " +:+ FormatInt code +:+
                         "; the reply is withheld because it repeats the credentials")
    | None => ENew "AUTH failed; the error is withheld because it repeats the credentials"
    end
  else err.

Definition nonempty (s : string) : bool := negb (bool_decide (s = "")).

Definition smtp_starttls (hostPart port : string) (c : Client) : IO (option error * Client) :=
  r ← StartTLS c hostPart;
  match r with
  | (Some e, c, _) => mret (Some e, c)
  | (None, c, Some certs) => e ← dane hostPart port certs; mret (e, c)
  | (None, c, None) => mret (None, c)
  end.

Definition smtp_auth_step (auth : option smtp_auth) (secrets : list string) (c : Client)
  : IO (option error * Client) :=
  match auth with
  | None => mret (None, c)
  | Some a =>
      r ← Auth corrupt rounds c a;
      mret (match r with (Some e, c) => (Some (withholdCredentials secrets e), c) | r => r end)
  end.

Definition smtp_rcpt (to : string) (c : Client) : IO (option error * Client) :=
  e ← Rcpt c to; mret (e, c).

Definition smtp_steps (hostPart port : string) (auth : option smtp_auth) (secrets : list string)
    (check : SmtpCheck) (c : Client) : IO (option error * Client) :=
  on_client (skip_unless (nonempty (smtp_Helo check)) (λ c, Hello c (smtp_Helo check)) c) (λ c,
  on_client (skip_unless (smtp_StartTls check && negb (smtp_Tls check)) (smtp_starttls hostPart port) c) (λ c,
  on_client (smtp_auth_step auth secrets c) (λ c,
  on_client (skip_unless (nonempty (smtp_VerifyAssertion check)) (λ c, Verify c (smtp_VerifyAssertion check)) c) (λ c,
  on_client (skip_unless (nonempty (smtp_FromAssertion check)) (λ c, Mail c (smtp_FromAssertion check)) c) (λ c,
  skip_unless (nonempty (smtp_ToAssertion check)) (smtp_rcpt (smtp_ToAssertion check)) c))))).

(** The conversation once the connection is there: the error, and whether the
    client exists, so that QUIT is sent. *)
Definition smtp_talk (tls : option string) (certs : list certificate) (hostPart port : string)
    (auth : option smtp_auth) (secrets : list string) (check : SmtpCheck) : IO (option error * option Client) :=
  err ← and_then (match tls with Some _ => dane hostPart port certs | None => mret None end) set_deadline;
  match err with
  | Some e => mret (Some e, None)
  | None =>
      r ← NewClient tls hostPart;
      match r with
      | Err e => mret (Some e, None)
      | Ok c => r ← smtp_steps hostPart port auth secrets check c; mret (r.1, Some r.2)
      end
  end.

(** The deferred QUIT and the closing of the client. *)
Definition smtp_leave (c : option Client) : IO () :=
  match c with
  | Some c => _ ← write (c_tls c) ("QUIT" +:+ CRLF); close
  | None => mret ()
  end.

Definition smtp_Check (endpoint family : string) (auth : option smtp_auth) (secrets : list string)
    (check : SmtpCheck) : IO CheckResult :=
  let '(hostPart, port) := hostPort endpoint "25" in
  start ← now;
  conn ← dial_maybe_tls (smtp_Tls check) hostPart (familyNetwork "tcp" family) (JoinHostPort hostPart port);
  match conn with
  | Err e => stop ← now; mret (verdict "SMTP" start stop (Some e))
  | Ok (tls, certs) =>
      r ← smtp_talk tls certs hostPart port auth secrets check;
      stop ← now;
      let '(err, c) := r in
      _ ← smtp_leave c;
      _ ← close;
      mret (verdict "SMTP" start stop err)
  end.

(** ** Where a check sends credentials *)

Section credentials.
Variable host : string.

Lemma careful_starttls port c :
  speaks_to host c → careful host (smtp_starttls host port c) (λ r, speaks_to host r.2).
Proof.
  intros [Hs Hv]. unfold smtp_starttls.
  pose proof (careful_StartTLS (W:=W) host c Hv) as Hstart. rewrite Hs in Hstart.
  eapply careful_bind; [exact Hstart|]. intros [[[e|] c'] [certs|]] Hc'; simpl in Hc';
    rewrite ?Hs in Hc'; try by apply careful_ret.
  eapply careful_bind; [apply careful_lift|]. intros ? _. by apply careful_ret.
Qed.

Lemma careful_auth_step auth secrets c :
  (∀ a, auth = Some a → sa_host a = host) → speaks_to host c →
  careful host (smtp_auth_step auth secrets c) (λ r, speaks_to host r.2).
Proof.
  intros Ha Hc. unfold smtp_auth_step. destruct auth as [a|]; [|by apply careful_ret].
  eapply careful_bind; [apply careful_Auth; [apply Hc|by apply Ha]|].
  intros [[e|] c'] Hsame; apply careful_ret; exact (same_conn_speaks host c _ Hsame Hc).
Qed.

Lemma careful_steps port auth secrets check c :
  (∀ a, auth = Some a → sa_host a = host) → speaks_to host c →
  careful host (smtp_steps host port auth secrets check c) (λ r, speaks_to host r.2).
Proof.
  intros Ha Hc. unfold smtp_steps.
  apply careful_on_client; [apply careful_skip; [done|]; apply (careful_kept host _ c); [done|apply careful_Hello]|].
  intros c1 H1. apply careful_on_client; [apply careful_skip; [done|]; by apply careful_starttls|].
  intros c2 H2. apply careful_on_client; [by apply careful_auth_step|].
  intros c3 H3. apply careful_on_client; [apply careful_skip; [done|]; apply (careful_kept host _ c3); [done|apply careful_Verify]|].
  intros c4 H4. apply careful_on_client; [apply careful_skip; [done|]; apply (careful_kept host _ c4); [done|apply careful_Mail]|].
  intros c5 H5. apply careful_skip; [done|]. unfold smtp_rcpt.
  eapply careful_bind; [apply careful_Rcpt|]. intros ? _. by apply careful_ret.
Qed.

Lemma careful_talk tls certs port auth secrets check :
  (∀ a, auth = Some a → sa_host a = host) → (∀ n, tls = Some n → n = host) →
  careful host (smtp_talk tls certs host port auth secrets check) (λ _, True).
Proof.
  intros Ha Ht. unfold smtp_talk.
  eapply (careful_bind _ _ _ (λ _, True)).
  { unfold and_then. eapply (careful_bind _ _ _ (λ _, True)).
    - destruct tls; [apply careful_lift|by apply careful_ret].
    - intros [e|] _; [by apply careful_ret|apply careful_lift]. }
  intros [e|] _; [by apply careful_ret|]. unfold NewClient.
  eapply (careful_bind _ _ _ (λ r, match r with Ok c => speaks_to host c | Err _ => True end)).
  { eapply careful_bind; [apply careful_ReadResponse|]. intros [?|?] _.
    - apply careful_ret. by split.
    - eapply careful_bind; [apply careful_close|]. intros ? _. by apply careful_ret. }
  intros [c|e] Hc; [|by apply careful_ret].
  eapply careful_bind; [by apply careful_steps|]. intros r _. by apply careful_ret.
Qed.
End credentials.

(** C29: the SMTP check sends credentials only where they belong: of a driver
    NewSMTPDriver builds, every line of an AUTH exchange a check sends -
    whatever the server, the resolver and the Secret answer - goes over a TLS
    connection verified for the host of the endpoint. *)
Theorem smtp_credentials_over_tls `{!Secrets W} (endpoint family namespace : string)
    (check : option SmtpCheck) (w0 w : W) :
  match (NewSMTPDriver Quote endpoint family check namespace w0).1 with
  | Ok (SMTPDriver e f auth secrets c) =>
      Forall (credentials_safe (hostPort endpoint "25").1) (smtp_Check e f auth secrets c w).2
  | Ok _ => False
  | Err _ => True
  end.
Proof.
  destruct (NewSMTPDriver Quote endpoint family check namespace w0).1 as [d|e] eqn:Ed; [|done].
  assert (∃ auth secrets c, d = SMTPDriver endpoint family auth secrets c ∧
    ∀ a, auth = Some a → sa_host a = (hostPort endpoint "25").1) as (auth & secrets & c & -> & Ha).
  { unfold NewSMTPDriver in Ed. destruct (check_endpoint endpoint); [done|].
    unfold with_secret in Ed. repeat (case_decide || case_match); simplify_eq/=; eexists _, _, _; naive_solver. }
  unfold smtp_Check. destruct (hostPort endpoint "25") as [host port]. cbn [fst] in Ha.
  match goal with |- Forall _ (?m w).2 => assert (careful host m (λ _, True)) as Hm; [|apply (Hm w)] end.
  eapply careful_bind; [apply careful_lift|]. intros start _.
  eapply (careful_bind _ _ _ (λ r, match r with Ok (Some n, _) => n = host | _ => True end)).
  { unfold dial_maybe_tls. destruct (smtp_Tls c).
    - eapply careful_bind; [apply careful_dial_tls|]. intros [certs|e] _; by apply careful_ret.
    - eapply careful_bind; [apply careful_dial|]. intros [e|] _; by apply careful_ret. }
  intros [[tls certs]|e] Ht.
  2: { eapply careful_bind; [apply careful_lift|]. intros stop _. by apply careful_ret. }
  eapply (careful_bind _ _ _ (λ _, True)).
  { apply careful_talk; [done|]. intros n ->. done. }
  intros [err oc] _. eapply careful_bind; [apply careful_lift|]. intros stop _.
  eapply (careful_bind _ _ _ (λ _, True)).
  { unfold smtp_leave. destruct oc as [cl|]; [|by apply careful_ret].
    eapply careful_bind; [apply careful_write|]. intros ? _. apply careful_close. }
  intros ? _. eapply careful_bind; [apply careful_close|]. intros ? _. by apply careful_ret.
Qed.

(** An error that repeats a secret is replaced by one that depends on its
    reply code alone. *)
Lemma withheld_alike secrets e1 e2 :
  existsb (λ s, contains s (error_text e1)) secrets = true →
  existsb (λ s, contains s (error_text e2)) secrets = true → reply_code e1 = reply_code e2 →
  withholdCredentials secrets e1 = withholdCredentials secrets e2.
Proof. intros H1 H2 H3. unfold withholdCredentials. by rewrite H1, H2, H3. Qed.
End checks.
