(* ===== verification/Factory.v ===== *)
(** * The factories (pkg/factory/factory.go, internal/driver/family.go)

    Which driver and which notifiers a monitor's specification gives, and the
    driver that checks over both address families. *)

From S2P Require Import Prelude GoStd GoTime Errors Api Notifier Composite Drivers Notifiers.
From S2P Require Import ValkeyNotifier.

(** ** Both families *)

Section both.
Context {D W : Type} `{!Driving D W}.
Record bothFamiliesDriver := { v4 : D; v6 : D }.

(** A part of the message: a check that went well is only "ok" when the other
    failed. *)
Definition part (success : bool) (r : CheckResult) : string :=
  if Success r && negb success then "ok" else res_Message r.

(** The errors of the families that failed. *)
Definition family_errors (r4 r6 : CheckResult) : list error :=
  omap (λ p, if Success p.2 then None
             else Some (EWrap (p.1 +:+ ": ") (default (ENew (res_Message p.2)) (res_Error p.2))))
    [(FamilyIPv4, r4); (FamilyIPv6, r6)].

Definition both_Check (b : bothFamiliesDriver) (w : W) : result error CheckResult * W :=
  let '(r4, w) := Check (v4 b) w in
  match r4 with
  | Err e => (Err (EWrap "ipv4: " e), w)
  | Ok r4 =>
      let '(r6, w) := Check (v6 b) w in
      match r6 with
      | Err e => (Err (EWrap "ipv6: " e), w)
      | Ok r6 =>
          let success := Success r4 && Success r6 in
          (Ok {| Success := success; ResponseTime := Z.max (ResponseTime r4) (ResponseTime r6);
                 res_Error := errors_Join (family_errors r4 r6);
                 res_Message := "ipv4: " +:+ part success r4 +:+ "; ipv6: " +:+ part success r6 |}, w)
      end
  end.

#[export] Instance both_Driving : Driving bothFamiliesDriver W := {|
  Check := both_Check; GetEndpoint := λ b, GetEndpoint (v4 b); GetType := λ b, GetType (v4 b) |}.

(** a check over both families is a success exactly when both checks are,
    takes the longer of the two times, and carries, joined, exactly one error
    for each family that failed, under the family's name; it fails to run
    exactly when one of the two does, and checks IPv4 first. *)
Theorem both_families_check (b : bothFamiliesDriver) (w : W) :
  let '(r4, w4) := Check (v4 b) w in
  let '(r6, w6) := Check (v6 b) w4 in
  match r4, r6 with
  | Ok r4, Ok r6 =>
      ∃ r es, both_Check b w = (Ok r, w6) ∧
        (Success r = true ↔ Success r4 = true ∧ Success r6 = true) ∧
        (ResponseTime r4 ≤ ResponseTime r ∧ ResponseTime r6 ≤ ResponseTime r ∧
         (ResponseTime r = ResponseTime r4 ∨ ResponseTime r = ResponseTime r6)) ∧
        res_Error r = match es with [] => None | _ => Some (EJoin es) end ∧ (es = [] ↔ Success r = true) ∧
        (∀ e, e ∈ es ↔ ∃ family r', (family, r') ∈ [("ipv4", r4); ("ipv6", r6)] ∧ Success r' = false ∧
           e = EWrap (family +:+ ": ") (match res_Error r' with Some e => e | None => ENew (res_Message r') end))
  | Ok _, Err e => both_Check b w = (Err (EWrap "ipv6: " e), w6)
  | Err e, _ => both_Check b w = (Err (EWrap "ipv4: " e), w4)
  end.
Proof.
  unfold both_Check. destruct (Check (v4 b) w) as [[r4|e] w4]; destruct (Check (v6 b) w4) as [[r6|e6] w6];
    try reflexivity.
  eexists _, (family_errors r4 r6). split; [reflexivity|]. cbn [Success ResponseTime res_Error].
  split; [apply andb_true_iff|]. split; [lia|]. split; [done|].
  split.
  { unfold family_errors. simpl. by destruct (Success r4), (Success r6). }
  intros e. unfold family_errors. rewrite list_elem_of_omap. split.
  - intros ([family r'] & Hin & H). simpl in H. destruct (Success r') eqn:Es; [done|].
    exists family, r'. split; [done|]. split; [done|]. simplify_eq. by destruct (res_Error r').
  - intros (family & r' & Hin & Hs & ->). exists (family, r'). split; [done|]. simpl. rewrite Hs.
    by destruct (res_Error r').
Qed.
End both.

Arguments bothFamiliesDriver : clear implicits.

(** ** CreateDriver *)

(** What [NewDriver] returns: the driver of one family, or of both. *)
Inductive built :=
| BuiltOne (d : driver)
| BuiltBoth (d : bothFamiliesDriver driver).

(** The loop over [Spec.IpFamily]. *)
Fixpoint requested (families : list string) (ipv4 ipv6 : bool) : result error (bool * bool) :=
  match families with
  | [] => Ok (ipv4, ipv6)
  | family :: families =>
      if decide (family = FamilyIPv4) then requested families true ipv6
      else if decide (family = FamilyIPv6) then requested families ipv4 true
      else Err (ENew ("unsupported ipFamily: " +:+ family))
  end.

Section create.
Context {W : Type} `{!Secrets W}.
Variable Quote : string → string.

Definition createFamilyDriver (driverType endpoint family : string) (spec : EndpointMonitorSpec)
    (namespace : string) (w : W) : result error driver * W :=
  if decide (driverType = "http") then (NewHTTPDriver endpoint family (spec_TlsCheck spec) (spec_HttpCheck spec), w)
  else if decide (driverType = "http-json") then (NewHTTPJSONDriver endpoint family (spec_HttpJsonCheck spec), w)
  else if decide (driverType = "smtp") then NewSMTPDriver Quote endpoint family (spec_SmtpCheck spec) namespace w
  else if decide (driverType = "redis") then NewREDISDriver endpoint family (spec_RedisCheck spec) namespace w
  else if decide (driverType = "tls") then (NewTLSDriver endpoint family (spec_TlsCheck spec), w)
  else if decide (driverType = "tcp") then (NewTCPDriver endpoint family, w)
  else if decide (driverType = "dns") then (NewDNSDriver endpoint family (spec_DnsCheck spec), w)
  else if decide (driverType = "ping") then (NewPingDriver endpoint family, w)
  else if decide (driverType = "trino") then (NewTrinoDriver endpoint family, w)
  else if decide (driverType = "opensearch") then (NewOpenSearchDriver endpoint family, w)
  else if decide (driverType = "mysql") then NewMYSQLDriver endpoint family (spec_MysqlCheck spec) namespace w
  else if decide (driverType = "mariadb") then NewMariaDBDriver endpoint family (spec_MysqlCheck spec) namespace w
  else if decide (driverType = "postgres") then
    NewPostgresDriver endpoint family (spec_PostgresCheck spec) namespace w
  else if decide (driverType = "mongodb") then
    NewMongoDBDriver endpoint family (spec_MongodbCheck spec) namespace w
  else if decide (driverType = "scylladb") then
    NewScyllaDBDriver endpoint family (spec_ScylladbCheck spec) namespace w
  else (Err (ENew ("unsupported driver type: " +:+ driverType)), w).

Definition one (r : result error driver * W) : result error built * W :=
  (match r.1 with Ok d => Ok (BuiltOne d) | Err e => Err e end, r.2).

Definition CreateDriver (driverType endpoint : string) (spec : EndpointMonitorSpec) (namespace : string) (w : W)
  : result error built * W :=
  match requested (spec_IpFamily spec) false false with
  | Err e => (Err e, w)
  | Ok (true, true) =>
      let '(d4, w) := createFamilyDriver driverType endpoint FamilyIPv4 spec namespace w in
      match d4 with
      | Err e => (Err e, w)
      | Ok d4 =>
          let '(d6, w) := createFamilyDriver driverType endpoint FamilyIPv6 spec namespace w in
          match d6 with
          | Err e => (Err e, w)
          | Ok d6 => (Ok (BuiltBoth {| v4 := d4; v6 := d6 |}), w)
          end
      end
  | Ok (true, false) => one (createFamilyDriver driverType endpoint FamilyIPv4 spec namespace w)
  | Ok (false, true) => one (createFamilyDriver driverType endpoint FamilyIPv6 spec namespace w)
  | Ok (false, false) => one (createFamilyDriver driverType endpoint "" spec namespace w)
  end.

(** [NewDriver]. *)
Definition NewDriver := CreateDriver.

Lemma requested_spec families b4 b6 :
  match requested families b4 b6 with
  | Ok (r4, r6) =>
      Forall (λ f, f = FamilyIPv4 ∨ f = FamilyIPv6) families ∧
      (r4 = true ↔ b4 = true ∨ FamilyIPv4 ∈ families) ∧ (r6 = true ↔ b6 = true ∨ FamilyIPv6 ∈ families)
  | Err _ => ¬ Forall (λ f, f = FamilyIPv4 ∨ f = FamilyIPv6) families
  end.
Proof.
  revert b4 b6. induction families as [|f families IH]; intros b4 b6; cbn [requested].
  { split; [constructor|]. split; set_solver. }
  repeat case_decide; subst.
  - specialize (IH true b6). destruct (requested families true b6) as [[r4 r6]|e].
    + destruct IH as (? & ? & ?). split; [by constructor; [left|]|]. set_solver.
    + intros [_ ?]%Forall_cons. done.
  - specialize (IH b4 true). destruct (requested families b4 true) as [[r4 r6]|e].
    + destruct IH as (? & ? & ?). split; [by constructor; [right|]|]. set_solver.
    + intros [_ ?]%Forall_cons. done.
  - intros [[?|?] _]%Forall_cons; done.
Qed.

(** The types [createFamilyDriver] knows. *)
Definition driver_types : list string :=
  ["http"; "http-json"; "smtp"; "redis"; "tls"; "tcp"; "dns"; "ping"; "trino"; "opensearch"; "mysql"; "mariadb";
   "postgres"; "mongodb"; "scylladb"].

(** A driver as requested: of the type, over the family, and for the endpoint
    (less a final slash for the two HTTP APIs). *)
Definition as_requested (driverType endpoint family : string) (d : driver) : Prop :=
  driver_type d = driverType ∧ driver_family d = family ∧
  driver_endpoint d = (if decide (driverType ∈ ["trino"; "opensearch"]) then trim_suffix "/" endpoint else endpoint).

Lemma with_secret_ok (P : driver → Prop) name namespace k (w : W) :
  (∀ data, P (k data)) → match (with_secret name namespace k w).1 with Ok d => P d | Err _ => True end.
Proof.
  intros Hk. unfold with_secret. case_decide; [apply Hk|].
  destruct (GetSecret name namespace w) as [[data|e] w']; [apply Hk|done].
Qed.

Lemma createFamilyDriver_ok driverType endpoint family spec namespace (w : W) :
  match (createFamilyDriver driverType endpoint family spec namespace w).1 with
  | Ok d => as_requested driverType endpoint family d ∧ driverType ∈ driver_types ∧ endpoint ≠ ""
  | Err _ => True
  end.
Proof.
  assert (check_endpoint endpoint = None → endpoint ≠ "") as Hne.
  { unfold check_endpoint. by case_decide. }
  unfold createFamilyDriver.
  repeat (case_decide; [subst driverType|]); try done; cbn [fst].
  all: unfold NewHTTPDriver, NewHTTPJSONDriver, NewSMTPDriver, NewREDISDriver, NewTLSDriver, NewTCPDriver,
    NewDNSDriver, NewPingDriver, NewTrinoDriver, NewOpenSearchDriver, NewMYSQLDriver, NewMariaDBDriver,
    newMySQLFamilyDriver, NewPostgresDriver, NewMongoDBDriver, NewScyllaDBDriver.
  all: try (destruct (check_endpoint endpoint) eqn:Ec; [done|]; specialize (Hne eq_refl)).
  all: try (eapply (with_secret_ok (λ d, as_requested _ endpoint family d ∧ _ ∈ driver_types ∧ endpoint ≠ ""));
            intros data; cbv beta zeta).
  all: repeat (case_decide || case_match); simplify_eq/=; try done.
  all: split; [split_and!; reflexivity|].
  all: split; [apply (bool_decide_unpack _); vm_compute; exact I|done].
Qed.

(** what CreateDriver builds is what the monitor asks for: a driver of the
    named type and endpoint over exactly the families listed - over both,
    IPv4 first, when both are listed, over either when none is - and it only
    succeeds when the type is known, the endpoint is not empty and every
    family listed is ipv4 or ipv6. *)
Theorem CreateDriver_as_requested (driverType endpoint : string) (spec : EndpointMonitorSpec)
    (namespace : string) (w : W) :
  match (CreateDriver driverType endpoint spec namespace w).1 with
  | Err _ => True
  | Ok b =>
      driverType ∈ driver_types ∧ endpoint ≠ "" ∧
      Forall (λ f, f = "ipv4" ∨ f = "ipv6") (spec_IpFamily spec) ∧
      match b with
      | BuiltBoth d =>
          "ipv4" ∈ spec_IpFamily spec ∧ "ipv6" ∈ spec_IpFamily spec ∧
          as_requested driverType endpoint "ipv4" (v4 d) ∧ as_requested driverType endpoint "ipv6" (v6 d)
      | BuiltOne d =>
          ∃ family, as_requested driverType endpoint family d ∧
            (("ipv4" ∈ spec_IpFamily spec ↔ family = "ipv4") ∧ ("ipv6" ∈ spec_IpFamily spec ↔ family = "ipv6"))
      end
  end.
Proof.
  unfold CreateDriver. pose proof (requested_spec (spec_IpFamily spec) false false) as Hreq.
  destruct (requested (spec_IpFamily spec) false false) as [[[] []]|e]; [..|done];
    destruct Hreq as (HF & H4 & H6); unfold FamilyIPv4, FamilyIPv6 in *.
  - pose proof (createFamilyDriver_ok driverType endpoint "ipv4" spec namespace w) as Hd4.
    destruct (createFamilyDriver driverType endpoint "ipv4" spec namespace w) as [[d4|e] w4]; [|done].
    pose proof (createFamilyDriver_ok driverType endpoint "ipv6" spec namespace w4) as Hd6.
    destruct (createFamilyDriver driverType endpoint "ipv6" spec namespace w4) as [[d6|e] w6]; [|done].
    simpl in *. naive_solver.
  - pose proof (createFamilyDriver_ok driverType endpoint "ipv4" spec namespace w) as Hd.
    destruct (createFamilyDriver driverType endpoint "ipv4" spec namespace w) as [[d|e] w']; [|done].
    simpl in *. destruct Hd as (? & ? & ?). split_and!; [done..|]. exists "ipv4". naive_solver.
  - pose proof (createFamilyDriver_ok driverType endpoint "ipv6" spec namespace w) as Hd.
    destruct (createFamilyDriver driverType endpoint "ipv6" spec namespace w) as [[d|e] w']; [|done].
    simpl in *. destruct Hd as (? & ? & ?). split_and!; [done..|]. exists "ipv6". naive_solver.
  - pose proof (createFamilyDriver_ok driverType endpoint "" spec namespace w) as Hd.
    destruct (createFamilyDriver driverType endpoint "" spec namespace w) as [[d|e] w']; [|done].
    simpl in *. destruct Hd as (? & ? & ?). split_and!; [done..|]. exists "". naive_solver.
Qed.
End create.

(** ** CreateNotifier *)

Inductive any_notifier :=
| HTTPNotifier (n : notifier)
| AValkeyNotifier (v : ValkeyNotifier).

Section notifiers.
Context `{!Templates}.
Variable Quote : string → string.

(** One block of [CreateNotifier]: the notifier when it is configured and
    enabled. *)
Definition enabled_notifier {C} (name title : string) (config : option C) (enabled : C → bool)
    (make : option C → result error any_notifier) : result error (CompositeNotifier any_notifier) :=
  match config with
  | Some c =>
      if enabled c then
        match make config with
        | Ok n => Ok [{| nn_name := name; nn_Notifier := n |}]
        | Err e => Err (EWrap ("failed to create " +:+ title +:+ " notifier: ") e)
        end
      else Ok []
  | None => Ok []
  end.

Definition http (r : result error notifier) : result error any_notifier :=
  match r with Ok n => Ok (HTTPNotifier n) | Err e => Err e end.

Definition CreateNotifier (config : option NotifyConfig) : result error (CompositeNotifier any_notifier) :=
  match config with
  | None => Err (ENew "notify config is nil")
  | Some c =>
      s ← enabled_notifier "slack" "Slack" (Slack c) slack_Enabled (λ c, http (NewSlack c));
      e ← enabled_notifier "email" "Email" (Email c) email_Enabled (λ c, http (NewEmail Quote c));
      d ← enabled_notifier "discord" "Discord" (Discord c) discord_Enabled (λ c, http (NewDiscord c));
      w ← enabled_notifier "webhook" "Webhook" (Webhook c) webhook_Enabled (λ c, http (NewWebhook c));
      v ← enabled_notifier "valkey" "Valkey" (Valkey c) valkey_Enabled
            (λ c, match NewValkey Quote c with Ok v => Ok (AValkeyNotifier v) | Err e => Err e end);
      let notifiers := s ++ e ++ d ++ w ++ v in
      if is_nil notifiers then Err (ENew "no notifiers enabled") else Ok notifiers
  end.

(** [NewNotifier]. *)
Definition NewNotifier := CreateNotifier.

(** Whether a channel is configured and enabled. *)
Definition on {C} (config : option C) (enabled : C → bool) : bool := from_option enabled false config.

Lemma enabled_notifier_names {C} name title (config : option C) enabled make l :
  enabled_notifier name title config enabled make = Ok l →
  nn_name <$> l = (if on config enabled then [name] else []).
Proof.
  unfold enabled_notifier, on. destruct config as [c|]; simpl; [|by intros [= <-]].
  destruct (enabled c); [|by intros [= <-]]. destruct (make (Some c)); [|done]. by intros [= <-].
Qed.

(** a composite notifier holds exactly the channels that are configured
    and enabled, once each and in a fixed order, and at least one; a channel
    that is enabled but cannot be built makes the whole configuration fail. *)
Theorem CreateNotifier_enabled (config : option NotifyConfig) :
  match CreateNotifier config with
  | Ok l =>
      ∃ c, config = Some c ∧ l ≠ [] ∧
        nn_name <$> l =
          (if on (Slack c) slack_Enabled then ["slack"] else []) ++
          (if on (Email c) email_Enabled then ["email"] else []) ++
          (if on (Discord c) discord_Enabled then ["discord"] else []) ++
          (if on (Webhook c) webhook_Enabled then ["webhook"] else []) ++
          (if on (Valkey c) valkey_Enabled then ["valkey"] else [])
  | Err _ => True
  end.
Proof.
  destruct (CreateNotifier config) as [l|] eqn:E; [|done]. destruct config as [c|]; [|done].
  exists c. split; [done|]. unfold CreateNotifier in E. revert E.
  destruct (enabled_notifier "slack" _ _ _ _) as [s|] eqn:Es; [|done]. cbn [mbind result_bind].
  destruct (enabled_notifier "email" _ _ _ _) as [e|] eqn:Ee; [|done]. cbn [mbind result_bind].
  destruct (enabled_notifier "discord" _ _ _ _) as [d|] eqn:Ed; [|done]. cbn [mbind result_bind].
  destruct (enabled_notifier "webhook" _ _ _ _) as [w|] eqn:Ew; [|done]. cbn [mbind result_bind].
  destruct (enabled_notifier "valkey" _ _ _ _) as [v|] eqn:Ev; [|done]. cbn [mbind result_bind].
  destruct (is_nil _) eqn:En; [done|]. intros [= <-]. split; [intros Hn; by rewrite Hn in En|].
  rewrite !fmap_app.
  by rewrite (enabled_notifier_names _ _ _ _ _ _ Es), (enabled_notifier_names _ _ _ _ _ _ Ee),
    (enabled_notifier_names _ _ _ _ _ _ Ed), (enabled_notifier_names _ _ _ _ _ _ Ew),
    (enabled_notifier_names _ _ _ _ _ _ Ev).
Qed.
End notifiers.
