(* ===== verification/Databases.v ===== *)
(** * The database checks (internal/driver/mysql.go, postgres.go, mongodb.go)

    What a check makes of a server's answers.  A check asks each query at most
    once, so a server is the record of its answers; reaching it and logging in
    is the client libraries'. *)

From S2P Require Import Prelude GoStd GoTime Errors Api Float64.

(** ** MySQL and MariaDB *)

(** The rows of a replication status query, as far as the code reads them. *)
Record rows := {
  r_Columns : result error (list string);
  r_Next : bool;
  r_Err : option error;
  r_Scan : result error (list (option string)) }.

Record mysql_server := {
  my_Ping : option error;
  my_Row : string → result error (string * string);   (* one row of two strings *)
  my_Query : string → result error rows }.

Section mysql.
(** [strconv.Quote] and the text of [strconv.Atoi]'s errors. *)
Variable Quote : string → string.
Variable atoi_error : num_error → error.

Definition Atoi (s : string) : result error Z :=
  match ParseInt s with (n, None) => Ok n | (_, Some e) => Err (atoi_error e) end.

Definition globalInt (srv : mysql_server) (query : string) : result error Z :=
  match my_Row srv query with
  | Err e => Err e
  | Ok (_, value) => Atoi value
  end.

Definition nullText (v : option string) : string := default "NULL" v.

(** [status[col] = values[i]] for the columns in order. *)
Definition status_of (cols : list string) (values : list (option string)) : gmap string (option string) :=
  foldl (λ m p, <[p.1 := p.2]> m) ∅ (zip cols values).

(** The first of the names that is a column, or the first name and NULL. *)
Fixpoint find_column (status : gmap string (option string)) (names : list string)
  : option (string * option string) :=
  match names with
  | [] => None
  | name :: names =>
      match status !! name with
      | Some v => Some (name, v)
      | None => find_column status names
      end
  end.

Definition column (status : gmap string (option string)) (name : string) (names : list string)
  : string * option string :=
  default (name, None) (find_column status (name :: names)).

Definition running (status : gmap string (option string)) (name : string) (names : list string)
  : option error :=
  let '(name, v) := column status name names in
  if decide (default "" v = "Yes") then None
  else Some (ENew (name +:+ " is " +:+ nullText v +:+ ", expected Yes")).

(** The lag and the two threads of a replica. *)
Definition replication_status (status : gmap string (option string)) (maxBehind : Z) : option error :=
  match running status "Replica_IO_Running" ["Slave_IO_Running"] with
  | Some e => Some e
  | None =>
      match running status "Replica_SQL_Running" ["Slave_SQL_Running"] with
      | Some e => Some e
      | None =>
          let '(name, behind) := column status "Seconds_Behind_Source" ["Seconds_Behind_Master"] in
          match behind with
          | None | Some "" => Some (ENew (name +:+ " is NULL"))
          | Some text =>
              match Atoi text with
              | Err e => Some (EWrap (name +:+ " is " +:+ Quote text +:+ ": ") e)
              | Ok seconds =>
                  if maxBehind <? seconds then
                    Some (ENew (name +:+ " exceeds max allowed (" +:+ FormatInt maxBehind +:+ ")"))
                  else None
              end
          end
      end
  end.

(** A syntax error: the server does not know the newer statement. *)
Definition er_parse_error : Z := 1064.

Definition replica_rows (srv : mysql_server) : result error rows :=
  match my_Query srv "SHOW REPLICA STATUS" with
  | Err e => if has_kind (KMySQL er_parse_error) e then my_Query srv "SHOW SLAVE STATUS" else Err e
  | Ok r => Ok r
  end.

Definition checkReplication (srv : mysql_server) (maxBehind : Z) : option error :=
  match replica_rows srv with
  | Err e => Some (EWrap "failed to query replication status: " e)
  | Ok rows =>
      match r_Columns rows with
      | Err e => Some (EWrap "failed to get replication status columns: " e)
      | Ok cols =>
          if negb (r_Next rows) then
            Some (match r_Err rows with
                  | Some e => EWrap "failed to read replication status: " e
                  | None => ENew "replication status is empty, but maxSecondsBehindMaster is set"
                  end)
          else
            match r_Scan rows with
            | Err e => Some (EWrap "failed to scan replication status: " e)
            | Ok values => replication_status (status_of cols values) maxBehind
            end
      end
  end.

(** More than nine tenths of the connections are in use. *)
Definition crowded (threads maxConnections : Z) : bool :=
  (0 <? maxConnections) && fltb (fdec 90 2) (fdiv (float_of_int threads) (float_of_int maxConnections)).

Definition checkMySQL (srv : mysql_server) (check : option MysqlCheck) : option error :=
  match my_Ping srv with
  | Some e => Some (EWrap "failed to ping: " e)
  | None =>
      match globalInt srv "SHOW GLOBAL STATUS LIKE 'Threads_connected'" with
      | Err e => Some (EWrap "failed to get threads_connected: " e)
      | Ok threads =>
          match globalInt srv "SHOW GLOBAL VARIABLES LIKE 'max_connections'" with
          | Err e => Some (EWrap "failed to get max_connections: " e)
          | Ok maxConnections =>
              if crowded threads maxConnections then
                Some (ENew ("threads_connected exceeds 90% of max_connections (" +:+
                            FormatInt maxConnections +:+ ")"))
              else
                match my_Row srv "SHOW GLOBAL VARIABLES LIKE 'read_only'" with
                | Err e => Some (EWrap "failed to get read_only variable: " e)
                | Ok (_, readOnly) =>
                    let isReadOnly := bool_decide (readOnly = "ON" ∨ readOnly = "1") in
                    match check ≫= mysql_MaxSecondsBehindMaster with
                    | Some maxBehind =>
                        if isReadOnly then checkReplication srv maxBehind
                        else Some (ENew ("the server is expected to be in readonly mode (it is a replica), but read_only is "
                                         +:+ readOnly))
                    | None =>
                        if isReadOnly then
                          Some (ENew ("the server is expected to NOT be in readonly mode (it is a primary), but read_only is "
                                      +:+ readOnly))
                        else None
                    end
                end
          end
      end
  end.
End mysql.

(** ** PostgreSQL *)

Record pg_server := {
  pg_InRecovery : result error bool;
  pg_ReadOnly : result error string;
  pg_ReceiverStatus : result error (option string);
  pg_Lag : result error (option float64) }.

Definition checkPostgres (srv : pg_server) (check : option PostgresCheck) : option error :=
  match pg_InRecovery srv with
  | Err e => Some (EWrap "failed to get pg_is_in_recovery: " e)
  | Ok inRecovery =>
      match check ≫= postgres_MaxSecondsBehindMaster with
      | None =>
          if inRecovery then
            Some (ENew "the server is expected to be a primary, but it is in recovery (a replica)")
          else
            match pg_ReadOnly srv with
            | Err e => Some (EWrap "failed to get transaction_read_only: " e)
            | Ok readOnly =>
                if decide (readOnly = "off") then None
                else Some (ENew ("the server is expected to be a writable primary, but transaction_read_only is "
                                 +:+ readOnly))
            end
      | Some maxBehind =>
          if negb inRecovery then
            Some (ENew "the server is expected to be a replica in recovery, but it is a primary")
          else
            match pg_ReceiverStatus srv with
            | Err e =>
                if has_kind KNoRows e then
                  Some (ENew "no WAL receiver is running, so the replica is not streaming")
                else Some (EWrap "failed to get the WAL receiver status: " e)
            | Ok None =>
                Some (ENew "the WAL receiver status is hidden from this login; grant it pg_monitor")
            | Ok (Some status) =>
                if decide (status ≠ "streaming") then
                  Some (ENew ("the WAL receiver is " +:+ status +:+ ", expected streaming"))
                else
                  match pg_Lag srv with
                  | Err e => Some (EWrap "failed to get the replay lag: " e)
                  | Ok None =>
                      Some (ENew "the replay lag is unknown: no transaction has been replayed yet")
                  | Ok (Some lag) =>
                      if fltb (float_of_int maxBehind) lag then
                        Some (ENew ("the replay lag exceeds max allowed (" +:+ FormatInt maxBehind +:+ ")"))
                      else None
                  end
            end
      end
  end.

(** ** MongoDB *)

Record hello := { IsWritablePrimary : bool; Secondary : bool; ArbiterOnly : bool }.

Record replMember := { State : Z; Self : bool; OptimeDate : time }.

(** The answers of the two commands, and of decoding them. *)
Record mongo_server := {
  mg_Hello : result error (result error hello);
  mg_Status : result error (result error (list replMember)) }.

Definition role (h : hello) : string :=
  if IsWritablePrimary h then "a writable primary"
  else if Secondary h then "a secondary"
  else if ArbiterOnly h then "an arbiter"
  else "neither a primary nor a secondary".

(** The loop over the members: this server, and the primary. *)
Definition pick (acc : option replMember * option replMember) (m : replMember)
  : option replMember * option replMember :=
  if Self m then (Some m, acc.2) else if State m =? 1 then (acc.1, Some m) else acc.

Definition checkMongoDB (srv : mongo_server) (check : option MongodbCheck) : option error :=
  match mg_Hello srv with
  | Err e => Some (EWrap "failed to run hello: " e)
  | Ok (Err e) => Some (EWrap "failed to read hello: " e)
  | Ok (Ok h) =>
      match check ≫= mongodb_MaxSecondsBehindMaster with
      | None =>
          if IsWritablePrimary h then None
          else Some (ENew ("the server is expected to be a writable primary, but it is " +:+ role h))
      | Some maxBehind =>
          if negb (Secondary h) then
            Some (ENew ("the server is expected to be a secondary, but it is " +:+ role h))
          else
            match mg_Status srv with
            | Err e => Some (EWrap "failed to run replSetGetStatus: " e)
            | Ok (Err e) => Some (EWrap "failed to read replSetGetStatus: " e)
            | Ok (Ok members) =>
                match foldl pick (None, None) members with
                | (None, _) => Some (ENew "replSetGetStatus does not list this server")
                | (_, None) =>
                    Some (ENew "the replica set has no primary, so the replication lag is unknown")
                | (Some self, Some primary) =>
                    if wrap64 (maxBehind * Second) <? Sub (OptimeDate primary) (OptimeDate self) then
                      Some (ENew ("the replication lag exceeds max allowed (" +:+ FormatInt maxBehind +:+ ")"))
                    else None
                end
            end
      end
  end.

(** ** Properties *)

(** A refused case of a healthy check: it reports an error, and the healthy
    description contradicts what is known of the server. *)
Ltac refused :=
  split; [discriminate|intros;
    repeat match goal with H : _ ∧ _ |- _ => destruct H | H : ∃ _, _ |- _ => destruct H end; congruence].

(** The value of a column under its newer name or else its older one. *)
Definition column_value (status : gmap string (option string)) (newer older : string) : option string :=
  match status !! newer with Some v => v | None => default None (status !! older) end.

Lemma column_two status newer older :
  (column status newer [older]).2 = column_value status newer older.
Proof.
  unfold column, column_value. simpl. destruct (status !! newer); [done|]. by destruct (status !! older).
Qed.

(** A healthy MySQL server: it answers the ping, at most nine tenths of its
    connections are in use, and its role is the one expected. Without a
    replication limit it is not read-only. With one it is read-only, lists its
    replication status - under the older statement when the server does not
    know the newer one - with both replication threads running, and is at most
    the limit behind. *)
Definition mysql_healthy (srv : mysql_server) (check : option MysqlCheck) : Prop :=
  my_Ping srv = None ∧
  ∃ x y z threads maxConnections readOnly tx ty,
    my_Row srv "SHOW GLOBAL STATUS LIKE 'Threads_connected'" = Ok (x, tx) ∧ ParseInt tx = (threads, None) ∧
    my_Row srv "SHOW GLOBAL VARIABLES LIKE 'max_connections'" = Ok (y, ty) ∧ ParseInt ty = (maxConnections, None) ∧
    crowded threads maxConnections = false ∧
    my_Row srv "SHOW GLOBAL VARIABLES LIKE 'read_only'" = Ok (z, readOnly) ∧
    match check ≫= mysql_MaxSecondsBehindMaster with
    | None => readOnly ≠ "ON" ∧ readOnly ≠ "1"
    | Some maxBehind =>
        (readOnly = "ON" ∨ readOnly = "1") ∧
        ∃ r cols values, replica_rows srv = Ok r ∧ r_Columns r = Ok cols ∧ r_Next r = true ∧ r_Scan r = Ok values ∧
          let status := status_of cols values in
          column_value status "Replica_IO_Running" "Slave_IO_Running" = Some "Yes" ∧
          column_value status "Replica_SQL_Running" "Slave_SQL_Running" = Some "Yes" ∧
          ∃ text seconds, column_value status "Seconds_Behind_Source" "Seconds_Behind_Master" = Some text ∧
            ParseInt text = (seconds, None) ∧ seconds ≤ maxBehind
    end.

Section mysql_props.
Variable Quote : string → string.
Variable atoi_error : num_error → error.

Lemma running_two status newer older :
  running status newer [older] = None ↔ column_value status newer older = Some "Yes".
Proof.
  unfold running. rewrite <-column_two. destruct (column status newer [older]) as [name v]. simpl.
  destruct (decide (default "" v = "Yes")) as [Hv|Hv]; destruct v as [v|]; simpl in Hv; naive_solver.
Qed.

Lemma Atoi_ok s n : Atoi atoi_error s = Ok n ↔ ParseInt s = (n, None).
Proof. unfold Atoi. destruct (ParseInt s) as [m [e|]]; naive_solver. Qed.

Lemma replication_status_ok status maxBehind :
  replication_status Quote atoi_error status maxBehind = None ↔
  column_value status "Replica_IO_Running" "Slave_IO_Running" = Some "Yes" ∧
  column_value status "Replica_SQL_Running" "Slave_SQL_Running" = Some "Yes" ∧
  ∃ text seconds, column_value status "Seconds_Behind_Source" "Seconds_Behind_Master" = Some text ∧
    ParseInt text = (seconds, None) ∧ seconds ≤ maxBehind.
Proof.
  unfold replication_status. rewrite <-!running_two, <-column_two.
  destruct (running status "Replica_IO_Running" ["Slave_IO_Running"]); [naive_solver|].
  destruct (running status "Replica_SQL_Running" ["Slave_SQL_Running"]); [naive_solver|].
  destruct (column status "Seconds_Behind_Source" ["Seconds_Behind_Master"]) as [name behind]. simpl.
  destruct behind as [text|]; [|naive_solver].
  assert (text = "" → ∀ n, ParseInt text ≠ (n, None)) as Hempty by (intros -> n; done).
  destruct text as [|c text]; [naive_solver|].
  unfold Atoi. destruct (ParseInt (String c text)) as [n [e|]] eqn:E.
  { split; [done|]. intros (_ & _ & t & s & [= <-] & Hp & _). congruence. }
  destruct (maxBehind <? n) eqn:El; zb; split; try done.
  - intros (_ & _ & t & s & [= <-] & Hp & ?). rewrite E in Hp. simplify_eq. lia.
  - intros _. split_and!; [done|done|]. exists (String c text), n. done.
Qed.

Lemma checkReplication_ok srv maxBehind :
  checkReplication Quote atoi_error srv maxBehind = None ↔
  ∃ r cols values, replica_rows srv = Ok r ∧ r_Columns r = Ok cols ∧ r_Next r = true ∧ r_Scan r = Ok values ∧
    replication_status Quote atoi_error (status_of cols values) maxBehind = None.
Proof.
  unfold checkReplication. destruct (replica_rows srv) as [r|]; [|refused].
  destruct (r_Columns r) as [cols|] eqn:Ec; [|refused].
  destruct (r_Next r) eqn:En; simpl; [|refused]. destruct (r_Scan r) as [values|] eqn:Es; [|refused].
  split; [by exists r, cols, values|].
  intros (r2 & c2 & v2 & [= <-] & E1 & _ & E2 & H). congruence.
Qed.

Lemma checkMySQL_ok (srv : mysql_server) (check : option MysqlCheck) :
  checkMySQL Quote atoi_error srv check = None ↔ mysql_healthy srv check.
Proof.
  unfold mysql_healthy.
  unfold checkMySQL, globalInt. destruct (my_Ping srv); [refused|].
  destruct (my_Row srv "SHOW GLOBAL STATUS LIKE 'Threads_connected'") as [[x tx]|]; [|refused].
  unfold Atoi at 1. destruct (ParseInt tx) as [threads [e|]] eqn:Et; [refused|].
  destruct (my_Row srv "SHOW GLOBAL VARIABLES LIKE 'max_connections'") as [[y ty]|]; [|refused].
  unfold Atoi at 1. destruct (ParseInt ty) as [maxc [e|]] eqn:Em; [refused|].
  destruct (crowded threads maxc) eqn:Ec; [refused|].
  destruct (my_Row srv "SHOW GLOBAL VARIABLES LIKE 'read_only'") as [[z ro]|]; [|refused].
  destruct (check ≫= mysql_MaxSecondsBehindMaster) as [maxBehind|].
  - case_bool_decide as Hro; [|refused].
    rewrite checkReplication_ok. setoid_rewrite replication_status_ok. split.
    + intros H. split; [done|]. by exists x, y, z, threads, maxc, ro, tx, ty.
    + intros (_ & ? & ? & ? & ? & ? & ? & ? & ? & _ & _ & _ & _ & _ & _ & _ & H). exact H.
  - case_bool_decide as Hro; split; [done| |intros _; split; [done|] |done].
    + intros (_ & x' & y' & z' & ? & ? & ro' & ? & ? & _ & _ & _ & _ & _ & H & ?). naive_solver.
    + exists x, y, z, threads, maxc, ro, tx, ty. naive_solver.
Qed.
End mysql_props.

(** A healthy PostgreSQL server: without a replication limit it is not in
    recovery and its transactions are writable; with one it is in recovery,
    streams from its primary, and its replay lag is known and not over the
    limit. *)
Definition postgres_healthy (srv : pg_server) (check : option PostgresCheck) : Prop :=
  match check ≫= postgres_MaxSecondsBehindMaster with
  | None => pg_InRecovery srv = Ok false ∧ pg_ReadOnly srv = Ok "off"
  | Some maxBehind =>
      pg_InRecovery srv = Ok true ∧ pg_ReceiverStatus srv = Ok (Some "streaming") ∧
      ∃ lag, pg_Lag srv = Ok (Some lag) ∧ fltb (float_of_int maxBehind) lag = false
  end.

Lemma checkPostgres_ok (srv : pg_server) (check : option PostgresCheck) :
  checkPostgres srv check = None ↔ postgres_healthy srv check.
Proof.
  unfold postgres_healthy.
  unfold checkPostgres. destruct (pg_InRecovery srv) as [rec|]; [|case_match; refused].
  destruct (check ≫= postgres_MaxSecondsBehindMaster) as [maxBehind|].
  - destruct rec; simpl; [|refused].
    destruct (pg_ReceiverStatus srv) as [[status|]|e]; [|refused|destruct (has_kind _ _); refused].
    destruct (decide (status ≠ "streaming")) as [Hs|Hs]; [refused|]. apply dec_stable in Hs as ->.
    destruct (pg_Lag srv) as [[lag|]|]; [|refused..].
    destruct (fltb _ lag) eqn:E; [refused|]. split; [|done]. intros _. split_and!; [done..|]. by exists lag.
  - destruct rec; [refused|]. destruct (pg_ReadOnly srv) as [ro|]; [|refused].
    destruct (decide (ro = "off")) as [->|Hro]; [done|]. split; [done|]. intros [_ [= E]]. done.
Qed.

Lemma foldl_pick members acc :
  (foldl pick acc members).1 = (match last (List.filter Self members) with Some m => Some m | None => acc.1 end) ∧
  (foldl pick acc members).2 =
    (match last (List.filter (λ m, negb (Self m) && (State m =? 1)) members) with
     | Some m => Some m | None => acc.2 end).
Proof.
  revert acc. induction members as [|m members IH]; intros acc; [done|]. cbn [foldl List.filter].
  destruct (IH (pick acc m)) as [-> ->]. unfold pick.
  destruct (Self m); simpl.
  - rewrite last_cons. by destruct (last (List.filter Self members)).
  - destruct (State m =? 1); simpl; [|done]. rewrite last_cons.
    by destruct (last (List.filter (λ m, negb (Self m) && (State m =? 1)) members)).
Qed.

(** A healthy MongoDB server: without a replication limit it is a writable
    primary; with one it is a secondary that finds itself and a primary other
    than itself in the replica set, whose last operation is at most the limit
    ahead of its own. *)
Definition mongo_healthy (srv : mongo_server) (check : option MongodbCheck) : Prop :=
  ∃ h, mg_Hello srv = Ok (Ok h) ∧
    match check ≫= mongodb_MaxSecondsBehindMaster with
    | None => IsWritablePrimary h = true
    | Some maxBehind =>
        Secondary h = true ∧
        ∃ members self primary, mg_Status srv = Ok (Ok members) ∧
          last (List.filter Self members) = Some self ∧
          last (List.filter (λ m, negb (Self m) && (State m =? 1)) members) = Some primary ∧
          Sub (OptimeDate primary) (OptimeDate self) ≤ wrap64 (maxBehind * Second)
    end.

Lemma checkMongoDB_ok (srv : mongo_server) (check : option MongodbCheck) :
  checkMongoDB srv check = None ↔ mongo_healthy srv check.
Proof.
  unfold mongo_healthy.
  unfold checkMongoDB. destruct (mg_Hello srv) as [[h|]|]; [|refused..].
  destruct (check ≫= mongodb_MaxSecondsBehindMaster) as [maxBehind|].
  - destruct (Secondary h) eqn:Eh; simpl; [|refused].
    destruct (mg_Status srv) as [[members|]|]; [|refused..].
    destruct (foldl_pick members (None, None)) as [H1 H2].
    destruct (foldl pick (None, None) members) as [s p]. simpl in *. subst s p.
    destruct (last (List.filter Self members)) as [self|] eqn:Es; [|refused].
    destruct (last (List.filter (λ m, negb (Self m) && (State m =? 1)) members)) as [primary|] eqn:Ep; [|refused].
    destruct (wrap64 (maxBehind * Second) <? Sub (OptimeDate primary) (OptimeDate self)) eqn:E; zb; split; try done.
    + intros (h' & [= <-] & _ & ms & s & p & [= <-] & Es' & Ep' & ?).
      rewrite Es in Es'. rewrite Ep in Ep'. simplify_eq. lia.
    + intros _. exists h. split; [done|]. split; [done|]. by exists members, self, primary.
  - destruct (IsWritablePrimary h) eqn:E; [split; [by exists h|done]|].
    split; [by destruct (Secondary h), (ArbiterOnly h)|intros (? & [= <-] & ?); congruence].
Qed.

(** C35: the database checks decide health: whatever the servers answer, each
    of the three checks returns no error exactly when the server has the role
    the monitor expects and, as a replica, keeps within the replication limit
    ([mysql_healthy], [postgres_healthy], [mongo_healthy]). *)
Theorem database_checks_decide_health (Quote : string → string) (atoi_error : num_error → error)
    (my : mysql_server) (pg : pg_server) (mg : mongo_server)
    (myCheck : option MysqlCheck) (pgCheck : option PostgresCheck) (mgCheck : option MongodbCheck) :
  (checkMySQL Quote atoi_error my myCheck = None ↔ mysql_healthy my myCheck) ∧
  (checkPostgres pg pgCheck = None ↔ postgres_healthy pg pgCheck) ∧
  (checkMongoDB mg mgCheck = None ↔ mongo_healthy mg mgCheck).
Proof. split; [apply checkMySQL_ok|]. split; [apply checkPostgres_ok|apply checkMongoDB_ok]. Qed.
