(* ===== verification/DbChecks.v ===== *)
(** * Reaching the databases (internal/driver: mysql.go, postgres.go,
    mongodb.go, scylladb.go, family.go)

    How each driver configures its client library, what it makes of a failed
    connection, and the results of the checks.  The libraries are interfaces;
    the judgement of a server that answers is in Databases. *)

From S2P Require Import Prelude GoStd GoTime Errors Api Notifier Float64 Trace Net Regex ErrText Drivers.
From S2P Require Import HttpChecks ConnChecks Databases.

(** ** Distinct causes *)

(** [if !slices.Contains(causes, cause) { causes = append(causes, cause) }] *)
Definition add_cause (causes : list string) (cause : string) : list string :=
  if decide (cause ∈ causes) then causes else causes ++ [cause].

(** [slices.Sort] and [strings.Join(causes, "; ")]. *)
Definition causes_text (causes : list string) : string := join "; " (merge_sort String.le causes).

Lemma add_cause_spec causes cause :
  NoDup causes → NoDup (add_cause causes cause) ∧ ∀ x, x ∈ add_cause causes cause ↔ x ∈ causes ∨ x = cause.
Proof.
  intros Hnd. unfold add_cause. case_decide as Hin.
  - split; [done|]. intros x. split; [by left|]. by intros [?| ->].
  - split; [|set_solver]. apply NoDup_app. split; [done|]. split; [set_solver|]. apply NoDup_singleton.
Qed.

Lemma foldl_add_cause l causes :
  NoDup causes →
  NoDup (foldl add_cause causes l) ∧ ∀ x, x ∈ foldl add_cause causes l ↔ x ∈ causes ∨ x ∈ l.
Proof.
  revert causes. induction l as [|c l IH]; intros causes Hnd; cbn [foldl].
  - split; [done|]. set_solver.
  - destruct (add_cause_spec causes c Hnd) as [H1 H2]. destruct (IH _ H1) as [H3 H4].
    split; [done|]. intros x. rewrite H4, H2, elem_of_cons. tauto.
Qed.

(** The text depends on which causes there are, not on their order. *)
Lemma causes_text_ext l1 l2 :
  NoDup l1 → NoDup l2 → (∀ x, x ∈ l1 ↔ x ∈ l2) → causes_text l1 = causes_text l2.
Proof.
  intros H1 H2 H. unfold causes_text. f_equal. apply (StronglySorted_unique String.le).
  - apply merge_sort_sorted; apply _.
  - apply merge_sort_sorted; apply _.
  - rewrite !merge_sort_Permutation. by apply NoDup_Permutation.
Qed.

(** ** MySQL and MariaDB *)

Record mysql_config := {
  my_User : string; my_Passwd : string; my_Net : string; my_Addr : string;
  my_Timeout : duration; my_ReadTimeout : duration; my_WriteTimeout : duration }.

(** [checkTimeout]. *)
Definition checkTimeout : duration := 30 * Second.

Definition mysql_config_of (endpoint family username password : string) : mysql_config :=
  let '(hostPart, port) := hostPort endpoint "3306" in
  {| my_User := username; my_Passwd := password; my_Net := familyNetwork "tcp" family;
     my_Addr := JoinHostPort hostPart port; my_Timeout := 2 * checkTimeout; my_ReadTimeout := 2 * checkTimeout;
     my_WriteTimeout := 2 * checkTimeout |}.

(** ** PostgreSQL *)

(** What [config] puts into the connection string and the parsed result; the
    pinned query string is constant. *)
Record pg_config := {
  pc_User : string; pc_Host : string; pc_Database : string; pc_Password : string;
  pc_ConnectTimeout : duration; pc_family : string }.

Definition pg_query : string :=
  "sslmode=prefer&sslcert=&sslkey=&sslrootcert=&sslpassword=&sslsni=1&sslnegotiation=postgres" +:+
  "&passfile=&connect_timeout=0&target_session_attrs=any&channel_binding=prefer&require_auth=" +:+
  "&min_protocol_version=3.0&max_protocol_version=3.0".

Definition pg_config_of (endpoint family username password : string) (check : option PostgresCheck) : pg_config :=
  let '(host, port) := hostPort endpoint "5432" in
  let database := from_option postgres_Database "" check in
  {| pc_User := if decide (username = "") then "postgres" else username;
     pc_Host := JoinHostPort host port;
     pc_Database := if decide (database = "") then "postgres" else database;
     pc_Password := password; pc_ConnectTimeout := 2 * checkTimeout; pc_family := family |}.

Definition pgAttemptPrefix : rx :=
  rseq [RBegin; rplus nonblank; rlit " ("; RStar (not_ch "()"); rlit "): "].

(** The reason one attempt failed for. *)
Definition attempt_cause (line : string) : string :=
  stable (ReplaceAllString pgAttemptPrefix [] (trim_space line)).

Definition refused_tls (cause : string) : bool := has_suffix "server refused TLS connection" cause.

Definition pg_causes (attempts : list string) : list string :=
  let causes := foldl (λ causes line,
    let cause := attempt_cause line in if decide (cause = "") then causes else add_cause causes cause) [] attempts in
  if (1 <? length causes)%nat then filter (λ c, refused_tls c = false) causes else causes.

Section lookup.
Context `{AD : !Addresses}.
(** What a wrapped resolver answers. *)
Definition familyLookup (family : string) (r : result error (list string)) : result error (list string) :=
  match r with
  | Err e => Err e
  | Ok addrs =>
      let kept := List.filter (λ a, is_ok (pickFamily [a] family)) addrs in
      if is_nil kept then Ok addrs else Ok kept
  end.
End lookup.

(** ** MongoDB *)

Record mongo_options := {
  mo_Host : string; mo_Direct : bool; mo_ConnectTimeout : duration; mo_ServerSelectionTimeout : duration;
  mo_RetryReads : bool;
  mo_Auth : option (string * string * bool);   (* user, password, and whether one is set, against admin *)
  mo_TLS : option string;                      (* the server name *)
  mo_family : string }.

Definition mongo_options_of (endpoint family username password : string) (check : option MongodbCheck)
  : mongo_options :=
  let '(host, port) := hostPort endpoint "27017" in
  {| mo_Host := JoinHostPort host port; mo_Direct := true; mo_ConnectTimeout := 2 * checkTimeout;
     mo_ServerSelectionTimeout := 2 * checkTimeout; mo_RetryReads := false;
     mo_Auth := if decide (username = "") then None
                else Some (username, password, negb (bool_decide (password = "")));
     mo_TLS := if from_option mongodb_Tls false check then Some host else None; mo_family := family |}.

(** What happens to the check's context while it runs. *)
Inductive mongo_event := HeartbeatSucceeded | HeartbeatFailed (failure : error) | DeadlinePassed (e : error).

(** The monitor: whether a heartbeat succeeded, and the cause the context was
    cancelled with, which the first cancellation sets. *)
Definition mongo_monitor (st : bool * option error) (ev : mongo_event) : bool * option error :=
  let '(answered, cause) := st in
  match ev with
  | HeartbeatSucceeded => (true, cause)
  | HeartbeatFailed failure =>
      (answered, if answered then cause else Some (default failure cause))
  | DeadlinePassed e => (answered, Some (default e cause))
  end.

(** The error of a run, with the cause of a cancelled context in its place. *)
Definition mongo_outcome (events : list mongo_event) (err : option error) : option error :=
  match err, (foldl mongo_monitor (false, None) events).2 with
  | Some _, Some cause => if has_kind KDeadline cause then err else Some (EWrap "failed to connect: " cause)
  | _, _ => err
  end.

(** ** ScyllaDB *)

Record scylla_cluster := {
  sy_Hosts : list string; sy_Timeout : duration; sy_ConnectTimeout : duration;
  sy_Auth : option (string * string); sy_family : string }.

Definition lookup_network (family : string) : string :=
  if decide (family = FamilyIPv4) then "ip4" else if decide (family = FamilyIPv6) then "ip6" else "ip".

(** A message gocql logs: its text and its fields. *)
Record log_entry := { le_msg : string; le_fields : list (string * string) }.

(** [hostFailures.Info]. *)
Definition note_failure (causes : list string) (l : log_entry) : list string :=
  if has_prefix "Control connection" (le_msg l) then
    foldl (λ causes f, if decide (f.1 = "err") then add_cause causes (stable f.2) else causes) causes (le_fields l)
  else causes.

(** How opening a session ends, with what was logged meanwhile. *)
Inductive scylla_session :=
| SessionOpen (bootstrapped : result error string)
| SessionFailed (err : error) (log : list log_entry)
| SessionPending (deadline : error).

Definition scylla_connect_error (err : error) (log : list log_entry) : error :=
  let text := causes_text (foldl note_failure [] log) in
  EWrap "failed to connect: "
    (if negb (bool_decide (text = "")) && contains "unable to connect to initial hosts" (error_text err)
     then EText ("gocql: unable to create session: unable to connect to initial hosts: " +:+ text) err else err).

Definition scylla_judge (s : scylla_session) : option error :=
  match s with
  | SessionFailed err log => Some (scylla_connect_error err log)
  | SessionPending e => Some (EWrap "failed to connect: " e)
  | SessionOpen (Err e) => Some (EWrap "failed to read system.local: " e)
  | SessionOpen (Ok b) =>
      if decide (b = "COMPLETED") then None
      else Some (ENew ("the node is not bootstrapped: bootstrapped is " +:+ b))
  end.

(** ** The checks *)

Class Databases (W : Type) := {
  db_MySQL : mysql_config → W → result error mysql_server * W;            (* mysql.NewConnector *)
  db_pg_ParseConfig : pg_config → option error;                            (* pgx.ParseConfig *)
  db_pg_Connect : pg_config → W → result error pg_server * W;              (* pgx.ConnectConfig *)
  db_pg_cause : error → option string;                                     (* what a *pgconn.ConnectError wraps *)
  db_Mongo : mongo_options → W → result error (mongo_server * list mongo_event) * W;
  db_LookupNetIP : string → string → W → result error (list string) * W;   (* addresses, unmapped *)
  db_Scylla : scylla_cluster → W → scylla_session * W }.

Section checks.
Context {W : Type} `{CW : !Clock W, DB : !Databases W, AD : !Addresses, GT : !GoText}.
Variable Quote : string → string.
Variable atoi_error : num_error → error.

Definition mysql_run (endpoint family username password : string) (check : option MysqlCheck) (w : W)
  : option error * W :=
  let '(r, w) := db_MySQL (mysql_config_of endpoint family username password) w in
  (match r with
   | Err e => Some (EWrap "failed to initialize: " e)
   | Ok srv => checkMySQL Quote atoi_error srv check
   end, w).

Definition pgConnectText (err : error) : string :=
  match db_pg_cause (W:=W) err with
  | None => errorText err
  | Some text => causes_text (pg_causes (split LF text))
  end.

Definition postgres_run (endpoint family username password : string) (check : option PostgresCheck) (w : W)
  : option error * W :=
  let cfg := pg_config_of endpoint family username password check in
  match db_pg_ParseConfig (W:=W) cfg with
  | Some e => (Some (EWrap "failed to initialize: " e), w)
  | None =>
      let '(r, w) := db_pg_Connect cfg w in
      (match r with
       | Err e => Some (EWrap "failed to connect: " (EText (pgConnectText e) e))
       | Ok srv => checkPostgres srv check
       end, w)
  end.

Definition mongodb_run (endpoint family username password : string) (check : option MongodbCheck) (w : W)
  : option error * W :=
  let '(r, w) := db_Mongo (mongo_options_of endpoint family username password check) w in
  (match r with
   | Err e => Some (EWrap "failed to initialize: " e)
   | Ok (srv, events) => mongo_outcome events (checkMongoDB srv check)
   end, w).

Definition scylla_cluster_of (endpoint family username password : string) (w : W)
  : result error scylla_cluster * W :=
  let '(host, port) := hostPort endpoint "9042" in
  let '(hosts, w) :=
    match ParseIP host with
    | Some _ => (Ok [JoinHostPort host port], w)
    | None =>
        let '(r, w) := db_LookupNetIP (lookup_network family) host w in
        ((λ ips : list string, (λ ip, JoinHostPort ip port) <$> ips) <$> r, w)
    end in
  (match hosts with
   | Err e => Err e
   | Ok hosts =>
       Ok {| sy_Hosts := hosts; sy_Timeout := 2 * checkTimeout; sy_ConnectTimeout := checkTimeout;
             sy_Auth := if decide (username = "") then None else Some (username, password); sy_family := family |}
   end, w).

Definition scylla_run (endpoint family username password : string) (w : W) : option error * W :=
  let '(cluster, w) := scylla_cluster_of endpoint family username password w in
  match cluster with
  | Err e => (Some (EWrap "failed to resolve: " e), w)
  | Ok cluster => let '(s, w) := db_Scylla cluster w in (scylla_judge s, w)
  end.

(** [Check]: the clock around a run. *)
Definition db_Check (name : string) (run : W → option error * W) (w : W) : CheckResult * W :=
  let '(start, w) := Now w in
  let '(err, w) := run w in
  let '(stop, w) := Now w in
  (verdict name start stop err, w).

Definition mysql_Check (kind endpoint family username password : string) (check : option MysqlCheck)
  : W → CheckResult * W :=
  db_Check (to_upper kind) (mysql_run endpoint family username password check).

Definition postgres_Check (endpoint family username password : string) (check : option PostgresCheck)
  : W → CheckResult * W :=
  db_Check "POSTGRES" (postgres_run endpoint family username password check).

Definition mongodb_Check (endpoint family username password : string) (check : option MongodbCheck)
  : W → CheckResult * W :=
  db_Check "MONGODB" (mongodb_run endpoint family username password check).

Definition scylladb_Check (endpoint family username password : string) : W → CheckResult * W :=
  db_Check "SCYLLADB" (scylla_run endpoint family username password).
End checks.

(** ** Properties *)

Lemma pg_causes_fold attempts causes :
  NoDup causes →
  let f := λ causes line, let cause := attempt_cause line in
             if decide (cause = "") then causes else add_cause causes cause in
  NoDup (foldl f causes attempts) ∧
  ∀ x, x ∈ foldl f causes attempts ↔ x ∈ causes ∨ (x ≠ "" ∧ x ∈ attempt_cause <$> attempts).
Proof.
  cbv zeta. revert causes. induction attempts as [|line attempts IH]; intros causes Hnd; cbn [foldl].
  { split; [done|]. intros x. rewrite fmap_nil, elem_of_nil. tauto. }
  rewrite fmap_cons. generalize (attempt_cause line) as c. intros c. case_decide as E.
  - destruct (IH causes Hnd) as [H3 H4]. split; [done|]. intros x. rewrite H4, elem_of_cons, E.
    split; [intros [?|[? ?]]; auto|]. intros [?|[? [?|?]]]; [by left|done|by right].
  - destruct (add_cause_spec causes c Hnd) as [H1 H2]. destruct (IH _ H1) as [H3 H4]. split; [done|].
    intros x. rewrite H4, H2, elem_of_cons.
    split; [intros [[?| ->]|[? ?]]; auto|]. intros [?|[? [?|?]]]; auto.
Qed.

Lemma pg_causes_ext a1 a2 :
  (∀ x, x ∈ a1 ↔ x ∈ a2) →
  NoDup (pg_causes a1) ∧ NoDup (pg_causes a2) ∧ ∀ x, x ∈ pg_causes a1 ↔ x ∈ pg_causes a2.
Proof.
  intros H. unfold pg_causes. cbv zeta.
  destruct (pg_causes_fold a1 []) as [N1 E1]; [constructor|]. destruct (pg_causes_fold a2 []) as [N2 E2]; [constructor|].
  cbv zeta in *.
  set (c1 := foldl _ [] a1) in *. set (c2 := foldl _ [] a2) in *.
  assert (∀ x, x ∈ c1 ↔ x ∈ c2) as Hc.
  { intros x. rewrite E1, E2, !list_elem_of_fmap. by setoid_rewrite H. }
  assert (length c1 = length c2) as -> by (apply Permutation_length, NoDup_Permutation; done).
  destruct (1 <? _)%nat; [|done]. split; [by apply NoDup_filter|]. split; [by apply NoDup_filter|].
  intros x. rewrite !list_elem_of_filter. by rewrite Hc.
Qed.

(** The causes one logged message adds. *)
Definition entry_causes (l : log_entry) : list string :=
  if has_prefix "Control connection" (le_msg l) then
    (λ f : string * string, stable f.2) <$> List.filter (λ f, bool_decide (f.1 = "err")) (le_fields l)
  else [].

Lemma note_failure_causes causes l : note_failure causes l = foldl add_cause causes (entry_causes l).
Proof.
  unfold note_failure, entry_causes. destruct (has_prefix _ _); [|done].
  revert causes. induction (le_fields l) as [|f fs IH]; intros causes; cbn [foldl List.filter]; [done|].
  rewrite IH. case_decide as E.
  - rewrite bool_decide_true by done. done.
  - rewrite bool_decide_false by done. done.
Qed.

Lemma note_failures_causes log causes :
  foldl note_failure causes log = foldl add_cause causes (mjoin (entry_causes <$> log)).
Proof.
  revert causes. induction log as [|l log IH]; intros causes; cbn [foldl fmap list_fmap mjoin list_join]; [done|].
  rewrite IH, note_failure_causes, foldl_app. done.
Qed.

Lemma note_failures log :
  NoDup (foldl note_failure [] log) ∧
  ∀ x, x ∈ foldl note_failure [] log ↔ ∃ l, l ∈ log ∧ x ∈ entry_causes l.
Proof.
  rewrite note_failures_causes.
  destruct (foldl_add_cause (mjoin (entry_causes <$> log)) [] (NoDup_nil_2)) as [H1 H2].
  split; [done|]. intros x. rewrite H2, elem_of_nil, list_elem_of_join. split.
  - intros [[]|(y & Hx & Hy)]. apply list_elem_of_fmap in Hy as (l & -> & Hl). by exists l.
  - intros (l & Hl & Hx). right. exists (entry_causes l). split; [done|]. by apply list_elem_of_fmap_2.
Qed.

(** why a database could not be reached is told in words that do not
    depend on the order the client library tried the addresses in: for
    PostgreSQL, whose library reports its attempts, and for ScyllaDB, whose
    library logs them and shuffles the hosts, the same attempts in another
    order, or repeated, give the same text. *)
Theorem connect_text_order_independent (attempts1 attempts2 : list string) (log1 log2 : list log_entry) (err : error) :
  (∀ a, a ∈ attempts1 ↔ a ∈ attempts2) → (∀ l, l ∈ log1 ↔ l ∈ log2) →
  causes_text (pg_causes attempts1) = causes_text (pg_causes attempts2) ∧
  scylla_connect_error err log1 = scylla_connect_error err log2.
Proof.
  intros Ha Hl. split.
  - destruct (pg_causes_ext _ _ Ha) as (H1 & H2 & H3). by apply causes_text_ext.
  - unfold scylla_connect_error.
    assert (causes_text (foldl note_failure [] log1) = causes_text (foldl note_failure [] log2)) as ->; [|done].
    destruct (note_failures log1) as [H1 E1]. destruct (note_failures log2) as [H2 E2].
    apply causes_text_ext; [done..|]. intros x. rewrite E1, E2. setoid_rewrite Hl. done.
Qed.

Lemma connect_text_order_independent_witness :
  causes_text (pg_causes ["db.test (10.0.0.1:5432): dial tcp 10.0.0.1:5432: connect: connection refused";
                          "db.test (10.0.0.2:5432): dial tcp 10.0.0.2:5432: i/o timeout"]) =
  causes_text (pg_causes ["db.test (10.0.0.2:5432): dial tcp 10.0.0.2:5432: i/o timeout";
                          "db.test (10.0.0.1:5432): dial tcp 10.0.0.1:5432: connect: connection refused"]) ∧
  scylla_connect_error (ENew "down") [] = scylla_connect_error (ENew "down") [].
Proof. apply (connect_text_order_independent _ _ [] []); [set_solver|done]. Defined.
