(* ===== verification/Monitors.v ===== *)
(** * The drivers and notifiers behind the interfaces (internal/driver,
    internal/notifier, pkg/factory)

    The checks of all drivers as one implementation of [Driving], the HTTP and
    mail notifiers as one of [Notifying], and the reconciler over the drivers
    CreateDriver builds.  Proved: every check of every driver ends in a result
    that says either that all went well or why not, so that a check that is
    due is always followed by a save of the monitor's status. *)

From S2P Require Import Prelude GoStd GoTime Errors Api Notifier Composite Trace Effects Retries Net Dane Json Drivers.
From S2P Require Import Smtp Notifiers Email HttpChecks ConnChecks Databases DbChecks ValkeyNotifier Factory.
From S2P Require Import Reconcile ReconcileProps.

(** A computation whose actions are not recorded. *)
Definition run {T W A} (m : M T W A) (w : W) : A * W := let '(a, w, _) := m w in (a, w).

Section monitors.
Context {W : Type} `{CW : !Clock W, CN : !Conns W, HC : !HttpClients W, RV : !Resolvers W, DC : !DnsClient W,
  DB : !Databases W, SE : !Secrets W}.
Context `{DG : !Digests, AD : !Addresses, GT : !GoText, VE : !Version, JD : !JsonDecoder}.
Variable Quote : string → string.
Variable atoi_error : num_error → error.
Variable hex_error : string → string.
Variable corrupt : string → error.
Variable rounds : nat.

(** ** Drivers *)

(** The [Check] methods, which all return a nil error. *)
Definition driver_Check (d : driver) : W → CheckResult * W :=
  match d with
  | HTTPDriver endpoint client check httpCheck => http_Check endpoint client check httpCheck
  | HTTPJSONDriver endpoint client assertions expectedStatus =>
      httpjson_Check endpoint client assertions expectedStatus
  | SMTPDriver endpoint family auth secrets check =>
      run (smtp_Check hex_error corrupt rounds endpoint family auth secrets check)
  | REDISDriver endpoint family auth check => run (redis_Check Quote endpoint family auth check)
  | TLSDriver endpoint family check => run (tls_Check hex_error endpoint family check)
  | TCPDriver endpoint family => run (tcp_Check endpoint family)
  | DNSDriver endpoint family check => run (dns_Check endpoint family check)
  | PingDriver endpoint family => run (ping_Check endpoint family)
  | TrinoDriver endpoint client => trino_Check endpoint client
  | OpenSearchDriver endpoint client => opensearch_Check endpoint client
  | MYSQLDriver kind endpoint family username password check =>
      mysql_Check Quote atoi_error kind endpoint family username password check
  | PostgresDriver endpoint family username password check =>
      postgres_Check endpoint family username password check
  | MongoDBDriver endpoint family username password check => mongodb_Check endpoint family username password check
  | ScyllaDBDriver endpoint family username password => scylladb_Check endpoint family username password
  end.

#[export] Instance driver_Driving : Driving driver W := {|
  Check := λ d w, let '(r, w) := driver_Check d w in (Ok r, w);
  GetEndpoint := driver_endpoint;
  GetType := driver_type |}.

#[export] Instance built_Driving : Driving built W := {|
  Check := λ b, match b with BuiltOne d => Check d | BuiltBoth d => Check d end;
  GetEndpoint := λ b, match b with BuiltOne d => GetEndpoint d | BuiltBoth d => GetEndpoint d end;
  GetType := λ b, match b with BuiltOne d => GetType d | BuiltBoth d => GetType d end |}.

(** [factory.NewDriver] for the reconciler, with notifiers made elsewhere. *)
Definition monitors {N} (make : NotifyConfig → result error (CompositeNotifier N)) : Factory built N W := {|
  Reconcile.NewDriver := λ driverType endpoint m namespace,
    Factory.NewDriver Quote driverType endpoint (Spec m) namespace;
  Reconcile.NewNotifier := make |}.

(** ** Notifiers *)

Section notifiers.
Context `{HW : !HttpWorld W, SW : !SesWorld W, NW : !NetWorld W, TE : !Templates}.
Variable zone : time → Z.

#[export] Instance notifier_Notifying : Notifying notifier W := λ n status values,
  match n with
  | SlackNotifier cfg => run (slack_SendAlert cfg status values)
  | DiscordNotifier cfg => run (discord_SendAlert cfg status values)
  | WebhookNotifier cfg contents => run (webhook_SendAlert cfg contents status values)
  | EmailNotifier cfg subject body => run (email_SendAlert corrupt rounds zone cfg subject body status values)
  end.

(** The same for valkey, whose client may also panic. *)
Definition any_SendAlert (n : any_notifier) (status : string) (values : NoticeValues) (w : W)
  : result fault () * W :=
  match n with
  | HTTPNotifier n =>
      let '(err, w) := SendAlert n status values w in
      (match err with None => Ok () | Some e => Err (FErr e) end, w)
  | AValkeyNotifier v => run (SendAlertValkey Quote v status values) w
  end.
End notifiers.

(** ** Results *)

(** A result is a success without an error, or a failure; either has a
    message. *)
Definition well_formed (r : CheckResult) : Prop :=
  (Success r = true → res_Error r = None) ∧ res_Message r ≠ "".

Lemma verdict_wf name start stop err : well_formed (verdict name start stop err).
Proof. unfold verdict, well_formed. by destruct err, name. Qed.

Ltac wf := repeat case_match; simplify_eq/=; by split.

Lemma http_Check_wf endpoint client check httpCheck (w : W) :
  well_formed (http_Check endpoint client check httpCheck w).1.
Proof.
  unfold http_Check. destruct (timed_get client endpoint true w) as [[r d] w1].
  assert (∀ resp res, body_check httpCheck resp d = Some res → well_formed res) as Hb.
  { intros resp res. unfold body_check. repeat case_match; try done; intros [= <-]; by split. }
  destruct r as [resp|e]; [|by split].
  destruct (cert_window check resp w1) as [[e|] w2]; cbn [fst]; [by split|].
  destruct (ok_status _); [|by split]. destruct (body_check httpCheck resp d) as [res|] eqn:E; [by eapply Hb|by split].
Qed.

Lemma httpjson_Check_wf endpoint client assertions expectedStatus (w : W) :
  well_formed (httpjson_Check endpoint client assertions expectedStatus w).1.
Proof.
  unfold httpjson_Check. destruct (timed_get client endpoint true w) as [[[resp|e] d] w1]; cbn [fst]; [|by split].
  destruct (negb _); [by split|]. destruct (readBody (hr_Body resp)) as [body [[]|]]; [by split..|].
  destruct (decode_payload body) as [fields|]; [|by split].
  destruct (first_failing fields assertions) as [[path expected]|]; by split.
Qed.

Lemma trino_Check_wf endpoint client (w : W) : well_formed (trino_Check endpoint client w).1.
Proof.
  unfold trino_Check. destruct (timed_get client _ false w) as [[[resp|e] d] w1]; cbn [fst]; [|by split].
  destruct (negb _); [by split|]. destruct (decode_body _ _) as [i|e]; [|by split]. cbv zeta.
  destruct (_ && _); by split.
Qed.

Lemma opensearch_Check_wf endpoint client (w : W) : well_formed (opensearch_Check endpoint client w).1.
Proof.
  unfold opensearch_Check. destruct (timed_get client _ true w) as [[[resp|e] d] w1]; cbn [fst]; [|by split].
  destruct (negb _); [by split|]. destruct (decode_body _ _) as [h|e]; [|by split]. cbv zeta.
  repeat case_decide; by split.
Qed.

Lemma db_Check_wf name (m : W → option error * W) w : well_formed (db_Check name m w).1.
Proof.
  unfold db_Check. destruct (Net.Now w) as [start w1]. destruct (m w1) as [err w2]. destruct (Net.Now w2) as [stop w3].
  apply verdict_wf.
Qed.

(** Every run of [m] returns a well-formed result. *)
Definition returns_wf (m : M io_action W CheckResult) : Prop := ∀ w, well_formed (run m w).1.

Lemma returns_wf_ret r : well_formed r → returns_wf (mret r).
Proof. by intros H w. Qed.

Lemma returns_wf_bind {A} (m : M io_action W A) f : (∀ a, returns_wf (f a)) → returns_wf (m ≫= f).
Proof.
  intros Hf w. unfold run, mbind, M_bind. destruct (m w) as [[a w1] t]. specialize (Hf a w1). unfold run in Hf.
  by destruct (f a w1) as [[r w2] t2].
Qed.

Ltac wf_steps :=
  repeat first
    [ apply returns_wf_ret, verdict_wf
    | apply returns_wf_bind; intros ?
    | match goal with |- returns_wf (match ?x with _ => _ end) => destruct x end ].

Lemma driver_Check_wf d (w : W) : well_formed (driver_Check d w).1.
Proof.
  destruct d; cbn [driver_Check].
  - apply http_Check_wf.
  - apply httpjson_Check_wf.
  - apply (λ H : returns_wf _, H w). unfold smtp_Check. wf_steps.
  - apply (λ H : returns_wf _, H w). unfold redis_Check. wf_steps.
  - apply (λ H : returns_wf _, H w). unfold tls_Check. wf_steps.
  - apply (λ H : returns_wf _, H w). unfold tcp_Check, dial_check. wf_steps.
  - apply (λ H : returns_wf _, H w). unfold dns_Check, timed. wf_steps.
  - apply (λ H : returns_wf _, H w). unfold ping_Check, dial_check. wf_steps.
  - apply trino_Check_wf.
  - apply opensearch_Check_wf.
  - apply db_Check_wf.
  - apply db_Check_wf.
  - apply db_Check_wf.
  - apply db_Check_wf.
Qed.

Lemma built_Check_wf (b : built) (w : W) : ∃ r, (Check b w).1 = Ok r ∧ well_formed r.
Proof.
  destruct b as [d|[d4 d6]]; cbn [Check built_Driving driver_Driving both_Driving v4 v6].
  - pose proof (driver_Check_wf d w) as H. destruct (driver_Check d w) as [r w1]. by exists r.
  - unfold both_Check. cbn [Check driver_Driving v4 v6].
    destruct (driver_Check d4 w) as [r4 w1]. destruct (driver_Check d6 w1) as [r6 w2]. eexists. split; [reflexivity|].
    split; cbn [Success res_Error res_Message]; [|done]. unfold family_errors. simpl.
    by destruct (Success r4), (Success r6).
Qed.

(** C24: every check of a driver CreateDriver can build - of any type, over one
    family or both, whatever the world answers - returns a result, never an
    error, and the result is well formed: a success carries no error, and a
    message is there in either case. *)
Theorem every_check_well_formed (b : built) (w : W) :
  ∃ r, (Check b w).1 = Ok r ∧ well_formed r.
Proof. apply built_Check_wf. Qed.

Section reconciler.
Context {N : Type} `{CL : !Cluster W, NO : !Notifying N W} (make : NotifyConfig → result error (CompositeNotifier N)).

(** C36: no check is lost: a run of Reconcile over these drivers checks at most
    once, and the action right after the check saves its outcome, good or bad:
    the monitor as the run read it with the outcome's status, the time of the
    check as the clock showed it, the start of the status (kept when it is the
    same), what was last announced, and the generation that was checked.  If
    the save fails, the run does nothing more and ends with an error. *)
Theorem checks_are_saved (r : Reconciler) (nn : NamespacedName) (w : W) :
  let '(o, _, t) := Reconcile (D:=built) (N:=N) (H:=GT) (Factory0:=monitors make) r nn w in
  Forall no_check t ∨
  ∃ t0 res m now m' ok t1,
    t = t0 ++ ACheck (Ok res) :: AUpdate m' ok :: t1 ∧ Forall no_check (t0 ++ t1) ∧
    (∃ w1, (cl_Get nn w1).1 = Ok m ∨ (cl_Read nn w1).1 = Ok m) ∧ (∃ w1, now = (cl_Now w1).1) ∧
    records m res now m' ∧ (ok = false → t1 = [] ∧ ∃ e, o = Failed e).
Proof.
  pose proof (spec_Reconcile_saves (D:=built) (N:=N) (Factory0:=monitors make)
    (λ m, ∃ w1, (cl_Get nn w1).1 = Ok m ∨ (cl_Read nn w1).1 = Ok m) (λ now, ∃ w1, now = (cl_Now w1).1)
    (λ res, is_ok res = true) ltac:(intros b w'; by destruct (built_Check_wf b w') as (res & -> & _)) r nn
    ltac:(intros w1 m Hm; by exists w1) ltac:(intros w1; by exists w1) w) as Hs.
  destruct (Reconcile r nn w) as [[o w'] t]. cbn [fst snd] in Hs.
  destruct Hs as [o t Ht|t e _ [=]|o t res m now m' t' Ht _ Hm Hn Hr Ht'|e t res m now m' Ht _ Hm Hn Hr].
  - by left.
  - right. exists t, res, m, now, m', true, t'. by split_and!; [|apply Forall_app| | | |].
  - right. exists t, res, m, now, m', false, []. rewrite app_nil_r. split_and!; [done..|]. by eauto.
Qed.
End reconciler.
End monitors.
