(* ===== verification/ValkeyServer.v ===== *)
(** * The in-memory Valkey server (dashboard/internal/valkeytest/valkeytest.go)

    The server the dashboard's and the operator's tests run against: hashes,
    sets and TTLs, and a reply for each command.  It gives the interface
    [Valkey] an executable implementation.  Goroutines serve one connection
    each and hold the server's mutex for a whole command, so a command is one
    step. *)

From S2P Require Import Prelude GoStd GoTime Errors Trace Valkey Resp.

Record failure := { f_cmd : string; f_keyPart : string; f_msg : string }.

Record Server := {
  hashes : gmap string (gmap string string);
  sets : gmap string (gset string);
  keyTTL : gmap string Z;
  fieldTTL : gmap string (gmap string Z);
  failures : list failure;
  commands : list (list string) }.

(** The state [Start] makes. *)
Definition Start : Server :=
  {| hashes := ∅; sets := ∅; keyTTL := ∅; fieldTTL := ∅; failures := []; commands := [] |}.

Definition hash (s : Server) (key : string) : gmap string string := default ∅ (hashes s !! key).
Definition set_ (s : Server) (key : string) : gset string := default ∅ (sets s !! key).
Definition field_ttls (s : Server) (key : string) : gmap string Z := default ∅ (fieldTTL s !! key).

(** ** Operations on the data *)

Definition with_hashes (s : Server) (h : gmap string (gmap string string)) : Server :=
  {| hashes := h; sets := sets s; keyTTL := keyTTL s; fieldTTL := fieldTTL s;
     failures := failures s; commands := commands s |}.

Definition with_sets (s : Server) (h : gmap string (gset string)) : Server :=
  {| hashes := hashes s; sets := h; keyTTL := keyTTL s; fieldTTL := fieldTTL s;
     failures := failures s; commands := commands s |}.

Definition with_keyTTL (s : Server) (t : gmap string Z) : Server :=
  {| hashes := hashes s; sets := sets s; keyTTL := t; fieldTTL := fieldTTL s;
     failures := failures s; commands := commands s |}.

Definition with_fieldTTL (s : Server) (t : gmap string (gmap string Z)) : Server :=
  {| hashes := hashes s; sets := sets s; keyTTL := keyTTL s; fieldTTL := t;
     failures := failures s; commands := commands s |}.

Definition log_command (s : Server) (args : list string) : Server :=
  {| hashes := hashes s; sets := sets s; keyTTL := keyTTL s; fieldTTL := fieldTTL s;
     failures := failures s; commands := commands s ++ [args] |}.

Definition with_failures (s : Server) (l : list failure) : Server :=
  {| hashes := hashes s; sets := sets s; keyTTL := keyTTL s; fieldTTL := fieldTTL s;
     failures := l; commands := commands s |}.

Definition Fail (s : Server) (cmd keyPart msg : string) : Server :=
  with_failures s (failures s ++ [{| f_cmd := cmd; f_keyPart := keyPart; f_msg := msg |}]).

Definition Heal (s : Server) : Server := with_failures s [].

Definition hset (s : Server) (key field value : string) : Server :=
  with_hashes s (<[key := <[field := value]> (hash s key)]> (hashes s)).

Definition sadd (s : Server) (key member : string) : Server :=
  with_sets s (<[key := {[member]} ∪ set_ s key]> (sets s)).

Definition SAdd (s : Server) (key : string) (members : list string) : Server :=
  foldl (λ s m, sadd s key m) s members.

Definition del (s : Server) (key : string) : Server :=
  {| hashes := delete key (hashes s); sets := delete key (sets s); keyTTL := delete key (keyTTL s);
     fieldTTL := delete key (fieldTTL s); failures := failures s; commands := commands s |}.

(** [delete] of a field of a nil map does nothing. *)
Definition hdel (s : Server) (key field : string) : Server :=
  let s := with_hashes s (alter (delete field) key (hashes s)) in
  let s := with_fieldTTL s (alter (delete field) key (fieldTTL s)) in
  if bool_decide (hash s key = ∅) then del s key else s.

Definition exists_ (s : Server) (key : string) : bool :=
  negb (is_None_b (hashes s !! key)) || negb (is_None_b (sets s !! key)).

Definition SetKeyTTL (s : Server) (key : string) (ttl : Z) : Server := with_keyTTL s (<[key := ttl]> (keyTTL s)).

Definition set_field_ttl (s : Server) (key field : string) (ttl : Z) : Server :=
  with_fieldTTL s (<[key := <[field := ttl]> (field_ttls s key)]> (fieldTTL s)).

(** ** Replies *)

Inductive answer :=
| RError (msg : string)
| RSimple (s : string)
| RInt (z : Z)
| RBulk (s : string)
| RNull
| RArray (items : list answer)
| RMap (entries : list (string * answer))
| RSet (members : list string).

Fixpoint concat_s (l : list string) : string := match l with [] => "" | s :: l => s +:+ concat_s l end.

Lemma concat_s_app l1 l2 : concat_s (l1 ++ l2) = concat_s l1 +:+ concat_s l2.
Proof. induction l1 as [|x l1 IH]; cbn [app concat_s]; [done|]. by rewrite IH, sapp_assoc. Qed.

Definition writeError (msg : string) : string := "-" +:+ msg +:+ CRLF.

(** The bytes written for a reply. *)
Fixpoint render (a : answer) : string :=
  match a with
  | RError msg => writeError msg
  | RSimple s => "+" +:+ s +:+ CRLF
  | RInt z => ":" +:+ FormatInt z +:+ CRLF
  | RBulk s => bulk s
  | RNull => "_" +:+ CRLF
  | RArray items => "*" +:+ FormatInt (len items) +:+ CRLF +:+ concat_s (map render items)
  | RMap entries =>
      "%" +:+ FormatInt (len entries) +:+ CRLF +:+
      concat_s (map (λ e, let '(k, v) := e in bulk k +:+ render v) entries)
  | RSet members => "~" +:+ FormatInt (len members) +:+ CRLF +:+ concat_s (map bulk members)
  end.

(** [sort.Strings] of the keys of a map. *)
Definition sorted_keys {A} (m : gmap string A) : list string := merge_sort String.le (map_to_list m).*1.

(** The pairs of HSET, from [args[2]] on; the number added. *)
Fixpoint hset_pairs (s : Server) (key : string) (args : list string) (added : Z) : Z * Server :=
  match args with
  | field :: value :: args =>
      hset_pairs (hset s key field value) key args
        (if is_None_b (hash s key !! field) then added + 1 else added)
  | _ => (added, s)
  end.

Definition hdel_step (key : string) (acc : Z * Server) (field : string) : Z * Server :=
  let '(removed, s) := acc in
  match hash s key !! field with
  | Some _ => (removed + 1, hdel s key field)
  | None => acc
  end.

Definition hexpire_step (key : string) (ttl : Z) (acc : list answer * Server) (field : string)
  : list answer * Server :=
  let '(l, s) := acc in
  match hash s key !! field with
  | None => (l ++ [RInt (-2)], s)
  | Some _ =>
      if ttl <=? 0 then (l ++ [RInt 2], hdel s key field)
      else (l ++ [RInt 1], set_field_ttl s key field ttl)
  end.

Definition sadd_step (key : string) (acc : Z * Server) (member : string) : Z * Server :=
  let '(added, s) := acc in
  (if decide (member ∈ set_ s key) then added else added + 1, sadd s key member).

Definition del_step (acc : Z * Server) (key : string) : Z * Server :=
  let '(removed, s) := acc in
  (if exists_ s key then removed + 1 else removed, del s key).

Definition hello : answer :=
  RMap [("server", RBulk "valkey"); ("version", RBulk "9.0.0"); ("proto", RInt 3);
        ("mode", RBulk "standalone")].

(** The first configured failure that applies to a command. *)
Definition failing (s : Server) (cmd : string) (args : list string) : option string :=
  match args with
  | _ :: key :: _ =>
      f_msg <$> List.find (λ f, bool_decide (f_cmd f = cmd) && contains (f_keyPart f) key) (failures s)
  | _ => None
  end.

(** The commands on data; [None]: an index or slice was out of range. *)
Definition data_command (s : Server) (cmd : string) (args : list string) : option (answer * Server) :=
  if decide (cmd = "HSET") then
    if (len args <? 4) || negb (len args `mod` 2 =? 0) then
      Some (RError "ERR wrong number of arguments for 'hset' command", s)
    else match args with
         | _ :: key :: pairs => let '(n, s) := hset_pairs s key pairs 0 in Some (RInt n, s)
         | _ => None
         end
  else if decide (cmd = "HGETALL") then
    match args with
    | _ :: key :: _ =>
        let h := hash s key in
        Some (RMap ((λ f, (f, RBulk (default "" (h !! f)))) <$> sorted_keys h), s)
    | _ => None
    end
  else if decide (cmd = "HGET") then
    match args with
    | _ :: key :: field :: _ =>
        Some (match hash s key !! field with Some v => RBulk v | None => RNull end, s)
    | _ => None
    end
  else if decide (cmd = "HKEYS") then
    match args with
    | _ :: key :: _ => Some (RArray (RBulk <$> sorted_keys (hash s key)), s)
    | _ => None
    end
  else if decide (cmd = "HDEL") then
    match args with
    | _ :: key :: fields => let '(n, s) := foldl (hdel_step key) (0, s) fields in Some (RInt n, s)
    | _ => None
    end
  else if decide (cmd = "HEXPIRE") then
    match args with
    | _ :: key :: secs :: kw :: n :: _ :: _ =>
        if negb (bool_decide (to_upper kw = "FIELDS")) then Some (RError "ERR syntax error", s)
        else match ParseInt secs with
             | (_, Some _) => Some (RError "ERR value is not an integer or out of range", s)
             | (ttl, None) =>
                 let fields := drop 5 args in
                 let mismatch :=
                   match ParseInt n with (_, Some _) => true | (n, None) => negb (n =? len fields) end in
                 if mismatch then
                   Some (RError "ERR numfields does not match the number of fields", s)
                 else let '(l, s) := foldl (hexpire_step key ttl) ([], s) fields in Some (RArray l, s)
             end
    | _ => Some (RError "ERR syntax error", s)
    end
  else if decide (cmd = "EXPIRE") then
    match args with
    | _ :: key :: secs :: _ =>
        match ParseInt secs with
        | (_, Some _) => Some (RError "ERR value is not an integer or out of range", s)
        | (ttl, None) =>
            if negb (exists_ s key) then Some (RInt 0, s)
            else Some (RInt 1, if ttl <=? 0 then del s key else SetKeyTTL s key ttl)
        end
    | _ => None
    end
  else if decide (cmd = "PERSIST") then
    match args with
    | _ :: key :: _ =>
        match keyTTL s !! key with
        | None => Some (RInt 0, s)
        | Some _ => Some (RInt 1, with_keyTTL s (delete key (keyTTL s)))
        end
    | _ => None
    end
  else if decide (cmd = "SADD") then
    match args with
    | _ :: key :: members => let '(n, s) := foldl (sadd_step key) (0, s) members in Some (RInt n, s)
    | _ => None
    end
  else if decide (cmd = "SMEMBERS") then
    match args with
    | _ :: key :: _ => Some (RSet (merge_sort String.le (elements (set_ s key))), s)
    | _ => None
    end
  else if decide (cmd = "DEL") then
    let '(n, s) := foldl del_step (0, s) (drop 1 args) in Some (RInt n, s)
  else Some (RError ("ERR unknown command '" +:+ default "" (head args) +:+ "'"), s).

(** [reply]: the handshake's commands, then, on record, the others. *)
Definition exec (s : Server) (args : list string) : option (answer * Server) :=
  match args with
  | [] => Some (RError "ERR empty command", s)
  | name :: _ =>
      let cmd := to_upper name in
      if decide (cmd = "HELLO") then Some (hello, s)
      else if decide (cmd ∈ ["CLIENT"; "SELECT"; "AUTH"]) then Some (RSimple "OK", s)
      else if decide (cmd = "PING") then Some (RSimple "PONG", s)
      else if decide (cmd = "CLUSTER") then
        Some (RError "ERR This instance has cluster support disabled", s)
      else
        let s := log_command s args in
        match failing s cmd args with
        | Some msg => Some (RError msg, s)
        | None => data_command s cmd args
        end
  end.

Definition reply (s : Server) (args : list string) : option (string * Server) :=
  '(a, s) ← exec s args; Some (render a, s).

(** [serve]: a connection's bytes, command by command, until one cannot be
    read; the replies written, and the state.  The code flushes the replies
    when no more input is buffered, so those before a broken command may be
    lost.  [None] is a panic. *)
Fixpoint serve (Quote : string → string) (fuel : nat) (input : string) (s : Server)
  : option (string * Server) :=
  match fuel with
  | O => None
  | S fuel =>
      match readCommand Quote input with
      | Done args rest =>
          '(out, s) ← reply s args;
          '(outs, s) ← serve Quote fuel rest s;
          Some (out +:+ outs, s)
      | Failed _ => Some ("", s)
      | Panicked | OutOfFuel => None
      end
  end.

(** ** The dashboard's client on these servers

    One server per client, by the client's number.  The client library sends
    the command and decodes the reply; a reply of another shape is an
    error. *)

Notation Servers := (gmap nat Server).

Definition server_of (w : Servers) (c : Client) : Server := default Start (w !! cl_id c).

Definition parse_error : verror := VErr (ENew "valkey: unexpected reply").

Definition call {A} (decode : answer → result verror A) (c : Client) (args : list string) (w : Servers)
  : result verror A * Servers :=
  match exec (server_of w c) args with
  | Some (RError msg, s) => (Err (VErr (ENew msg)), <[cl_id c := s]> w)
  | Some (RNull, s) => (Err VNil, <[cl_id c := s]> w)
  | Some (a, s) => (decode a, <[cl_id c := s]> w)
  | None => (Err (VErr (ENew "connection closed")), w)
  end.

Definition as_string (a : answer) : result verror string :=
  match a with RBulk s | RSimple s => Ok s | _ => Err parse_error end.

Fixpoint as_strings (l : list answer) : result verror (list string) :=
  match l with
  | [] => Ok []
  | a :: l => s ← as_string a; l ← as_strings l; Ok (s :: l)
  end.

Definition AsStrSlice (a : answer) : result verror (list string) :=
  match a with RArray l => as_strings l | RSet l => Ok l | _ => Err parse_error end.

Fixpoint as_entries (l : list (string * answer)) : result verror (gmap string string) :=
  match l with
  | [] => Ok ∅
  | (k, a) :: l => v ← as_string a; m ← as_entries l; Ok (<[k := v]> m)
  end.

Definition AsStrMap (a : answer) : result verror (gmap string string) :=
  match a with RMap l => as_entries l | _ => Err parse_error end.

(** [.Error()]: the reply itself does not matter. *)
Definition error_of {A} (p : result verror A * Servers) : option verror * Servers :=
  let '(r, w) := p in (match r with Err e => Some e | Ok _ => None end, w).

#[export] Instance Valkey_servers : Valkey Servers := {|
  vk_Smembers := λ c key, call AsStrSlice c ["SMEMBERS"; key];
  vk_Hgetall := λ c key, call AsStrMap c ["HGETALL"; key];
  vk_Hkeys := λ c key, call AsStrSlice c ["HKEYS"; key];
  vk_Hget := λ c key field, call as_string c ["HGET"; key; field];
  vk_Hset := λ c key field value w, error_of (call Ok c ["HSET"; key; field; value] w);
  vk_Hexpire := λ c key secs field w,
    error_of (call Ok c ["HEXPIRE"; key; FormatInt secs; "FIELDS"; "1"; field] w);
  vk_Hdel := λ c key field w, error_of (call Ok c ["HDEL"; key; field] w);
  vk_Persist := λ c key w, error_of (call Ok c ["PERSIST"; key] w) |}.
