(* ===== verification/Connections.v ===== *)
(** * The in-memory server and its connections

    The rest of dashboard/internal/valkeytest/valkeytest.go: what tests read
    and set, the accept loop, and the goroutines that serve one connection
    each.  A goroutine reads a command, takes the server's mutex to run it and
    buffers the reply; between the two any other goroutine may run.  Here a
    connection's input is all the bytes its client sends. *)

From S2P Require Import Prelude GoStd GoTime Errors Trace Valkey Resp ValkeyServer.

(** ** What tests call *)

Definition HSet (s : Server) (key field value : string) : Server := hset s key field value.

(** A copy of the hash, field by field. *)
Definition HGetAll (s : Server) (key : string) : gmap string string :=
  foldl (λ out p, <[p.1 := p.2]> out) ∅ (map_to_list (hash s key)).

Definition KeyTTL (s : Server) (key : string) : Z * bool :=
  match keyTTL s !! key with Some ttl => (ttl, true) | None => (0, false) end.

Definition FieldTTL (s : Server) (key field : string) : Z * bool :=
  match field_ttls s key !! field with Some ttl => (ttl, true) | None => (0, false) end.

Definition Commands (s : Server) : list (list string) := commands s.

Lemma HGetAll_copies s key : HGetAll s key = hash s key.
Proof.
  unfold HGetAll. rewrite <-(list_to_map_to_list (hash s key)) at 2.
  pose proof (NoDup_fst_map_to_list (hash s key)) as Hnd. revert Hnd. generalize (map_to_list (hash s key)).
  assert (∀ (l : list (string * string)) (m : gmap string string), NoDup l.*1 →
    foldl (λ out p, <[p.1 := p.2]> out) m l = list_to_map l ∪ m) as H; [|intros l Hnd; by rewrite H, (right_id_L ∅ (∪))].
  induction l as [|[k v] l IH]; intros m Hnd; cbn [foldl list_to_map foldr]; [by rewrite (left_id_L ∅ (∪))|].
  apply NoDup_cons in Hnd as [Hk Hnd]. rewrite IH by done. cbn [fst snd].
  change (foldr _ ∅ l) with (list_to_map (M:=gmap string string) l).
  rewrite <-insert_union_r by (by apply not_elem_of_list_to_map_1). by rewrite insert_union_l.
Qed.

Inductive test_op :=
| TFail (cmd keyPart msg : string)
| THeal
| THSet (key field value : string)
| TSAdd (key : string) (members : list string)
| TSetKeyTTL (key : string) (ttl : Z).

Definition apply_op (op : test_op) (s : Server) : Server :=
  match op with
  | TFail cmd keyPart msg => Fail s cmd keyPart msg
  | THeal => Heal s
  | THSet key field value => HSet s key field value
  | TSAdd key members => SAdd s key members
  | TSetKeyTTL key ttl => SetKeyTTL s key ttl
  end.

(** ** Connections *)

(** The state of one [serve] goroutine: the bytes still to read, the command
    it has read and not yet run, and the writer: what is buffered and what was
    flushed. *)
Record Conn := { c_in : string; c_cmd : option (list string); c_buf : string; c_out : string }.

Definition new_conn (input : string) : Conn := {| c_in := input; c_cmd := None; c_buf := ""; c_out := "" |}.

(** The listener, the server and the goroutines; connections are numbered in
    the order they are accepted. *)
Record Net := { n_srv : Server; n_conns : gmap nat Conn; n_next : nat; n_closed : bool }.

Definition listen : Net := {| n_srv := Start; n_conns := ∅; n_next := 0; n_closed := false |}.

Definition with_srv (n : Net) (s : Server) : Net :=
  {| n_srv := s; n_conns := n_conns n; n_next := n_next n; n_closed := n_closed n |}.

Definition with_conns (n : Net) (conns : gmap nat Conn) : Net :=
  {| n_srv := n_srv n; n_conns := conns; n_next := n_next n; n_closed := n_closed n |}.

Definition accepted (n : Net) (input : string) : Net :=
  {| n_srv := n_srv n; n_conns := <[n_next n := new_conn input]> (n_conns n); n_next := S (n_next n);
     n_closed := n_closed n |}.

(** [closeOnce]: the listener is closed, the connections are not. *)
Definition Close (n : Net) : Net :=
  {| n_srv := n_srv n; n_conns := n_conns n; n_next := n_next n; n_closed := true |}.

Definition received (c : Conn) (args : list string) (rest : string) : Conn :=
  {| c_in := rest; c_cmd := Some args; c_buf := c_buf c; c_out := c_out c |}.

(** The reply is buffered; [flush]: and the buffer written. *)
Definition replied (c : Conn) (a : answer) (flush : bool) : Conn :=
  {| c_in := c_in c; c_cmd := None;
     c_buf := if flush then "" else c_buf c +:+ render a;
     c_out := if flush then c_out c +:+ (c_buf c +:+ render a) else c_out c |}.

Inductive net_event :=
| Accepted (id : nat) (input : string)
| Received (id : nat) (args : list string)
| Replied (id : nat) (args : list string) (a : answer)
| Ended (id : nat)
| Tested (op : test_op)
| Closed.

Section steps.
(** [strconv.Quote], the [%q] of the messages. *)
Variable Quote : string → string.

(** One step of one goroutine.  [flush] is [r.Buffered() == 0]: with nothing
    left to read it holds, before that it depends on how the bytes arrive. *)
Inductive net_step (n : Net) : net_event → Net → Prop :=
| step_accept input :
    n_closed n = false → net_step n (Accepted (n_next n) input) (accepted n input)
| step_receive id c args rest :
    n_conns n !! id = Some c → c_cmd c = None → readCommand Quote (c_in c) = Done args rest →
    net_step n (Received id args) (with_conns n (<[id := received c args rest]> (n_conns n)))
| step_reply id c args a s flush :
    n_conns n !! id = Some c → c_cmd c = Some args → exec (n_srv n) args = Some (a, s) →
    (c_in c = "" → flush = true) →
    net_step n (Replied id args a) (with_srv (with_conns n (<[id := replied c a flush]> (n_conns n))) s)
| step_reply_unsent id c args a s :
    n_conns n !! id = Some c → c_cmd c = Some args → exec (n_srv n) args = Some (a, s) →
    net_step n (Replied id args a) (with_srv (with_conns n (delete id (n_conns n))) s)   (* Flush failed *)
| step_end id c e :
    n_conns n !! id = Some c → c_cmd c = None → readCommand Quote (c_in c) = Failed e →
    net_step n (Ended id) (with_conns n (delete id (n_conns n)))
| step_test op : net_step n (Tested op) (with_srv n (apply_op op (n_srv n)))
| step_close : net_step n Closed (Close n).

(** Any interleaving of the goroutines, from the start of the server. *)
Inductive runs : list net_event → Net → Prop :=
| runs_start : runs [] listen
| runs_step t n e n' : runs t n → net_step n e n' → runs (t ++ [e]) n'.

(** ** What a run amounts to *)

(** The commands and the tests' calls, one after the other. *)
Fixpoint sequential (s : Server) (t : list net_event) (s' : Server) : Prop :=
  match t with
  | [] => s' = s
  | Replied _ args a :: t => ∃ s1, exec s args = Some (a, s1) ∧ sequential s1 t s'
  | Tested op :: t => sequential (apply_op op s) t s'
  | _ :: t => sequential s t s'
  end.

(** What one connection received, and what it was answered. *)
Definition received_by (id : nat) (t : list net_event) : list (list string) :=
  omap (λ e, match e with Received i args => if decide (i = id) then Some args else None | _ => None end) t.

Definition run_by (id : nat) (t : list net_event) : list (list string) :=
  omap (λ e, match e with Replied i args _ => if decide (i = id) then Some args else None | _ => None end) t.

Definition answers_to (id : nat) (t : list net_event) : list answer :=
  omap (λ e, match e with Replied i _ a => if decide (i = id) then Some a else None | _ => None end) t.

(** The commands of an input, as they are read one by one. *)
Fixpoint parses (input : string) (cmds : list (list string)) (rest : string) : Prop :=
  match cmds with
  | [] => rest = input
  | args :: cmds => ∃ input', readCommand Quote input = Done args input' ∧ parses input' cmds rest
  end.

(** The commands on record: all but those of the handshake. *)
Definition recorded (args : list string) : bool :=
  match args with
  | [] => false
  | name :: _ => negb (bool_decide (to_upper name ∈ ["HELLO"; "CLIENT"; "SELECT"; "AUTH"; "PING"; "CLUSTER"]))
  end.

Definition on_record (t : list net_event) : list (list string) :=
  omap (λ e, match e with Replied _ args _ => if recorded args then Some args else None | _ => None end) t.

(** ** The log *)

Lemma commands_hset_pairs key args : ∀ s added, commands (hset_pairs s key args added).2 = commands s.
Proof.
  induction args as [args IH] using (induction_ltof1 _ (@length string)); unfold ltof in IH.
  destruct args as [|f [|v args]]; intros s added; [done..|]. cbn [hset_pairs]. rewrite IH by (simpl; lia). done.
Qed.

Lemma commands_hdel s key field : commands (hdel s key field) = commands s.
Proof. unfold hdel. by case_bool_decide. Qed.

Lemma commands_foldl {A} (f : A * Server → string → A * Server) l :
  (∀ acc x, commands (f acc x).2 = commands acc.2) → ∀ acc, commands (foldl f acc l).2 = commands acc.2.
Proof. intros Hf. induction l as [|x l IH]; intros acc; [done|]. cbn [foldl]. by rewrite IH, Hf. Qed.

Lemma commands_hdel_steps key l acc : commands (foldl (hdel_step key) acc l).2 = commands acc.2.
Proof.
  apply commands_foldl. intros [n s] f. unfold hdel_step. case_match; [|done]. cbn [snd]. apply commands_hdel.
Qed.

Lemma commands_hexpire_steps key ttl l acc : commands (foldl (hexpire_step key ttl) acc l).2 = commands acc.2.
Proof.
  apply commands_foldl. intros [n s] f. unfold hexpire_step. repeat case_match; cbn [snd]; rewrite ?commands_hdel; done.
Qed.

Lemma commands_sadd_steps key l acc : commands (foldl (sadd_step key) acc l).2 = commands acc.2.
Proof. apply commands_foldl. by intros [n s] f. Qed.

Lemma commands_del_steps l acc : commands (foldl del_step acc l).2 = commands acc.2.
Proof. apply commands_foldl. by intros [n s] f. Qed.

Lemma data_command_commands s cmd args a s' :
  data_command s cmd args = Some (a, s') → commands s' = commands s.
Proof.
  unfold data_command. intros H. repeat (case_decide || case_match); simplify_eq; try done.
  all: match goal with E : ?x = (_, ?t) |- commands ?t = _ => replace t with x.2 by (by rewrite E) end.
  - apply commands_hset_pairs.
  - apply commands_hdel_steps.
  - apply commands_hexpire_steps.
  - apply commands_sadd_steps.
  - apply commands_del_steps.
Qed.

Lemma exec_commands s args a s' :
  exec s args = Some (a, s') → commands s' = commands s ++ (if recorded args then [args] else []).
Proof.
  unfold exec, recorded. destruct args as [|name args]; [intros [= _ <-]; by rewrite app_nil_r|].
  destruct (decide (to_upper name = "HELLO")) as [E|N1]; [rewrite E; intros [= _ <-]; by rewrite app_nil_r|].
  destruct (decide (to_upper name ∈ ["CLIENT"; "SELECT"; "AUTH"])) as [E|N2].
  { intros [= _ <-]. rewrite bool_decide_true by set_solver. by rewrite app_nil_r. }
  destruct (decide (to_upper name = "PING")) as [E|N3]; [rewrite E; intros [= _ <-]; by rewrite app_nil_r|].
  destruct (decide (to_upper name = "CLUSTER")) as [E|N4]; [rewrite E; intros [= _ <-]; by rewrite app_nil_r|].
  rewrite bool_decide_false by set_solver. cbn [negb]. destruct (failing _ _ _); [by intros [= _ <-]|].
  by intros ->%data_command_commands.
Qed.

Lemma apply_op_commands op s : commands (apply_op op s) = commands s.
Proof.
  destruct op as [| | |key members|]; try done. cbn [apply_op]. unfold SAdd. revert s.
  induction members as [|m members IH]; intros s; [done|]. cbn [foldl]. by rewrite IH.
Qed.

Lemma sequential_commands t : ∀ s s', sequential s t s' → commands s' = commands s ++ on_record t.
Proof.
  induction t as [|e t IH]; intros s s'; cbn [sequential on_record omap list_omap].
  { intros ->. by rewrite app_nil_r. }
  destruct e; try apply IH.
  - intros (s1 & Hx & Hs). rewrite (IH _ _ Hs), (exec_commands _ _ _ _ Hx).
    change (omap _ t) with (on_record t). by destruct (recorded args); rewrite <-(assoc app).
  - intros Hs. by rewrite (IH _ _ Hs), apply_op_commands.
Qed.

(** ** Every run *)

Lemma sequential_app t1 t2 : ∀ s s', sequential s (t1 ++ t2) s' ↔ ∃ s1, sequential s t1 s1 ∧ sequential s1 t2 s'.
Proof.
  induction t1 as [|e t1 IH]; intros s s'; cbn [app sequential].
  { split; [by exists s|]. by intros (? & -> & ?). }
  destruct e; try apply IH. split.
  - intros (s1 & Hx & (s2 & H1 & H2)%IH). exists s2. split; [by exists s1|done].
  - intros (s2 & (s1 & Hx & H1) & H2). exists s1. split; [done|]. apply IH. by exists s2.
Qed.

Lemma parses_app c1 c2 : ∀ input rest, parses input (c1 ++ c2) rest ↔ ∃ i1, parses input c1 i1 ∧ parses i1 c2 rest.
Proof.
  induction c1 as [|args c1 IH]; intros input rest; cbn [app parses].
  { split; [by exists input|]. by intros (? & -> & ?). }
  split.
  - intros (i & Hr & (i1 & H1 & H2)%IH). exists i1. split; [by exists i|done].
  - intros (i1 & (i & Hr & H1) & H2). exists i. split; [done|]. apply IH. by exists i1.
Qed.

Lemma received_by_snoc id t e : received_by id (t ++ [e]) = received_by id t ++ received_by id [e].
Proof. apply omap_app. Qed.
Lemma run_by_snoc id t e : run_by id (t ++ [e]) = run_by id t ++ run_by id [e].
Proof. apply omap_app. Qed.
Lemma answers_to_snoc id t e : answers_to id (t ++ [e]) = answers_to id t ++ answers_to id [e].
Proof. apply omap_app. Qed.

(** What the events so far say of a connection, its goroutine [c] still
    running or ended. *)
Definition conn_inv (t : list net_event) (id : nat) (input : string) (c : option Conn) : Prop :=
  ∃ rest, parses input (received_by id t) rest ∧ run_by id t `prefix_of` received_by id t ∧
    match c with
    | Some c =>
        c_in c = rest ∧ received_by id t = run_by id t ++ option_list (c_cmd c) ∧
        c_out c +:+ c_buf c = concat_s (render <$> answers_to id t) ∧
        (c_in c = "" → c_cmd c = None → c_buf c = "")
    | None => True
    end.

(** The events of the connection. *)
Definition event_of (e : net_event) : option nat :=
  match e with
  | Accepted id _ | Received id _ | Replied id _ _ | Ended id => Some id
  | Tested _ | Closed => None
  end.

Lemma conn_inv_other t e id input c : event_of e ≠ Some id → conn_inv t id input c → conn_inv (t ++ [e]) id input c.
Proof.
  unfold conn_inv. rewrite received_by_snoc, run_by_snoc, answers_to_snoc. intros He.
  assert (received_by id [e] = [] ∧ run_by id [e] = [] ∧ answers_to id [e] = []) as (-> & -> & ->).
  { destruct e; cbn [event_of] in He; simpl; rewrite ?decide_False by congruence; done. }
  by rewrite !app_nil_r.
Qed.

Lemma conn_inv_gone t id input c : conn_inv t id input c → conn_inv t id input None.
Proof. intros (rest & ? & ? & _). by exists rest. Qed.

(** Nothing has happened yet on a connection that is not accepted. *)
Definition untouched (t : list net_event) (id : nat) : Prop := Forall (λ e, event_of e ≠ Some id) t.

Lemma conn_inv_new t id input : untouched t id → conn_inv (t ++ [Accepted id input]) id input (Some (new_conn input)).
Proof.
  intros H. unfold conn_inv. rewrite received_by_snoc, run_by_snoc, answers_to_snoc.
  assert (received_by id t = [] ∧ run_by id t = [] ∧ answers_to id t = []) as (-> & -> & ->).
  { unfold received_by, run_by, answers_to. induction H as [|e t He _ IH]; [done|].
    destruct e; cbn [event_of] in He; simpl; rewrite ?decide_False by congruence; done. }
  exists input. by split_and!.
Qed.

Lemma conn_inv_received t id input c args rest :
  conn_inv t id input (Some c) → c_cmd c = None → readCommand Quote (c_in c) = Done args rest →
  conn_inv (t ++ [Received id args]) id input (Some (received c args rest)).
Proof.
  intros (r & Hp & Hpre & Hin & Hrec & Hout & _) Hcmd Hread. rewrite Hcmd in Hrec. cbn [option_list] in Hrec.
  rewrite app_nil_r in Hrec. unfold conn_inv. rewrite received_by_snoc, run_by_snoc, answers_to_snoc. simpl.
  rewrite decide_True by done. rewrite !app_nil_r. exists rest. split_and!; [|by apply prefix_app_r|done|by f_equal|done|done].
  apply parses_app. exists r. split; [done|]. subst r. by exists rest.
Qed.

Lemma conn_inv_replied t id input c args a flush :
  conn_inv t id input (Some c) → c_cmd c = Some args → (c_in c = "" → flush = true) →
  conn_inv (t ++ [Replied id args a]) id input (Some (replied c a flush)).
Proof.
  intros (r & Hp & Hpre & Hin & Hrec & Hout & _) Hcmd Hfl. rewrite Hcmd in Hrec. cbn [option_list] in Hrec.
  unfold conn_inv. rewrite received_by_snoc, run_by_snoc, answers_to_snoc. simpl.
  rewrite !decide_True by done. rewrite !app_nil_r. exists r. split_and!; [done|by rewrite Hrec|done|done| |].
  - rewrite fmap_app, concat_s_app, <-Hout. simpl.
    by destruct flush; rewrite ?sapp_nil_r, ?sapp_assoc.
  - intros E _. by rewrite Hfl.
Qed.

Definition net_inv (t : list net_event) (n : Net) : Prop :=
  sequential Start t (n_srv n) ∧
  (∀ id, (n_next n ≤ id)%nat → untouched t id) ∧
  (∀ id c, n_conns n !! id = Some c → ∃ input, Accepted id input ∈ t) ∧
  (∀ id input, Accepted id input ∈ t → (id < n_next n)%nat ∧ conn_inv t id input (n_conns n !! id)).

Lemma untouched_snoc t e id : untouched t id → event_of e ≠ Some id → untouched (t ++ [e]) id.
Proof. intros H He. apply Forall_app. by split; [|constructor]. Qed.

(** One connection moves, the others do not. *)
Lemma net_inv_moves t n e id c (c' : option Conn) s :
  net_inv t n → n_conns n !! id = Some c → event_of e = Some id → (∀ i input, e ≠ Accepted i input) →
  sequential Start (t ++ [e]) s →
  (∀ input, conn_inv t id input (Some c) → conn_inv (t ++ [e]) id input c') →
  net_inv (t ++ [e]) {| n_srv := s; n_conns := partial_alter (λ _, c') id (n_conns n); n_next := n_next n; n_closed := n_closed n |}.
Proof.
  intros (_ & Hnew & Hacc & Hinv) Hc He Hne Hs Hmove. cbn.
  assert (∀ i input, Accepted i input ∈ t ++ [e] → Accepted i input ∈ t) as Hin.
  { intros i input [?|E%list_elem_of_singleton]%elem_of_app; [done|]. by destruct (Hne i input). }
  destruct (Hacc id c Hc) as (input0 & Hin0). destruct (Hinv id input0 Hin0) as [Hlt _].
  split_and!; [done| | |].
  - intros i Hi. apply untouched_snoc; [by apply Hnew|]. rewrite He. intros [= ->]. cbn [n_next] in Hi. lia.
  - intros i ci Hi. cbn [n_conns] in Hi. destruct (decide (i = id)) as [->|Hn].
    + exists input0. apply elem_of_app. by left.
    + rewrite lookup_partial_alter_ne in Hi by done. destruct (Hacc i ci Hi) as [input ?]. exists input. apply elem_of_app. by left.
  - intros i input Hi%Hin. destruct (Hinv i input Hi) as [Hlt' Hci]. split; [done|]. cbn [n_conns].
    destruct (decide (i = id)) as [->|Hn].
    + rewrite lookup_partial_alter_eq. rewrite Hc in Hci. by apply Hmove.
    + rewrite lookup_partial_alter_ne by done. apply conn_inv_other; [congruence|done].
Qed.

(** Nothing but the server moves. *)
Lemma net_inv_server t n e n' :
  net_inv t n → event_of e = None → n_conns n' = n_conns n → n_next n' = n_next n →
  sequential Start (t ++ [e]) (n_srv n') → net_inv (t ++ [e]) n'.
Proof.
  intros (_ & Hnew & Hacc & Hinv) He Hcs Hnx Hs. unfold net_inv. rewrite Hcs, Hnx.
  split_and!; [done| | |].
  - intros i Hi. apply untouched_snoc; [by apply Hnew|by rewrite He].
  - intros i c Hi. destruct (Hacc i c Hi) as [input ?]. exists input. apply elem_of_app. by left.
  - intros i input [Hi|E%list_elem_of_singleton]%elem_of_app; [|by subst e].
    destruct (Hinv i input Hi) as [Hlt Hci]. split; [done|]. apply conn_inv_other; [by rewrite He|done].
Qed.

Lemma net_inv_accepted t n input : net_inv t n → net_inv (t ++ [Accepted (n_next n) input]) (accepted n input).
Proof.
  intros (Hs & Hnew & Hacc & Hinv). split_and!; cbn [accepted n_srv n_next n_conns].
  - apply sequential_app. by exists (n_srv n).
  - intros i Hi. apply untouched_snoc; [apply Hnew; lia|]. intros [= E]. lia.
  - intros i c. destruct (decide (i = n_next n)) as [->|Hn].
    + intros _. exists input. apply elem_of_app. right. by left.
    + rewrite lookup_insert_ne by done. intros Hi. destruct (Hacc i c Hi) as [input' ?]. exists input'. apply elem_of_app. by left.
  - intros i input' [Hi|E%list_elem_of_singleton]%elem_of_app.
    + destruct (Hinv i input' Hi) as [Hlt Hci]. split; [lia|]. rewrite lookup_insert_ne by lia.
      apply conn_inv_other; [|done]. intros [= E]. lia.
    + injection E as -> ->. split; [lia|]. rewrite lookup_insert_eq. apply conn_inv_new. by apply Hnew.
Qed.

Lemma net_inv_step t n e n' : net_inv t n → net_step n e n' → net_inv (t ++ [e]) n'.
Proof.
  intros Hn [input Hopen|id c args rest Hc Hcmd Hr|id c args a s flush Hc Hcmd Hx Hfl|id c args a s Hc Hcmd Hx
    |id c e' Hc Hcmd Hr|op|].
  - by apply net_inv_accepted.
  - apply (net_inv_moves t n _ id c); [done..| |intros input Hi; by apply conn_inv_received].
    apply sequential_app. exists (n_srv n). by split; [apply Hn|].
  - apply (net_inv_moves t n _ id c); [done..| |intros input Hi; by apply conn_inv_replied].
    apply sequential_app. exists (n_srv n). split; [apply Hn|]. by exists s.
  - apply (net_inv_moves t n _ id c None); [done..| |].
    + apply sequential_app. exists (n_srv n). split; [apply Hn|]. by exists s.
    + intros input Hi. eapply conn_inv_gone, (conn_inv_replied _ _ _ _ _ _ true); done.
  - apply (net_inv_moves t n _ id c None); [done..| |].
    + apply sequential_app. exists (n_srv n). by split; [apply Hn|].
    + intros input Hi. destruct Hi as (r & Hp & Hpre & _). exists r. split_and!; [|by rewrite run_by_snoc, received_by_snoc; simpl; rewrite !app_nil_r|done].
      rewrite received_by_snoc. simpl. by rewrite app_nil_r.
  - apply (net_inv_server t n); [done..|]. apply sequential_app. exists (n_srv n). by split; [apply Hn|].
  - apply (net_inv_server t n); [done..|]. apply sequential_app. exists (n_srv n). by split; [apply Hn|].
Qed.

Lemma runs_inv t n : runs t n → net_inv t n.
Proof.
  induction 1 as [|t n e n' _ IH Hs]; [|by eapply net_inv_step].
  split_and!; [done| | |]; cbn; [by constructor|by intros|by intros ? ? ?%elem_of_nil].
Qed.

(** C18: connections take turns: in every interleaving of the goroutines, the
    server's state is that of running, one after the other, the commands that
    were answered and the calls of the test, each answer being the one of the
    state before it; [Commands] lists exactly these commands, the handshakes
    apart, in that order; the commands of each connection are those its bytes
    encode, run in their order; and its client is sent exactly the replies to
    them, of which none is left in the buffer when nothing is left to read. *)
Theorem connections_take_turns (t : list net_event) (n : Net) :
  runs t n →
  sequential Start t (n_srv n) ∧ Commands (n_srv n) = on_record t ∧
  ∀ id input, Accepted id input ∈ t →
    ∃ rest, parses input (received_by id t) rest ∧ run_by id t `prefix_of` received_by id t ∧
      match n_conns n !! id with
      | Some c =>
          c_in c = rest ∧ received_by id t = run_by id t ++ option_list (c_cmd c) ∧
          c_out c +:+ c_buf c = concat_s (render <$> answers_to id t) ∧
          (c_in c = "" → c_cmd c = None → c_buf c = "")
      | None => True
      end.
Proof.
  intros (Hs & _ & _ & Hinv)%runs_inv. split; [done|]. split; [apply (sequential_commands t Start _ Hs)|].
  intros id input Hin. by apply Hinv.
Qed.

(** ** One connection alone *)

Inductive steps : Net → list net_event → Net → Prop :=
| steps_none n : steps n [] n
| steps_cons n e n1 t n' : net_step n e n1 → steps n1 t n' → steps n (e :: t) n'.

Lemma runs_steps t n t' n' : runs t n → steps n t' n' → runs (t ++ t') n'.
Proof.
  intros Hr Hs. revert t Hr. induction Hs as [n|n e n1 t1 n' He _ IH]; intros t Hr; [by rewrite app_nil_r|].
  change (t ++ e :: t1) with (t ++ [e] ++ t1). rewrite app_assoc. apply IH. by eapply runs_step.
Qed.

(** The function [serve] is the run in which nobody else moves. *)
Lemma serve_is_a_run fuel : ∀ id c n out s',
  n_conns n !! id = Some c → c_cmd c = None → serve Quote fuel (c_in c) (n_srv n) = Some (out, s') →
  ∃ t n' c', steps n t n' ∧ n_srv n' = s' ∧ n_conns n' !! id = Some c' ∧ c_cmd c' = None ∧
    c_out c' +:+ c_buf c' = (c_out c +:+ c_buf c) +:+ out.
Proof.
  induction fuel as [|fuel IH]; intros id c n out s' Hc Hcmd; [done|]. cbn [serve].
  destruct (readCommand Quote (c_in c)) as [args rest|e| |] eqn:Hr; [|intros [= <- <-]|done..].
  2:{ exists [], n, c. split_and!; [constructor|done..|by rewrite sapp_nil_r]. }
  unfold reply. destruct (exec (n_srv n) args) as [[a s1]|] eqn:Hx; [|done]. cbn [mbind option_bind].
  destruct (serve Quote fuel rest s1) as [[outs s2]|] eqn:Hs; [|done]. intros [= <- <-].
  set (n1 := with_conns n (<[id := received c args rest]> (n_conns n))).
  set (c2 := replied (received c args rest) a true).
  set (n2 := with_srv (with_conns n1 (<[id := c2]> (n_conns n1))) s1).
  destruct (IH id c2 n2 outs s2) as (t & n' & c' & Ht & Hs' & Hc' & Hcmd' & Hout); [apply lookup_insert_eq|done|done|].
  exists (Received id args :: Replied id args a :: t), n', c'. split_and!; [|done..|].
  - eapply steps_cons; [by apply step_receive|]. eapply steps_cons; [|exact Ht].
    eapply step_reply; [apply lookup_insert_eq|done|done|done].
  - rewrite Hout. cbn [c2 replied received c_out c_buf]. by rewrite sapp_nil_r, !sapp_assoc.
Qed.

(** After [Close] nothing is accepted; the connections go on. *)
Lemma closed_stays t n n' : steps n t n' → n_closed n = true → n_closed n' = true ∧ ∀ id input, Accepted id input ∉ t.
Proof.
  induction 1 as [n|n e n1 t n' Hs _ IH]; intros Hc; [split; [done|intros ? ? []%elem_of_nil]|].
  assert (n_closed n1 = true ∧ ∀ id input, e ≠ Accepted id input) as [Hc1 He] by (destruct Hs; split; done || congruence).
  destruct (IH Hc1) as [? Ht]. split; [done|]. intros id input [E|Hin]%elem_of_cons; [by destruct (He id input)|by destruct (Ht id input)].
Qed.
End steps.

(** ** Commands that stop the server *)

(** The arguments the code indexes without looking at their number. *)
Definition indexed (cmd : string) : Z :=
  if decide (cmd = "HSET") then 0
  else if decide (cmd = "HGETALL") then 2
  else if decide (cmd = "HGET") then 3
  else if decide (cmd = "HKEYS") then 2
  else if decide (cmd = "HDEL") then 2
  else if decide (cmd = "HEXPIRE") then 0
  else if decide (cmd = "EXPIRE") then 3
  else if decide (cmd = "PERSIST") then 2
  else if decide (cmd = "SADD") then 2
  else if decide (cmd = "SMEMBERS") then 2
  else 0.

Lemma len_length {A} (l : list A) : len l = Z.of_nat (length l).
Proof. done. Qed.

Lemma data_command_None s cmd name rest :
  data_command s cmd (name :: rest) = None ↔ len (name :: rest) < indexed cmd.
Proof.
  unfold data_command, indexed.
  repeat (case_decide; [|]); rewrite ?len_length.
  all: destruct rest as [|key [|field rest]]; cbn [length].
  all: repeat case_match; split; intros ?; try done; try lia.
Qed.

Lemma failing_log s cmd args args' : failing (log_command s args') cmd args = failing s cmd args.
Proof. done. Qed.

(** a command stops the server - an index out of range panics, and with
    it the whole process - exactly when no configured failure answers it and
    it has fewer arguments than the code indexes: two for HGETALL, HKEYS,
    HDEL, PERSIST, SADD and SMEMBERS, three for HGET and EXPIRE; every other
    command, however malformed, is answered. *)
Theorem exec_panics_iff_indexed (s : Server) (args : list string) :
  exec s args = None ↔
  match args with
  | [] => False
  | name :: _ => failing s (to_upper name) args = None ∧ len args < indexed (to_upper name)
  end.
Proof.
  unfold exec. destruct args as [|name rest]; [done|].
  assert (∀ x y, to_upper name = x → indexed x = 0 → Some y = @None (answer * Server) ↔
    failing s (to_upper name) (name :: rest) = None ∧ len (name :: rest) < indexed (to_upper name)) as Hshake.
  { intros x y Ex E0. split; [done|]. rewrite Ex, E0, len_length. intros [_ ?]. lia. }
  case_decide as E1; [by eapply Hshake|]. case_decide as E2.
  { repeat (apply elem_of_cons in E2 as [E2|E2]; [by eapply Hshake|]). by apply elem_of_nil in E2. }
  case_decide as E3; [by eapply Hshake|]. case_decide as E4; [by eapply Hshake|].
  rewrite failing_log. destruct (failing s _ _) as [msg|]; [by split; [|intros [? _]]|].
  rewrite data_command_None. naive_solver.
Qed.

(** ** Two connections *)

Definition sim_writer : string := encodeCommand ["HSET"; "k"; "f"; "v"].
Definition sim_reader : string := encodeCommand ["HGET"; "k"; "f"].

Definition sim_run : list net_event :=
  [Accepted 0 sim_writer; Accepted 1 sim_reader; Received 1 ["HGET"; "k"; "f"]; Received 0 ["HSET"; "k"; "f"; "v"];
   Replied 0 ["HSET"; "k"; "f"; "v"] (RInt 1); Replied 1 ["HGET"; "k"; "f"] (RBulk "v")].

Lemma sim_runs : ∃ n, runs id sim_run n.
Proof.
  eexists. change sim_run with ([] ++ sim_run). eapply runs_steps; [apply runs_start|]. unfold sim_run.
  eapply steps_cons; [by apply step_accept|]. eapply steps_cons; [by apply (step_accept _ (accepted listen sim_writer))|].
  eapply steps_cons; [by eapply step_receive; [reflexivity|done|vm_compute; reflexivity]|].
  eapply steps_cons; [by eapply step_receive; [reflexivity|done|vm_compute; reflexivity]|].
  eapply steps_cons; [by eapply (step_reply _ _ _ _ _ _ _ true); [reflexivity|done|vm_compute; reflexivity|]|].
  eapply steps_cons; [by eapply (step_reply _ _ _ _ _ _ _ true); [reflexivity|done|vm_compute; reflexivity|]|].
  apply steps_none.
Qed.

Lemma connections_take_turns_witness :
  ∃ n, Commands (n_srv n) = [["HSET"; "k"; "f"; "v"]; ["HGET"; "k"; "f"]].
Proof.
  destruct sim_runs as [n Hn]. exists n. destruct (connections_take_turns id sim_run n Hn) as (_ & -> & _). reflexivity.
Defined.
