(* ===== verification/EndToEnd.v ===== *)
(** * From a check to the dashboard

    The operator's valkey notifier and the dashboard meet in the data of a
    Valkey server.  Here the notifier's commands run on the in-memory server,
    through the wire protocol, and the dashboard reads the result. *)

From S2P Require Import Prelude GoStd GoTime Errors Api Notifier Trace Drivers Notifiers Keys Ladder Float64 Rollups.
From S2P Require Import Valkey Store Resp ValkeyNotifier ValkeyServer.

(** ** Running commands *)

(** The states of a server that never fails. *)
Fixpoint exec_all (s : Server) (cmds : list (list string)) : option (list answer * Server) :=
  match cmds with
  | [] => Some ([], s)
  | cmd :: cmds =>
      '(a, s) ← exec s cmd;
      '(l, s) ← exec_all s cmds;
      Some (a :: l, s)
  end.

Lemma exec_all_app s c1 c2 :
  exec_all s (c1 ++ c2) =
  '(l1, s) ← exec_all s c1; '(l2, s) ← exec_all s c2; Some (l1 ++ l2, s).
Proof.
  revert s. induction c1 as [|c c1 IH]; intros s; cbn [app exec_all mbind option_bind].
  { by destruct (exec_all s c2) as [[l s']|]. }
  destruct (exec s c) as [[a s1]|]; [|done]. cbn [mbind option_bind]. rewrite IH.
  destruct (exec_all s1 c1) as [[l s2]|]; [|done]. cbn [mbind option_bind].
  by destruct (exec_all s2 c2) as [[l' s3]|].
Qed.

(** The bytes of a pipeline. *)
Definition encode_all (cmds : list (list string)) : string := concat_s (encodeCommand <$> cmds).

(** A connection that delivers encoded commands, and then nothing that can be
    read, runs them in order and answers each. *)
Lemma serve_encoded (Quote : string → string) (cmds : list (list string)) (tail : string) (e : error)
    (s : Server) :
  Forall fits cmds → readCommand Quote tail = Failed e →
  serve Quote (S (length cmds)) (encode_all cmds +:+ tail) s =
  '(l, s) ← exec_all s cmds; Some (concat_s (render <$> l), s).
Proof.
  unfold encode_all. intros Hf Ht. revert s.
  induction Hf as [|cmd cmds Hc Hf IH]; intros s.
  { cbn [fmap list_fmap concat_s String.append serve length]. by rewrite Ht. }
  rewrite fmap_cons. cbn [concat_s length]. revert IH. generalize (S (length cmds)). intros n IH.
  cbn [serve]. rewrite <-sapp_assoc.
  rewrite readCommand_encode by done. unfold reply. cbn [exec_all].
  destruct (exec s cmd) as [[a s1]|]; [|done]. cbn [mbind option_bind]. rewrite IH.
  destruct (exec_all s1 cmds) as [[l s2]|]; [|done]. done.
Qed.

Lemma encode_all_app c1 c2 : encode_all (c1 ++ c2) = encode_all c1 +:+ encode_all c2.
Proof. unfold encode_all. by rewrite fmap_app, concat_s_app. Qed.

Lemma slen_app s1 s2 : slen (s1 +:+ s2) = slen s1 + slen s2.
Proof. unfold slen. rewrite slength_app. lia. Qed.

(** Commands whose bytes fit into memory. *)
Lemma bulks_fit args :
  6 * len args ≤ slen (bulks args) ∧ Forall (λ arg, slen arg + 2 ≤ slen (bulks args)) args.
Proof.
  induction args as [|arg args [IH1 IH2]]; [split; [done|constructor]|].
  cbn [bulks]. rewrite len_cons.
  assert (6 + slen arg ≤ slen (bulk arg)) as Hb.
  { unfold bulk. rewrite !slen_app. change (slen CRLF) with 2. change (slen "$") with 1.
    assert (1 ≤ slen (FormatInt (slen arg))) as Hn; [|lia].
    pose proof (slen_nonneg arg) as H0. unfold FormatInt, slen in *.
    pose proof (pretty_N_ne_nil) as Hne.
    destruct (Z.of_nat (String.length arg)) as [|p|p] eqn:El; [done| |lia].
    specialize (Hne (N.pos p)). change (pretty (Z.pos p)) with (pretty (N.pos p)).
    destruct (pretty (N.pos p)); [done|simpl; lia]. }
  rewrite slen_app. pose proof (slen_nonneg arg). pose proof (slen_nonneg (bulks args)). split; [lia|].
  constructor; [lia|]. eapply Forall_impl; [exact IH2|]. intros x Hx. cbv beta in *.
  lia.
Qed.

Lemma encoded_fits cmds : 16 * slen (encode_all cmds) ≤ maxAlloc → Forall fits cmds.
Proof.
  unfold encode_all. induction cmds as [|cmd cmds IH]; [constructor|].
  rewrite fmap_cons. cbn [concat_s]. rewrite slen_app. intros H.
  pose proof (slen_nonneg (encodeCommand cmd)). pose proof (slen_nonneg (concat_s (encodeCommand <$> cmds))).
  constructor; [|apply IH; lia].
  assert (slen (bulks cmd) ≤ slen (encodeCommand cmd)) as Hb.
  { unfold encodeCommand. rewrite !slen_app.
    pose proof (slen_nonneg "*"). pose proof (slen_nonneg (FormatInt (len cmd))). pose proof (slen_nonneg CRLF). lia. }
  destruct (bulks_fit cmd) as [Hn Hf]. pose proof (len_nonneg cmd). split; [lia|].
  eapply Forall_impl; [exact Hf|]. intros x Hx. cbv beta in *. lia.
Qed.

(** ** The commands of the notifier on a server without failures *)

Lemma exec_hset s key field value :
  failures s = [] →
  ∃ a, exec s ["HSET"; key; field; value] = Some (a, hset (log_command s ["HSET"; key; field; value]) key field value).
Proof. intros Hf. unfold exec. simpl. unfold failing. simpl. rewrite Hf. eexists. reflexivity. Qed.

Lemma exec_sadd s key member :
  failures s = [] →
  ∃ a, exec s ["SADD"; key; member] = Some (a, sadd (log_command s ["SADD"; key; member]) key member).
Proof. intros Hf. unfold exec. simpl. unfold failing. simpl. rewrite Hf. eexists. reflexivity. Qed.

Lemma exec_hexpire_reply s key secs field :
  failures s = [] → is_int64 secs → 0 < secs → is_Some (hash s key !! field) →
  exec s ["HEXPIRE"; key; FormatInt secs; "FIELDS"; "1"; field] =
    Some (RArray [RInt 1], set_field_ttl (log_command s ["HEXPIRE"; key; FormatInt secs; "FIELDS"; "1"; field]) key field secs).
Proof.
  intros Hf Hi Hs [v Hv]. unfold exec. cbn -[ParseInt FormatInt log_command failing data_command].
  replace (failing _ _ _) with (@None string) by (unfold failing; simpl; by rewrite Hf).
  unfold data_command. cbn -[ParseInt FormatInt log_command].
  rewrite ParseInt_FormatInt by done. unfold hexpire_step. cbn -[log_command].
  change (hash (log_command s _) key) with (hash s key). rewrite Hv.
  rewrite (proj2 (Z.leb_gt _ _)) by done. reflexivity.
Qed.

Lemma exec_hexpire s key secs field :
  failures s = [] → is_int64 secs → 0 < secs → is_Some (hash s key !! field) →
  ∃ a, exec s ["HEXPIRE"; key; FormatInt secs; "FIELDS"; "1"; field] =
    Some (a, set_field_ttl (log_command s ["HEXPIRE"; key; FormatInt secs; "FIELDS"; "1"; field]) key field secs).
Proof. intros. eexists. by apply exec_hexpire_reply. Qed.

Lemma hash_hset s key field value key' :
  hash (hset s key field value) key' =
  if decide (key = key') then <[field := value]> (hash s key') else hash s key'.
Proof.
  unfold hash, hset. cbn [hashes with_hashes]. case_decide as E.
  - subst key'. by rewrite lookup_insert_eq.
  - by rewrite lookup_insert_ne.
Qed.

Lemma set_sadd s key member key' :
  set_ (sadd s key member) key' =
  if decide (key = key') then {[member]} ∪ set_ s key' else set_ s key'.
Proof.
  unfold set_, sadd. cbn [sets with_sets]. case_decide as E.
  - subst key'. by rewrite lookup_insert_eq.
  - by rewrite lookup_insert_ne.
Qed.

(** The three fields of a service's metadata. *)
Definition meta_fields (endpoint driver name : string) (m : gmap string string) : gmap string string :=
  <["name" := name]> (<["driver" := driver]> (<["endpoint" := endpoint]> m)).

Lemma exec_meta s key e d n :
  failures s = [] →
  ∃ a s', exec s ["HSET"; key; "endpoint"; e; "driver"; d; "name"; n] = Some (a, s') ∧ failures s' = [] ∧
    (∀ key', hash s' key' = if decide (key = key') then meta_fields e d n (hash s key') else hash s key') ∧
    (∀ key', set_ s' key' = set_ s key').
Proof.
  intros Hf. unfold exec. cbn -[log_command failing hset_pairs data_command].
  replace (failing _ _ _) with (@None string) by (unfold failing; simpl; by rewrite Hf).
  unfold data_command. cbn -[log_command hset hash].
  eexists _, _. split; [reflexivity|]. split; [done|]. split; [|done].
  intros key'. rewrite !hash_hset. unfold meta_fields. by case_decide.
Qed.

Section dashboard.
Context (retention : Z) (svc ts sv dv : string) (h : Z) (v : NoticeValues).
Hypothesis retention_int : is_int64 retention.
Hypothesis retention_pos : 0 < retention.
Hypothesis svc_plain : has_byte ":" svc = false.
Hypothesis hour_int : is_int64 h.

Definition cmds_for (dash : string) : list (list string) :=
  dashboard_cmds retention dash svc ts (FormatInt h) sv dv v.

Lemma dashboard_effect s dash :
  has_byte ":" dash = false → failures s = [] →
  ∃ l s', exec_all s (cmds_for dash) = Some (l, s') ∧ failures s' = [] ∧
    (∀ key, hash s' key =
       if decide (StatusHour dash svc h = key) then <[ts := sv]> (hash s key)
       else if decide (DetailHour dash svc h = key) then <[ts := dv]> (hash s key)
       else if decide (Meta_key dash svc = key) then meta_fields (nv_Endpoint v) (nv_Driver v) svc (hash s key)
       else hash s key) ∧
    (∀ key, set_ s' key =
       if decide (Dashboards = key) then {[dash]} ∪ set_ s key
       else if decide (Services dash = key) then {[svc]} ∪ set_ s key else set_ s key).
Proof.
  intros Hd Hf.
  assert (StatusHour dash svc h ≠ DetailHour dash svc h ∧ StatusHour dash svc h ≠ Meta_key dash svc ∧
    DetailHour dash svc h ≠ Meta_key dash svc ∧ Dashboards ≠ Services dash) as (H1 & H2 & H3 & H4).
  { split_and!; intros E.
    - assert (PStatus dash svc h = PDetail dash svc h) by by apply key_of_inj. done.
    - assert (PStatus dash svc h = PMeta dash svc) by by apply key_of_inj. done.
    - assert (PDetail dash svc h = PMeta dash svc) by by apply key_of_inj. done.
    - assert (PDashboards = PServices dash) by by apply key_of_inj. done. }
  unfold cmds_for, dashboard_cmds. cbn [exec_all].
  destruct (exec_hset s (StatusHour dash svc h) ts sv Hf) as [a1 E1].
  change ("emo:" +:+ dash +:+ ":" +:+ svc +:+ ":s:" +:+ FormatInt h) with (StatusHour dash svc h).
  change ("emo:" +:+ dash +:+ ":" +:+ svc +:+ ":d:" +:+ FormatInt h) with (DetailHour dash svc h).
  change ("emo:" +:+ dash +:+ ":svcs") with (Services dash).
  change ("emo:" +:+ dash +:+ ":" +:+ svc +:+ ":meta") with (Meta_key dash svc).
  change "emo:dashboards" with Dashboards.
  rewrite E1. cbn [mbind option_bind]. clear E1. set (s1 := hset _ _ _ _).
  destruct (exec_hexpire s1 (StatusHour dash svc h) retention ts) as [a2 E2]; [done..| |].
  { subst s1. rewrite hash_hset, decide_True, lookup_insert_eq by done. done. }
  rewrite E2. cbn [mbind option_bind]. clear E2. set (s2 := set_field_ttl _ _ _ _).
  destruct (exec_hset s2 (DetailHour dash svc h) ts dv Hf) as [a3 E3].
  rewrite E3. cbn [mbind option_bind]. clear E3. set (s3 := hset _ _ _ _).
  destruct (exec_hexpire s3 (DetailHour dash svc h) retention ts) as [a4 E4]; [done..| |].
  { subst s3. rewrite hash_hset, decide_True, lookup_insert_eq by done. done. }
  rewrite E4. cbn [mbind option_bind]. clear E4. set (s4 := set_field_ttl _ _ _ _).
  destruct (exec_sadd s4 Dashboards dash Hf) as [a5 E5].
  rewrite E5. cbn [mbind option_bind]. clear E5. set (s5 := sadd _ _ _).
  destruct (exec_sadd s5 (Services dash) svc Hf) as [a6 E6].
  rewrite E6. cbn [mbind option_bind]. clear E6. set (s6 := sadd _ _ _).
  destruct (exec_meta s6 (Meta_key dash svc) (nv_Endpoint v) (nv_Driver v) svc Hf)
    as (a7 & s7 & E7 & Hf7 & Hh & Hs).
  rewrite E7. cbn [mbind option_bind]. clear E7. eexists _, s7. split; [reflexivity|]. split; [done|]. split.
  - intros key. rewrite Hh.
    assert (hash s6 key = if decide (DetailHour dash svc h = key) then <[ts := dv]> (hash s1 key) else hash s1 key) as ->.
    { change (hash s6 key) with (hash s3 key). subst s3. by rewrite hash_hset. }
    subst s1. rewrite hash_hset. change (hash (log_command s _) key) with (hash s key).
    repeat case_decide; congruence.
  - intros key. rewrite Hs. subst s6. rewrite set_sadd.
    change (set_ (log_command s5 _) key) with (set_ s5 key). subst s5. rewrite set_sadd.
    change (set_ (log_command s4 _) key) with (set_ s key). repeat case_decide; congruence.
Qed.
Definition when {A} (b : Prop) `{!Decision b} (f : A → A) (x : A) : A := if decide b then f x else x.

(** What the notifier's commands leave of a dashboard's data. *)
Definition dashboard_data (dashes : list string) (s s' : Server) (dash : string) : Prop :=
  hash s' (StatusHour dash svc h) = when (dash ∈ dashes) <[ts := sv]> (hash s (StatusHour dash svc h)) ∧
  hash s' (DetailHour dash svc h) = when (dash ∈ dashes) <[ts := dv]> (hash s (DetailHour dash svc h)) ∧
  hash s' (Meta_key dash svc) =
    when (dash ∈ dashes) (meta_fields (nv_Endpoint v) (nv_Driver v) svc) (hash s (Meta_key dash svc)) ∧
  (svc ∈ set_ s' (Services dash) ↔ dash ∈ dashes ∨ svc ∈ set_ s (Services dash)) ∧
  (dash ∈ set_ s' Dashboards ↔ dash ∈ dashes ∨ dash ∈ set_ s Dashboards).

Lemma meta_fields_idemp e d n m : meta_fields e d n (meta_fields e d n m) = meta_fields e d n m.
Proof.
  unfold meta_fields. apply map_eq. intros k.
  destruct (decide (k = "name")) as [->|]; [by rewrite !lookup_insert_eq|].
  rewrite !(lookup_insert_ne _ "name") by done.
  destruct (decide (k = "driver")) as [->|]; [by rewrite !lookup_insert_eq|].
  rewrite !(lookup_insert_ne _ "driver") by done.
  destruct (decide (k = "endpoint")) as [->|]; [by rewrite !lookup_insert_eq|].
  rewrite !(lookup_insert_ne _ "endpoint") by done.
  rewrite (lookup_insert_ne _ "name"), (lookup_insert_ne _ "driver") by done.
  by rewrite (lookup_insert_ne _ "endpoint").
Qed.

Lemma when_compose {A} (d d' : string) (l : list string) (f : A → A) (x : A) :
  (∀ x, f (f x) = f x) →
  when (d' ∈ l) f (if decide (d = d') then f x else x) = when (d' ∈ d :: l) f x.
Proof.
  intros Hf. unfold when. destruct (decide (d' ∈ d :: l)) as [Hin|Hin]; rewrite elem_of_cons in Hin;
    repeat case_decide; subst; naive_solver.
Qed.

(** One dashboard's commands, seen from any dashboard. *)
Lemma dashboard_effect_on s dash dash' :
  has_byte ":" dash = false → has_byte ":" dash' = false → failures s = [] →
  ∃ l s', exec_all s (cmds_for dash) = Some (l, s') ∧ failures s' = [] ∧
    hash s' (StatusHour dash' svc h) =
      (if decide (dash = dash') then <[ts := sv]> (hash s (StatusHour dash' svc h))
       else hash s (StatusHour dash' svc h)) ∧
    hash s' (DetailHour dash' svc h) =
      (if decide (dash = dash') then <[ts := dv]> (hash s (DetailHour dash' svc h))
       else hash s (DetailHour dash' svc h)) ∧
    hash s' (Meta_key dash' svc) =
      (if decide (dash = dash')
       then meta_fields (nv_Endpoint v) (nv_Driver v) svc (hash s (Meta_key dash' svc))
       else hash s (Meta_key dash' svc)) ∧
    (svc ∈ set_ s' (Services dash') ↔ dash = dash' ∨ svc ∈ set_ s (Services dash')) ∧
    (dash' ∈ set_ s' Dashboards ↔ dash = dash' ∨ dash' ∈ set_ s Dashboards).
Proof.
  intros Hd Hd' Hf. destruct (dashboard_effect s dash Hd Hf) as (l & s' & E & Hf' & Hh & Hs).
  exists l, s'. split; [done|]. split; [done|].
  assert (∀ p q, plain p → plain q → p ≠ q → key_of p ≠ key_of q) as Hne.
  { intros p q Hp Hq Hpq Ek. by apply Hpq, key_of_inj. }
  assert (∀ d, has_byte ":" d = false → plain (PStatus d svc h)) as HpS by done.
  assert (∀ d, has_byte ":" d = false → plain (PDetail d svc h)) as HpD by done.
  assert (∀ d, has_byte ":" d = false → plain (PMeta d svc)) as HpM by done.
  rewrite !Hh, !Hs.
  rewrite (decide_False (P := DetailHour dash svc h = StatusHour dash' svc h))
    by (by apply (Hne (PDetail dash svc h) (PStatus dash' svc h)); auto).
  rewrite (decide_False (P := Meta_key dash svc = StatusHour dash' svc h))
    by (by apply (Hne (PMeta dash svc) (PStatus dash' svc h)); auto).
  rewrite (decide_False (P := StatusHour dash svc h = DetailHour dash' svc h))
    by (by apply (Hne (PStatus dash svc h) (PDetail dash' svc h)); auto).
  rewrite (decide_False (P := Meta_key dash svc = DetailHour dash' svc h))
    by (by apply (Hne (PMeta dash svc) (PDetail dash' svc h)); auto).
  rewrite (decide_False (P := StatusHour dash svc h = Meta_key dash' svc))
    by (by apply (Hne (PStatus dash svc h) (PMeta dash' svc)); auto).
  rewrite (decide_False (P := DetailHour dash svc h = Meta_key dash' svc))
    by (by apply (Hne (PDetail dash svc h) (PMeta dash' svc)); auto).
  rewrite (decide_False (P := Dashboards = Services dash'))
    by (by apply (Hne PDashboards (PServices dash')); auto).
  rewrite (decide_True (P := Dashboards = Dashboards)) by done.
  destruct (decide (dash = dash')) as [<-|Hdd].
  - rewrite !decide_True by done. split_and!; [done..|set_solver|set_solver].
  - rewrite (decide_False (P := StatusHour dash svc h = _))
      by (apply (Hne (PStatus dash svc h) (PStatus dash' svc h)); [by auto..|congruence]).
    rewrite (decide_False (P := DetailHour dash svc h = _))
      by (apply (Hne (PDetail dash svc h) (PDetail dash' svc h)); [by auto..|congruence]).
    rewrite (decide_False (P := Meta_key dash svc = _))
      by (apply (Hne (PMeta dash svc) (PMeta dash' svc)); [by auto..|congruence]).
    rewrite (decide_False (P := Services dash = _))
      by (apply (Hne (PServices dash) (PServices dash')); [by auto..|congruence]).
    split_and!; [done..|naive_solver|set_solver].
Qed.

Lemma dashboards_effect dashes s :
  Forall (λ d, has_byte ":" d = false) dashes → failures s = [] →
  ∃ l s', exec_all s (concat (cmds_for <$> dashes)) = Some (l, s') ∧ failures s' = [] ∧
    (∀ dash', has_byte ":" dash' = false → dashboard_data dashes s s' dash').
Proof.
  intros Hd. revert s. induction Hd as [|dash dashes Hdash Hd IH]; intros s Hf.
  { exists [], s. split_and!; [done|done|]. intros dash' _. unfold dashboard_data, when.
    rewrite !decide_False by apply not_elem_of_nil. set_solver. }
  rewrite fmap_cons. cbn [concat]. rewrite exec_all_app.
  destruct (dashboard_effect_on s dash dash Hdash Hdash Hf) as (l1 & s1 & E1 & Hf1 & _).
  rewrite E1. cbn [mbind option_bind].
  destruct (IH s1 Hf1) as (l2 & s2 & E2 & Hf2 & Hdata). rewrite E2. cbn [mbind option_bind].
  eexists _, s2. split; [reflexivity|]. split; [done|]. intros dash' Hd'.
  destruct (dashboard_effect_on s dash dash' Hdash Hd' Hf) as (l1' & s1' & E1' & _ & Hh & Hh' & Hm & Hs & Hs').
  rewrite E1 in E1'. simplify_eq.
  destruct (Hdata dash' Hd') as (R1 & R2 & R3 & R4 & R5).
  unfold dashboard_data. rewrite R1, R2, R3, R4, R5, Hh, Hh', Hm, Hs, Hs'.
  rewrite !when_compose by (intros; apply meta_fields_idemp || apply insert_insert_eq).
  split_and!; [done..| |]; rewrite elem_of_cons; naive_solver.
Qed.

(** What the commands leave alone: other hashes, other sets. *)
Definition alert_hashes (dashes : list string) : list string :=
  concat ((λ dash, [StatusHour dash svc h; DetailHour dash svc h; Meta_key dash svc]) <$> dashes).

Definition alert_sets (dashes : list string) : list string := Dashboards :: (Services <$> dashes).

Definition frame (dashes : list string) (s s' : Server) : Prop :=
  failures s' = [] ∧
  (∀ key, key ∉ alert_hashes dashes → hash s' key = hash s key) ∧
  (∀ key, key ∉ alert_sets dashes → set_ s' key = set_ s key).

Lemma dashboards_frame dashes s l s' :
  Forall (λ d, has_byte ":" d = false) dashes → failures s = [] →
  exec_all s (concat (cmds_for <$> dashes)) = Some (l, s') → frame dashes s s'.
Proof.
  intros Hd. revert s l. induction Hd as [|dash dashes Hdash Hd IH]; intros s l Hf; [by intros [= _ <-]|].
  rewrite fmap_cons. cbn [concat]. rewrite exec_all_app.
  destruct (dashboard_effect s dash Hdash Hf) as (l1 & s1 & -> & Hf1 & Hh & Hs). cbn [mbind option_bind].
  destruct (exec_all s1 _) as [[l2 s2]|] eqn:E2; [|done]. intros [= _ <-].
  destruct (IH s1 l2 Hf1 E2) as (Hf2 & Hh2 & Hs2). split; [done|]. split; intros key Hkey.
  - unfold alert_hashes in Hkey. rewrite fmap_cons in Hkey. cbn [concat app] in Hkey.
    rewrite !not_elem_of_cons in Hkey. destruct Hkey as (? & ? & ? & Hkey).
    rewrite Hh2 by done. by rewrite Hh, !decide_False.
  - unfold alert_sets in Hkey. rewrite fmap_cons, !not_elem_of_cons in Hkey. destruct Hkey as (? & ? & Hkey).
    rewrite Hs2 by (unfold alert_sets; by rewrite not_elem_of_cons). by rewrite Hs, !decide_False.
Qed.
End dashboard.

(** ** What the notifier writes *)

Definition written (t : list net_action) : string :=
  concat_s (omap (λ a, match a with NWrite b => Some b | _ => None end) t).

Lemma written_app t1 t2 : written (t1 ++ t2) = written t1 +:+ written t2.
Proof. unfold written. by rewrite omap_app, concat_s_app. Qed.

(** What the clock showed the notifier, each time it was read. *)
Definition clock_reads (t : list net_action) : list time :=
  omap (λ a, match a with NNow now => Some now | _ => None end) t.

Lemma clock_reads_app t1 t2 : clock_reads (t1 ++ t2) = clock_reads t1 ++ clock_reads t2.
Proof. apply omap_app. Qed.

(** The commands of the handshake. *)
Definition shake (cmd : list string) : Prop := ∃ name args, cmd = name :: args ∧ name ∈ ["AUTH"; "SELECT"].

Lemma exec_shake s cmds :
  Forall shake cmds → ∃ l, exec_all s cmds = Some (l, s).
Proof.
  induction 1 as [|cmd cmds (name & args & -> & Hn) _ [l IH]]; [by exists []|]. exists (RSimple "OK" :: l).
  cbn [exec_all].
  assert (exec s (name :: args) = Some (RSimple "OK", s)) as ->.
  { apply elem_of_cons in Hn as [->|Hn]; [done|]. apply elem_of_cons in Hn as [->|Hn]; [done|].
    by apply elem_of_nil in Hn. }
  cbn [mbind option_bind]. by rewrite IH.
Qed.

Section writes.
Context {W : Type} `{!NetWorld W} (Quote : string → string).

Lemma spec_conn_write bytes : spec (W:=W) (conn_write bytes) (λ _ t, t = [NWrite bytes]).
Proof. intros w. unfold conn_write. by destruct (nw_Write bytes w). Qed.

Lemma spec_read_reply : spec (W:=W) (read_reply Quote) (λ _ t, t = []).
Proof. intros w. unfold read_reply. by destruct (readReply _ _ _). Qed.

Lemma spec_do_cmd cmd : spec (W:=W) (do_cmd Quote cmd) (λ _ t, written t = encode_all [cmd]).
Proof.
  unfold do_cmd. eapply spec_bind; [apply spec_conn_write|]. intros [e|] t ->.
  - by apply spec_ret.
  - eapply spec_bind; [apply spec_read_reply|]. intros r t' ->. by apply spec_ret.
Qed.

Lemma spec_handshake prefix cmd :
  spec (W:=W) (handshake Quote prefix cmd) (λ r t, r = Ok () → written t = encode_all [cmd]).
Proof.
  unfold handshake. eapply spec_bind; [apply spec_do_cmd|]. intros [[]|[e|]] t Ht; cbv beta in Ht.
  - apply spec_ret. intros _. by rewrite app_nil_r.
  - eapply spec_bind; [apply spec_log|]. intros. by apply spec_ret.
  - by apply spec_ret.
Qed.

Lemma spec_Dial endpoint tls username password db :
  spec (W:=W) (Dial Quote endpoint tls username password db)
    (λ r t, r = Ok () → ∃ hs, Forall shake hs ∧ written t = encode_all hs).
Proof.
  unfold Dial. eapply spec_bind with (Q := λ _ t, written t = "").
  { intros w. by destruct (nw_Dial tls (dial_addr endpoint) w). }
  intros [e|] t Ht; cbv beta in Ht; [by apply spec_ret|].
  eapply spec_bind_silent with (R := λ r t', r = Ok () → ∃ hs, Forall shake hs ∧ written (t ++ t') = encode_all hs).
  { apply spec_lift. }
  intros [e|]; [eapply spec_bind; [apply spec_log|]; intros; by apply spec_ret|].
  eapply spec_bind with (Q := λ r t', r = Ok () → ∃ hs, Forall shake hs ∧ written t' = encode_all hs).
  { case_decide.
    - apply spec_ret. intros _. exists []. by split.
    - eapply spec_mono; [apply spec_handshake|]. intros r t' Hr E. exists [auth_cmd username password].
      split; [|by apply Hr]. constructor; [|constructor].
      unfold auth_cmd. case_decide; eexists _, _; (split; [done|left]). }
  intros [[]|f] t1 H1; cbv beta in H1; [|by apply spec_ret].
  destruct (H1 eq_refl) as (hs & Hhs & Hw). destruct (0 <? db).
  - eapply spec_mono; [apply spec_handshake|]. intros r t2 Hr E. exists (hs ++ [["SELECT"; FormatInt db]]).
    split.
    + apply Forall_app. split; [done|]. repeat constructor. eexists _, _. split; [done|]. right. left.
    + rewrite !written_app, Ht, Hw, encode_all_app, (Hr E). done.
  - apply spec_ret. intros _. exists hs. by rewrite app_nil_r, written_app, Ht, Hw.
Qed.

Lemma spec_Pipeline cmds :
  spec (W:=W) (Pipeline Quote cmds) (λ r t, r = Ok () → written t = encode_all cmds).
Proof.
  unfold Pipeline. eapply spec_bind with (Q := λ err t, err = None → written t = encode_all cmds).
  { induction cmds as [|cmd cmds IH]; cbn [pipeline_write]; [by apply spec_ret|].
    eapply spec_bind; [apply spec_conn_write|]. intros [e|] t ->; [by apply spec_ret|].
    eapply spec_mono; [exact IH|]. intros err t Ht E. rewrite written_app, (Ht E).
    change (written [NWrite (encodeCommand cmd)]) with (encodeCommand cmd +:+ "").
    by rewrite sapp_nil_r. }
  intros [e|] t Ht; cbv beta in Ht; [by apply spec_ret|].
  assert (spec (W:=W) (pipeline_read Quote cmds) (λ _ t, t = [])) as Hr.
  { clear Ht. induction cmds as [|cmd cmds IH]; cbn [pipeline_read]; [by apply spec_ret|].
    eapply spec_bind_silent; [apply spec_read_reply|]. intros [a|f]; [exact IH|by apply spec_ret]. }
  eapply spec_mono; [exact Hr|]. intros r t' -> _. rewrite app_nil_r. by apply Ht.
Qed.

(** The connection's calls do not read the clock. *)
Notation clockless := (λ _ t, clock_reads t = []).

Lemma clockless_ret {A} (a : A) : spec (W:=W) (mret a) clockless.
Proof. by apply spec_ret. Qed.

Lemma clockless_bind {A B} (m : M net_action W A) (f : A → M net_action W B) :
  spec m clockless → (∀ a, spec (f a) clockless) → spec (m ≫= f) clockless.
Proof.
  intros Hm Hf. eapply spec_bind; [exact Hm|]. intros a t Ht. cbv beta in Ht.
  eapply spec_mono; [apply Hf|]. intros b t' Ht'. by rewrite clock_reads_app, Ht, Ht'.
Qed.

Lemma clockless_write bytes : spec (W:=W) (conn_write bytes) clockless.
Proof. eapply spec_mono; [apply spec_conn_write|]. by intros ? ? ->. Qed.

Lemma clockless_reply : spec (W:=W) (read_reply Quote) clockless.
Proof. eapply spec_mono; [apply spec_read_reply|]. by intros ? ? ->. Qed.

Lemma clockless_lift {A} (f : W → A * W) : spec (lift f) clockless.
Proof. eapply spec_mono; [apply spec_lift|]. by intros ? ? ->. Qed.

Lemma clockless_close : spec (W:=W) conn_close clockless.
Proof. by intros w. Qed.

Create HintDb clockless.
#[local] Hint Resolve clockless_ret clockless_write clockless_reply clockless_lift clockless_close : clockless.

Ltac clockless :=
  repeat first [solve [auto with clockless]|apply clockless_bind; [solve [auto with clockless]|intros ?]].

Lemma clockless_do_cmd cmd : spec (W:=W) (do_cmd Quote cmd) clockless.
Proof. unfold do_cmd. clockless. case_match; clockless. Qed.
#[local] Hint Resolve clockless_do_cmd : clockless.

Lemma clockless_handshake prefix cmd : spec (W:=W) (handshake Quote prefix cmd) clockless.
Proof. unfold handshake. clockless. repeat case_match; clockless. Qed.
#[local] Hint Resolve clockless_handshake : clockless.

Lemma clockless_Dial endpoint tls username password db :
  spec (W:=W) (Dial Quote endpoint tls username password db) clockless.
Proof.
  unfold Dial. apply clockless_bind; [intros w; by destruct (nw_Dial tls (dial_addr endpoint) w)|].
  intros [e|]; clockless. case_match; clockless.
  apply clockless_bind; [case_decide; clockless|]. intros []; clockless. case_match; clockless.
Qed.

Lemma clockless_Pipeline cmds : spec (W:=W) (Pipeline Quote cmds) clockless.
Proof.
  unfold Pipeline. apply clockless_bind.
  { induction cmds as [|cmd cmds IH]; cbn [pipeline_write]; clockless. case_match; clockless. }
  intros [e|]; clockless. induction cmds as [|cmd cmds IH]; cbn [pipeline_read]; clockless.
  case_match; clockless.
Qed.

Lemma clockless_Close : spec (W:=W) (Close) clockless.
Proof. unfold Close. clockless. Qed.

(** An alert that was sent read the clock once and wrote a handshake, the
    commands of the check at that time, and QUIT. *)
Lemma spec_SendAlert (v : ValkeyNotifier) (status : string) (values : NoticeValues) (P : time → Prop) :
  status = "success" ∨ status = "failure" → (∀ w : W, P (nw_Now w).1) →
  spec (W:=W) (SendAlertValkey Quote v status values) (λ r t, r = Ok () → ∃ hs now, P now ∧
    clock_reads t = [now] ∧ Forall shake hs ∧
    written t = encode_all (hs ++ alert_cmds v status values now) +:+ "QUIT" +:+ CRLF).
Proof.
  intros Hst HP. unfold SendAlertValkey. rewrite decide_False by naive_solver.
  eapply spec_bind_silent.
  { unfold credentials. case_decide; [by apply spec_ret|].
    eapply spec_bind_silent; [apply spec_lift|]. intros. by apply spec_ret. }
  intros [[username password]|e]; [|by apply spec_ret].
  eapply spec_bind; [apply spec_and; [apply spec_Dial|apply clockless_Dial]|].
  intros [[]|f] t0 [H0 C0]; cbv beta in H0; [|by apply spec_ret].
  destruct (H0 eq_refl) as (hs & Hhs & Hw0).
  eapply spec_bind with (Q := λ now t, t = [NNow now] ∧ P now).
  { intros w. unfold read_clock. specialize (HP w). by destruct (nw_Now w). }
  intros now t [-> HPn].
  eapply spec_bind; [apply spec_and; [apply spec_Pipeline|apply clockless_Pipeline]|].
  intros r t1 [H1 C1]. cbv beta in H1.
  eapply spec_bind with (Q := λ _ t, written t = "QUIT" +:+ CRLF ∧ clock_reads t = []).
  { apply spec_and; [|apply clockless_Close].
    unfold Close. eapply spec_bind; [apply spec_conn_write|]. intros ? t ->.
    eapply spec_mono; [apply spec_log|]. intros ? ? ->. done. }
  intros ? t2 [H2 C2]. apply spec_ret. intros ->. exists hs, now.
  split; [done|]. split; [by rewrite app_nil_r, !clock_reads_app, C0, C1, C2|]. split; [done|].
  rewrite app_nil_r, !written_app, Hw0, (H1 eq_refl), H2, encode_all_app.
  by rewrite <-sapp_assoc.
Qed.
End writes.

(** ** What the dashboard reads *)

Lemma check_dashboards_plain Quote dashes :
  check_dashboards Quote dashes = None → Forall (λ d, has_byte ":" d = false) dashes.
Proof.
  induction dashes as [|d dashes IH]; cbn [check_dashboards]; [constructor|].
  case_decide as Hd; [done|]. intros H. constructor; [|by apply IH].
  destruct (has_byte ":" d) eqn:E; [|done]. destruct Hd. by right.
Qed.

Lemma new_valkey_plain Quote cfg v :
  NewValkey Quote (Some cfg) = Ok v →
  vn_cfg v = cfg ∧ Forall (λ d, has_byte ":" d = false) (valkey_Dashboards cfg) ∧ is_int64 (retentionSeconds v).
Proof.
  unfold NewValkey. case_match; [done|]. case_match; [done|].
  destruct (check_dashboards Quote _) eqn:E; [done|]. case_match; [done|]. case_match; [done|].
  intros [= <-]. split; [done|]. split; [by eapply check_dashboards_plain|apply wrap64_range].
Qed.

Lemma FormatInt_no_bar z : has_byte "|" (FormatInt z) = false.
Proof. by apply FormatInt_no_byte. Qed.

(** The message the dashboard shows for a check. *)
Definition message_of (status : string) (values : NoticeValues) : string :=
  if decide (status = "failure" ∧ nv_Message values ≠ "") then sanitizeMessage (nv_Message values) else "".

Lemma parseDetail_of status values :
  is_int64 (nv_ResponseTimeMs values) →
  parseDetail (detail_of status values) = (nv_ResponseTimeMs values, message_of status values).
Proof.
  intros Hi. unfold parseDetail, splitDetail, detail_of, message_of. case_decide.
  - change ("|" +:+ sanitizeMessage (nv_Message values)) with (String "|" (sanitizeMessage (nv_Message values))).
    rewrite cut_app by apply FormatInt_no_bar. by rewrite ParseInt_FormatInt.
  - rewrite sapp_nil_r, (proj2 (cut_none _ _)) by apply FormatInt_no_bar. by rewrite ParseInt_FormatInt.
Qed.

(** A clock between the epoch and the year 2262. *)
Definition plausible (now : time) : Prop := 0 ≤ now < 2 ^ 63.

Lemma plausible_int64 now : plausible now → is_int64 (Unix now) ∧ is_int64 (Unix (Truncate now Hour)).
Proof.
  unfold plausible, is_int64. intros H.
  assert (0 ≤ Truncate now Hour ≤ now) as Ht.
  { pose proof (Truncate_le now Hour ltac:(done)). split; [|lia]. rewrite Truncate_hour.
    apply Z.mul_nonneg_nonneg; [apply Z.div_pos; [lia|done]|done]. }
  unfold Unix, Second. split; split; try (apply Z.div_lt_upper_bound; lia);
    apply Z.le_trans with 0; try lia; apply Z.div_pos; lia.
Qed.

Lemma alert_effect {W} `{!NetWorld W} (Quote : string → string)
    (cfg : ValkeyConfig) (v : ValkeyNotifier) (status : string) (values : NoticeValues) (w : W)
    (s : Server) :
  NewValkey Quote (Some cfg) = Ok v → 0 < retentionSeconds v →
  status = "success" ∨ status = "failure" →
  has_byte ":" (service_of v values) = false → is_int64 (nv_ResponseTimeMs values) →
  (∀ w : W, plausible (nw_Now w).1) → failures s = [] →
  let '(r, _, t) := SendAlertValkey Quote v status values w in
  r = Ok () → 16 * slen (written t) ≤ maxAlloc →
  ∃ now fuel out s',
    clock_reads t = [now] ∧ plausible now ∧ serve Quote fuel (written t) s = Some (out, s') ∧
    let svc := service_of v values in
    let h := Unix (Truncate now Hour) in
    let ts := FormatInt (Unix now) in
    let sv := if decide (status = "success") then "s" else "f" in
    frame svc h (valkey_Dashboards cfg) s s' ∧
    ∀ dash, has_byte ":" dash = false →
      dashboard_data svc ts sv (detail_of status values) h values (valkey_Dashboards cfg) s s' dash ∧
      (dash ∈ valkey_Dashboards cfg →
       sample_of (hash s' (DetailHour dash svc h)) (ts, sv) =
         Some {| s_ts := Unix now; s_fail := bool_decide (status = "failure");
                 s_ms := nv_ResponseTimeMs values; s_msg := message_of status values; s_hasDetail := true |}).
Proof.
  intros Hnew Hret Hst Hsvc Hms Hclock Hf.
  pose proof (spec_SendAlert Quote v status values plausible Hst Hclock w) as Hspec.
  destruct (SendAlertValkey Quote v status values w) as [[r w'] t]. cbn [fst snd] in Hspec.
  intros Hr Hsize. destruct (Hspec Hr) as (hs & now & Hnow & Hread & Hhs & Hw). clear Hspec.
  destruct (new_valkey_plain Quote cfg v Hnew) as (Hcfg & Hdash & Hint).
  rewrite Hw in *. rewrite slen_app in Hsize. pose proof (slen_nonneg ("QUIT" +:+ CRLF)).
  assert (Forall fits (hs ++ alert_cmds v status values now)) as Hfits by (apply encoded_fits; lia).
  destruct (plausible_int64 now Hnow) as [Hi Hih].
  destruct (exec_shake s hs Hhs) as [l1 E1].
  unfold alert_cmds in *. rewrite Hcfg in *.
  set (ts := FormatInt (Unix now)) in *. set (h := Unix (Truncate now Hour)) in *.
  set (sv := if decide (status = "success") then "s" else "f") in *.
  destruct (dashboards_effect (retentionSeconds v) (service_of v values) ts sv (detail_of status values) h
    values Hint Hret Hsvc Hih (valkey_Dashboards cfg) s Hdash Hf) as (l2 & s' & E2 & _ & Hdata).
  eexists now, (S (length _)), _, s'. split; [done|]. split; [done|]. split.
  { rewrite (serve_encoded Quote _ ("QUIT" +:+ CRLF) (ENew ("unexpected " +:+ Quote "QUIT")) s Hfits eq_refl).
    rewrite exec_all_app, E1. cbn [mbind option_bind]. unfold cmds_for in E2. rewrite E2. reflexivity. }
  cbv zeta. fold h ts sv. split; [by eapply (dashboards_frame (retentionSeconds v) (service_of v values) ts sv (detail_of status values) h values)|]. intros dash Hd. split; [by apply Hdata|]. intros Hin.
  destruct (Hdata dash Hd) as (_ & Hdetail & _). unfold sample_of.
  rewrite Hdetail. unfold when. rewrite decide_True by done. unfold ts at 1. rewrite ParseInt_FormatInt by done. rewrite lookup_insert_eq.
  rewrite parseDetail_of by done. do 2 f_equal. subst sv. apply bool_decide_ext.
  destruct Hst as [->| ->]; by case_decide.
Qed.

(** C5: a check reaches the dashboard: when the notifier reports an alert as
    sent, it has read the clock exactly once, and the bytes it wrote, run by
    the server, record under every configured dashboard the check's status and
    detail at the time the clock showed and in that time's hour, which is the
    one the dashboard reads, its name among the dashboards and services and its
    metadata, change no other field there and no other hash or set of the
    server; and from these two fields the dashboard reads back the time, the outcome, the response time and the
    message of the check. *)
Theorem alert_reaches_dashboard {W} `{!NetWorld W} (Quote : string → string)
    (cfg : ValkeyConfig) (v : ValkeyNotifier) (status : string) (values : NoticeValues) (w : W)
    (s : Server) :
  NewValkey Quote (Some cfg) = Ok v → 0 < retentionSeconds v →
  status = "success" ∨ status = "failure" →
  has_byte ":" (service_of v values) = false → is_int64 (nv_ResponseTimeMs values) →
  (∀ w : W, plausible (nw_Now w).1) → failures s = [] →
  let '(r, _, t) := SendAlertValkey Quote v status values w in
  r = Ok () → 16 * slen (written t) ≤ maxAlloc →
  ∃ now fuel out s',
    clock_reads t = [now] ∧ plausible now ∧ serve Quote fuel (written t) s = Some (out, s') ∧
    let svc := service_of v values in
    let h := Unix (Truncate now Hour) in
    let ts := FormatInt (Unix now) in
    let sv := if decide (status = "success") then "s" else "f" in
    frame svc h (valkey_Dashboards cfg) s s' ∧
    ∀ dash, has_byte ":" dash = false →
      dashboard_data svc ts sv (detail_of status values) h values (valkey_Dashboards cfg) s s' dash ∧
      (dash ∈ valkey_Dashboards cfg →
       sample_of (hash s' (DetailHour dash svc h)) (ts, sv) =
         Some {| s_ts := Unix now; s_fail := bool_decide (status = "failure");
                 s_ms := nv_ResponseTimeMs values; s_msg := message_of status values; s_hasDetail := true |}).
Proof. apply alert_effect. Qed.

(** A connection that accepts every write and still delivers the given
    bytes. *)
#[export] Instance NetWorld_sim : NetWorld string := {|
  nw_Secret := λ _ w, (Ok ∅, w); nw_Dial := λ _ _ w, (None, w); nw_SetDeadline := λ w, (None, w);
  nw_Write := λ _ w, (None, w); nw_Unread := λ w, w; nw_Consume := λ rest _, rest;
  nw_Now := λ w, (of_Unix 1700000123, w) |}.

Definition sim_config : ValkeyConfig :=
  {| valkey_Enabled := true; valkey_Endpoint := "valkey:6379"; valkey_Tls := false;
     valkey_SecretRef := {| secretName := "" |}; valkey_Dashboards := ["prod"; "team"];
     valkey_Name := ""; valkey_RetentionDays := None; valkey_DB := 2 |}.

Definition sim_notifier : ValkeyNotifier := {| vn_cfg := sim_config; retentionSeconds := 7 * 86400 |}.

Definition sim_replies : string := concat_s (replicate 15 ("+OK" +:+ CRLF)).

Lemma alert_reaches_dashboard_witness :
  ∃ s', "prod" ∈ set_ s' Dashboards ∧
    hash s' (StatusHour "prod" "api" 1699999200) = {["1700000123" := "f"]}.
Proof.
  pose proof (alert_reaches_dashboard id sim_config sim_notifier "failure" sim_notice sim_replies Start
    eq_refl ltac:(reflexivity) (or_intror eq_refl) eq_refl ltac:(split; reflexivity || discriminate)
    ltac:(intros; split; vm_compute; reflexivity || discriminate) eq_refl) as H.
  assert ((SendAlertValkey id sim_notifier "failure" sim_notice sim_replies).1.1 = Ok ()) as Hr
    by (vm_compute; reflexivity).
  assert (16 * slen (written (SendAlertValkey id sim_notifier "failure" sim_notice sim_replies).2) ≤ maxAlloc) as Hs
    by (vm_compute; discriminate).
  assert (clock_reads (SendAlertValkey id sim_notifier "failure" sim_notice sim_replies).2 = [of_Unix 1700000123]) as Hc
    by (vm_compute; reflexivity).
  destruct (SendAlertValkey id sim_notifier "failure" sim_notice sim_replies) as [[r w'] t].
  destruct (H Hr Hs) as (now & fuel & out & s' & Hread & _ & _ & _ & Hd). cbn [snd] in Hc.
  rewrite Hc in Hread. injection Hread as <-. exists s'.
  destruct (Hd "prod" eq_refl) as [(H1 & _ & _ & _ & H5) _]. split.
  - apply H5. left. by left.
  - etransitivity; [exact H1|]. unfold when. rewrite decide_True by by left. vm_compute. reflexivity.
Defined.
