(* ===== verification/Servers.v ===== *)
(** * Working servers

    The in-memory servers as the world of the dashboard's store.  A server
    keeps a log of its commands, which no command reads: two states are the
    same when they differ in their logs only, and every computation is
    reasoned about up to that equivalence.  On servers without failures each
    command of the interface has exactly one effect. *)

From S2P Require Import Prelude GoStd GoTime Errors Trace Ladder Rollups Valkey Store Resp ValkeyServer EndToEnd.

(** ** States up to the log *)

#[export] Instance Server_equiv : Equiv Server := λ s s',
  hashes s = hashes s' ∧ sets s = sets s' ∧ keyTTL s = keyTTL s' ∧ fieldTTL s = fieldTTL s' ∧ failures s = failures s'.

#[export] Instance Server_equivalence : Equivalence (≡@{Server}).
Proof.
  split; [done|intros s s' (?&?&?&?&?); by split_and!|].
  intros s s' s'' (?&?&?&?&?) (?&?&?&?&?); split_and!; congruence.
Qed.

Definition same_servers (w w' : Servers) : Prop := ∀ c, server_of w c ≡ server_of w' c.

Infix "≃" := same_servers (at level 70).

#[export] Instance same_servers_equivalence : Equivalence same_servers.
Proof.
  split; [by intros w c|by intros w w' H c|].
  intros w w' w'' H H' c. by rewrite (H c), (H' c).
Qed.

#[export] Instance server_of_proper : Proper (same_servers ==> (=) ==> (≡)) server_of.
Proof. intros w w' H c _ <-. apply H. Qed.

#[export] Instance hash_proper : Proper ((≡) ==> (=) ==> (=)) hash.
Proof. intros s s' (H & _) key _ <-. unfold hash. by rewrite H. Qed.

#[export] Instance set_proper : Proper ((≡) ==> (=) ==> (=)) set_.
Proof. intros s s' (_ & H & _) key _ <-. unfold set_. by rewrite H. Qed.

#[export] Instance failures_proper : Proper ((≡) ==> (=)) failures.
Proof. by intros s s' (_ & _ & _ & _ & H). Qed.

#[export] Instance hset_proper : Proper ((≡) ==> (=) ==> (=) ==> (=) ==> (≡)) hset.
Proof.
  intros s s' H key _ <- field _ <- value _ <-. pose proof H as (Hh & ? & ? & ? & ?).
  split_and!; try done. unfold hset. cbn [hashes with_hashes]. by rewrite (hash_proper _ _ H key key eq_refl), Hh.
Qed.

#[export] Instance set_field_ttl_proper : Proper ((≡) ==> (=) ==> (=) ==> (=) ==> (≡)) set_field_ttl.
Proof.
  intros s s' (? & ? & ? & Ht & ?) key _ <- field _ <- ttl _ <-. split_and!; try done.
  unfold set_field_ttl, field_ttls. cbn [fieldTTL with_fieldTTL]. by rewrite Ht.
Qed.

Definition forget_ttl (key : string) (s : Server) : Server := with_keyTTL s (delete key (keyTTL s)).

#[export] Instance forget_ttl_proper : Proper ((=) ==> (≡) ==> (≡)) forget_ttl.
Proof.
  intros key _ <- s s' (? & ? & Ht & ? & ?). split_and!; try done. unfold forget_ttl. cbn [keyTTL with_keyTTL]. by rewrite Ht.
Qed.

(** One server changes. *)
Definition change (c : Client) (f : Server → Server) (w : Servers) : Servers := <[cl_id c := f (server_of w c)]> w.

Lemma server_of_change c c' f w :
  server_of (change c f w) c' = if decide (cl_id c = cl_id c') then f (server_of w c') else server_of w c'.
Proof.
  unfold change, server_of. case_decide as E.
  - rewrite <-E. by rewrite lookup_insert_eq.
  - by rewrite lookup_insert_ne.
Qed.

Lemma change_equiv c f w w' : (∀ s s', s ≡ s' → f s ≡ f s') → w ≃ w' → change c f w ≃ change c f w'.
Proof. intros Hf H c'. rewrite !server_of_change. case_decide; [apply Hf|]; apply H. Qed.

Lemma change_log c w args : change c (λ s, log_command s args) w ≃ w.
Proof. intros c'. rewrite server_of_change. by case_decide. Qed.

(** Servers that no test made fail. *)
Definition healthy (w : Servers) : Prop := ∀ c, failures (server_of w c) = [].

#[export] Instance healthy_proper : Proper (same_servers ==> iff) healthy.
Proof. intros w w' H. unfold healthy. split; intros Hw c; [rewrite <-(H c)|rewrite (H c)]; apply Hw. Qed.

(** ** Runs of a computation, up to the logs *)

Definition does {A} (m : M command Servers A) (w : Servers) (a : A) (w' : Servers) : Prop :=
  ∃ w1, (m w).1 = (a, w1) ∧ w1 ≃ w'.

Lemma does_ret {A} (a : A) w : does (mret a) w a w.
Proof. by exists w. Qed.

Lemma does_bind {A B} (m : M command Servers A) (f : A → M command Servers B) w a w1 b w2 :
  does m w a w1 → (∀ w1', w1' ≃ w1 → does (f a) w1' b w2) → does (m ≫= f) w b w2.
Proof.
  intros (w1' & Hm & H1) Hf. destruct (Hf w1' H1) as (w2' & H2 & E). exists w2'. split; [|done].
  unfold mbind, M_bind. destruct (m w) as [[a' w0] t]. cbn [fst] in Hm. injection Hm as -> ->.
  destruct (f a w1') as [[b' w3] t']. exact H2.
Qed.

Lemma does_equiv {A} (m : M command Servers A) w a w' w'' : does m w a w' → w' ≃ w'' → does m w a w''.
Proof. intros (w1 & H & E) E'. exists w1. split; [done|]. by rewrite E. Qed.

(** ** The commands of the interface *)

Lemma failing_none s cmd args : failures s = [] → failing s cmd args = None.
Proof. intros Hf. unfold failing. destruct args as [|? [|? ?]]; [done..|]. by rewrite Hf. Qed.

Lemma sorted_keys_spec {A} (m : gmap string A) k : k ∈ sorted_keys m ↔ is_Some (m !! k).
Proof.
  unfold sorted_keys. rewrite merge_sort_Permutation, list_elem_of_fmap. split.
  - intros ([k' x] & -> & H%elem_of_map_to_list). by exists x.
  - intros [x H]. exists (k, x). split; [done|by apply elem_of_map_to_list].
Qed.

Lemma sorted_keys_NoDup {A} (m : gmap string A) : NoDup (sorted_keys m).
Proof. unfold sorted_keys. rewrite merge_sort_Permutation. apply NoDup_fst_map_to_list. Qed.

Lemma as_entries_bulks (l : list (string * string)) :
  as_entries ((λ p, (p.1, RBulk p.2)) <$> l) = Ok (list_to_map l).
Proof. induction l as [|[k x] l IH]; [done|]. rewrite fmap_cons. cbn [as_entries fst snd as_string mbind result_bind]. by rewrite IH. Qed.

Lemma as_strings_bulks l : as_strings (RBulk <$> l) = Ok l.
Proof. induction l as [|x l IH]; [done|]. rewrite fmap_cons. cbn [as_strings as_string mbind result_bind]. by rewrite IH. Qed.

Lemma AsStrMap_hash (h : gmap string string) :
  AsStrMap (RMap ((λ f, (f, RBulk (default "" (h !! f)))) <$> sorted_keys h)) = Ok h.
Proof.
  unfold AsStrMap.
  assert ((λ f, (f, RBulk (default "" (h !! f)))) <$> sorted_keys h =
    (λ p : string * string, (p.1, RBulk p.2)) <$> ((λ f, (f, default "" (h !! f))) <$> sorted_keys h)) as ->
    by by rewrite <-list_fmap_compose.
  rewrite as_entries_bulks. f_equal. apply map_eq. intros k.
  assert (((λ f, (f, default "" (h !! f))) <$> sorted_keys h).*1 = sorted_keys h) as Hfst.
  { rewrite <-list_fmap_compose. apply list_fmap_id. }
  destruct (h !! k) as [x|] eqn:E.
  - apply elem_of_list_to_map_1; [rewrite Hfst; apply sorted_keys_NoDup|].
    apply list_elem_of_fmap. exists k. rewrite E. split; [done|]. apply sorted_keys_spec. by rewrite E.
  - apply not_elem_of_list_to_map_1. rewrite Hfst, sorted_keys_spec, E. by intros [].
Qed.

Section commands.
Context (w : Servers) (Hw : healthy w) (c : Client).

Notation here := (server_of w c).

(** A command that is not the handshake's runs on the logged state. *)
Lemma exec_data args cmd rest :
  args = cmd :: rest → to_upper cmd = cmd → cmd ∉ ["HELLO"; "CLIENT"; "SELECT"; "AUTH"; "PING"; "CLUSTER"] →
  exec here args = data_command (log_command here args) cmd args.
Proof.
  intros -> Hu Hn. unfold exec. rewrite Hu. repeat rewrite decide_False by set_solver.
  rewrite failing_none; [done|]. apply Hw.
Qed.

Lemma does_hgetall key : does (hgetall c key) w (Ok (hash here key)) w.
Proof.
  unfold does, hgetall, vk_Hgetall, Valkey_servers, call.
  erewrite exec_data; [|reflexivity|reflexivity|set_solver].
  change (data_command (log_command here ["HGETALL"; key]) "HGETALL" ["HGETALL"; key]) with
    (Some (RMap ((λ f, (f, RBulk (default "" (hash here key !! f)))) <$> sorted_keys (hash here key)),
           log_command here ["HGETALL"; key])).
  cbv beta iota. rewrite AsStrMap_hash. eexists. split; [reflexivity|apply change_log].
Qed.

Lemma does_smembers key :
  does (smembers c key) w (Ok (merge_sort String.le (elements (set_ here key)))) w.
Proof.
  unfold does, smembers, vk_Smembers, Valkey_servers, call.
  erewrite exec_data; [|reflexivity|reflexivity|set_solver]. eexists. split; [reflexivity|apply change_log].
Qed.

Lemma does_hkeys key : does (hkeys c key) w (Ok (sorted_keys (hash here key))) w.
Proof.
  unfold does, hkeys, vk_Hkeys, Valkey_servers, call.
  erewrite exec_data; [|reflexivity|reflexivity|set_solver].
  change (data_command (log_command here ["HKEYS"; key]) "HKEYS" ["HKEYS"; key]) with
    (Some (RArray (RBulk <$> sorted_keys (hash here key)), log_command here ["HKEYS"; key])).
  cbv beta iota. unfold AsStrSlice. rewrite as_strings_bulks. eexists. split; [reflexivity|apply change_log].
Qed.

Lemma does_hget key field :
  does (hget c key field) w (match hash here key !! field with Some v => Ok v | None => Err VNil end) w.
Proof.
  unfold does, hget, vk_Hget, Valkey_servers, call.
  erewrite exec_data; [|reflexivity|reflexivity|set_solver].
  change (data_command (log_command here ["HGET"; key; field]) "HGET" ["HGET"; key; field]) with
    (Some (match hash here key !! field with Some v => RBulk v | None => RNull end, log_command here ["HGET"; key; field])).
  destruct (hash here key !! field); (eexists; split; [reflexivity|apply change_log]).
Qed.

(** A write changes one server; its log does not count. *)
Lemma changed_log (f g : Server → Server) args :
  (∀ s, g (log_command s args) ≡ f s) → (<[cl_id c := g (log_command here args)]> w : Servers) ≃ change c f w.
Proof.
  intros Hfg c'. rewrite server_of_change. unfold server_of at 1. case_decide as E.
  - rewrite <-E, lookup_insert_eq. cbn [default]. unfold server_of. rewrite <-E. apply Hfg.
  - by rewrite lookup_insert_ne.
Qed.

Lemma does_hset key field value :
  does (Valkey.hset c key field value) w None (change c (λ s, hset s key field value) w).
Proof.
  unfold does, Valkey.hset, vk_Hset, Valkey_servers, call, error_of.
  erewrite exec_data; [|reflexivity|reflexivity|set_solver]. eexists. split; [reflexivity|].
  by apply (changed_log _ (λ s, hset s key field value)).
Qed.

Lemma does_hexpire key secs field :
  is_int64 secs → 0 < secs → is_Some (hash here key !! field) →
  does (hexpire c key secs field) w None (change c (λ s, set_field_ttl s key field secs) w).
Proof.
  intros Hi Hs Hf. unfold does, hexpire, vk_Hexpire, Valkey_servers, call, error_of.
  rewrite (exec_hexpire_reply here key secs field (Hw c) Hi Hs Hf). eexists. split; [reflexivity|].
  by apply (changed_log _ (λ s, set_field_ttl s key field secs)).
Qed.

Lemma does_persist key : does (persist c key) w None (change c (forget_ttl key) w).
Proof.
  unfold does, persist, vk_Persist, Valkey_servers, call, error_of.
  erewrite exec_data; [|reflexivity|reflexivity|set_solver].
  change (data_command (log_command here ["PERSIST"; key]) "PERSIST" ["PERSIST"; key]) with
    (match keyTTL here !! key with
     | None => Some (RInt 0, log_command here ["PERSIST"; key])
     | Some _ => Some (RInt 1, forget_ttl key (log_command here ["PERSIST"; key]))
     end).
  destruct (keyTTL here !! key) eqn:E; (eexists; split; [reflexivity|]).
  - by apply (changed_log _ (forget_ttl key)).
  - etransitivity; [apply change_log|]. intros c'. rewrite server_of_change. case_decide as Ec; [|done].
    split_and!; try done. unfold forget_ttl. cbn [keyTTL with_keyTTL]. unfold server_of in *. rewrite <-Ec.
    symmetry. by apply delete_id.
Qed.
End commands.
