(* ===== verification/StoreServers.v ===== *)
(** * The store on working servers

    What the dashboard's store computes when every location answers: the
    rollup of an hour is that of the samples the locations hold, merged with
    the one stored, and exactly this is written to the primary and read back
    later. *)

From S2P Require Import Prelude GoStd GoTime Errors Trace Keys Ladder Float64 Rollups RollupProps Valkey Store.
From S2P Require Import Resp ValkeyServer EndToEnd Servers.

(** ** What the servers hold of an hour *)

(** The samples of one location, in order. *)
Definition location_samples (w : Servers) (c : Client) (d sv : string) (h : Z) : list lsample :=
  samples_of (map_to_list (hash (server_of w c) (StatusHour d sv h))) (hash (server_of w c) (DetailHour d sv h)).

Definition location_hour (w : Servers) (c : Client) (d sv : string) (h : Z) : LocationRollup :=
  if decide (hash (server_of w c) (StatusHour d sv h) = ∅) then zero_LocationRollup
  else rollup_of_samples (location_samples w c d sv h).

(** The locations with samples. *)
Definition fresh_hour (s : Store) (w : Servers) (d sv : string) (h : Z) : gmap string LocationRollup :=
  omap (λ c, let lr := location_hour w c d sv h in if 0 <? lr_Total lr then Some lr else None) (locations s).

#[export] Instance location_hour_proper : Proper (same_servers ==> (=) ==> (=) ==> (=) ==> (=) ==> (=)) location_hour.
Proof. intros w w' H c _ <- d _ <- sv _ <- h _ <-. unfold location_hour, location_samples. by rewrite !(hash_proper _ _ (H c) _ _ eq_refl). Qed.

#[export] Instance fresh_hour_proper s : Proper (same_servers ==> (=) ==> (=) ==> (=) ==> (=)) (fresh_hour s).
Proof.
  intros w w' H d _ <- sv _ <- h _ <-. apply map_eq. intros name. unfold fresh_hour. rewrite !lookup_omap.
  destruct (locations s !! name) as [c|]; [|done]. simpl. by rewrite (location_hour_proper _ _ H c c eq_refl _ _ eq_refl _ _ eq_refl _ _ eq_refl).
Qed.

(** What the primary holds of the hour. *)
Definition stored_hour `{!Codec AggregateRollup} (s : Store) (w : Servers) (d sv : string) (h : Z) : AggregateRollup :=
  match hash (server_of w (primary s)) (RollupAggregateHour d sv) !! FormatInt h with
  | Some text => default zero_AggregateRollup (unmarshal text)
  | None => zero_AggregateRollup
  end.

(** ** Computing an hour *)

Section hour.
Context `{CA : !Codec AggregateRollup, CD : !Codec DailyRollup}.
Variable s : Store.

Lemma does_ComputeLocationRollup w name c d sv hour :
  healthy w → locations s !! name = Some c →
  does (ComputeLocationRollup s name d sv hour) w (Ok (location_hour w c d sv (Unix hour))) w.
Proof.
  intros Hw Hc. unfold ComputeLocationRollup. rewrite Hc.
  eapply does_bind; [by apply does_hgetall|]. intros w1 H1.
  eapply does_bind; [apply does_hgetall; by rewrite H1|]. intros w2 H2.
  assert (w2 ≃ w) as E by (by rewrite H2).
  eapply does_equiv; [|exact E]. unfold location_hour, location_samples.
  rewrite (hash_proper _ _ (H1 c) (DetailHour d sv (Unix hour)) _ eq_refl). case_decide; apply does_ret.
Qed.

(** The loop over some of the locations. *)
Definition computed (w : Servers) (d sv : string) (h : Z) (per : gmap string LocationRollup) (name : string)
  : gmap string LocationRollup :=
  match fresh_hour s w d sv h !! name with Some lr => <[name := lr]> per | None => per end.

Lemma does_compute_loop w d sv hour names per :
  healthy w → Forall (λ name, is_Some (locations s !! name)) names →
  does (compute_loop s d sv hour names per [] ∅) w (foldl (computed w d sv (Unix hour)) per names, [], ∅) w.
Proof.
  intros Hw HF. revert per. assert (∀ w1 per, w1 ≃ w →
    does (compute_loop s d sv hour names per [] ∅) w1 (foldl (computed w d sv (Unix hour)) per names, [], ∅) w) as H;
    [|intros per; by apply H].
  induction HF as [|name names [c Hc] _ IH]; intros w1 per H1; cbn [compute_loop foldl].
  { eapply does_equiv; [apply does_ret|done]. }
  eapply does_bind; [apply does_ComputeLocationRollup; [by rewrite H1|done]|]. intros w2 H2. cbv beta iota.
  unfold computed at 2, fresh_hour. rewrite lookup_omap, Hc. cbn [mbind option_bind].
  rewrite (location_hour_proper _ _ H1 c _ eq_refl _ _ eq_refl _ _ eq_refl _ _ eq_refl).
  assert (w2 ≃ w) as E by (by rewrite H2). case_match; by apply IH.
Qed.

Lemma computed_all w d sv h names per name :
  per !! name = None →
  foldl (computed w d sv h) per names !! name = if decide (name ∈ names) then fresh_hour s w d sv h !! name else None.
Proof.
  assert (∀ per, foldl (computed w d sv h) per names !! name =
    if decide (name ∈ names) then
      match fresh_hour s w d sv h !! name with Some lr => Some lr | None => per !! name end
    else per !! name) as H.
  { clear. induction names as [|n names IH]; intros per; cbn [foldl]; [by rewrite decide_False by apply not_elem_of_nil|].
    rewrite IH. unfold computed at 1 2. destruct (decide (n = name)) as [->|Hn].
    - rewrite (decide_True (P := name ∈ name :: names)) by left.
      destruct (fresh_hour s w d sv h !! name) as [lr|]; [rewrite lookup_insert_eq|]; by case_decide.
    - assert ((name ∈ n :: names) ↔ name ∈ names) as E by (rewrite elem_of_cons; naive_solver).
      destruct (fresh_hour s w d sv h !! n); rewrite ?lookup_insert_ne by done; by rewrite (decide_ext _ _ _ _ E). }
  intros Hp. rewrite H, Hp. case_decide; [by destruct (fresh_hour s w d sv h !! name)|done].
Qed.

Lemma LocationNames_spec name : name ∈ LocationNames s ↔ is_Some (locations s !! name).
Proof.
  unfold LocationNames, sort_strings. rewrite merge_sort_Permutation, list_elem_of_fmap. split.
  - intros ([k c] & -> & H%elem_of_map_to_list). by exists c.
  - intros [c H]. exists (name, c). split; [done|by apply elem_of_map_to_list].
Qed.

Lemma does_computeAggregate w d sv hour :
  healthy w → does (computeAggregate s d sv hour) w (aggregate (fresh_hour s w d sv (Unix hour)), ∅) w.
Proof.
  intros Hw. unfold computeAggregate. eapply does_bind.
  - apply does_compute_loop; [done|]. apply Forall_forall. intros name. apply LocationNames_spec.
  - intros w1 H1. assert (foldl (computed w d sv (Unix hour)) ∅ (LocationNames s) = fresh_hour s w d sv (Unix hour)) as ->.
    { apply map_eq. intros name. rewrite computed_all by apply lookup_empty. case_decide as Hn; [done|].
      rewrite LocationNames_spec in Hn. unfold fresh_hour. rewrite lookup_omap.
      destruct (locations s !! name); [by destruct Hn|done]. }
    eapply does_equiv; [apply does_ret|done].
Qed.
End hour.

(** ** Writing an expiring field *)

(** What a write leaves: the field with its own TTL, and no TTL of the key. *)
Definition put (key field value : string) (ttl : Z) (s : Server) : Server :=
  forget_ttl key (set_field_ttl (hset s key field value) key field ttl).

#[export] Instance put_proper : Proper ((=) ==> (=) ==> (=) ==> (=) ==> (≡) ==> (≡)) put.
Proof. intros key _ <- field _ <- value _ <- ttl _ <- s s' H. unfold put. by rewrite H. Qed.

Lemma hash_put key field value ttl s key' :
  hash (put key field value ttl s) key' = if decide (key = key') then <[field := value]> (hash s key') else hash s key'.
Proof. apply hash_hset. Qed.

Lemma change_change c f g w : change c g (change c f w) ≃ change c (λ s, g (f s)) w.
Proof. intros c'. rewrite !server_of_change. by case_decide. Qed.

Lemma healthy_change c f w : (∀ s, failures (f s) = failures s) → healthy w → healthy (change c f w).
Proof. intros Hf Hw c'. rewrite server_of_change. case_decide; rewrite ?Hf; apply Hw. Qed.

Lemma seconds_until_int64 at_ now : is_int64 (seconds_until at_ now).
Proof.
  unfold seconds_until, is_int64. assert (- 2 ^ 63 ≤ Sub at_ now ≤ 2 ^ 63 - 1) as H by (unfold Sub; lia).
  pose proof (Z.quot_rem' (Sub at_ now) Second). pose proof (Z.rem_bound_abs (Sub at_ now) Second ltac:(done)).
  unfold Second in *. lia.
Qed.

Lemma seconds_until_pos at_ now : 0 < seconds_until at_ now → now < at_.
Proof.
  unfold seconds_until. intros H. assert (0 < Sub at_ now); [|unfold Sub in *; lia].
  destruct (Z.lt_ge_cases 0 (Sub at_ now)) as [?|Hle]; [done|].
  pose proof (Z.quot_le_mono (Sub at_ now) 0 Second ltac:(done) Hle) as Hq. rewrite Z.quot_0_l in Hq by done. lia.
Qed.

Section writing.
Context `{CA : !Codec AggregateRollup, CD : !Codec DailyRollup}.
Variable s : Store.

Lemma does_writeExpiring w key field value expiresAt now :
  healthy w → 0 < seconds_until expiresAt now →
  does (writeExpiring s key field value expiresAt now) w (true, None)
    (change (primary s) (put key field value (seconds_until expiresAt now)) w).
Proof.
  intros Hw Ht. unfold writeExpiring. rewrite (proj2 (Z.leb_gt _ _)) by done.
  set (ttl := seconds_until expiresAt now) in *. set (c := primary s).
  eapply does_bind; [by apply does_hset|]. intros w1 H1.
  assert (healthy w1) as Hw1 by (rewrite H1; by apply healthy_change).
  eapply does_bind.
  { apply does_hexpire; [done|apply seconds_until_int64|done|].
    rewrite (hash_proper _ _ (H1 c) key key eq_refl), server_of_change, decide_True, hash_hset, decide_True by done.
    by rewrite lookup_insert_eq. }
  intros w2 H2. cbv beta iota.
  assert (healthy w2) as Hw2 by (rewrite H2; by apply healthy_change).
  eapply does_bind; [by apply does_persist|]. intros w3 H3.
  eapply does_equiv; [apply does_ret|]. rewrite H3.
  assert (change c (forget_ttl key) w2 ≃ change c (forget_ttl key)
    (change c (λ s, set_field_ttl s key field ttl) (change c (λ s, hset s key field value) w))) as ->.
  { apply change_equiv; [by intros ?? ->|]. rewrite H2. apply change_equiv; [by intros ?? ->|done]. }
  by rewrite change_change, change_change.
Qed.

Lemma does_hget_stored w d sv h :
  healthy w →
  ∃ answer, does (hget (primary s) (RollupAggregateHour d sv) (FormatInt h)) w answer w ∧
    read_stored answer = Ok (stored_hour s w d sv h).
Proof.
  intros Hw. eexists. split; [by apply does_hget|]. unfold stored_hour. by destruct (hash _ _ !! _).
Qed.

(** The rollup [RollupHour] stores. *)
Definition merged_hour (w : Servers) (d sv : string) (h : Z) : AggregateRollup :=
  mergeStored (aggregate (fresh_hour s w d sv h)) (stored_hour s w d sv h).

#[export] Instance stored_hour_proper : Proper (same_servers ==> (=) ==> (=) ==> (=) ==> (=)) (stored_hour s).
Proof. intros w w' H d _ <- sv _ <- h _ <-. unfold stored_hour. by rewrite (hash_proper _ _ (H _) _ _ eq_refl). Qed.

#[export] Instance merged_hour_proper : Proper (same_servers ==> (=) ==> (=) ==> (=) ==> (=)) merged_hour.
Proof.
  intros w w' H d _ <- sv _ <- h _ <-. unfold merged_hour.
  by rewrite (fresh_hour_proper s _ _ H d _ eq_refl sv _ eq_refl h _ eq_refl), (stored_hour_proper _ _ H d _ eq_refl sv _ eq_refl h _ eq_refl).
Qed.

Lemma does_RollupHour w d sv hour now mark data :
  healthy w → 0 < seconds_until (hour_expiry s hour) now →
  PerLocation (merged_hour w d sv (Unix hour)) ≠ ∅ →
  marshal (with_InProgress (merged_hour w d sv (Unix hour)) (Before now (Add hour Hour))) = Some data →
  does (RollupHour s d sv hour now mark) w ({| Written := true; hr_Missing := ∅ |}, None)
    (change (primary s)
       (put (RollupAggregateHour d sv) (FormatInt (Unix hour)) data (seconds_until (hour_expiry s hour) now)) w).
Proof.
  intros Hw Ht Hne Hm. unfold RollupHour.
  assert (After (hour_expiry s hour) now = true) as ->.
  { unfold After. apply Z.ltb_lt. by apply seconds_until_pos. }
  cbn [negb]. eapply does_bind; [by apply does_computeAggregate|]. intros w1 H1. cbv beta iota zeta.
  destruct (does_hget_stored w1 d sv (Unix hour)) as (answer & Ha & Hs); [by rewrite H1|].
  eapply does_bind; [exact Ha|]. intros w2 H2. cbv beta. rewrite Hs.
  rewrite (stored_hour_proper _ _ H1 d _ eq_refl sv _ eq_refl (Unix hour) _ eq_refl).
  fold (merged_hour w d sv (Unix hour)). unfold plan_hour. rewrite decide_False by done. rewrite Hm.
  eapply does_bind; [apply does_writeExpiring; [by rewrite H2, H1|done]|]. intros w3 H3. cbn [fst snd].
  eapply does_equiv; [apply does_ret|]. rewrite H3. apply change_equiv; [by intros ?? ->|]. by rewrite H2, H1.
Qed.
End writing.

(** ** Reading the hours back *)

Section reading.
Context `{CA : !Codec AggregateRollup, CD : !Codec DailyRollup}.
Variable s : Store.

Definition stored_fields (w : Servers) (d sv : string) : gmap string string :=
  hash (server_of w (primary s)) (RollupAggregateHour d sv).

(** Hours are stored under their decimal text only. *)
Definition canonical (fields : gmap string string) : Prop :=
  ∀ f text h, fields !! f = Some text → ParseInt f = (h, None) → f = FormatInt h.

(** The hours in a range that the primary holds. *)
Definition hours_of (w : Servers) (d sv : string) (from to : time) : gmap Z AggregateRollup :=
  list_to_map (omap (read_hour from to) (map_to_list (stored_fields w d sv))).

#[export] Instance stored_fields_proper : Proper (same_servers ==> (=) ==> (=) ==> (=)) stored_fields.
Proof. intros w w' H d _ <- sv _ <-. unfold stored_fields. by rewrite (hash_proper _ _ (H _) _ _ eq_refl). Qed.

#[export] Instance hours_of_proper : Proper (same_servers ==> (=) ==> (=) ==> (=) ==> (=) ==> (=)) hours_of.
Proof.
  intros w w' H d _ <- sv _ <- from _ <- to _ <-. unfold hours_of. by rewrite (stored_fields_proper _ _ H d _ eq_refl sv _ eq_refl).
Qed.

(** What is read of one hour. *)
Definition read_text (from to : time) (h : Z) (text : option string) : option AggregateRollup :=
  text ← text; snd <$> read_hour from to (FormatInt h, text).

Lemma read_hour_key from to f text h r : read_hour from to (f, text) = Some (h, r) → ParseInt f = (h, None).
Proof.
  unfold read_hour. destruct (ParseInt f) as [h' [e|]]; [done|]. case_match; [done|].
  destruct (unmarshal text); [|done]. by intros [= -> _].
Qed.

Lemma lookup_hours_of w d sv from to h :
  is_int64 h → canonical (stored_fields w d sv) →
  hours_of w d sv from to !! h = read_text from to h (stored_fields w d sv !! FormatInt h).
Proof.
  intros Hh Hcan. apply option_eq. intros r. unfold hours_of.
  set (L := omap (read_hour from to) (map_to_list (stored_fields w d sv))).
  assert (∀ h r, (h, r) ∈ L ↔ ∃ text, stored_fields w d sv !! FormatInt h = Some text ∧ read_hour from to (FormatInt h, text) = Some (h, r)) as HL.
  { intros h' r'. unfold L. rewrite list_elem_of_omap. split.
    - intros ([f text] & Hp%elem_of_map_to_list & Hr). pose proof (Hcan f text h' Hp (read_hour_key _ _ _ _ _ _ Hr)). subst f. by exists text.
    - intros (text & Ht & Hr). exists (FormatInt h', text). by rewrite elem_of_map_to_list. }
  assert (∀ r, read_text from to h (stored_fields w d sv !! FormatInt h) = Some r ↔ (h, r) ∈ L) as HR.
  { intros r'. rewrite HL. unfold read_text. destruct (stored_fields w d sv !! FormatInt h) as [text|]; cbn [mbind option_bind]; [|split; [done|by intros (? & ? & _)]].
    destruct (read_hour from to (FormatInt h, text)) as [[h' r'']|] eqn:E.
    - pose proof (read_hour_key _ _ _ _ _ _ E) as Hp. rewrite ParseInt_FormatInt in Hp by done. injection Hp as <-.
      cbn [fmap option_fmap option_map snd]. split; [intros [= ->]; by exists text|]. intros (? & [= <-] & E'). congruence.
    - cbn [fmap option_fmap option_map]. split; [done|]. intros (? & [= <-] & E'). congruence. }
  rewrite HR. split; [apply elem_of_list_to_map_2|]. intros Hin. apply elem_of_list_to_map_1'; [|done].
  intros r' Hr'. apply HR in Hin. apply HR in Hr'. congruence.
Qed.

Lemma hours_of_fields w d sv from to h r :
  hours_of w d sv from to !! h = Some r → is_int64 h ∧ Before (of_Unix h) from = false ∧ After (of_Unix h) to = false.
Proof.
  intros H%elem_of_list_to_map_2. apply list_elem_of_omap in H as ([f text] & _ & Hr).
  pose proof (read_hour_key _ _ _ _ _ _ Hr) as Hk. pose proof (ParseInt_int64 f) as Hi. rewrite Hk in Hi.
  split; [done|]. unfold read_hour in Hr. rewrite Hk in Hr. destruct (Before _ _); [done|]. by destruct (After _ _).
Qed.

(** The hour as it is shown: the status by the current rules. *)
Definition shown_status (r : AggregateRollup) : AggregateRollup :=
  if decide (PerLocation r = ∅) then r else with_agg_Status r (aggregateStatus (PerLocation r)).

Lemma read_text_in from to h text :
  is_int64 h → Before (of_Unix h) from = false → After (of_Unix h) to = false →
  read_text from to h (Some text) = shown_status <$> unmarshal text.
Proof.
  intros Hh Hf Ht. unfold read_text. cbn [mbind option_bind]. unfold read_hour. rewrite ParseInt_FormatInt by done.
  cbv zeta. rewrite Hf, Ht. simpl. by destruct (unmarshal text).
Qed.

Lemma PerLocation_shown r : PerLocation (shown_status r) = PerLocation r.
Proof. unfold shown_status. by case_decide. Qed.

(** Storing an hour changes what is read of that hour only. *)
Lemma hours_of_put w w' d sv from to h data r :
  is_int64 h → Before (of_Unix h) from = false → After (of_Unix h) to = false →
  canonical (stored_fields w d sv) → unmarshal data = Some r →
  stored_fields w' d sv = <[FormatInt h := data]> (stored_fields w d sv) →
  hours_of w' d sv from to = <[h := shown_status r]> (hours_of w d sv from to).
Proof.
  intros Hh Hf Ht Hcan Hr Hw'.
  assert (canonical (stored_fields w' d sv)) as Hcan'.
  { rewrite Hw'. intros f text h' [[<- _]|[_ H]]%lookup_insert_Some Hp; [|by eapply Hcan].
    rewrite ParseInt_FormatInt in Hp by done. by injection Hp as <-. }
  apply map_eq. intros h'. destruct (decide (is_int64 h')) as [Hi|Hi].
  - rewrite (lookup_hours_of w') by done. rewrite Hw'. destruct (decide (h' = h)) as [->|Hne].
    + rewrite !lookup_insert_eq, read_text_in by done. by rewrite Hr.
    + rewrite !lookup_insert_ne by (intros E; try apply FormatInt_inj in E; congruence). by rewrite lookup_hours_of.
  - assert (∀ w, hours_of w d sv from to !! h' = None) as Hno.
    { intros w0. destruct (hours_of w0 d sv from to !! h') eqn:E; [|done]. by apply hours_of_fields in E as []. }
    rewrite lookup_insert_ne by (intros ->; done). by rewrite !Hno.
Qed.

Lemma does_GetAggregateRollups w d sv from to :
  healthy w → does (GetAggregateRollups s d sv from to) w (Ok (hours_of w d sv from to)) w.
Proof.
  intros Hw. unfold GetAggregateRollups. eapply does_bind; [by apply does_hgetall|]. intros w1 H1.
  eapply does_equiv; [apply does_ret|done].
Qed.

(** The hour in progress: computed afresh, merged with what is stored. *)
Definition live_of (w : Servers) (d sv : string) (h : Z) (stored : AggregateRollup) : option AggregateRollup :=
  let merged := mergeStored (aggregate (fresh_hour s w d sv h)) stored in
  if decide (PerLocation merged = ∅) then None else Some merged.

#[export] Instance live_of_proper : Proper (same_servers ==> (=) ==> (=) ==> (=) ==> (=) ==> (=)) live_of.
Proof.
  intros w w' H d _ <- sv _ <- h _ <- stored _ <-. unfold live_of.
  by rewrite (fresh_hour_proper s _ _ H d _ eq_refl sv _ eq_refl h _ eq_refl).
Qed.

Lemma does_liveHour w d sv hour stored :
  healthy w → does (liveHour s d sv hour stored) w (live_of w d sv (Unix hour) stored) w.
Proof.
  intros Hw. unfold liveHour. eapply does_bind; [by apply does_computeAggregate|]. intros w1 H1.
  eapply does_equiv; [apply does_ret|done].
Qed.

Definition with_live (w : Servers) (d sv : string) (h : Z) (rollups : gmap Z AggregateRollup) : gmap Z AggregateRollup :=
  match live_of w d sv h (default zero_AggregateRollup (rollups !! h)) with
  | Some agg => <[h := agg]> rollups
  | None => rollups
  end.
End reading.
