(* ===== verification/Pipeline.v ===== *)
(** * From a failed check to an incident

    The whole path: the notifier's bytes on the server of a location, the
    store's reading of that server, the hourly rollup on the primary, and the
    incidents the dashboard lists. *)

From S2P Require Import Prelude GoStd GoTime Errors Api Notifier Trace Drivers Notifiers Keys Ladder Float64 Rollups RollupProps.
From S2P Require Import Valkey Store Incidents IncidentProps IncidentCover Resp ValkeyNotifier ValkeyServer EndToEnd Servers StoreServers.

(** ** The hour of one location *)

(** The samples of an hour lie in it. *)
Definition punctual (w : Servers) (c : Client) (d sv : string) (h : Z) : Prop :=
  Forall (λ x, h ≤ s_ts x < h + 3600) (location_samples w c d sv h).

Lemma location_hour_runs w c d sv h :
  lr_Runs (location_hour w c d sv h) = runs_of_blocks true (blocks (location_samples w c d sv h)).
Proof.
  unfold location_hour. case_decide as E.
  - unfold location_samples. by rewrite E, map_to_list_empty.
  - unfold rollup_of_samples. cbn [lr_Runs]. by rewrite (proj1 (scan_runs _) true scan_start eq_refl).
Qed.

Lemma location_hour_total w c d sv h :
  lr_Total (location_hour w c d sv h) = len (location_samples w c d sv h).
Proof.
  unfold location_hour. case_decide as E.
  - unfold location_samples. by rewrite E, map_to_list_empty.
  - unfold rollup_of_samples. cbn [lr_Total]. set (l := location_samples w c d sv h).
    assert (∀ a, sc_successes (flush true a) = sc_successes a ∧ sc_failures (flush true a) = sc_failures a) as Hfl.
    { intros a. unfold flush. by case_match. }
    destruct (Hfl (scan true l scan_start)) as [-> ->]. destruct (scan_counts true l scan_start) as [-> ->].
    pose proof (countb_negb s_fail l). simpl. lia.
Qed.

Lemma samples_sorted w c d sv h : sorted_samples (location_samples w c d sv h).
Proof. apply (merge_sort_sorted (by_key Z.le s_ts)). Qed.

Lemma location_hour_covers w c d sv h :
  punctual w c d sv h →
  hourly h (lr_Runs (location_hour w c d sv h)) ∧
  ∀ x, x ∈ location_samples w c d sv h → s_fail x = true →
    Exists (in_run (s_ts x) (s_msg x)) (lr_Runs (location_hour w c d sv h)).
Proof.
  intros Hp. rewrite location_hour_runs. apply runs_cover; [apply samples_sorted|exact Hp|lia].
Qed.

(** ** The hours a page shows *)

Section shown.
Context `{CA : !Codec AggregateRollup, CD : !Codec DailyRollup}.
Context (s : Store) (d sv name : string) (c : Client).
Hypothesis name_c : locations s !! name = Some c.

Lemma fresh_hour_lookup w h :
  fresh_hour s w d sv h !! name =
  if 0 <? lr_Total (location_hour w c d sv h) then Some (location_hour w c d sv h) else None.
Proof. unfold fresh_hour. by rewrite lookup_omap, name_c. Qed.

(** What merging shows of the location: its own samples or what is stored. *)
Lemma merged_location w h stored lr :
  PerLocation (mergeStored (aggregate (fresh_hour s w d sv h)) stored) !! name = Some lr →
  lr = location_hour w c d sv h ∨ PerLocation stored !! name = Some lr.
Proof.
  rewrite PerLocation_mergeStored. unfold pick. cbn [aggregate PerLocation]. rewrite fresh_hour_lookup.
  destruct (PerLocation stored !! name) as [old|]; repeat case_match; intros; simplify_eq; auto.
Qed.

(** The failure is in a run of the hour's rollup. *)
Definition reported (rollups : gmap Z AggregateRollup) (h : Z) (x : lsample) : Prop :=
  ∃ r lr, rollups !! h = Some r ∧ PerLocation r !! name = Some lr ∧
    Exists (in_run (s_ts x) (s_msg x)) (lr_Runs lr).

Section hour.
Context (w : Servers) (h : Z) (stored : AggregateRollup).

Notation merged := (mergeStored (aggregate (fresh_hour s w d sv h)) stored).

Lemma merged_hourly lr :
  punctual w c d sv h → (∀ old, PerLocation stored !! name = Some old → hourly h (lr_Runs old)) →
  PerLocation merged !! name = Some lr → hourly h (lr_Runs lr).
Proof.
  intros Hp Ho Hl. destruct (merged_location _ _ _ _ Hl) as [->|H]; [by apply location_hour_covers|by apply Ho].
Qed.

Lemma merged_reports x :
  x ∈ location_samples w c d sv h → s_fail x = true → punctual w c d sv h →
  total_at (PerLocation stored) name ≤ lr_Total (location_hour w c d sv h) →
  PerLocation merged !! name = Some (location_hour w c d sv h) ∧
  Exists (in_run (s_ts x) (s_msg x)) (lr_Runs (location_hour w c d sv h)).
Proof.
  intros Hx Hf Hp Ht. split; [|by apply location_hour_covers].
  assert (0 < lr_Total (location_hour w c d sv h)) as H0.
  { rewrite location_hour_total. destruct (location_samples w c d sv h) as [|y l]; [by apply elem_of_nil in Hx|].
    rewrite len_cons. pose proof (len_nonneg l). lia. }
  rewrite PerLocation_mergeStored. unfold pick. cbn [aggregate PerLocation]. rewrite fresh_hour_lookup.
  rewrite (proj2 (Z.ltb_lt _ _)) by done. cbn [default]. unfold total_at in Ht.
  destruct (PerLocation stored !! name) as [old|]; [|done]. cbn [default] in Ht.
  by rewrite (proj2 (Z.ltb_ge _ _)).
Qed.
End hour.

Lemma with_live_timely w h rollups :
  h `mod` 3600 = 0 → punctual w c d sv h → timely name rollups → timely name (with_live s w d sv h rollups).
Proof.
  intros Hm Hp Ht. unfold with_live, live_of. case_decide; [done|]. cbv beta iota.
  apply map_Forall_insert_2; [|done]. split; [done|]. intros lr Hl. eapply merged_hourly; [done| |exact Hl].
  intros old Ho. destruct (rollups !! h) as [r|] eqn:E; [|done]. by apply (Ht h r E).
Qed.

Lemma with_live_reports w h rollups x :
  x ∈ location_samples w c d sv h → s_fail x = true → punctual w c d sv h →
  total_at (PerLocation (default zero_AggregateRollup (rollups !! h))) name ≤ lr_Total (location_hour w c d sv h) →
  reported (with_live s w d sv h rollups) h x.
Proof.
  intros Hx Hf Hp Ht. destruct (merged_reports w h _ x Hx Hf Hp Ht) as [Hl Hr].
  unfold with_live, live_of. rewrite decide_False by (intros E; by rewrite E in Hl).
  eexists _, _. split; [apply lookup_insert_eq|]. by split.
Qed.

Lemma with_live_other w h cur rollups x :
  cur ≠ h → reported rollups h x → reported (with_live s w d sv cur rollups) h x.
Proof.
  intros Hne (r & lr & Hr & Hl). exists r, lr. split; [|done]. unfold with_live.
  case_match; [by rewrite lookup_insert_ne|done].
Qed.

(** The hours [FailureWindows] reads. *)
Definition shown_hours (w : Servers) (from to now : time) (live : bool) : gmap Z AggregateRollup :=
  let curHour := Truncate now Hour in
  let rollups := hours_of s w d sv from to in
  if live && negb (Before curHour (Truncate from Hour)) && negb (After curHour to)
  then with_live s w d sv (Unix curHour) rollups else rollups.

Lemma does_FailureWindows w from to now live :
  healthy w →
  does (FailureWindows s d sv from to now live) w
    (Ok (mergeSegments <$> segments_of (shown_hours w from to now live) live now)) w.
Proof.
  intros Hw. unfold FailureWindows, shown_hours. eapply does_bind; [by apply does_GetAggregateRollups|].
  intros w1 H1. cbv beta iota zeta. destruct (live && _ && _).
  - eapply (does_bind _ _ w1 _ w1 _ w).
    + eapply (does_bind _ _ w1 _ w1 _ w1); [apply does_liveHour; by rewrite H1|].
      intros w2 H2. eapply does_equiv; [apply does_ret|exact H2].
    + intros w2 H2. cbv beta.
      rewrite (live_of_proper s _ _ H1 d _ eq_refl sv _ eq_refl _ _ eq_refl _ _ eq_refl).
      unfold with_live. eapply does_equiv; [apply does_ret|by rewrite H2].
  - eapply (does_bind _ _ w1 _ w1 _ w); [apply does_ret|].
    intros w2 H2. eapply does_equiv; [apply does_ret|by rewrite H2].
Qed.

(** The incident of a reported failure. *)
Lemma reported_incident rollups live now h x :
  timely name rollups → reported rollups h x →
  ∃ windows, mergeSegments <$> segments_of rollups live now = Some windows ∧
    Exists (in_incident name (s_msg x) (s_ts x)) windows.
Proof.
  intros Ht (r & lr & Hr & Hl & Hx). destruct (segments_of_total rollups live now) as (segs & Hs & _).
  exists (mergeSegments segs). rewrite Hs. split; [done|]. by eapply incidents_cover, segments_cover.
Qed.
End shown.

(** ** The current hour *)

Section theorems.
Context `{CA : !Codec AggregateRollup, CD : !Codec DailyRollup}.

Lemma hour_aligned t : Unix (Truncate t Hour) `mod` 3600 = 0.
Proof.
  rewrite Truncate_hour. unfold Unix. change Hour with (3600 * Second). rewrite Z.mul_assoc.
  rewrite Z.div_mul by done. apply Z_mod_mult.
Qed.

(** A failure that a location's server holds in the hour in progress is on
    the failure page now. *)
Lemma live_failure_shows (s : Store) (w : Servers) (d sv name : string) (c : Client)
    (from to now : time) (x : lsample) :
  let cur := Unix (Truncate now Hour) in
  healthy w → locations s !! name = Some c →
  timely name (hours_of s w d sv from to) → punctual w c d sv cur →
  total_at (PerLocation (default zero_AggregateRollup (hours_of s w d sv from to !! cur))) name
    ≤ lr_Total (location_hour w c d sv cur) →
  Truncate from Hour ≤ Truncate now Hour ≤ to →
  x ∈ location_samples w c d sv cur → s_fail x = true →
  ∃ windows, does (FailureWindows s d sv from to now true) w (Ok (Some windows)) w ∧
    Exists (in_incident name (s_msg x) (s_ts x)) windows.
Proof.
  intros cur Hw Hc Ht Hp Hfull Hrange Hx Hf.
  destruct (reported_incident name (shown_hours s d sv w from to now true) true now cur x) as (windows & Hwin & Hex).
  - unfold shown_hours. case_match; [|done]. by apply (with_live_timely s d sv name c Hc); [apply hour_aligned|..].
  - unfold shown_hours, Before, After. rewrite !(proj2 (Z.ltb_ge _ _)) by lia.
    by apply (with_live_reports s d sv name c Hc).
  - exists windows. split; [|done]. rewrite <-Hwin. by apply does_FailureWindows.
Qed.

(** ** After the rollup *)

(** Writing the hour's rollup. *)
Definition rolled_up (s : Store) (d sv : string) (h : Z) (data : string) (ttl : Z) (w : Servers) : Servers :=
  change (primary s) (put (RollupAggregateHour d sv) (FormatInt h) data ttl) w.

Section rolled_up.
Context (s : Store) (d sv : string) (h : Z) (data : string) (ttl : Z) (w : Servers).
Hypothesis d_plain : has_byte ":" d = false.
Hypothesis sv_plain : has_byte ":" sv = false.
Notation w' := (rolled_up s d sv h data ttl w).

Lemma rolled_up_fields : stored_fields s w' d sv = <[FormatInt h := data]> (stored_fields s w d sv).
Proof. unfold stored_fields, rolled_up. by rewrite server_of_change, decide_True, hash_put, decide_True. Qed.

Lemma rolled_up_other c key : key ≠ RollupAggregateHour d sv → hash (server_of w' c) key = hash (server_of w c) key.
Proof.
  intros Hk. unfold rolled_up. rewrite server_of_change. case_decide; [|done].
  rewrite hash_put, decide_False by done. done.
Qed.

Lemma rolled_up_samples c h' : is_int64 h' → location_samples w' c d sv h' = location_samples w c d sv h'.
Proof.
  intros Hh. unfold location_samples. rewrite !rolled_up_other; [done|intros E..].
  - by assert (PDetail d sv h' = PHourly d sv) by by apply key_of_inj.
  - by assert (PStatus d sv h' = PHourly d sv) by by apply key_of_inj.
Qed.

Lemma rolled_up_hour c h' : is_int64 h' → location_hour w' c d sv h' = location_hour w c d sv h'.
Proof.
  intros Hh. unfold location_hour. rewrite rolled_up_samples by done. rewrite rolled_up_other; [done|].
  intros E. by assert (PStatus d sv h' = PHourly d sv) by by apply key_of_inj.
Qed.
End rolled_up.

(** The rollup of the hour, as it is read back. *)
Lemma rolled_up_reports (s : Store) (w : Servers) (d sv name : string) (c : Client) (h ttl : Z)
    (from to : time) (data : string) (inProgress : bool) (x : lsample) :
  let r := with_InProgress (merged_hour s w d sv h) inProgress in
  locations s !! name = Some c → is_int64 h → h `mod` 3600 = 0 →
  canonical (stored_fields s w d sv) → timely name (hours_of s w d sv from to) → punctual w c d sv h →
  total_at (PerLocation (stored_hour s w d sv h)) name ≤ lr_Total (location_hour w c d sv h) →
  unmarshal data = Some r → Before (of_Unix h) from = false → After (of_Unix h) to = false →
  x ∈ location_samples w c d sv h → s_fail x = true →
  let rollups := hours_of s (rolled_up s d sv h data ttl w) d sv from to in
  timely name rollups ∧ reported name rollups h x ∧
  total_at (PerLocation (default zero_AggregateRollup (rollups !! h))) name = lr_Total (location_hour w c d sv h).
Proof.
  intros r Hc Hi Hm Hcan Ht Hp Hfull Hr Hfrom Hto Hx Hf rollups.
  destruct (merged_reports s d sv name c Hc w h _ x Hx Hf Hp Hfull) as [Hl Hin].
  assert (rollups = <[h := shown_status r]> (hours_of s w d sv from to)) as ->.
  { eapply hours_of_put; [done..|]. apply rolled_up_fields. }
  assert (PerLocation (shown_status r) !! name = Some (location_hour w c d sv h)) as Hs by by rewrite PerLocation_shown.
  split; [|split].
  - apply map_Forall_insert_2; [|done]. split; [done|]. intros lr Hlr. rewrite Hs in Hlr. injection Hlr as <-. by apply location_hour_covers.
  - eexists _, _. split; [apply lookup_insert_eq|]. by split.
  - rewrite lookup_insert_eq. change (default zero_AggregateRollup (Some (shown_status r))) with (shown_status r).
    unfold total_at. by rewrite Hs.
Qed.

(** C11: a failure survives its hour: when an hour whose samples a location's
    server holds is rolled up, the rollup is written to the primary, and from
    then on the failure page of every range with the hour, now or later, lists
    an incident that names the location, has the failed check's message and
    spans its time. *)
Theorem rolled_up_failure_shows (s : Store) (w : Servers) (d sv name : string) (c : Client)
    (t now now' from to : time) (mark live : bool) (data : string) (x : lsample) :
  let hour := Truncate t Hour in
  let h := Unix hour in
  let rollup := with_InProgress (merged_hour s w d sv h) (Before now (Add hour Hour)) in
  healthy w → locations s !! name = Some c → has_byte ":" d = false → has_byte ":" sv = false →
  plausible t → plausible now' → 0 < seconds_until (hour_expiry s hour) now →
  canonical (stored_fields s w d sv) → timely name (hours_of s w d sv from to) →
  punctual w c d sv h → punctual w c d sv (Unix (Truncate now' Hour)) →
  total_at (PerLocation (stored_hour s w d sv h)) name ≤ lr_Total (location_hour w c d sv h) →
  marshal rollup = Some data → unmarshal data = Some rollup → from ≤ hour ≤ to →
  x ∈ location_samples w c d sv h → s_fail x = true →
  ∃ w' windows,
    does (RollupHour s d sv hour now mark) w ({| Written := true; hr_Missing := ∅ |}, None) w' ∧
    does (FailureWindows s d sv from to now' live) w' (Ok (Some windows)) w' ∧
    Exists (in_incident name (s_msg x) (s_ts x)) windows.
Proof.
  intros hour h rollup Hw Hc Hd Hsv Htp Hnp Httl Hcan Ht Hp Hpc Hfull Hm Hu Hrange Hx Hf.
  destruct (plausible_int64 t Htp) as [_ Hi]. destruct (plausible_int64 now' Hnp) as [_ Hic].
  assert (of_Unix h = hour) as Eh.
  { unfold of_Unix, h, hour. rewrite Truncate_hour. unfold Unix. change Hour with (3600 * Second).
    rewrite Z.mul_assoc, Z.div_mul by done. done. }
  set (ttl := seconds_until (hour_expiry s hour) now) in *.
  destruct (merged_reports s d sv name c Hc w h _ x Hx Hf Hp Hfull) as [Hl _].
  destruct (rolled_up_reports s w d sv name c h ttl from to data (Before now (Add hour Hour)) x) as (Ht' & Hrep & Htot);
    [done|done|apply hour_aligned|done|done|done|done|done| | |done|done|];
    [unfold Before; rewrite Eh; apply Z.ltb_ge; lia|unfold After; rewrite Eh; apply Z.ltb_ge; lia|].
  set (w' := rolled_up s d sv h data ttl w) in *. set (cur := Unix (Truncate now' Hour)) in *.
  assert (healthy w') as Hw' by by apply healthy_change.
  assert (punctual w' c d sv cur) as Hpc' by by (unfold punctual, w'; rewrite rolled_up_samples).
  destruct (reported_incident name (shown_hours s d sv w' from to now' live) live now' h x) as (windows & Hwin & Hex).
  - unfold shown_hours. case_match; [|done]. by apply (with_live_timely s d sv name c Hc); [apply hour_aligned|..].
  - unfold shown_hours. case_match; [|done]. fold cur. destruct (decide (cur = h)) as [E|Hne]; [|by apply with_live_other].
    rewrite E in *. apply (with_live_reports s d sv name c Hc); [by unfold w'; rewrite rolled_up_samples|done|done|].
    unfold w' at 2. rewrite rolled_up_hour by done. lia.
  - exists w', windows. split; [|split; [|done]].
    + apply does_RollupHour; [done|done| |exact Hm]. intros E. fold h in E. unfold merged_hour in E. by rewrite E in Hl.
    + rewrite <-Hwin. by apply does_FailureWindows.
Qed.
End theorems.

(** ** From the notifier *)

(** *** One more sample *)

Lemma omap_sample_ne d k dv l :
  k ∉ l.*1 → omap (sample_of (<[k := dv]> d)) l = omap (sample_of d) l.
Proof.
  induction l as [|[k' st] l IH]; [done|]. rewrite fmap_cons, not_elem_of_cons. intros [Hk Hl].
  cbn [omap list_omap]. rewrite IH by done.
  assert (sample_of (<[k := dv]> d) (k', st) = sample_of d (k', st)) as ->; [|done].
  unfold sample_of. rewrite lookup_insert_ne; done.
Qed.

Lemma map_to_list_key_fresh {A} (m : gmap string A) k : m !! k = None → k ∉ (map_to_list m).*1.
Proof. intros Hm ([k' a] & E & Hp%elem_of_map_to_list)%list_elem_of_fmap. simpl in E. congruence. Qed.

(** Recording a status and a detail adds the sample, or replaces the one of
    the same second. *)
Lemma samples_insert (m d : gmap string string) k sv dv x :
  sample_of (<[k := dv]> d) (k, sv) = Some x →
  let old := samples_of (map_to_list m) d in
  let new := samples_of (map_to_list (<[k := sv]> m)) (<[k := dv]> d) in
  x ∈ new ∧ (∀ y, y ∈ new → y = x ∨ y ∈ old) ∧ len old ≤ len new.
Proof.
  intros Hx. cbv zeta. rewrite <-(insert_delete_eq m). set (m' := delete k m).
  assert (m' !! k = None) as Hk by apply lookup_delete_eq.
  assert (samples_of (map_to_list (<[k := sv]> m')) (<[k := dv]> d) ≡ₚ x :: omap (sample_of d) (map_to_list m')) as Hnew.
  { rewrite samples_of_Permutation, map_to_list_insert by done. cbn [omap list_omap].
    rewrite Hx, omap_sample_ne; [done|by apply map_to_list_key_fresh]. }
  assert (∃ l, length l ≤ 1 ∧ samples_of (map_to_list m) d ≡ₚ l ++ omap (sample_of d) (map_to_list m'))%nat as (l & Hl & Hold).
  { destruct (m !! k) as [st|] eqn:E.
    - exists (omap (sample_of d) [(k, st)]). split; [cbn [omap list_omap]; by case_match; simpl; lia|].
      rewrite samples_of_Permutation, <-omap_app. rewrite <-(insert_delete_id m k st E) at 1. fold m'.
      by rewrite map_to_list_insert.
    - exists []. split; [simpl; lia|]. rewrite samples_of_Permutation. unfold m'. by rewrite delete_id. }
  split; [rewrite Hnew; by left|]. split.
  - intros y. rewrite Hnew, Hold, elem_of_cons, elem_of_app. naive_solver.
  - unfold len. rewrite (Permutation_length Hnew), (Permutation_length Hold), length_app. simpl. lia.
Qed.

Section alert.
Context `{CA : !Codec AggregateRollup, CD : !Codec DailyRollup}.

(** An alert on the server of one location, seen by the store. *)
Section recorded.
Context (s : Store) (w : Servers) (c : Client) (s' : Server) (dashes : list string) (dash svc ts sv dv : string)
  (h : Z) (v : NoticeValues) (x : lsample).
Notation w' := (change c (λ _, s') w).
Hypothesis dash_plain : has_byte ":" dash = false.
Hypothesis svc_plain : has_byte ":" svc = false.
Hypothesis dash_in : dash ∈ dashes.
Hypothesis dashes_plain : Forall (λ d, has_byte ":" d = false) dashes.
Hypothesis hour_int : is_int64 h.
Hypothesis alert_frame : frame svc h dashes (server_of w c) s'.
Hypothesis alert_data : dashboard_data svc ts sv dv h v dashes (server_of w c) s' dash.
Hypothesis alert_sample : sample_of (hash s' (DetailHour dash svc h)) (ts, sv) = Some x.

Lemma recorded_healthy : healthy w → healthy w'.
Proof. intros Hw c'. rewrite server_of_change. case_decide; [apply alert_frame|apply Hw]. Qed.

Lemma recorded_rollups from to : hours_of s w' dash svc from to = hours_of s w dash svc from to.
Proof.
  unfold hours_of, stored_fields. rewrite server_of_change. case_decide as E; [|done].
  destruct alert_frame as (_ & Hh & _). rewrite Hh; [unfold server_of; by rewrite E|].
  intros (l & Hkey & (d & -> & Hd)%list_elem_of_fmap)%elem_of_concat.
  pose proof (proj1 (Forall_forall _ _) dashes_plain d Hd) as Hdp. cbv beta in Hdp.
  apply elem_of_cons in Hkey as [Ek|Hkey]; [by assert (PHourly dash svc = PStatus d svc h) by by apply key_of_inj|].
  apply elem_of_cons in Hkey as [Ek|Hkey]; [by assert (PHourly dash svc = PDetail d svc h) by by apply key_of_inj|].
  apply list_elem_of_singleton in Hkey. by assert (PHourly dash svc = PMeta d svc) by by apply key_of_inj.
Qed.

Lemma recorded_samples :
  let old := location_samples w c dash svc h in
  let new := location_samples w' c dash svc h in
  x ∈ new ∧ (∀ y, y ∈ new → y = x ∨ y ∈ old) ∧ len old ≤ len new.
Proof.
  destruct alert_data as (Hs & Hd & _). unfold when in Hs, Hd. rewrite decide_True in Hs, Hd by done.
  cbv zeta. unfold location_samples. rewrite server_of_change, decide_True by done. rewrite Hs, Hd.
  pose proof alert_sample as Hx. rewrite Hd in Hx. by apply samples_insert.
Qed.

(** The recorded failure is on the failure page at once. *)
Lemma recorded_failure_shows name from to now :
  Unix (Truncate now Hour) = h → healthy w → locations s !! name = Some c →
  s_fail x = true → h ≤ s_ts x < h + 3600 →
  timely name (hours_of s w dash svc from to) → punctual w c dash svc h →
  total_at (PerLocation (default zero_AggregateRollup (hours_of s w dash svc from to !! h))) name
    ≤ lr_Total (location_hour w c dash svc h) →
  Truncate from Hour ≤ Truncate now Hour ≤ to →
  ∃ windows, does (FailureWindows s dash svc from to now true) w' (Ok (Some windows)) w' ∧
    Exists (in_incident name (s_msg x) (s_ts x)) windows.
Proof.
  intros Eh Hw Hc Hf Hx Ht Hp Hfull Hrange. destruct recorded_samples as (Hin & Hall & Hlen).
  pose proof (live_failure_shows s w' dash svc name c from to now x) as H. cbv zeta in H. rewrite Eh in H.
  apply H; [by apply recorded_healthy|done|by rewrite recorded_rollups| | |done|done|done].
  - apply Forall_forall. intros y Hy. destruct (Hall y Hy) as [->|Hold]; [done|].
    unfold punctual in Hp. rewrite Forall_forall in Hp. by apply Hp.
  - rewrite recorded_rollups. rewrite location_hour_total in Hfull |- *. lia.
Qed.
End recorded.

Lemma truncated_second t : plausible t →
  Unix (Truncate t Hour) ≤ Unix t < Unix (Truncate t Hour) + 3600.
Proof.
  intros Ht. rewrite Truncate_hour. unfold Unix. change Hour with (3600 * Second).
  rewrite Z.mul_assoc, Z.div_mul by done. unfold Second. Z.div_mod_to_equations. lia.
Qed.

(** C4: a failed check is an incident at once: when the notifier reports a
    failure as sent and its bytes reach the server of a location, it has read
    the clock exactly once, and the failure page of that service lists, within
    the hour of that reading and for every range with that hour, an incident
    that names the location, has the check's message and spans the time the
    clock showed - under every configured dashboard and whatever
    the servers held before, as long as that is in order. *)
Theorem failed_check_is_an_incident {W} `{!NetWorld W} (Quote : string → string)
    (cfg : ValkeyConfig) (v : ValkeyNotifier) (values : NoticeValues) (net : W)
    (s : Store) (w : Servers) (name : string) (c : Client) :
  NewValkey Quote (Some cfg) = Ok v → 0 < retentionSeconds v →
  has_byte ":" (service_of v values) = false → is_int64 (nv_ResponseTimeMs values) →
  (∀ net : W, plausible (nw_Now net).1) → healthy w → locations s !! name = Some c →
  let '(r, _, t) := SendAlertValkey Quote v "failure" values net in
  r = Ok () → 16 * slen (written t) ≤ maxAlloc →
  ∃ sent fuel out s',
    clock_reads t = [sent] ∧ plausible sent ∧ serve Quote fuel (written t) (server_of w c) = Some (out, s') ∧
    let svc := service_of v values in
    let hour := Truncate sent Hour in
    let w' := <[cl_id c := s']> w in
    ∀ dash from to now,
      dash ∈ valkey_Dashboards cfg → Truncate now Hour = hour → Truncate from Hour ≤ hour ≤ to →
      timely name (hours_of s w dash svc from to) → punctual w c dash svc (Unix hour) →
      total_at (PerLocation (default zero_AggregateRollup (hours_of s w dash svc from to !! Unix hour))) name
        ≤ lr_Total (location_hour w c dash svc (Unix hour)) →
      ∃ windows, does (FailureWindows s dash svc from to now true) w' (Ok (Some windows)) w' ∧
        Exists (in_incident name (message_of "failure" values) (Unix sent)) windows.
Proof.
  intros Hnew Hret Hsvc Hms Hclock Hw Hc.
  pose proof (alert_effect Quote cfg v "failure" values net (server_of w c) Hnew Hret (or_intror eq_refl) Hsvc Hms Hclock (Hw c)) as H.
  destruct (SendAlertValkey Quote v "failure" values net) as [[r net'] t]. intros Hr Hsize.
  destruct (H Hr Hsize) as (sent & fuel & out & s' & Hread & Hsent & Hserve & Hframe & Hdata). clear H.
  destruct (new_valkey_plain Quote cfg v Hnew) as (_ & Hdash & _). destruct (plausible_int64 sent Hsent) as [_ Hi].
  exists sent, fuel, out, s'. split; [done|]. split; [done|]. split; [done|]. cbv zeta.
  intros dash from to now Hin Hnow Hrange Ht Hp Hfull.
  assert (has_byte ":" dash = false) as Hdp by (rewrite Forall_forall in Hdash; by apply Hdash).
  destruct (Hdata dash Hdp) as [Hd Hsample]. specialize (Hsample Hin).
  change (<[cl_id c := s']> w : Servers) with (change c (λ _, s') w).
  eapply (recorded_failure_shows s w c s' (valkey_Dashboards cfg) dash (service_of v values) _ _ _
    (Unix (Truncate sent Hour)) values _ Hdp Hsvc Hin Hdash Hi Hframe Hd Hsample); [by rewrite Hnow|done|done|done| |done|done|done|by rewrite Hnow].
  by apply truncated_second.
Qed.
End alert.

(** ** One location, one server *)

Definition sim_client : Client := {| cl_name := "eu"; cl_id := 0 |}.

Definition sim_store : Store :=
  {| locations := {["eu" := sim_client]}; primary := sim_client; retention := 7 * 86400; retentionDays := 7 |}.

Definition sim_time : time := of_Unix 1700000123.

Definition sim_hour : Z := Unix (Truncate sim_time Hour).

Definition sim_sample : lsample :=
  {| s_ts := 1700000123; s_fail := true; s_ms := 12; s_msg := "timeout"; s_hasDetail := true |}.

(** The server after the failed check, and the world with nothing but it. *)
Definition sim_server : Server :=
  hset (hset Start (StatusHour "prod" "api" sim_hour) "1700000123" "f")
    (DetailHour "prod" "api" sim_hour) "1700000123" "12|timeout".

Definition sim_world (s : Server) : Servers := {[0%nat := s]}.

Lemma sim_healthy s : failures s = [] → healthy (sim_world s).
Proof.
  intros Hs c. unfold server_of, sim_world. destruct (decide (cl_id c = 0%nat)) as [->|Hc].
  - by rewrite lookup_singleton_eq.
  - by rewrite lookup_singleton_ne.
Qed.

(** An encoding that knows one rollup. *)
Definition sim_codec (r : AggregateRollup) : Codec AggregateRollup := {|
  marshal := λ r', if decide (r' = r) then Some "rollup" else None;
  unmarshal := λ text, if decide (text = "rollup") then Some r else None |}.

Definition sim_rollup : AggregateRollup :=
  with_InProgress (mergeStored (aggregate (fresh_hour sim_store (sim_world sim_server) "prod" "api" sim_hour)) zero_AggregateRollup) true.

#[local] Instance sim_aggregates : Codec AggregateRollup := sim_codec sim_rollup.

Lemma rolled_up_failure_shows_witness :
  ∃ w' windows,
    does (FailureWindows sim_store "prod" "api" (sim_time - Day) sim_time (sim_time + Day) false) w' (Ok (Some windows)) w' ∧
    Exists (in_incident "eu" "timeout" 1700000123) windows.
Proof.
  assert (location_samples (sim_world sim_server) sim_client "prod" "api" sim_hour = [sim_sample]) as Hsamples by (vm_compute; reflexivity).
  destruct (rolled_up_failure_shows sim_store (sim_world sim_server) "prod" "api" "eu" sim_client
    sim_time sim_time (sim_time + Day) (sim_time - Day) sim_time false false "rollup" sim_sample)
    as (w' & windows & _ & H).
  - by apply sim_healthy.
  - done.
  - done.
  - done.
  - split; vm_compute; [discriminate|reflexivity].
  - split; vm_compute; [discriminate|reflexivity].
  - vm_compute. reflexivity.
  - assert (stored_fields sim_store (sim_world sim_server) "prod" "api" = ∅) as -> by (vm_compute; reflexivity).
    intros f text h H%lookup_empty_Some. destruct H.
  - assert (hours_of sim_store (sim_world sim_server) "prod" "api" (sim_time - Day) sim_time = ∅) as -> by (vm_compute; reflexivity).
    apply map_Forall_empty.
  - unfold punctual. fold sim_hour. rewrite Hsamples. repeat constructor; vm_compute; (discriminate || reflexivity).
  - unfold punctual. assert (location_samples (sim_world sim_server) sim_client "prod" "api" (Unix (Truncate (sim_time + Day) Hour)) = []) as ->
      by (vm_compute; reflexivity). constructor.
  - vm_compute. discriminate.
  - vm_compute. reflexivity.
  - vm_compute. reflexivity.
  - split; vm_compute; discriminate.
  - fold sim_hour. rewrite Hsamples. by left.
  - done.
  - by exists w', windows.
Defined.

Lemma hash_Start key : hash Start key = ∅.
Proof. unfold hash. change (hashes Start) with (∅ : gmap string (gmap string string)). by rewrite lookup_empty. Qed.

Lemma sim_hours_Start d sv from to : hours_of sim_store (sim_world Start) d sv from to = ∅.
Proof. unfold hours_of, stored_fields. change (server_of (sim_world Start) _) with Start. by rewrite hash_Start, map_to_list_empty. Qed.

Lemma sim_samples_Start d sv h : location_samples (sim_world Start) sim_client d sv h = [].
Proof. unfold location_samples. change (server_of (sim_world Start) _) with Start. by rewrite !hash_Start, map_to_list_empty. Qed.

Lemma failed_check_is_an_incident_witness :
  ∃ w' windows,
    does (FailureWindows sim_store "prod" "api" sim_time sim_time sim_time true) w' (Ok (Some windows)) w' ∧
    Exists (in_incident "eu" (message_of "failure" sim_notice) 1700000123) windows.
Proof.
  pose proof (failed_check_is_an_incident id sim_config sim_notifier sim_notice sim_replies
    sim_store (sim_world Start) "eu" sim_client
    eq_refl ltac:(reflexivity) eq_refl ltac:(split; reflexivity || discriminate)
    ltac:(intros; split; vm_compute; reflexivity || discriminate) (sim_healthy Start eq_refl) eq_refl) as H.
  assert ((SendAlertValkey id sim_notifier "failure" sim_notice sim_replies).1.1 = Ok ()) as Hr
    by (vm_compute; reflexivity).
  assert (16 * slen (written (SendAlertValkey id sim_notifier "failure" sim_notice sim_replies).2) ≤ maxAlloc) as Hs
    by (vm_compute; discriminate).
  assert (clock_reads (SendAlertValkey id sim_notifier "failure" sim_notice sim_replies).2 = [sim_time]) as Hc
    by (vm_compute; reflexivity).
  destruct (SendAlertValkey id sim_notifier "failure" sim_notice sim_replies) as [[r net] t].
  destruct (H Hr Hs) as (sent & fuel & out & s' & Hread & _ & _ & Hd). cbn [snd] in Hc.
  rewrite Hc in Hread. injection Hread as <-. cbv zeta in Hd.
  change (service_of sim_notifier sim_notice) with "api" in Hd.
  destruct (Hd "prod" sim_time sim_time sim_time) as (windows & Hdoes & Hex).
  - by left.
  - done.
  - pose proof (Truncate_le sim_time Hour ltac:(done)). lia.
  - rewrite sim_hours_Start. apply map_Forall_empty.
  - unfold punctual. rewrite sim_samples_Start. constructor.
  - rewrite sim_hours_Start, location_hour_total, sim_samples_Start, lookup_empty. vm_compute. discriminate.
  - by exists (<[cl_id sim_client := s']> (sim_world Start)), windows.
Defined.
