(* ===== verification/RunnerServers.v ===== *)
(** * The runner on working servers

    What one step of the runner leaves on servers that answer: an hour rolled
    up is stored, a day rebuilt is the sum of its stored hours, and nothing
    else changes.  [leads] lifts this to the runner's computations, [progress]
    accumulates it over the hours and days of several services. *)

From S2P Require Import Prelude GoStd GoTime Errors Trace Keys Ladder Float64 Rollups RollupProps.
From S2P Require Import Valkey Store StoreProps Runner RunnerProps Resp ValkeyServer EndToEnd Servers StoreServers.

(** ** The store's computations beside the runner's state *)

Section lifting.
Context {R W : Type} `{!Valkey W}.

(** The computation, on the second component. *)
Definition up {A} (m : M command W A) : M command (R * W) A :=
  λ x, let '(a, w, t) := m x.2 in (a, (x.1, w), t).

Definition lifts {A} (m : M command (R * W) A) (m0 : M command W A) : Prop := ∀ x, m x = up m0 x.

Lemma lifts_ret {A} (a : A) : lifts (mret a) (mret a).
Proof. by intros [r w]. Qed.

Lemma lifts_bind {A B} (m : M command (R * W) A) m0 (f : A → M command (R * W) B) f0 :
  lifts m m0 → (∀ a, lifts (f a) (f0 a)) → lifts (m ≫= f) (m0 ≫= f0).
Proof.
  intros Hm Hf x. unfold up, mbind, M_bind. rewrite Hm. unfold up. destruct (m0 x.2) as [[a w1] t].
  rewrite Hf. unfold up. cbn [fst snd]. by destruct (f0 a w1) as [[b w2] t'].
Qed.

Lemma lifts_commands c key field value seconds :
  lifts (hgetall c key) (hgetall c key) ∧ lifts (hget c key field) (hget c key field) ∧
  lifts (Valkey.hset c key field value) (Valkey.hset c key field value) ∧
  lifts (hexpire c key seconds field) (hexpire c key seconds field) ∧
  lifts (Valkey.hdel c key field) (Valkey.hdel c key field) ∧ lifts (persist c key) (persist c key).
Proof.
  split_and!; intros [r w]; unfold up, hgetall, hget, Valkey.hset, hexpire, Valkey.hdel, persist; cbn.
  - by destruct (vk_Hgetall c key w).
  - by destruct (vk_Hget c key field w).
  - by destruct (vk_Hset c key field value w).
  - by destruct (vk_Hexpire c key seconds field w).
  - by destruct (vk_Hdel c key field w).
  - by destruct (vk_Persist c key w).
Qed.
End lifting.

Ltac lift_step :=
  match goal with
  | |- lifts (mret _) _ => apply lifts_ret
  | |- lifts (_ ≫= _) _ => apply lifts_bind; [|intros ?]
  | |- lifts (hgetall _ _) _ => apply (lifts_commands _ _ "" "" 0)
  | |- lifts (hget _ _ _) _ => apply (lifts_commands _ _ _ "" 0)
  | |- lifts (Valkey.hset _ _ _ _) _ => apply (lifts_commands _ _ _ _ 0)
  | |- lifts (hexpire _ _ _ _) _ => apply (lifts_commands _ _ _ "" _)
  | |- lifts (Valkey.hdel _ _ _) _ => apply (lifts_commands _ _ _ "" 0)
  | |- lifts (persist _ _) _ => apply (lifts_commands _ _ "" "" 0)
  | |- lifts (match ?x with _ => _ end) _ => destruct x
  | |- lifts (if ?x then _ else _) _ => destruct x
  end.

Section lifted.
Context {R W : Type} `{!Valkey W, !Codec AggregateRollup, !Codec DailyRollup}.
Variable s : Store.

Lemma lifts_ComputeLocationRollup name d sv hour :
  lifts (R:=R) (ComputeLocationRollup s name d sv hour) (ComputeLocationRollup (W:=W) s name d sv hour).
Proof. unfold ComputeLocationRollup. repeat lift_step. Qed.

Lemma lifts_compute_loop d sv hour names per missing failed :
  lifts (R:=R) (compute_loop s d sv hour names per missing failed) (compute_loop (W:=W) s d sv hour names per missing failed).
Proof.
  revert per missing failed. induction names as [|n names IH]; intros per missing failed; cbn [compute_loop]; [apply lifts_ret|].
  apply lifts_bind; [apply lifts_ComputeLocationRollup|]. intros []; apply IH.
Qed.

Lemma lifts_computeAggregate d sv hour :
  lifts (R:=R) (computeAggregate s d sv hour) (computeAggregate (W:=W) s d sv hour).
Proof. unfold computeAggregate. apply lifts_bind; [apply lifts_compute_loop|]. intros [[? ?] ?]. apply lifts_ret. Qed.

Lemma lifts_writeExpiring key field value expiresAt now :
  lifts (R:=R) (writeExpiring s key field value expiresAt now) (writeExpiring (W:=W) s key field value expiresAt now).
Proof. unfold writeExpiring. repeat lift_step. Qed.

Lemma lifts_RollupHour d sv hour now mark :
  lifts (R:=R) (RollupHour s d sv hour now mark) (RollupHour (W:=W) s d sv hour now mark).
Proof.
  unfold RollupHour. lift_step; [apply lifts_ret|]. apply lifts_bind; [apply lifts_computeAggregate|]. intros [agg failed].
  lift_step; [lift_step|]. lift_step; [|lift_step]. lift_step; [repeat lift_step..|].
  lift_step; [|lift_step]. apply lifts_bind; [apply lifts_writeExpiring|]. intros. lift_step.
Qed.

Lemma lifts_GetAggregateRollups d sv from to :
  lifts (R:=R) (GetAggregateRollups s d sv from to) (GetAggregateRollups (W:=W) s d sv from to).
Proof. unfold GetAggregateRollups. repeat lift_step. Qed.

Lemma lifts_GetDailyRollups d sv from to :
  lifts (R:=R) (GetDailyRollups s d sv from to) (GetDailyRollups (W:=W) s d sv from to).
Proof. unfold GetDailyRollups. repeat lift_step. Qed.

Lemma lifts_expireFields key now expiry :
  lifts (R:=R) (expireFields s key now expiry) (expireFields (W:=W) s key now expiry).
Proof.
  unfold expireFields. apply lifts_bind.
  { intros [r w]. unfold up, hkeys. cbn. by destruct (vk_Hkeys _ key w). }
  intros [fields|e]; [|lift_step]. apply lifts_bind; [|intros; repeat lift_step].
  induction fields as [|f fields IH]; cbn [expire_each]; [lift_step|]. repeat lift_step; done.
Qed.

Lemma lifts_ExpireRollupFields d sv now :
  lifts (R:=R) (ExpireRollupFields s d sv now) (ExpireRollupFields (W:=W) s d sv now).
Proof. unfold ExpireRollupFields. apply lifts_bind; [apply lifts_expireFields|]. intros. repeat lift_step. apply lifts_expireFields. Qed.

Lemma lifts_UpdateDailyRollup d sv day now :
  lifts (R:=R) (UpdateDailyRollup s d sv day now) (UpdateDailyRollup (W:=W) s d sv day now).
Proof.
  unfold UpdateDailyRollup, WriteDailyRollup. apply lifts_bind; [apply lifts_GetAggregateRollups|]. intros r.
  repeat lift_step. apply lifts_writeExpiring.
Qed.

Lemma lifts_union key : lifts (R:=R) (union s key) (union (W:=W) s key).
Proof.
  unfold union. apply lifts_bind; [|intros [? ?]; repeat lift_step].
  generalize (LocationNames s) (∅ : gset string) (@nil string) (@nil error). intros names. induction names as [|n names IH]; intros; cbn [union_loop]; [lift_step|].
  lift_step; [|apply IH]. apply lifts_bind.
  - intros [r w]. unfold up, smembers. cbn. by destruct (vk_Smembers _ key w).
  - intros [items|e]; [|apply IH]. destruct (add_items _ _ items). apply IH.
Qed.
End lifted.

(** ** Deleting a field *)

Definition drop_field (key field : string) (s : Server) : Server :=
  match hash s key !! field with Some _ => ValkeyServer.hdel s key field | None => s end.

Lemma hash_del s key key' : hash (del s key) key' = if decide (key = key') then ∅ else hash s key'.
Proof.
  unfold hash, del. cbn [hashes]. case_decide as E; [subst; by rewrite lookup_delete_eq|by rewrite lookup_delete_ne].
Qed.

Lemma hash_hdel s key field key' :
  hash (ValkeyServer.hdel s key field) key' = if decide (key = key') then delete field (hash s key') else hash s key'.
Proof.
  unfold ValkeyServer.hdel. set (s1 := with_fieldTTL _ _).
  assert (hash s1 key' = if decide (key = key') then delete field (hash s key') else hash s key') as E.
  { unfold hash, s1. cbn [hashes with_fieldTTL with_hashes]. case_decide as Ek.
    - subst key'. rewrite lookup_alter_eq. destruct (hashes s !! key) as [fields|]; cbn; [done|by rewrite delete_empty].
    - by rewrite lookup_alter_ne. }
  case_bool_decide as Hs; [|done]. rewrite hash_del, E. case_decide as Ek; [|done].
  subst key'. by rewrite <-E, Hs.
Qed.

Lemma hash_drop_field s key field key' :
  hash (drop_field key field s) key' = if decide (key = key') then delete field (hash s key') else hash s key'.
Proof.
  unfold drop_field. destruct (hash s key !! field) eqn:E; [apply hash_hdel|]. case_decide as Ek; [|done].
  subst key'. by rewrite delete_id.
Qed.

Lemma set_del s key key' : set_ (del s key) key' = if decide (key = key') then ∅ else set_ s key'.
Proof.
  unfold set_, del. cbn [sets]. case_decide as E; [subst; by rewrite lookup_delete_eq|by rewrite lookup_delete_ne].
Qed.

Lemma set_drop_field s key field key' : key ≠ key' → set_ (drop_field key field s) key' = set_ s key'.
Proof.
  intros Hne. unfold drop_field, ValkeyServer.hdel. repeat case_match; try done; by rewrite set_del, decide_False.
Qed.

Lemma failures_drop_field s key field : failures (drop_field key field s) = failures s.
Proof. unfold drop_field, ValkeyServer.hdel. repeat case_match; done. Qed.

#[export] Instance hdel_proper : Proper ((≡) ==> (=) ==> (=) ==> (≡)) ValkeyServer.hdel.
Proof.
  intros s s' (Hh & Hs & Hk & Hf & Hl) key _ <- field _ <-. unfold ValkeyServer.hdel. cbn zeta.
  assert (hash (with_fieldTTL (with_hashes s (alter (delete field) key (hashes s))) (alter (delete field) key (fieldTTL s))) key =
    hash (with_fieldTTL (with_hashes s' (alter (delete field) key (hashes s'))) (alter (delete field) key (fieldTTL s'))) key) as E.
  { unfold hash. cbn [hashes with_fieldTTL with_hashes]. by rewrite Hh. }
  cbn [fieldTTL with_hashes] in *. rewrite E. case_bool_decide; split_and!; simpl; congruence.
Qed.

#[export] Instance drop_field_proper : Proper ((=) ==> (=) ==> (≡) ==> (≡)) drop_field.
Proof.
  intros key _ <- field _ <- s s' H. unfold drop_field. rewrite (hash_proper _ _ H key _ eq_refl).
  destruct (hash s' key !! field); [by rewrite H|done].
Qed.

Lemma does_hdel w c key field :
  healthy w → does (Valkey.hdel c key field) w None (change c (drop_field key field) w).
Proof.
  intros Hw. unfold does, Valkey.hdel, vk_Hdel, Valkey_servers, call, error_of.
  erewrite (exec_data w Hw c); [|reflexivity|reflexivity|set_solver].
  set (s := server_of w c).
  change (data_command (log_command s ["HDEL"; key; field]) "HDEL" ["HDEL"; key; field]) with
    (let '(n, s) := hdel_step key (0, log_command s ["HDEL"; key; field]) field in Some (RInt n, s)).
  assert (hdel_step key (0, log_command s ["HDEL"; key; field]) field =
    (match hash s key !! field with Some _ => 1 | None => 0 end, drop_field key field (log_command s ["HDEL"; key; field]))) as ->.
  { unfold hdel_step, drop_field. change (hash (log_command s ["HDEL"; key; field]) key) with (hash s key).
    by destruct (hash s key !! field). }
  eexists. split; [reflexivity|]. apply (changed_log w c (drop_field key field) (drop_field key field)).
  intros s0. by apply drop_field_proper.
Qed.

(** ** What one step changes *)

Lemma aligned_hour t k : of_Unix (Unix (Truncate t Hour - k * Hour)) = Truncate t Hour - k * Hour.
Proof.
  rewrite Truncate_hour. unfold of_Unix, Unix. change Hour with (3600 * Second).
  replace (t `div` (3600 * Second) * (3600 * Second) - k * (3600 * Second))
    with (((t `div` (3600 * Second) - k) * 3600) * Second) by lia.
  by rewrite Z.div_mul.
Qed.

(** Nothing is different under another key. *)
Definition only (key : string) (w w' : Servers) : Prop :=
  ∀ c k, k ≠ key → hash (server_of w' c) k = hash (server_of w c) k ∧ set_ (server_of w' c) k = set_ (server_of w c) k.

Lemma only_change c f key w :
  (∀ s k, k ≠ key → hash (f s) k = hash s k ∧ set_ (f s) k = set_ s k) → only key w (change c f w).
Proof. intros Hf c' k Hk. rewrite !server_of_change. case_decide; [by apply Hf|done]. Qed.

Lemma only_put c key field value ttl w : only key w (change c (put key field value ttl) w).
Proof. apply only_change. intros s k Hk. split; [|done]. by rewrite hash_put, decide_False. Qed.

Lemma only_drop_field c key field w : only key w (change c (drop_field key field) w).
Proof. apply only_change. intros s k Hk. by rewrite hash_drop_field, set_drop_field, decide_False. Qed.

(** ** One hour *)

Section hour.
Context `{CA : !Codec AggregateRollup, CD : !Codec DailyRollup}.
Variable s : Store.
Variable at_ : time.

(** The stored text of an hour. *)
Definition text (w : Servers) (d sv : string) (h : Z) : option string := stored_fields s w d sv !! FormatInt h.

(** What rolling the hour up makes of it: the merged rollup, or, without any
    samples, nothing instead of a placeholder. *)
Definition rolled_text (w : Servers) (d sv : string) (h : Z) : option string :=
  let m := merged_hour s w d sv h in
  if decide (PerLocation m = ∅) then
    if placeholder (stored_hour s w d sv h) then None else text w d sv h
  else marshal (with_InProgress m (Before at_ (Add (of_Unix h) Hour))).

Lemma does_RollupHour_nothing w d sv hour now mark :
  healthy w → After (hour_expiry s hour) now = true → PerLocation (merged_hour s w d sv (Unix hour)) = ∅ →
  ∃ r, does (RollupHour s d sv hour now mark) w (r, None)
    (if placeholder (stored_hour s w d sv (Unix hour))
     then change (primary s) (drop_field (RollupAggregateHour d sv) (FormatInt (Unix hour))) w else w) ∧
    hr_Missing r = ∅ ∧ Written r = false.
Proof.
  intros Hw Hx He. exists {| Written := false; hr_Missing := ∅ |}. split; [|done]. unfold RollupHour. rewrite Hx. cbn [negb].
  eapply does_bind; [by apply does_computeAggregate|]. intros w1 H1. cbv beta iota zeta.
  destruct (does_hget_stored s w1 d sv (Unix hour)) as (answer & Ha & Hs); [by rewrite H1|].
  eapply does_bind; [exact Ha|]. intros w2 H2. cbv beta. rewrite Hs.
  rewrite (stored_hour_proper s _ _ H1 d _ eq_refl sv _ eq_refl (Unix hour) _ eq_refl).
  fold (merged_hour s w d sv (Unix hour)). unfold plan_hour. rewrite decide_True by done.
  change (is_nil (Missing (merged_hour s w d sv (Unix hour)))) with true. rewrite andb_true_r. cbn [orb].
  destruct (placeholder (stored_hour s w d sv (Unix hour))).
  - eapply does_bind; [apply does_hdel; by rewrite H2, H1|]. intros w3 H3. eapply does_equiv; [apply does_ret|].
    rewrite H3. apply change_equiv; [intros s1 s2 Hs12; by rewrite Hs12|by rewrite H2, H1].
  - eapply does_equiv; [apply does_ret|by rewrite H2, H1].
Qed.

Hypothesis marshal_hour : ∀ r : AggregateRollup, all_finite r = true → is_Some (marshal r).

(** Rolling up an hour changes its stored text, and nothing else that is
    read. *)
Lemma does_RollupHour_text w d sv hour mark :
  healthy w → of_Unix (Unix hour) = hour → 0 < seconds_until (hour_expiry s hour) at_ →
  all_finite (merged_hour s w d sv (Unix hour)) = true →
  ∃ r w', does (RollupHour s d sv hour at_ mark) w (r, None) w' ∧ hr_Missing r = ∅ ∧
    Written r = bool_decide (PerLocation (merged_hour s w d sv (Unix hour)) ≠ ∅) ∧ healthy w' ∧
    only (RollupAggregateHour d sv) w w' ∧
    text w' d sv (Unix hour) = rolled_text w d sv (Unix hour) ∧
    ∀ h, FormatInt h ≠ FormatInt (Unix hour) → text w' d sv h = text w d sv h.
Proof.
  intros Hw Ha Ht Hfin. unfold rolled_text. rewrite Ha. set (h := Unix hour) in *.
  destruct (decide (PerLocation (merged_hour s w d sv h) = ∅)) as [He|He].
  - destruct (does_RollupHour_nothing w d sv hour at_ mark Hw) as (r & Hr & Hm & Hwr); [|done|].
    { unfold After. by apply Z.ltb_lt, seconds_until_pos. }
    fold h in Hr. eexists r, _. split; [exact Hr|]. split; [done|]. split; [rewrite Hwr; symmetry; by apply bool_decide_false; intros Hc|].
    destruct (placeholder (stored_hour s w d sv h)); [|by split_and!].
    split_and!.
    + apply healthy_change; [|done]. intros. apply failures_drop_field.
    + apply only_drop_field.
    + unfold text, stored_fields. rewrite server_of_change, decide_True, hash_drop_field, decide_True by done. apply lookup_delete_eq.
    + intros h' Hh. unfold text, stored_fields. rewrite server_of_change, decide_True, hash_drop_field, decide_True by done.
      by rewrite lookup_delete_ne.
  - destruct (marshal_hour (with_InProgress (merged_hour s w d sv h) (Before at_ (Add hour Hour))) Hfin) as [data Hd].
    eexists _, _. split; [by apply (does_RollupHour s w d sv hour at_ mark data)|]. split; [done|].
    split; [symmetry; by apply bool_decide_true|]. rewrite Hd. split_and!.
    + by apply healthy_change.
    + apply only_put.
    + unfold text, stored_fields. rewrite server_of_change, decide_True, hash_put, decide_True by done. apply lookup_insert_eq.
    + intros h' Hh. unfold text, stored_fields. rewrite server_of_change, decide_True, hash_put, decide_True by done.
      by rewrite lookup_insert_ne.
Qed.
End hour.

(** ** One day *)

Section day.
Context `{CA : !Codec AggregateRollup, CD : !Codec DailyRollup}.
Variable s : Store.

(** The stored fields of a service's days. *)
Definition daily_fields (w : Servers) (d sv : string) : gmap string string :=
  hash (server_of w (primary s)) (RollupDaily d sv).

(** The sum of the hours the primary holds of the day; [None] without any
    checks. *)
Definition day_sum (w : Servers) (d sv : string) (day : time) : option DailyRollup :=
  dr ← computeDailyFromHours (hours_of s w d sv day (Add day (24 * Hour - Second))) !! FormatDate day;
  if 0 <? dr_Total dr then Some dr else None.

#[export] Instance day_sum_proper : Proper (same_servers ==> (=) ==> (=) ==> (=) ==> (=)) day_sum.
Proof.
  intros w w' H d _ <- sv _ <- day _ <-. unfold day_sum. by rewrite (hours_of_proper s _ _ H d _ eq_refl sv _ eq_refl day _ eq_refl _ _ eq_refl).
Qed.

(** What a day holds once it is rebuilt, [old] before. *)
Definition rebuilt (w : Servers) (d sv : string) (day : time) (old : option string) : option string :=
  match day_sum w d sv day with Some dr => marshal dr | None => old end.

Lemma does_UpdateDailyRollup w d sv day now :
  (∀ r : DailyRollup, is_Some (marshal r)) → healthy w →
  0 < seconds_until (Add (Truncate day (24 * Hour)) dailyRetention) now →
  let from := Truncate day (24 * Hour) in
  ∃ b w', does (UpdateDailyRollup s d sv day now) w (b, None) w' ∧ healthy w' ∧ only (RollupDaily d sv) w w' ∧
    daily_fields w' d sv !! FormatDate from = rebuilt w d sv from (daily_fields w d sv !! FormatDate from) ∧
    ∀ f, f ≠ FormatDate from → daily_fields w' d sv !! f = daily_fields w d sv !! f.
Proof.
  intros Hm Hw Ht from. unfold UpdateDailyRollup. fold from. fold from in Ht. unfold rebuilt, day_sum.
  set (to := Add from (24 * Hour - Second)).
  pose proof (does_GetAggregateRollups s w d sv from to Hw) as Hg.
  destruct (computeDailyFromHours (hours_of s w d sv from to) !! FormatDate from) as [dr|] eqn:Ec; cbn [mbind option_bind].
  2:{ eexists _, w. split; [|by split_and!]. eapply does_bind; [exact Hg|]. intros w1 H1. cbv beta iota. rewrite Ec.
      eapply does_equiv; [apply does_ret|done]. }
  destruct (0 <? dr_Total dr) eqn:Et.
  2:{ eexists _, w. split; [|by split_and!]. eapply does_bind; [exact Hg|]. intros w1 H1. cbv beta iota. rewrite Ec, Et.
      eapply does_equiv; [apply does_ret|done]. }
  destruct (Hm dr) as [data Hd]. set (ttl := seconds_until (Add from dailyRetention) now) in *.
  exists true, (change (primary s) (put (RollupDaily d sv) (FormatDate from) data ttl) w). split_and!.
  - eapply does_bind; [exact Hg|]. intros w1 H1. cbv beta iota. rewrite Ec, Et. unfold WriteDailyRollup. rewrite Hd.
    eapply does_bind.
    { eapply does_bind; [apply does_writeExpiring; [by rewrite H1|done]|]. intros w2 H2. eapply does_equiv; [apply does_ret|exact H2]. }
    intros w2 H2. eapply does_equiv; [apply does_ret|]. rewrite H2. apply change_equiv; [by intros ?? ->|done].
  - by apply healthy_change.
  - apply only_put.
  - unfold daily_fields. rewrite server_of_change, decide_True, hash_put, decide_True by done. rewrite lookup_insert_eq. by rewrite Hd.
  - intros f Hf. unfold daily_fields. rewrite server_of_change, decide_True, hash_put, decide_True by done. by rewrite lookup_insert_ne.
Qed.
End day.

(** ** Listing *)

Section listing.
Context `{CA : !Codec AggregateRollup, CD : !Codec DailyRollup}.
Variable s : Store.

(** The items of a set, each once, in the order the locations list them. *)
Definition listing_from (w : Servers) (key : string) (names : list string) (acc : gset string * list string)
  : gset string * list string :=
  foldl (λ acc name,
    match locations s !! name with
    | Some c => add_items acc.1 acc.2 (merge_sort String.le (elements (set_ (server_of w c) key)))
    | None => acc
    end) acc names.

Definition listing (w : Servers) (key : string) : list string := (listing_from w key (LocationNames s) (∅, [])).2.

(** Some location has the item in its set. *)
Definition listed (w : Servers) (key x : string) : Prop :=
  ∃ name c, locations s !! name = Some c ∧ x ∈ set_ (server_of w c) key.

Lemma listing_from_ext w w' key names acc :
  (∀ c, set_ (server_of w' c) key = set_ (server_of w c) key) → listing_from w' key names acc = listing_from w key names acc.
Proof.
  intros H. unfold listing_from. revert acc. induction names as [|n names IH]; intros acc; cbn [foldl]; [done|].
  rewrite IH. destruct (locations s !! n); by rewrite ?H.
Qed.

Lemma listing_from_spec w key names acc :
  (∀ x, x ∈ acc.2 ↔ x ∈ acc.1) → NoDup acc.2 →
  let out := (listing_from w key names acc).2 in
  NoDup out ∧ ∀ x, x ∈ out ↔ x ∈ acc.2 ∨ ∃ name c, name ∈ names ∧ locations s !! name = Some c ∧ x ∈ set_ (server_of w c) key.
Proof.
  revert acc. induction names as [|n names IH]; intros [seen out] Hs Hn; cbn [fst snd] in *.
  { split; [done|]. intros x. split; [by left|]. intros [?|(? & ? & ?%elem_of_nil & _)]; done. }
  unfold listing_from. cbn [foldl]. fold (listing_from w key names). destruct (locations s !! n) as [c|] eqn:Ec.
  - cbn [fst snd]. pose proof (add_items_spec seen out (merge_sort String.le (elements (set_ (server_of w c) key))) Hs Hn) as Ha.
    destruct (add_items _ _ _) as [seen' out']. destruct Ha as (Hs' & Hn' & Hx & _).
    destruct (IH (seen', out') Hs' Hn') as [H1 H2]. split; [exact H1|]. intros x. rewrite H2. cbn [snd].
    rewrite Hx, merge_sort_Permutation, elem_of_elements. split.
    + intros [[?|?]|(n' & c' & ? & ? & ?)]; [by left|right; exists n, c; by split; [left|]|right; exists n', c'; by split; [right|]].
    + intros [?|(n' & c' & [->|Hin]%elem_of_cons & Hc & ?)]; [by left; left| |right; by exists n', c'].
      rewrite Ec in Hc. injection Hc as ->. left. by right.
  - destruct (IH (seen, out) Hs Hn) as [H1 H2]. split; [exact H1|]. intros x. rewrite H2. cbn [snd]. split.
    + intros [?|(n' & c' & ? & ?)]; [by left|right; exists n', c'; by split; [right|]].
    + intros [?|(n' & c' & [->|Hin]%elem_of_cons & Hc & ?)]; [by left|congruence|right; by exists n', c'].
Qed.

Lemma listing_spec w key : NoDup (listing w key) ∧ ∀ x, x ∈ listing w key ↔ listed w key x.
Proof.
  destruct (listing_from_spec w key (LocationNames s) (∅, [])) as [H1 H2]; [set_solver|constructor|].
  split; [exact H1|]. intros x. unfold listing. rewrite H2. cbn [snd]. split.
  - intros [?%elem_of_nil|(n & c & _ & ? & ?)]; [done|by exists n, c].
  - intros (n & c & Hc & Hx). right. exists n, c. split; [|done]. apply LocationNames_spec. by rewrite Hc.
Qed.

Lemma does_union_loop w key names seen out :
  healthy w → does (union_loop s key names seen out []) w ((listing_from w key names (seen, out)).2, []) w.
Proof.
  intros Hw. revert seen out. assert (∀ w1 seen out, w1 ≃ w →
    does (union_loop s key names seen out []) w1 ((listing_from w key names (seen, out)).2, []) w) as H; [|intros; by apply H].
  induction names as [|n names IH]; intros w1 seen out H1; cbn [union_loop].
  { eapply does_equiv; [apply does_ret|done]. }
  unfold listing_from. cbn [foldl]. fold (listing_from w key names). destruct (locations s !! n) as [c|]; [|by apply IH].
  assert (does (smembers c key) w1 (Ok (merge_sort String.le (elements (set_ (server_of w1 c) key)))) w1) as Hm.
  { apply does_smembers. by rewrite H1. }
  eapply does_bind; [exact Hm|]. intros w2 H2. cbv beta iota.
  rewrite (set_proper _ _ (H1 c) key _ eq_refl). cbn [fst snd]. destruct (add_items seen out _) as [seen' out'].
  apply IH. by rewrite H2.
Qed.

Lemma does_union w key :
  healthy w → locations s ≠ ∅ → does (union s key) w (Ok (listing w key)) w.
Proof.
  intros Hw Hl. unfold union. eapply does_bind; [by apply does_union_loop|]. intros w1 H1. cbv beta iota.
  assert (size (locations s) ≠ 0%nat) as Hs by (by rewrite map_size_non_empty_iff).
  change (len (@nil error)) with 0. rewrite (proj2 (Z.eqb_neq _ _)) by lia.
  eapply does_equiv; [apply does_ret|done].
Qed.

(** The services of all dashboards. *)
Definition services_listed (w : Servers) : list (string * string) :=
  listing w Dashboards ≫= λ d, (d,.) <$> listing w (Services d).

Lemma services_listed_spec w d sv :
  (d, sv) ∈ services_listed w ↔ listed w Dashboards d ∧ listed w (Services d) sv.
Proof.
  unfold services_listed. rewrite list_elem_of_bind. rewrite <-(proj2 (listing_spec w _)), <-(proj2 (listing_spec w (Services d))). split.
  - intros (d' & (sv' & [= -> ->] & Hs)%list_elem_of_fmap & Hd). done.
  - intros [Hd Hs]. exists d. split; [|done]. apply list_elem_of_fmap. by exists sv.
Qed.

Lemma services_listed_NoDup w : NoDup (services_listed w).
Proof.
  unfold services_listed. destruct (listing_spec w Dashboards) as [Hd _]. induction Hd as [|d ds Hn _ IH]; [constructor|].
  rewrite bind_cons. apply NoDup_app. split_and!; [|intros [d' sv]|done].
  - apply NoDup_fmap; [by intros ? ? [= ->]|]. apply listing_spec.
  - intros Hin1 (d2 & (sv2 & E2 & _)%list_elem_of_fmap & Hin)%list_elem_of_bind.
    apply list_elem_of_fmap in Hin1 as (sv1 & E1 & _). by simplify_eq.
Qed.
End listing.

(** ** The runner's computations *)

(** The runner's state stays as it is, and the computation ends in [Q]. *)
Definition leads {A} (m : M command (Runner * Servers) A) (w : Servers) (Q : A → Servers → Prop) : Prop :=
  ∀ r, ∃ a w1, (m (r, w)).1 = (a, (r, w1)) ∧ Q a w1.

Lemma leads_ret {A} (a : A) w (Q : A → Servers → Prop) : Q a w → leads (mret a) w Q.
Proof. intros H r. by exists a, w. Qed.

Lemma leads_bind {A B} (m : M command (Runner * Servers) A) (f : A → M command (Runner * Servers) B) w Q R :
  leads m w Q → (∀ a w1, Q a w1 → leads (f a) w1 R) → leads (m ≫= f) w R.
Proof.
  intros Hm Hf r. destruct (Hm r) as (a & w1 & E & HQ). destruct (Hf a w1 HQ r) as (b & w2 & E' & HR).
  exists b, w2. split; [|done]. unfold mbind, M_bind. destruct (m (r, w)) as [p t]. cbn [fst] in E. subst p.
  destruct (f a (r, w1)) as [q t']. cbn [fst] in E'. by subst q.
Qed.

Lemma leads_mono {A} (m : M command (Runner * Servers) A) w (Q R : A → Servers → Prop) :
  leads m w Q → (∀ a w1, Q a w1 → R a w1) → leads m w R.
Proof. intros Hm HQ r. destruct (Hm r) as (a & w1 & E & H). exists a, w1. split; [done|by apply HQ]. Qed.

(** Going on from a computation that leads somewhere. *)
Lemma leads_run {A B} (m : M command (Runner * Servers) A) (f : A → M command (Runner * Servers) B) w Q r :
  leads m w Q → ∃ a w1, Q a w1 ∧ ((m ≫= f) (r, w)).1 = (f a (r, w1)).1.
Proof.
  intros Hm. destruct (Hm r) as (a & w1 & E & HQ). exists a, w1. split; [done|].
  unfold mbind, M_bind. destruct (m (r, w)) as [p t]. cbn [fst] in E. subst p.
  by destruct (f a (r, w1)) as [[b w2] t'].
Qed.

Lemma leads_step {A B} (m : M command (Runner * Servers) A) (f : A → M command (Runner * Servers) B) w Q r (P : B * (Runner * Servers) → Prop) :
  leads m w Q → (∀ a w1, Q a w1 → P (f a (r, w1)).1) → P ((m ≫= f) (r, w)).1.
Proof. intros Hm Hf. destruct (leads_run m f w Q r Hm) as (a & w1 & HQ & ->). by apply Hf. Qed.

Lemma leads_lift {A} (m : M command (Runner * Servers) A) m0 w a w' :
  lifts m m0 → does m0 w a w' → leads m w (λ b w1, b = a ∧ w1 ≃ w').
Proof.
  intros Hl (w1 & E & H) r. exists a, w1. split; [|done]. rewrite Hl. unfold up. cbn [fst snd].
  destruct (m0 w) as [p t]. cbn [fst] in E. by subst p.
Qed.

Section steps.
Context `{CA : !Codec AggregateRollup, CD : !Codec DailyRollup}.
Variable s : Store.
Variable at_ : time.
Hypothesis marshal_hour : ∀ r : AggregateRollup, all_finite r = true → is_Some (marshal r).
Hypothesis marshal_day : ∀ r : DailyRollup, is_Some (marshal r).

Lemma leads_rollupServiceHour w d sv hour mark r w' :
  does (RollupHour s d sv hour at_ mark) w (r, None) w' → hr_Missing r = ∅ →
  leads (rollupServiceHour (W:=Servers) s d sv hour at_ mark) w (λ a w1, a = (r, None) ∧ w1 ≃ w').
Proof.
  intros Hd Hm. unfold rollupServiceHour. eapply leads_bind; [eapply leads_lift; [apply lifts_RollupHour|exact Hd]|].
  intros a w1 [-> E]. cbn [fst snd]. rewrite Hm. rewrite bool_decide_false by (intros H; by apply H). by apply leads_ret.
Qed.

Lemma leads_updateDaily w d sv day b w' :
  does (UpdateDailyRollup s d sv day at_) w (b, None) w' →
  leads (updateDaily (W:=Servers) s d sv day at_) w (λ a w1, a = (b, None) ∧ w1 ≃ w').
Proof.
  intros Hd. unfold updateDaily. eapply leads_bind; [eapply leads_lift; [apply lifts_UpdateDailyRollup|exact Hd]|].
  intros a w1 [-> E]. by apply leads_ret.
Qed.

(** *** Progress over several services *)

(** Names without a colon. *)
Definition plain_names (names : list (string * string)) : Prop :=
  Forall (λ p, has_byte ":" p.1 = false ∧ has_byte ":" p.2 = false) names.

Definition written_keys (names : list (string * string)) : list string :=
  ((λ p, RollupAggregateHour p.1 p.2) <$> names) ++ ((λ p, RollupDaily p.1 p.2) <$> names).

Variable names : list (string * string).
Hypothesis names_plain : plain_names names.

Lemma name_plain d sv : (d, sv) ∈ names → has_byte ":" d = false ∧ has_byte ":" sv = false.
Proof. apply (proj1 (Forall_forall _ _) names_plain (d, sv)). Qed.

Lemma written_key key :
  key ∈ written_keys names →
  ∃ d sv, (d, sv) ∈ names ∧ has_byte ":" d = false ∧ has_byte ":" sv = false ∧ (key = key_of (PHourly d sv) ∨ key = key_of (PDaily d sv)).
Proof.
  intros [([d sv] & -> & H)%list_elem_of_fmap|([d sv] & -> & H)%list_elem_of_fmap]%elem_of_app;
    (exists d, sv; destruct (name_plain d sv H); split_and!; [done..|]); [by left|by right].
Qed.

Lemma elsewhere p : plain p → (∀ d sv, p ≠ PHourly d sv ∧ p ≠ PDaily d sv) → key_of p ∉ written_keys names.
Proof.
  intros Hp Hne (d & sv & _ & Hd & Hs & [E|E])%written_key; destruct (Hne d sv) as [H1 H2]; [apply H1|apply H2]; by apply key_of_inj.
Qed.

(** How far the runner has come: the hours in [D] are rolled up, then the days
    in [E] rebuilt, the others are as they were, and so is everything else. *)
Record progress (D : string → string → Z → Prop) (E : string → string → time → Prop) (w0 w : Servers) : Prop := {
  pr_healthy : healthy w;
  pr_other : ∀ c key, key ∉ written_keys names →
    hash (server_of w c) key = hash (server_of w0 c) key ∧ set_ (server_of w c) key = set_ (server_of w0 c) key;
  pr_text : ∀ d sv h, (d, sv) ∈ names → is_int64 h →
    (D d sv h → text s w d sv h = rolled_text s at_ w0 d sv h) ∧
    (¬ D d sv h → text s w d sv h = text s w0 d sv h);
  pr_days : ∀ d sv, (d, sv) ∈ names →
    (∀ day, E d sv day →
       daily_fields s w d sv !! FormatDate day = rebuilt s w d sv day (daily_fields s w0 d sv !! FormatDate day)) ∧
    (∀ f, (∀ day, E d sv day → FormatDate day ≠ f) → daily_fields s w d sv !! f = daily_fields s w0 d sv !! f) }.

Lemma progress_start w : healthy w → progress (λ _ _ _, False) (λ _ _ _, False) w w.
Proof. intros Hw. split; [done..| |]; [intros d sv h _ _|intros d sv _]; by split. Qed.

Lemma progress_equiv D E w0 w w' : w ≃ w' → progress D E w0 w → progress D E w0 w'.
Proof.
  intros Ew [Hh Ho Ht Hd]. split.
  - by rewrite <-Ew.
  - intros c key Hk. rewrite <-(hash_proper _ _ (Ew c) key _ eq_refl), <-(set_proper _ _ (Ew c) key _ eq_refl). by apply Ho.
  - intros d sv h Hn Hi. unfold text. rewrite <-(stored_fields_proper s _ _ Ew d _ eq_refl sv _ eq_refl). by apply Ht.
  - intros d sv Hn. assert (daily_fields s w' d sv = daily_fields s w d sv) as ->.
    { unfold daily_fields. symmetry. apply hash_proper; [apply Ew|done]. }
    unfold rebuilt. destruct (Hd d sv Hn) as [H1 H2]. split; [|done]. intros day He.
    rewrite <-(day_sum_proper s _ _ Ew d _ eq_refl sv _ eq_refl day _ eq_refl). by apply H1.
Qed.

Lemma progress_iff D D' E E' w0 w :
  (∀ d sv h, (d, sv) ∈ names → is_int64 h → D d sv h ↔ D' d sv h) →
  (∀ d sv day, (d, sv) ∈ names → E d sv day ↔ E' d sv day) → progress D E w0 w → progress D' E' w0 w.
Proof.
  intros HD HE [Hh Ho Ht Hd]. split; [done|done| |].
  - intros d sv h Hn Hi. destruct (Ht d sv h Hn Hi) as [H1 H2].
    split; [intros H; apply H1; by apply HD|intros H; apply H2; by rewrite HD].
  - intros d sv Hn. destruct (Hd d sv Hn) as [H1 H2]. split; [intros day He; apply H1; by apply HE|].
    intros f Hf. apply H2. intros day He. apply Hf. by apply HE.
Qed.

Lemma progress_hours D D' E w0 w :
  (∀ d sv h, (d, sv) ∈ names → is_int64 h → D d sv h ↔ D' d sv h) → progress D E w0 w → progress D' E w0 w.
Proof. intros HD. by apply progress_iff. Qed.

(** What is computed of an hour depends on its samples and its text only. *)
Lemma hour_unchanged w0 w d sv h :
  (∀ c key, key ∉ written_keys names →
     hash (server_of w c) key = hash (server_of w0 c) key ∧ set_ (server_of w c) key = set_ (server_of w0 c) key) →
  (d, sv) ∈ names → is_int64 h → text s w d sv h = text s w0 d sv h →
  merged_hour s w d sv h = merged_hour s w0 d sv h ∧ rolled_text s at_ w d sv h = rolled_text s at_ w0 d sv h.
Proof.
  intros Ho Hn Hi Et. destruct (name_plain d sv Hn) as [Hd Hs].
  assert (stored_hour s w d sv h = stored_hour s w0 d sv h) as Es by (unfold stored_hour; unfold text, stored_fields in Et; by rewrite Et).
  assert (fresh_hour s w d sv h = fresh_hour s w0 d sv h) as Ef.
  { apply map_eq. intros name. unfold fresh_hour. rewrite !lookup_omap. destruct (locations s !! name) as [c|]; [|done]. simpl.
    unfold location_hour, location_samples.
    by rewrite (proj1 (Ho c (StatusHour d sv h) (elsewhere (PStatus d sv h) ltac:(done) ltac:(done)))),
      (proj1 (Ho c (DetailHour d sv h) (elsewhere (PDetail d sv h) ltac:(done) ltac:(done)))). }
  assert (merged_hour s w d sv h = merged_hour s w0 d sv h) as Em by (unfold merged_hour; by rewrite Ef, Es).
  split; [done|]. unfold rolled_text. by rewrite Em, Es, Et.
Qed.

(** An hour that is not yet done is what it was. *)
Lemma progress_pending D E w0 w d sv h :
  progress D E w0 w → (d, sv) ∈ names → is_int64 h → ¬ D d sv h →
  merged_hour s w d sv h = merged_hour s w0 d sv h ∧ rolled_text s at_ w d sv h = rolled_text s at_ w0 d sv h.
Proof. intros [_ Ho Ht _] Hn Hi HD. apply hour_unchanged; [done..|]. by apply Ht. Qed.

Definition also (D : string → string → Z → Prop) (d0 sv0 : string) (h0 : Z) : string → string → Z → Prop :=
  λ d sv h, D d sv h ∨ (d = d0 ∧ sv = sv0 ∧ h = h0).

Lemma others_keys d sv d' sv' :
  (d, sv) ∈ names → (d', sv') ∈ names → (d', sv') ≠ (d, sv) →
  RollupAggregateHour d' sv' ≠ RollupAggregateHour d sv ∧ RollupAggregateHour d' sv' ≠ RollupDaily d sv ∧
  RollupDaily d' sv' ≠ RollupAggregateHour d sv ∧ RollupDaily d' sv' ≠ RollupDaily d sv.
Proof.
  intros Hn Hn' Hne. destruct (name_plain d sv Hn), (name_plain d' sv' Hn'). split_and!; intros Ek.
  - assert (PHourly d' sv' = PHourly d sv) as E by by apply key_of_inj. by injection E as -> ->.
  - by assert (PHourly d' sv' = PDaily d sv) by by apply key_of_inj.
  - by assert (PDaily d' sv' = PHourly d sv) by by apply key_of_inj.
  - assert (PDaily d' sv' = PDaily d sv) as E by by apply key_of_inj. by injection E as -> ->.
Qed.

(** A step that writes one key of one service changes nothing of the others. *)
Lemma only_others key w w' d sv d' sv' :
  only key w w' → (d, sv) ∈ names → (d', sv') ∈ names → (d', sv') ≠ (d, sv) →
  key = RollupAggregateHour d sv ∨ key = RollupDaily d sv →
  stored_fields s w' d' sv' = stored_fields s w d' sv' ∧ daily_fields s w' d' sv' = daily_fields s w d' sv'.
Proof.
  intros Ho Hn Hn' Hne Hk. destruct (others_keys d sv d' sv' Hn Hn' Hne) as (? & ? & ? & ?). unfold stored_fields, daily_fields.
  by destruct Hk as [-> | ->]; split; apply Ho.
Qed.

Lemma hourly_not_daily d sv : (d, sv) ∈ names → RollupAggregateHour d sv ≠ RollupDaily d sv.
Proof. intros Hn E. destruct (name_plain d sv Hn). by assert (PHourly d sv = PDaily d sv) by by apply key_of_inj. Qed.

Lemma only_progress key D E w0 w w' d sv :
  only key w w' → (d, sv) ∈ names → key = RollupAggregateHour d sv ∨ key = RollupDaily d sv → progress D E w0 w →
  ∀ c k, k ∉ written_keys names → hash (server_of w' c) k = hash (server_of w0 c) k ∧ set_ (server_of w' c) k = set_ (server_of w0 c) k.
Proof.
  intros Ho Hn Hk Hp c k Hw. destruct (Ho c k) as [-> ->]; [|by apply Hp]. intros ->. apply Hw. apply elem_of_app.
  destruct Hk as [-> | ->]; [left|right]; apply list_elem_of_fmap; by exists (d, sv).
Qed.

Lemma leads_hour D E w0 w d sv hour mark :
  progress D E w0 w → (d, sv) ∈ names → is_int64 (Unix hour) → ¬ D d sv (Unix hour) → (∀ day, ¬ E d sv day) →
  of_Unix (Unix hour) = hour → 0 < seconds_until (hour_expiry s hour) at_ →
  all_finite (merged_hour s w0 d sv (Unix hour)) = true →
  leads (rollupServiceHour (W:=Servers) s d sv hour at_ mark) w
    (λ a w1, (∃ r, a = (r, None) ∧ hr_Missing r = ∅ ∧
       Written r = bool_decide (PerLocation (merged_hour s w0 d sv (Unix hour)) ≠ ∅)) ∧ progress (also D d sv (Unix hour)) E w0 w1).
Proof.
  intros Hp Hn Hi HD HE Ha Ht Hfin.
  destruct (progress_pending D E w0 w d sv (Unix hour) Hp Hn Hi HD) as [Em Er].
  destruct (does_RollupHour_text s at_ marshal_hour w d sv hour mark) as (r & w' & Hd & Hm & Hwr & Hh & Ho & Htext & Hrest);
    [apply Hp|done..|by rewrite Em|].
  eapply leads_mono; [by eapply leads_rollupServiceHour|]. intros a w1 [-> Ew].
  split; [exists r; by rewrite <-Em|]. clear Hwr Em Hfin.
  eapply progress_equiv; [symmetry; exact Ew|]. split; [done|by eapply only_progress; [exact Ho|exact Hn|by left|]| |].
  - intros d' sv' h' Hn' Hi'.
    assert (text s w' d' sv' h' = if decide ((d', sv', h') = (d, sv, Unix hour)) then rolled_text s at_ w0 d sv (Unix hour) else text s w d' sv' h') as E'.
    { destruct (decide ((d', sv', h') = (d, sv, Unix hour))) as [Eq|Hc]; [injection Eq as -> -> ->; by rewrite Htext|].
      destruct (decide ((d', sv') = (d, sv))) as [Ed|Hne].
      - injection Ed as -> ->. apply Hrest. intros Ef. apply FormatInt_inj in Ef; [|done..]. apply Hc. by rewrite Ef.
      - unfold text. by rewrite (proj1 (only_others _ w w' d sv d' sv' Ho Hn Hn' Hne (or_introl eq_refl))). }
    rewrite E'. unfold also. destruct (pr_text D E w0 w Hp d' sv' h' Hn' Hi') as [H1 H2]. split.
    + intros [H|(-> & -> & ->)]; [|by rewrite decide_True]. rewrite decide_False; [by apply H1|]. intros Eq. by injection Eq as -> -> ->.
    + intros H. rewrite decide_False; [apply H2; intros ?; apply H; by left|]. intros Eq. injection Eq as -> -> ->. apply H. by right.
  - intros d' sv' Hn'. destruct (pr_days D E w0 w Hp d' sv' Hn') as [H1 H2].
    destruct (decide ((d', sv') = (d, sv))) as [Ed|Hne].
    + injection Ed as -> ->. assert (daily_fields s w' d sv = daily_fields s w d sv) as ->.
      { apply Ho. by apply not_eq_sym, hourly_not_daily. }
      split; [|done]. by intros day ?%HE.
    + destruct (only_others _ w w' d sv d' sv' Ho Hn Hn' Hne (or_introl eq_refl)) as [Es ->].
      split; [|done]. intros day He. unfold rebuilt, day_sum, hours_of. rewrite Es. by apply H1.
Qed.

Definition also_day (E : string → string → time → Prop) (d0 sv0 : string) (day0 : time) : string → string → time → Prop :=
  λ d sv day, E d sv day ∨ (d = d0 ∧ sv = sv0 ∧ day = day0).

Lemma leads_day D E w0 w d sv t :
  let day := Truncate t (24 * Hour) in
  progress D E w0 w → (d, sv) ∈ names → (∀ day', E d sv day' → FormatDate day' ≠ FormatDate day) →
  0 < seconds_until (Add day dailyRetention) at_ →
  leads (updateDaily (W:=Servers) s d sv t at_) w (λ a w1, a.2 = None ∧ progress D (also_day E d sv day) w0 w1).
Proof.
  intros day Hp Hn HE Ht.
  destruct (does_UpdateDailyRollup s w d sv t at_ marshal_day) as (b & w' & Hd & Hh & Ho & Htext & Hrest); [apply Hp|done|].
  fold day in Htext, Hrest. eapply leads_mono; [by eapply leads_updateDaily|]. intros a w1 [-> Ew]. split; [done|].
  eapply progress_equiv; [symmetry; exact Ew|]. split; [done|by eapply only_progress; [exact Ho|exact Hn|by right|]| |].
  - intros d' sv' h' Hn' Hi'. assert (text s w' d' sv' h' = text s w d' sv' h') as ->; [|by apply Hp].
    unfold text. destruct (decide ((d', sv') = (d, sv))) as [Ed|Hne].
    + injection Ed as -> ->. assert (stored_fields s w' d sv = stored_fields s w d sv) as ->; [|done].
      apply Ho. by apply hourly_not_daily.
    + by rewrite (proj1 (only_others _ w w' d sv d' sv' Ho Hn Hn' Hne (or_intror eq_refl))).
  - intros d' sv' Hn'. destruct (pr_days D E w0 w Hp d' sv' Hn') as [H1 H2].
    destruct (decide ((d', sv') = (d, sv))) as [Ed|Hne].
    + injection Ed as -> ->. assert (∀ day old, rebuilt s w' d sv day old = rebuilt s w d sv day old) as Er.
      { intros. unfold rebuilt, day_sum, hours_of. assert (stored_fields s w' d sv = stored_fields s w d sv) as ->; [|done].
        apply Ho. by apply hourly_not_daily. }
      assert (daily_fields s w d sv !! FormatDate day = daily_fields s w0 d sv !! FormatDate day) as Eold by (by apply H2).
      split.
      * intros day' [He|(_ & _ & ->)]; rewrite Er; [by rewrite Hrest by (by apply HE); apply H1|]. by rewrite Htext, Eold.
      * intros f Hf. rewrite Hrest; [|by apply not_eq_sym, Hf; right]. apply H2. intros day' He. apply Hf. by left.
    + destruct (only_others _ w w' d sv d' sv' Ho Hn Hn' Hne (or_intror eq_refl)) as [Es ->]. unfold also_day. split.
      * intros day' [He|(-> & -> & ->)]; [|done]. unfold rebuilt, day_sum, hours_of. rewrite Es. by apply H1.
      * intros f Hf. apply H2. intros day' He. apply Hf. by left.
Qed.
End steps.
