(* ===== verification/PassServers.v ===== *)
(** * A pass on working servers

    What a pass of the runner leaves behind when every location answers: the
    hour in progress and the one before are rolled up for every service, after
    midnight the finished day is summed up, and the runner notes that every
    location answered. *)

From S2P Require Import Prelude GoStd GoTime Errors Trace Keys Ladder Float64 Rollups RollupProps.
From S2P Require Import Valkey Store StoreProps Runner RunnerProps Resp ValkeyServer EndToEnd Servers StoreServers Pipeline RunnerServers.

(** The names the locations list have no colon. *)
Definition plain_listing (s : Store) (w : Servers) : Prop :=
  ∀ d, listed s w Dashboards d →
    has_byte ":" d = false ∧ ∀ sv, listed s w (Services d) sv → has_byte ":" sv = false.

Lemma plain_services s w : plain_listing s w → plain_names (services_listed s w).
Proof.
  intros H. apply Forall_forall. intros [d sv] [Hd Hs]%services_listed_spec. destruct (H d Hd) as [? Hsv]. by split; [|apply Hsv].
Qed.

Definition this_hour (now : time) : time := Truncate now Hour.
Definition last_hour (now : time) : time := Add (Truncate now Hour) (- Hour).
Definition last_day (now : time) : time := Truncate (last_hour now) (24 * Hour).

(** Midnight lies between the last hour and now. *)
Definition day_over (now : time) : Prop := last_hour now < Truncate now (24 * Hour).

Section pass.
Context `{CA : !Codec AggregateRollup, CD : !Codec DailyRollup}.
Variable s : Store.
Variable now : time.
Hypothesis marshal_hour : ∀ r : AggregateRollup, all_finite r = true → is_Some (marshal r).
Hypothesis marshal_day : ∀ r : DailyRollup, is_Some (marshal r).
Hypothesis now_plausible : plausible now.
(** Hours are kept for more than two, and for less than 145 years. *)
Hypothesis kept : 7200 < retention s < 2 ^ 62 / Second.
Variable w0 : Servers.
Hypothesis w0_healthy : healthy w0.
Hypothesis some_location : locations s ≠ ∅.
Hypothesis w0_plain : plain_listing s w0.
Hypothesis w0_finite : ∀ d sv, listed s w0 Dashboards d → listed s w0 (Services d) sv →
  all_finite (merged_hour s w0 d sv (Unix (this_hour now))) = true ∧
  all_finite (merged_hour s w0 d sv (Unix (last_hour now))) = true.

Notation names := (services_listed s w0).
Notation progress := (progress s now names).

(** The services whose hours are rolled up, and whose day is rebuilt. *)
Definition hours_done (L : list (string * string)) : string → string → Z → Prop :=
  λ d sv h, (d, sv) ∈ L ∧ (h = Unix (this_hour now) ∨ h = Unix (last_hour now)).

Definition days_done (L : list (string * string)) : string → string → time → Prop :=
  λ d sv day, (d, sv) ∈ L ∧ day_over now ∧ day = last_day now.

Lemma last_hour_sub : last_hour now = this_hour now - 1 * Hour.
Proof. unfold last_hour, this_hour, Add. lia. Qed.

Lemma pass_hour hour :
  hour = this_hour now ∨ hour = last_hour now →
  is_int64 (Unix hour) ∧ of_Unix (Unix hour) = hour ∧ 0 < seconds_until (hour_expiry s hour) now.
Proof.
  intros Hhour. assert (∃ k, 0 ≤ k ≤ 1 ∧ hour = this_hour now - k * Hour) as (k & Hk & ->).
  { destruct Hhour as [-> | ->]; [exists 0; lia|exists 1; split; [lia|apply last_hour_sub]]. }
  clear Hhour. unfold this_hour. pose proof (Truncate_le now Hour ltac:(done)) as Ht. unfold plausible in now_plausible.
  assert (0 < Hour) by done. assert (Hour = 3600 * Second) as EH by done.
  assert (2 ^ 62 / Second = 4611686018) as E62 by (vm_compute; reflexivity). rewrite E62 in kept. assert (Second = 10 ^ 9) as ES by done.
  split; [|split; [apply aligned_hour|]].
  - unfold is_int64, Unix. split; [apply Z.div_le_lower_bound; [done|]|apply Z.div_lt_upper_bound; [done|]]; rewrite ?ES in *; nia.
  - unfold hour_expiry, Add, seconds_until. rewrite wrap64_id by (unfold is_int64; nia).
    apply Z.lt_le_trans with (Z.quot Second Second); [done|]. apply Z.quot_le_mono; [done|]. unfold Sub. nia.
Qed.

Lemma hours_differ : Unix (this_hour now) ≠ Unix (last_hour now).
Proof.
  intros E. destruct (pass_hour (this_hour now) (or_introl eq_refl)) as (_ & E1 & _).
  destruct (pass_hour (last_hour now) (or_intror eq_refl)) as (_ & E2 & _). rewrite E, E2, last_hour_sub in E1.
  assert (0 < Hour) by done. lia.
Qed.

Lemma this_hour_today : Before (this_hour now) (Truncate now (24 * Hour)) = false.
Proof.
  unfold Before, this_hour. apply Z.ltb_ge. change (24 * Hour) with Day. rewrite Truncate_hour, Truncate_day.
  change Day with (Hour * 24). rewrite <-Z.div_div by done. assert (0 < Hour) by done.
  pose proof (Z.div_mod (now `div` Hour) 24 ltac:(done)). pose proof (Z.mod_pos_bound (now `div` Hour) 24 ltac:(done)). nia.
Qed.

Lemma last_day_kept : 0 < seconds_until (Add (last_day now) dailyRetention) now.
Proof.
  unfold last_day. pose proof (Truncate_le (last_hour now) (24 * Hour) ltac:(done)) as Hd. rewrite last_hour_sub in *.
  unfold this_hour in *. pose proof (Truncate_le now Hour ltac:(done)) as Ht.
  apply Z.lt_le_trans with (Z.quot Second Second); [done|]. unfold seconds_until. apply Z.quot_le_mono; [done|].
  unfold Sub, Add, dailyRetention. unfold Hour, Minute, Second in *. lia.
Qed.

(** ** One service *)

Lemma leads_pass_hours L w d sv g :
  progress (hours_done L) (days_done L) w0 w → (d, sv) ∈ names → (d, sv) ∉ L →
  leads (pass_hours s d sv now (pass_service_hours now) g) w
    (λ g' w1, g' = (g.1.1, true, g.2) ∧ progress (hours_done ((d, sv) :: L)) (days_done ((d, sv) :: L)) w0 w1).
Proof.
  intros Hp Hn HL. destruct (w0_finite d sv) as [Hf Hf']; [by apply services_listed_spec in Hn as []..|].
  destruct g as [[down_ rolled] failed]. pose proof (plain_services s w0 w0_plain) as Hplain.
  destruct (pass_hour (this_hour now) (or_introl eq_refl)) as (Hi & Ha & Ht).
  destruct (pass_hour (last_hour now) (or_intror eq_refl)) as (Hi' & Ha' & Ht').
  change (pass_service_hours now) with [this_hour now; last_hour now]. cbn [pass_hours].
  eapply leads_bind; [eapply (leads_hour s now marshal_hour names Hplain); [exact Hp|done|done|by intros [? _]|by intros day [? _]|done..]|].
  intros a w1 [(r & -> & Hm & _) Hp1]. cbn [fst snd]. rewrite Hm, this_hour_today, (left_id_L ∅ (∪)), orb_false_r.
  eapply leads_bind; [eapply (leads_hour s now marshal_hour names Hplain); [exact Hp1|done|done| |by intros day [? _]|done..]|].
  { intros [[? _]|(_ & _ & E)]; [done|by apply hours_differ]. }
  intros a w2 [(r' & -> & Hm' & _) Hp2]. cbn [fst snd]. rewrite Hm', (left_id_L ∅ (∪)), orb_false_r.
  assert (∀ d' sv' h, (d', sv') ∈ names → is_int64 h →
    also (also (hours_done L) d sv (Unix (this_hour now))) d sv (Unix (last_hour now)) d' sv' h ↔ hours_done ((d, sv) :: L) d' sv' h) as HD.
  { intros d' sv' h _ _. unfold also, hours_done. rewrite elem_of_cons. naive_solver. }
  unfold Before. destruct (last_hour now <? Truncate now (24 * Hour)) eqn:Eb; zb.
  - eapply leads_bind.
    { eapply (leads_day s now marshal_day names Hplain); [exact Hp2|done|by intros day [? _]|]. apply last_day_kept. }
    intros u w3 [Hu Hp3]. rewrite Hu, orb_false_r. apply leads_ret. split; [done|].
    eapply progress_iff; [exact HD| |exact Hp3]. intros d' sv' day _. unfold also_day, days_done, day_over, last_day. rewrite elem_of_cons.
    naive_solver.
  - apply leads_ret. split; [done|]. eapply progress_iff; [exact HD| |exact Hp2]. intros d' sv' day _.
    unfold days_done, day_over. split; intros (_ & ? & _); lia.
Qed.

(** ** The services of one dashboard, and all dashboards *)

Lemma leads_pass_services d services : ∀ L w g,
  progress (hours_done L) (days_done L) w0 w → (d,.) <$> services ⊆ names → NoDup services →
  Forall (λ sv, (d, sv) ∉ L) services →
  leads (pass_services s d now services g) w (λ g' w1,
    g' = (g.1.1, g.1.2 || negb (is_nil services), g.2) ∧
    progress (hours_done (reverse ((d,.) <$> services) ++ L)) (days_done (reverse ((d,.) <$> services) ++ L)) w0 w1).
Proof.
  induction services as [|sv services IH]; intros L w g Hp Hsub Hnd HF; cbn [pass_services].
  { apply leads_ret. destruct g as [[? ?] ?]. cbn. by rewrite orb_false_r. }
  apply NoDup_cons in Hnd as [Hsv Hnd]. apply Forall_cons in HF as [HL HF]. rewrite fmap_cons in Hsub |- *.
  eapply leads_bind; [apply leads_pass_hours; [exact Hp|apply Hsub; by left|done]|]. intros g' w1 [-> Hp1].
  eapply leads_mono; [apply (IH ((d, sv) :: L) w1); [exact Hp1|set_solver|done|]|].
  - apply Forall_forall. intros sv' Hin [E|H]%elem_of_cons; [by injection E as ->|].
    by apply (proj1 (Forall_forall _ _) HF sv').
  - intros g'' w2 [-> Hp2]. rewrite reverse_cons, <-(assoc_L (++)). cbn [fst snd is_nil negb]. by rewrite orb_true_r.
Qed.

Lemma Services_elsewhere d : has_byte ":" d = false → Services d ∉ written_keys names.
Proof. intros Hd. by apply (elsewhere names (plain_services s w0 w0_plain) (PServices d)). Qed.

Lemma listing_progress D E w d : progress D E w0 w → listed s w0 Dashboards d → listing s w (Services d) = listing s w0 (Services d).
Proof.
  intros Hp Hd. unfold listing. f_equal. apply listing_from_ext. intros c. apply Hp. apply Services_elsewhere. by apply w0_plain.
Qed.

Lemma leads_pass_dashboards ds : ∀ L w g,
  progress (hours_done L) (days_done L) w0 w → Forall (listed s w0 Dashboards) ds → NoDup ds → Forall (λ p, p.1 ∉ ds) L →
  leads (pass_dashboards s now ds g) w (λ g' w1, ∃ L',
    (∀ p, p ∈ L' ↔ p ∈ L ∨ p ∈ ds ≫= λ d, (d,.) <$> listing s w0 (Services d)) ∧
    g' = (g.1.1, g.1.2 || negb (is_nil (ds ≫= λ d, (d,.) <$> listing s w0 (Services d))), g.2) ∧
    progress (hours_done L') (days_done L') w0 w1).
Proof.
  induction ds as [|d ds IH]; intros L w g Hp HF Hnd HL; cbn [pass_dashboards].
  { apply leads_ret. exists L. destruct g as [[? ?] ?]. cbn. rewrite orb_false_r. split_and!; [set_solver|done|done]. }
  apply Forall_cons in HF as [Hd HF]. apply NoDup_cons in Hnd as [Hnin Hnd].
  eapply leads_bind; [eapply leads_lift; [apply lifts_union|apply does_union; [apply Hp|done]]|]. intros a w1 [-> E1]. cbv iota.
  rewrite (listing_progress _ _ _ d Hp Hd). set (services := listing s w0 (Services d)).
  eapply leads_bind.
  { apply (leads_pass_services d services L w1); [eapply progress_equiv; [symmetry; exact E1|exact Hp]| | |].
    - intros [d' sv] (sv' & E & Hs)%list_elem_of_fmap. injection E as -> ->. apply services_listed_spec. split; [done|].
      by apply listing_spec.
    - apply listing_spec.
    - apply Forall_forall. intros sv _ Hin. apply (proj1 (Forall_forall _ _) HL (d, sv) Hin). by left. }
  intros g' w2 [-> Hp2]. eapply leads_mono; [apply (IH _ w2 _ Hp2 HF Hnd)|].
  - apply Forall_app. split; [|apply (Forall_impl _ _ _ HL); intros p Hd' ?; apply Hd'; by right].
    apply Forall_forall. intros [d' sv'] (sv & E & _)%elem_of_reverse%list_elem_of_fmap. by injection E as -> ->.
  - intros g'' w3 (L' & HL' & -> & Hp3). exists L'. rewrite bind_cons. fold services. split_and!; [|f_equal; f_equal|done].
    + intros p. rewrite HL', !elem_of_app, elem_of_reverse. tauto.
    + cbn [fst snd]. destruct services; [by rewrite orb_false_r|]. cbn. by rewrite orb_true_r.
Qed.

(** ** A whole pass *)

Lemma runOnce_run r :
  ∃ w', progress (hours_done names) (days_done names) w0 w' ∧
    (runOnce s now (r, w0)).1 =
      if is_nil names then (None, (r, w')) else let '(r', launch) := afterPass r now ∅ false in (launch, (r', w')).
Proof.
  unfold runOnce.
  destruct (leads_run (ListDashboards s) (λ a, match a with
      | Ok dashboards => g ← pass_dashboards s now dashboards (∅, false, false);
          if (g.1.2 : bool) then after_pass now g.1.1 g.2 else mret None
      | Err _ => _ ← modify noteStoreFailed; mret None end) w0 _ r
    (leads_lift _ _ w0 _ _ (lifts_union s Dashboards) (does_union s w0 Dashboards w0_healthy some_location)))
    as (a & w1 & [-> E1] & ->).
  assert (progress (hours_done []) (days_done []) w0 w1) as Hp1.
  { eapply progress_iff; [| |eapply progress_equiv; [symmetry; exact E1|by apply progress_start]].
    - intros d sv h _ _. split; [done|]. by intros [?%elem_of_nil _].
    - intros d sv day _. split; [done|]. by intros [?%elem_of_nil _]. }
  destruct (leads_run _ (λ g, if (g.1.2 : bool) then after_pass now g.1.1 g.2 else mret None) w1 _ r
    (leads_pass_dashboards (listing s w0 Dashboards) [] w1 (∅, false, false) Hp1
       ltac:(apply Forall_forall; intros d; apply listing_spec) (proj1 (listing_spec s w0 Dashboards)) (Forall_nil_2 _)))
    as (g & w2 & (L & HL & -> & Hp2) & ->).
  exists w2. split.
  - assert (∀ p, p ∈ L ↔ p ∈ names) as HL' by (intros p; rewrite HL; unfold services_listed; set_solver).
    eapply progress_iff; [| |exact Hp2]; intros d sv ? *; unfold hours_done, days_done; by rewrite HL'.
  - cbn [fst snd orb]. fold (services_listed s w0). destruct names; cbn [is_nil negb]; [done|].
    unfold after_pass. cbn [fst snd]. by destruct (afterPass r now ∅ false).
Qed.
End pass.

(** C14: a pass on working servers: when every location answers, a pass of the
    runner rolls up, for every service that some location lists, the hour in
    progress and the hour before - each holds afterwards the rollup of the
    samples the locations held, merged with what was stored - and, once
    midnight lies between them, sums up the finished day from its stored
    hours.  No other hour, day, hash or set changes, on any server, and the
    runner goes on as after a pass in which every location answered and nothing
    failed.  (The numbers of the rollups it writes must be finite: encoding/json
    refuses the others.) *)
Theorem pass_on_working_servers `{CA : !Codec AggregateRollup, CD : !Codec DailyRollup}
    (s : Store) (now : time) (r r' : Runner) (w w' : Servers) (launch : option bool) :
  (∀ r : AggregateRollup, all_finite r = true → is_Some (marshal r)) → (∀ r : DailyRollup, is_Some (marshal r)) →
  plausible now → 7200 < retention s < 2 ^ 62 / Second → healthy w → locations s ≠ ∅ → plain_listing s w →
  (∀ d sv, listed s w Dashboards d → listed s w (Services d) sv →
     all_finite (merged_hour s w d sv (Unix (this_hour now))) = true ∧
     all_finite (merged_hour s w d sv (Unix (last_hour now))) = true) →
  (runOnce s now (r, w)).1 = (launch, (r', w')) →
  (∀ d sv, listed s w Dashboards d → listed s w (Services d) sv →
     (∀ h, is_int64 h → text s w' d sv h =
        if decide (h = Unix (this_hour now) ∨ h = Unix (last_hour now)) then rolled_text s now w d sv h else text s w d sv h) ∧
     (day_over now → let f := FormatDate (last_day now) in
        daily_fields s w' d sv !! f = rebuilt s w' d sv (last_day now) (daily_fields s w d sv !! f)) ∧
     (∀ f, (day_over now → f ≠ FormatDate (last_day now)) → daily_fields s w' d sv !! f = daily_fields s w d sv !! f)) ∧
  (∀ c key, key ∉ written_keys (services_listed s w) →
     hash (server_of w' c) key = hash (server_of w c) key ∧ set_ (server_of w' c) key = set_ (server_of w c) key) ∧
  (r', launch) = if is_nil (services_listed s w) then (r, None) else afterPass r now ∅ false.
Proof.
  intros Hh Hd Hnow Hret Hw Hl Hplain Hfin Hrun.
  destruct (runOnce_run s now Hh Hd Hnow Hret w Hw Hl Hplain Hfin r) as (w1 & [_ Ho Ht Hday] & E). rewrite Hrun in E.
  assert (w1 = w' ∧ (r', launch) = if is_nil (services_listed s w) then (r, None) else afterPass r now ∅ false) as [-> Er].
  { destruct (is_nil (services_listed s w)); [by simplify_eq|]. destruct (afterPass r now ∅ false). by simplify_eq. }
  split; [|by split]. intros d sv Hld Hls. assert ((d, sv) ∈ services_listed s w) as Hin by by apply services_listed_spec.
  destruct (Hday d sv Hin) as [H1 H2]. split_and!.
  - intros h Hi. destruct (Ht d sv h Hin Hi) as [H3 H4]. case_decide as Hc; [apply H3; by split|apply H4]. by intros [_ ?].
  - intros Hover f. apply H1. by split_and!.
  - intros f Hf. apply H2. intros day (_ & Hover & ->) E'. by apply Hf in Hover.
Qed.

(** A check failed ten minutes before midnight; the pass runs five minutes
    after. *)
Definition midnight_server : Server :=
  sadd (sadd (hset (hset Start (StatusHour "prod" "api" 1700002800) "1700005800" "f")
    (DetailHour "prod" "api" 1700002800) "1700005800" "12|timeout") Dashboards "prod") (Services "prod") "api".
Definition midnight : time := of_Unix 1700006700.

Definition midnight_rollup : AggregateRollup :=
  with_InProgress (mergeStored (aggregate (fresh_hour sim_store (sim_world midnight_server) "prod" "api" 1700002800)) zero_AggregateRollup) false.

(** An encoding that, like encoding/json, refuses infinities and NaN. *)
#[local] Instance midnight_hours : Codec AggregateRollup := {|
  marshal := λ r, if all_finite r then Some (if decide (r = midnight_rollup) then "rollup" else "other") else None;
  unmarshal := λ text, if decide (text = "rollup") then Some midnight_rollup else None |}.

#[local] Instance midnight_days : Codec DailyRollup := {|
  marshal := λ r, Some (if decide (r = {| dr_Date := "2023-11-14"; dr_Success := 0; dr_Failure := 1; dr_Total := 1 |}) then "day" else "other");
  unmarshal := λ _, None |}.

Lemma midnight_listed :
  (∀ d, listed sim_store (sim_world midnight_server) Dashboards d ↔ d = "prod") ∧
  (∀ sv, listed sim_store (sim_world midnight_server) (Services "prod") sv ↔ sv = "api").
Proof.
  split; intros x; rewrite <-(proj2 (listing_spec sim_store (sim_world midnight_server) _)).
  - assert (listing sim_store (sim_world midnight_server) Dashboards = ["prod"]) as -> by (vm_compute; reflexivity).
    apply list_elem_of_singleton.
  - assert (listing sim_store (sim_world midnight_server) (Services "prod") = ["api"]) as -> by (vm_compute; reflexivity).
    apply list_elem_of_singleton.
Qed.

Lemma pass_on_working_servers_witness :
  let w' := (runOnce sim_store midnight (NewRunner Minute Second 7, sim_world midnight_server)).1.2.2 in
  text sim_store w' "prod" "api" 1700002800 = Some "rollup" ∧
  daily_fields sim_store w' "prod" "api" !! "2023-11-14" = Some "day".
Proof.
  intros w'. destruct (pass_on_working_servers sim_store midnight (NewRunner Minute Second 7)
    (runOnce sim_store midnight (NewRunner Minute Second 7, sim_world midnight_server)).1.2.1 (sim_world midnight_server) w'
    (runOnce sim_store midnight (NewRunner Minute Second 7, sim_world midnight_server)).1.1) as (H & _).
  - intros r Hr. cbn. rewrite Hr. by eexists.
  - intros r. by eexists.
  - split; vm_compute; [discriminate|reflexivity].
  - split; vm_compute; reflexivity.
  - by apply sim_healthy.
  - done.
  - intros d ->%midnight_listed. split; [done|]. by intros sv ->%midnight_listed.
  - intros d sv ->%midnight_listed ->%midnight_listed. split; vm_compute; reflexivity.
  - unfold w'. by destruct (runOnce sim_store midnight (NewRunner Minute Second 7, sim_world midnight_server)) as [[? [? ?]] ?].
  - destruct (H "prod" "api") as (H1 & H2 & _); [by apply midnight_listed|by apply midnight_listed|]. split.
    + rewrite (H1 1700002800) by (unfold is_int64; lia). vm_compute. reflexivity.
    + specialize (H2 ltac:(vm_compute; reflexivity)). cbv zeta in H2.
      assert (FormatDate (last_day midnight) = "2023-11-14") as Ef by (vm_compute; reflexivity). rewrite Ef in H2.
      rewrite H2. vm_compute. reflexivity.
Defined.
