(* ===== verification/ExpireServers.v ===== *)
(** * Expiry on working servers

    A full backfill gives every stored field of a service its TTL
    (ExpireRollupFields): on servers that answer, exactly the fields whose time
    has passed are gone afterwards. *)

From S2P Require Import Prelude GoStd GoTime Errors Trace Keys Ladder Float64 Rollups RollupProps.
From S2P Require Import Valkey Store Runner RunnerProps Resp ValkeyServer EndToEnd Servers StoreServers RunnerServers.

(** The field's time has not come, or it has none. *)
Definition live (now : time) (expiry : string → option time) (field : string) : bool :=
  match expiry field with Some at_ => 0 <? seconds_until at_ now | None => true end.

Definition trimmed (now : time) (expiry : string → option time) (fields : gmap string string) : gmap string string :=
  filter (λ p, live now expiry p.1 = true) fields.

Lemma trimmed_lookup now expiry fields f :
  trimmed now expiry fields !! f = if live now expiry f then fields !! f else None.
Proof.
  unfold trimmed. rewrite map_lookup_filter. destruct (fields !! f) as [text|]; cbn [mbind option_bind]; [|by destruct (live now expiry f)].
  case_guard as Hl; simpl in *; [by rewrite Hl|by destruct (live now expiry f)].
Qed.

Section expire.
Context `{CA : !Codec AggregateRollup, CD : !Codec DailyRollup}.
Variable s : Store.
Variable now : time.
Variable expiry : string → option time.
Variable key : string.

Notation here w := (hash (server_of w (primary s)) key).

Definition expire_field (w : Servers) (field : string) : Servers :=
  match expiry field with
  | None => w
  | Some at_ =>
      let ttl := seconds_until at_ now in
      if 0 <? ttl then change (primary s) (λ s, set_field_ttl s key field ttl) w
      else change (primary s) (drop_field key field) w
  end.

Lemma expire_field_hash w field :
  here (expire_field w field) = if live now expiry field then here w else delete field (here w).
Proof.
  unfold expire_field, live. destruct (expiry field) as [at_|]; [|done]. destruct (0 <? seconds_until at_ now).
  - by rewrite server_of_change, decide_True.
  - by rewrite server_of_change, decide_True, hash_drop_field, decide_True.
Qed.

Lemma expire_field_only w field : only key w (expire_field w field) ∧ (healthy w → healthy (expire_field w field)).
Proof.
  unfold expire_field. destruct (expiry field) as [at_|]; [|by split]. destruct (0 <? seconds_until at_ now); split.
  - by apply only_change.
  - by apply healthy_change.
  - apply only_drop_field.
  - apply healthy_change. intros. apply failures_drop_field.
Qed.

Definition known (fields : list string) : Z := zsum ((λ f, if is_None_b (expiry f) then 0 else 1) <$> fields).

Lemma does_expire_each fields : ∀ w w1,
  healthy w → NoDup fields → Forall (λ f, is_Some (here w !! f)) fields → w1 ≃ w →
  does (expire_each s key now expiry fields) w1 (known fields, None) (foldl expire_field w fields).
Proof.
  induction fields as [|f fields IH]; intros w w1 Hw Hnd HF H1; cbn [expire_each foldl].
  { eapply does_equiv; [apply does_ret|done]. }
  apply NoDup_cons in Hnd as [Hf Hnd]. apply Forall_cons in HF as [[text Hin] HF].
  assert (Forall (λ f, is_Some (here (expire_field w f) !! f)) [] ∧
    Forall (λ f', is_Some (here (expire_field w f) !! f')) fields) as [_ HF'].
  { split; [constructor|]. rewrite expire_field_hash. apply Forall_forall. intros f' Hf'.
    pose proof (proj1 (Forall_forall _ _) HF f' Hf') as Hs. destruct (live now expiry f); [done|].
    rewrite lookup_delete_ne; [done|]. intros ->. done. }
  destruct (expire_field_only w f) as [_ Hh]. specialize (Hh Hw).
  unfold known. rewrite fmap_cons. cbn [zsum]. fold (known fields). pose proof (IH (expire_field w f)) as Hrest.
  unfold expire_field in Hrest, HF', Hh |- * at 2. destruct (expiry f) as [at_|]; cbn [is_None_b]; [|by apply Hrest].
  assert (healthy w1) as Hw1 by by rewrite H1.
  assert (is_Some (here w1 !! f)) as Hs1 by (rewrite (hash_proper _ _ (H1 (primary s)) key _ eq_refl), Hin; by eexists).
  destruct (0 <? seconds_until at_ now) eqn:Et; zb.
  - eapply does_bind; [apply does_hexpire; [done|apply seconds_until_int64|done|done]|]. intros w2 H2.
    eapply does_bind; [apply Hrest; [done..|]|].
    + rewrite H2. apply change_equiv; [by intros ?? ->|done].
    + intros w3 H3. eapply does_equiv; [apply does_ret|done].
  - eapply does_bind; [by apply does_hdel|]. intros w2 H2.
    eapply does_bind; [apply Hrest; [done..|]|].
    + rewrite H2. apply change_equiv; [by intros ?? ->|done].
    + intros w3 H3. eapply does_equiv; [apply does_ret|done].
Qed.

Lemma expire_fields_state fields w :
  let w' := foldl expire_field w fields in
  only key w w' ∧ (healthy w → healthy w') ∧
  ∀ f, here w' !! f = if decide (f ∈ fields ∧ live now expiry f = false) then None else here w !! f.
Proof.
  revert w. induction fields as [|f fields IH]; intros w; cbn [foldl].
  { split_and!; [done|done|]. intros f. rewrite decide_False; [done|]. by intros [?%elem_of_nil _]. }
  destruct (IH (expire_field w f)) as (Ho & Hh & Hl). destruct (expire_field_only w f) as [Ho1 Hh1]. split_and!.
  - intros c k Hk. destruct (Ho c k Hk) as [-> ->]. by apply Ho1.
  - intros Hw. by apply Hh, Hh1.
  - intros f'. rewrite Hl, expire_field_hash. destruct (decide (f' = f)) as [->|Hne].
    + destruct (live now expiry f) eqn:El; [by rewrite !decide_False by naive_solver|].
      rewrite lookup_delete_eq. rewrite (decide_True (P := f ∈ f :: fields ∧ _)) by (split; [by left|done]). by case_decide.
    + assert ((f' ∈ f :: fields ∧ live now expiry f' = false) ↔ (f' ∈ fields ∧ live now expiry f' = false)) as E
        by (rewrite elem_of_cons; naive_solver).
      rewrite (decide_ext _ _ _ _ E). by destruct (live now expiry f); [|rewrite lookup_delete_ne by done].
Qed.

Lemma does_expireFields w :
  healthy w → ∃ w', (∀ w1, w1 ≃ w → does (expireFields s key now expiry) w1 None w') ∧
    healthy w' ∧ only key w w' ∧ here w' = trimmed now expiry (here w).
Proof.
  intros Hw. set (fields := sorted_keys (here w)). destruct (expire_fields_state fields w) as (Ho & Hh & Hl).
  assert (Forall (λ f, is_Some (here w !! f)) fields) as HF by (apply Forall_forall; intros f; apply sorted_keys_spec).
  exists (if known fields =? 0 then foldl expire_field w fields else change (primary s) (forget_ttl key) (foldl expire_field w fields)).
  assert (∀ f, here (foldl expire_field w fields) !! f = trimmed now expiry (here w) !! f) as Htrim.
  { intros f. rewrite Hl, trimmed_lookup. destruct (live now expiry f); [by rewrite decide_False by naive_solver|].
    case_decide as Hc; [done|]. destruct (here w !! f) eqn:Ef; [|done]. exfalso. apply Hc. split; [|done].
    apply sorted_keys_spec. by rewrite Ef. }
  split_and!.
  - intros w1 H1. unfold expireFields. eapply does_bind; [apply does_hkeys; by rewrite H1|]. intros w2 H2. cbv beta iota.
    rewrite (hash_proper _ _ (H1 (primary s)) key _ eq_refl). fold fields.
    eapply does_bind; [apply (does_expire_each fields w); [done|apply sorted_keys_NoDup|done|by rewrite H2]|]. intros w3 H3. cbn [fst snd].
    destruct (known fields =? 0); [eapply does_equiv; [apply does_ret|done]|].
    eapply does_equiv; [apply does_persist; rewrite H3; by apply Hh|]. apply change_equiv; [by intros ?? ->|done].
  - destruct (known fields =? 0); [by apply Hh|]. apply healthy_change; [done|by apply Hh].
  - destruct (known fields =? 0); [done|]. intros c k Hk. rewrite server_of_change.
    case_decide; [unfold forget_ttl, hash, set_; cbn [hashes sets with_keyTTL]|]; by apply Ho.
  - apply map_eq. intros f. rewrite <-Htrim. destruct (known fields =? 0); [done|]. by rewrite server_of_change, decide_True.
Qed.
End expire.

(** What a full backfill keeps of a service. *)
Lemma does_ExpireRollupFields (s : Store) (d sv : string) (now : time) (w : Servers) :
  healthy w → RollupAggregateHour d sv ≠ RollupDaily d sv →
  ∃ w', does (ExpireRollupFields s d sv now) w None w' ∧ healthy w' ∧
    (∀ c k, k ≠ RollupAggregateHour d sv → k ≠ RollupDaily d sv →
       hash (server_of w' c) k = hash (server_of w c) k ∧ set_ (server_of w' c) k = set_ (server_of w c) k) ∧
    stored_fields s w' d sv = trimmed now (hourly_expiry s) (stored_fields s w d sv) ∧
    daily_fields s w' d sv = trimmed now daily_expiry (daily_fields s w d sv).
Proof.
  intros Hw Hne. destruct (does_expireFields s now (hourly_expiry s) (RollupAggregateHour d sv) w Hw) as (w1 & H1 & Hw1 & Ho1 & Ht1).
  destruct (does_expireFields s now daily_expiry (RollupDaily d sv) w1 Hw1) as (w2 & H2 & Hw2 & Ho2 & Ht2).
  exists w2. split_and!; [|done| | |].
  - unfold ExpireRollupFields. eapply does_bind; [by apply H1|]. intros w3 H3. by apply H2.
  - intros c k Hk1 Hk2. destruct (Ho2 c k Hk2) as [-> ->]. by apply Ho1.
  - unfold stored_fields. by rewrite (proj1 (Ho2 _ _ Hne)).
  - unfold daily_fields. rewrite Ht2. by rewrite (proj1 (Ho1 _ (RollupDaily d sv) (not_eq_sym Hne))).
Qed.
