(* ===== verification/FillServers.v ===== *)
(** * The loops of a backfill on working servers

    The hours a backfill fills in, the days it rebuilds and the fields it
    trims, when every location answers and nobody cancels it: each loop leads
    from one [progress] to the next. *)

From S2P Require Import Prelude GoStd GoTime Errors Trace Keys Ladder Float64 Rollups RollupProps.
From S2P Require Import Valkey Store StoreProps Runner RunnerProps BackfillProps Resp ValkeyServer EndToEnd Servers StoreServers.
From S2P Require Import Pipeline RunnerServers PassServers ExpireServers.

(** ** The window *)

Definition ready (s : Store) (at_ hour : time) : Prop :=
  is_int64 (Unix hour) ∧ of_Unix (Unix hour) = hour ∧ 0 < seconds_until (hour_expiry s hour) at_.


Lemma window_hour t n hour :
  0 ≤ n → n * Hour < 2 ^ 63 →
  hour ∈ backfill_hours (Truncate t Hour) n ↔ ∃ k, 1 ≤ k < n ∧ hour = Truncate t Hour - k * Hour.
Proof.
  intros Hn Hmax. assert (0 < Hour) by done.
  assert (∀ k, 1 ≤ k < n → Add (Truncate t Hour) (wrap64 (- k * Hour)) = Truncate t Hour - k * Hour) as E.
  { intros k Hk. unfold Add. rewrite wrap64_id by (unfold is_int64; nia). lia. }
  unfold backfill_hours. rewrite list_elem_of_fmap. split.
  - intros (k & -> & Hk%elem_of_seqZ). exists k. split; [lia|]. apply E. lia.
  - intros (k & Hk & ->). exists k. rewrite E by done. split; [done|]. apply elem_of_seqZ. lia.
Qed.

Lemma NoDup_fmap_on {A B} (f : A → B) l :
  (∀ x y, x ∈ l → y ∈ l → f x = f y → x = y) → NoDup l → NoDup (f <$> l).
Proof.
  intros Hf Hnd. induction Hnd as [|x l Hx Hnd IH]; [constructor|]. rewrite fmap_cons. constructor.
  - intros (y & E & Hy)%list_elem_of_fmap. apply Hx. rewrite (Hf x y); [done|by left|by right|done].
  - apply IH. intros y z Hy Hz. apply Hf; by right.
Qed.

Lemma window_distinct t n : 0 ≤ n → n * Hour < 2 ^ 63 → NoDup (Unix <$> backfill_hours (Truncate t Hour) n).
Proof.
  intros Hn Hmax. assert (0 < Hour) by done. apply NoDup_fmap_on.
  - intros x y (k & Hk & ->)%window_hour (k' & Hk' & ->)%window_hour E; [|done..].
    by rewrite <-(aligned_hour t k), <-(aligned_hour t k'), E.
  - unfold backfill_hours. apply NoDup_fmap_on; [|apply NoDup_seqZ]. intros x y Hx%elem_of_seqZ Hy%elem_of_seqZ E.
    unfold Add in E. rewrite !wrap64_id in E by (unfold is_int64; nia). nia.
Qed.

Lemma window_ready (s : Store) at_ n hour :
  plausible at_ → 0 ≤ n → n * Hour < 2 ^ 62 → retention s = n * 3600 → at_ + Second ≤ Truncate at_ Hour + Hour →
  hour ∈ backfill_hours (Truncate at_ Hour) n → ready s at_ hour.
Proof.
  intros Hat Hn Hmax Hret Hsec (k & Hk & ->)%window_hour; [|done|lia].
  pose proof (Truncate_le at_ Hour ltac:(done)) as Ht. unfold plausible in Hat. assert (0 < Hour) by done.
  assert (Hour = 3600 * Second) as EH by done. assert (0 < Second) as Hs0 by done.
  split; [|split; [apply aligned_hour|]].
  - unfold is_int64, Unix. split; [apply Z.div_le_lower_bound; [done|]|apply Z.div_lt_upper_bound; [done|]]; unfold Second in *; nia.
  - unfold hour_expiry, Add, seconds_until. rewrite wrap64_id by (unfold is_int64; nia).
    apply Z.lt_le_trans with (Z.quot Second Second); [done|]. apply Z.quot_le_mono; [done|]. unfold Sub. nia.
Qed.

Lemma days_before_spec day t :
  Truncate day (24 * Hour) = day →
  ∀ x, x ∈ days_before day (Truncate t (24 * Hour)) ↔ Truncate x (24 * Hour) = x ∧ day ≤ x < Truncate t (24 * Hour).
Proof.
  intros Hday x. change (24 * Hour) with Day in *. rewrite !Truncate_day in *. assert (0 < Day) as HD by done.
  remember (day `div` Day) as a eqn:Ea. remember (t `div` Day) as b eqn:Eb. clear Ea Eb t. subst day.
  unfold days_before. replace (b * Day - a * Day + Day - 1) with ((b - a) * Day + (Day - 1)) by lia.
  rewrite Z.div_add_l, (Z.div_small (Day - 1)), Z.add_0_r by (done || lia). rewrite list_elem_of_fmap. unfold AddDays. split.
  - intros (k & -> & Hk%elem_of_seqZ). rewrite <-Z.mul_add_distr_r, Z.div_mul by done. split; [done|]. nia.
  - intros (Hx & Hle & Hlt). exists (x `div` Day - a). split; [lia|]. apply elem_of_seqZ. nia.
Qed.

Lemma days_before_NoDup day today : NoDup (days_before day today).
Proof.
  unfold days_before. apply NoDup_fmap_2; [|apply NoDup_seqZ]. intros x y E. unfold AddDays in E. assert (0 < Day) by done. nia.
Qed.

(** The days in a range among the stored fields. *)
Definition days_in `{!Codec DailyRollup} (fields : gmap string string) (from to : time) : gmap string DailyRollup :=
  list_to_map (omap (read_day from to) (map_to_list fields)).

Lemma lookup_days_in `{!Codec DailyRollup} fields from to f :
  days_in fields from to !! f = (text ← fields !! f; snd <$> read_day from to (f, text)).
Proof.
  assert (∀ f text f' dr, read_day from to (f, text) = Some (f', dr) → f' = f) as Hkey.
  { intros f0 text f' dr. unfold read_day. destruct (ParseDate f0); [|done]. cbn [mbind option_bind]. case_match; [done|].
    destruct (unmarshal text); [|done]. by intros [= -> _]. }
  apply option_eq. intros dr. unfold days_in. set (L := omap (read_day from to) (map_to_list fields)).
  assert (∀ dr, (text ← fields !! f; snd <$> read_day from to (f, text)) = Some dr ↔ (f, dr) ∈ L) as HL.
  { intros dr'. unfold L. rewrite list_elem_of_omap. split.
    - destruct (fields !! f) as [text|] eqn:Ef; [|done]. cbn [mbind option_bind].
      destruct (read_day from to (f, text)) as [[f' dr'']|] eqn:Er; [|done]. intros [= ->].
      exists (f, text). rewrite elem_of_map_to_list. split; [done|]. rewrite Er. by rewrite (Hkey _ _ _ _ Er).
    - intros ([f' text] & Hin%elem_of_map_to_list & Hr). pose proof (Hkey _ _ _ _ Hr). subst f'. rewrite Hin.
      cbn [mbind option_bind]. by rewrite Hr. }
  rewrite HL. split; [apply elem_of_list_to_map_2|]. intros Hin. apply elem_of_list_to_map_1'; [|done].
  intros dr' Hr'. apply HL in Hin. apply HL in Hr'. congruence.
Qed.

Lemma does_GetDailyRollups `{!Codec AggregateRollup, !Codec DailyRollup} s w d sv from to :
  healthy w → does (GetDailyRollups s d sv from to) w (Ok (days_in (daily_fields s w d sv) from to)) w.
Proof.
  intros Hw. unfold GetDailyRollups. eapply does_bind; [by apply does_hgetall|]. intros w1 H1.
  eapply does_equiv; [apply does_ret|done].
Qed.

(** ** Filling the hours *)

Definition name_of (ref : svcRef) : string * string := (dash ref, svc ref).

Section fill.
Context `{CA : !Codec AggregateRollup, CD : !Codec DailyRollup, CC : !Runner.Context Servers}.
Variable s : Store.
Variable at_ : time.
Hypothesis marshal_hour : ∀ r : AggregateRollup, all_finite r = true → is_Some (marshal r).
Hypothesis marshal_day : ∀ r : DailyRollup, is_Some (marshal r).
Hypothesis uncancelled : ∀ w : Servers, ctx_done w = (false, w).
Variable names : list (string * string).
Hypothesis names_plain : plain_names names.

Notation progress := (progress s at_ names).
Notation no_days := (λ (_ _ : string) (_ : time), False).

Lemma leads_cancelled w : leads (cancelled (W:=Servers)) w (λ b w1, b = false ∧ w1 = w).
Proof. intros r. exists false, w. split; [|done]. unfold cancelled. cbn [snd fst]. by rewrite uncancelled. Qed.

(** The hour is wanted for a service. *)
Definition wanted (full : bool) (refs : list svcRef) (d sv : string) (h : Z) : Prop :=
  ∃ ref, ref ∈ refs ∧ name_of ref = (d, sv) ∧ wants full ref h = true.

Lemma wanted_cons full ref refs d sv h :
  wanted full (ref :: refs) d sv h ↔ (name_of ref = (d, sv) ∧ wants full ref h = true) ∨ wanted full refs d sv h.
Proof.
  unfold wanted. split.
  - intros (r & [->|Hr]%elem_of_cons & ?); [by left|right; by exists r].
  - intros [?|(r & ? & ?)]; [exists ref; split; [by left|done]|exists r; split; [by right|done]].
Qed.

(** The days the hours of a service fall on that a backfill wrote. *)
Definition wrote_day (w0 : Servers) (full : bool) (ref : svcRef) (hours : list time) (x : Z) : Prop :=
  ∃ hour, hour ∈ hours ∧ wants full ref (Unix hour) = true ∧
    PerLocation (merged_hour s w0 (dash ref) (svc ref) (Unix hour)) ≠ ∅ ∧ x = Unix (Truncate hour (24 * Hour)).

(** The service after the hours: the days they wrote are noted. *)
Definition noted (w0 : Servers) (full : bool) (hours : list time) (ref ref' : svcRef) : Prop :=
  same_ref ref ref' ∧ ∀ x, x ∈ touched ref' ↔ x ∈ touched ref ∨ wrote_day w0 full ref hours x.

Lemma same_wants full ref ref' h : same_ref ref ref' → name_of ref' = name_of ref ∧ wants full ref' h = wants full ref h.
Proof. intros (Hd & Hs & He & Hm). unfold name_of, wants. by rewrite Hd, Hs, He, Hm. Qed.

Lemma noted_names w0 full hours refs refs' : Forall2 (noted w0 full hours) refs refs' → name_of <$> refs' = name_of <$> refs.
Proof.
  induction 1 as [|r r' refs refs' [Hs _] _ IH]; [done|]. rewrite !fmap_cons, IH. by destruct (same_wants full r r' 0 Hs) as [-> _].
Qed.

Lemma noted_wanted w0 full hours refs refs' d sv h :
  Forall2 (noted w0 full hours) refs refs' → wanted full refs d sv h ↔ wanted full refs' d sv h.
Proof.
  induction 1 as [|r r' refs refs' [Hs _] _ IH]; [done|]. rewrite !wanted_cons, IH. by destruct (same_wants full r r' h Hs) as [-> ->].
Qed.

Lemma noted_trans w0 full hours hours' ref ref1 ref2 :
  noted w0 full hours ref ref1 → noted w0 full hours' ref1 ref2 → noted w0 full (hours ++ hours') ref ref2.
Proof.
  intros [Hs Ht] [Hs' Ht']. split.
  - destruct Hs as (?&?&?&?), Hs' as (?&?&?&?). split_and!; congruence.
  - intros x. rewrite Ht', Ht. unfold wrote_day. destruct (same_wants full ref ref1 0 Hs) as [En _]. injection En as -> ->. split.
    + intros [[?|(hour & ? & ? & ? & ?)]|(hour & Hin & Hw & ? & ?)]; [by left|right; exists hour..].
      * split_and!; [apply elem_of_app; by left|done..].
      * destruct (same_wants full ref ref1 (Unix hour) Hs) as [_ <-]. split_and!; [apply elem_of_app; by right|done..].
    + intros [?|(hour & [Hin|Hin]%elem_of_app & Hw & ? & ?)]; [by left; left|left; right; exists hour; by split_and!|right; exists hour].
      destruct (same_wants full ref ref1 (Unix hour) Hs) as [_ ->]. by split_and!.
Qed.

Lemma wrote_nothing w0 full hour ref :
  (wants full ref (Unix hour) = false ∨ PerLocation (merged_hour s w0 (dash ref) (svc ref) (Unix hour)) = ∅) →
  noted w0 full [hour] ref ref.
Proof.
  intros H. split; [by split_and!|]. intros x. split; [by left|]. intros [?|(hour' & ->%list_elem_of_singleton & Hw & Hne & _)]; [done|].
  destruct H; congruence.
Qed.

Lemma wrote_one w0 full hour ref :
  wants full ref (Unix hour) = true → PerLocation (merged_hour s w0 (dash ref) (svc ref) (Unix hour)) ≠ ∅ →
  noted w0 full [hour] ref (touch ref (Unix (Truncate hour (24 * Hour)))).
Proof.
  intros Hw Hne. split; [by split_and!|]. intros x. cbn [touch touched]. rewrite elem_of_union, elem_of_singleton. split.
  - intros [->|?]; [|by left]. right. exists hour. split_and!; [by left|done..].
  - intros [?|(hour' & ->%list_elem_of_singleton & _ & _ & ->)]; [by right|by left].
Qed.

Lemma leads_fill_refs w0 hour full refs : ∀ D w,
  ready s at_ hour → progress D no_days w0 w → NoDup (name_of <$> refs) → name_of <$> refs ⊆ names →
  (∀ d sv, (d, sv) ∈ name_of <$> refs → ¬ D d sv (Unix hour)) →
  (∀ d sv, wanted full refs d sv (Unix hour) → all_finite (merged_hour s w0 d sv (Unix hour)) = true) →
  leads (fill_refs s hour at_ full refs) w (λ r w1, ∃ refs', r = Some refs' ∧ Forall2 (noted w0 full [hour]) refs refs' ∧
    progress (λ d sv h, D d sv h ∨ (h = Unix hour ∧ wanted full refs d sv h)) no_days w0 w1).
Proof.
  induction refs as [|ref refs IH]; intros D w Hr Hp Hnd Hsub HD Hfin; cbn [fill_refs].
  { apply leads_ret. exists []. split_and!; [done|done|]. eapply progress_hours; [|exact Hp]. intros d sv h _ _.
    split; [by left|]. by intros [?|[_ (? & ?%elem_of_nil & _)]]. }
  rewrite fmap_cons in Hnd, Hsub, HD. apply NoDup_cons in Hnd as [Hnin Hnd].
  assert ((dash ref, svc ref) ∈ names) as Hn by (apply Hsub; left).
  assert (∀ d sv, wanted full refs d sv (Unix hour) → all_finite (merged_hour s w0 d sv (Unix hour)) = true) as Hfin'
    by (intros d sv Hwt; apply Hfin, wanted_cons; by right).
  eapply leads_bind; [apply leads_cancelled|]. intros b w1 [-> ->]. cbv iota.
  destruct (wants full ref (Unix hour)) eqn:Hw; cbn [negb].
  - eapply leads_bind; [eapply (leads_hour s at_ marshal_hour names names_plain); [exact Hp|done|apply Hr|apply HD; by left|by intros ? []|apply Hr|apply Hr|apply Hfin, wanted_cons; by left]|].
    intros res w1 [(r1 & -> & _ & Hwr) Hp1]. cbv beta in Hp1. eapply leads_bind; [apply leads_cancelled|]. intros b w2 [-> ->]. cbv iota.
    eapply leads_bind; [apply (IH (also D (dash ref) (svc ref) (Unix hour))); [done|done|done|set_solver| |done]|].
    { intros d sv Hin [H|(-> & -> & _)]; [by apply (HD d sv); [right|]|]. by apply Hnin. }
    intros r w3 (refs' & -> & Hs & Hp3). apply leads_ret. eexists. split; [reflexivity|]. split.
    { constructor; [|done]. cbn [fst]. rewrite Hwr.
      destruct (decide (PerLocation (merged_hour s w0 (dash ref) (svc ref) (Unix hour)) = ∅)) as [Hm|Hm].
      - rewrite bool_decide_false by (intros Hc; by apply Hc). apply wrote_nothing. by right.
      - rewrite bool_decide_true by done. by apply wrote_one. }
    eapply progress_hours; [|exact Hp3]. intros d sv h _ _. unfold also. rewrite wanted_cons. unfold name_of. naive_solver.
  - eapply leads_bind; [apply (IH D); [done|done|done|set_solver| |done]|].
    { intros d sv Hin. apply HD. by right. }
    intros r w3 (refs' & -> & Hs & Hp3). apply leads_ret. eexists. split; [reflexivity|]. split; [constructor; [apply wrote_nothing; by left|done]|].
    eapply progress_hours; [|exact Hp3]. intros d sv h _ _. rewrite wanted_cons. naive_solver congruence.
Qed.

Lemma leads_fill_hours w0 full hours : ∀ D refs w,
  Forall (ready s at_) hours → NoDup (Unix <$> hours) → progress D no_days w0 w → NoDup (name_of <$> refs) → name_of <$> refs ⊆ names →
  (∀ d sv h, h ∈ Unix <$> hours → ¬ D d sv h) →
  (∀ d sv h, h ∈ Unix <$> hours → wanted full refs d sv h → all_finite (merged_hour s w0 d sv h) = true) →
  leads (fill_hours s at_ full hours refs) w (λ r w1, ∃ refs', r = Some refs' ∧ Forall2 (noted w0 full hours) refs refs' ∧
    progress (λ d sv h, D d sv h ∨ (h ∈ Unix <$> hours ∧ wanted full refs d sv h)) no_days w0 w1).
Proof.
  induction hours as [|hour hours IH]; intros D refs w HF Hnd Hp Hrn Hsub HD Hfin; cbn [fill_hours].
  { apply leads_ret. exists refs. split_and!; [done| |].
    - apply Forall_Forall2_diag, Forall_true. intros ref. split; [by split_and!|]. intros x. split; [by left|].
      by intros [?|(? & ?%elem_of_nil & _)].
    - eapply progress_hours; [|exact Hp]. intros d sv h _ _. split; [by left|]. by intros [?|[?%elem_of_nil _]]. }
  apply Forall_cons in HF as [Hr HF]. rewrite fmap_cons in Hnd, HD, Hfin. apply NoDup_cons in Hnd as [Hh Hnd].
  eapply leads_bind; [apply (leads_fill_refs w0 hour full refs D w); [done..| |]|].
  { intros d sv _. apply HD. by left. }
  { intros d sv. apply Hfin. by left. }
  intros r w1 (refs' & -> & Hs & Hp1).
  eapply leads_mono; [apply (IH _ refs' w1 HF Hnd Hp1)|].
  - by rewrite (noted_names _ _ _ _ _ Hs).
  - by rewrite (noted_names _ _ _ _ _ Hs).
  - intros d sv h Hin [H0|[-> _]]; [by apply (HD d sv h); [right|]|done].
  - intros d sv h Hin Hwt. apply Hfin; [by right|]. by apply (noted_wanted _ full _ refs refs' d sv h Hs).
  - intros r w2 (refs2 & -> & Hs2 & Hp2). exists refs2. split_and!; [done| |].
    + eapply Forall2_trans; [exact (noted_trans w0 full [hour] hours)|exact Hs|exact Hs2].
    + eapply progress_hours; [|exact Hp2]. intros d sv h _ _.
      pose proof (noted_wanted _ full _ refs refs' d sv h Hs) as Ew. rewrite fmap_cons, elem_of_cons. cbv beta. rewrite <-Ew. tauto.
Qed.

(** ** Rebuilding the days *)

(** A backfill rebuilds the day: it wrote to one of its hours, or the backfill
    is full and no rollup of the day was stored. *)
Definition due (full : bool) (ref : svcRef) (dailies : gmap string DailyRollup) (day : time) : bool :=
  negb (negb (bool_decide (Unix day ∈ touched ref)) && (negb (is_None_b (dailies !! FormatDate day)) || negb full)).

(** The days a backfill may rebuild: aligned, kept, and with distinct dates. *)
Definition day_ready (day : time) : Prop :=
  Truncate day (24 * Hour) = day ∧ four_digit_year day ∧ 0 < seconds_until (Add day dailyRetention) at_.

Lemma distinct_dates day day' : day_ready day → day_ready day' → FormatDate day' = FormatDate day → day' = day.
Proof.
  intros (H & Hy & _) (H' & Hy' & _) E. rewrite <-H, <-H'. by apply FormatDate_inj.
Qed.

Lemma leads_rebuild_days D w0 full ref dailies days : ∀ E w,
  Forall day_ready days → NoDup days → name_of ref ∈ names → progress D E w0 w →
  (∀ day, E (dash ref) (svc ref) day → day_ready day ∧ day ∉ days) →
  leads (rebuild_days s at_ full ref dailies days) w (λ b w1, b = true ∧
    progress D (λ d sv day, E d sv day ∨ (name_of ref = (d, sv) ∧ day ∈ days ∧ due full ref dailies day = true)) w0 w1).
Proof.
  induction days as [|day days IH]; intros E w HF Hnd Hn Hp HE; cbn [rebuild_days].
  { apply leads_ret. split; [done|]. eapply progress_iff; [done| |exact Hp]. intros d sv day _. split; [by left|].
    by intros [?|(_ & ?%elem_of_nil & _)]. }
  apply Forall_cons in HF as [Hr HF]. apply NoDup_cons in Hnd as [Hnin Hnd].
  assert (∀ day', E (dash ref) (svc ref) day' → day_ready day' ∧ day' ∉ days) as HE'.
  { intros day' H. destruct (HE day' H) as [? Hin]. split; [done|]. intros ?. apply Hin. by right. }
  destruct (negb (bool_decide (Unix day ∈ touched ref)) && (negb (is_None_b (dailies !! FormatDate day)) || negb full)) eqn:Ed.
  - eapply leads_mono; [by apply IH|]. intros b w1 [-> Hp1]. split; [done|].
    eapply progress_iff; [done| |exact Hp1]. intros d sv day' _. rewrite elem_of_cons. split; [naive_solver|].
    intros [?|(? & [->|?] & Hdue)]; [by left| |by right]. unfold due in Hdue. by rewrite Ed in Hdue.
  - eapply leads_bind; [apply leads_cancelled|]. intros b w1 [-> ->]. cbv iota.
    destruct Hr as (Hal & Hy & Ht). pose proof (leads_day s at_ marshal_day names names_plain D E w0 w (dash ref) (svc ref) day) as Hday.
    cbv zeta in Hday. rewrite Hal in Hday. eapply leads_bind; [apply Hday; [done|done| |done]|].
    { intros day' H Ef. destruct (HE day' H) as [Hr' Hin]. apply Hin, elem_of_cons. left. by apply distinct_dates. }
    intros u w1 [_ Hp1]. eapply leads_bind; [apply leads_cancelled|]. intros b w2 [-> ->]. cbv iota.
    eapply leads_mono; [apply (IH (also_day E (dash ref) (svc ref) day)); [done|done|done|done|]|].
    + intros day' [H|(_ & _ & ->)]; [by apply HE'|done].
    + intros b w2 [-> Hp2]. split; [done|]. eapply progress_iff; [done| |exact Hp2]. intros d sv day' _.
      assert (due full ref dailies day = true) as Hdue by (unfold due; by rewrite Ed).
      unfold also_day, name_of. rewrite elem_of_cons. naive_solver.
Qed.

(** What is stored of the days when the backfill gets to them. *)
Definition dailies_of (full : bool) (w : Servers) (d sv : string) (firstFull today : time) : gmap string DailyRollup :=
  if full then days_in (daily_fields s w d sv) firstFull (AddDays today (- 1)) else ∅.

Lemma leads_rebuild_refs D w0 full firstFull today refs : ∀ E w,
  Forall day_ready (days_before firstFull today) → NoDup (name_of <$> refs) → name_of <$> refs ⊆ names → progress D E w0 w →
  (∀ d sv day, (d, sv) ∈ name_of <$> refs → ¬ E d sv day) →
  leads (rebuild_refs s at_ firstFull today full refs) w (λ _ w1,
    progress D (λ d sv day, E d sv day ∨ ∃ ref, ref ∈ refs ∧ name_of ref = (d, sv) ∧ day ∈ days_before firstFull today ∧
      due full ref (dailies_of full w0 d sv firstFull today) day = true) w0 w1).
Proof.
  induction refs as [|ref refs IH]; intros E w HF Hnd Hsub Hp HE; cbn [rebuild_refs].
  { apply leads_ret. eapply progress_iff; [done| |exact Hp]. intros d sv day _. split; [by left|].
    by intros [?|(? & ?%elem_of_nil & _)]. }
  rewrite fmap_cons in Hnd, Hsub, HE. apply NoDup_cons in Hnd as [Hnin Hnd].
  assert ((dash ref, svc ref) ∈ names) as Hn by (apply Hsub; left).
  assert (daily_fields s w (dash ref) (svc ref) = daily_fields s w0 (dash ref) (svc ref)) as Edaily.
  { apply map_eq. intros f. apply (pr_days s at_ names D E w0 w Hp _ _ Hn). intros day Hd. exfalso. apply (HE (dash ref) (svc ref) day); [by left|exact Hd]. }
  eapply (leads_bind _ _ _ (λ d w1, d = Ok (dailies_of full w0 (dash ref) (svc ref) firstFull today) ∧ w1 ≃ w)).
  { unfold dailies_of. destruct full; [|by apply leads_ret]. rewrite <-Edaily.
    eapply leads_lift; [apply lifts_GetDailyRollups|]. apply does_GetDailyRollups, Hp. }
  intros d w1 [-> Ew]. cbv iota.
  eapply leads_bind.
  { apply (leads_rebuild_days D w0 full ref _ (days_before firstFull today) E); [done|apply days_before_NoDup|done| |].
    - eapply progress_equiv; [symmetry; exact Ew|exact Hp].
    - intros day Hd. exfalso. apply (HE (dash ref) (svc ref) day); [by left|exact Hd]. }
  intros b w2 [-> Hp2]. eapply leads_mono; [eapply IH; [exact HF|exact Hnd| |exact Hp2|]|].
  - set_solver.
  - intros d sv day Hin [Hd|(En & _)]; [by apply (HE d sv day); [right|]|]. apply Hnin. by rewrite En.
  - intros a w3 Hp3. eapply progress_iff; [done| |exact Hp3]. intros d sv day _. cbv beta. split.
    + intros [[?|(En & ? & ?)]|(ref' & ? & ?)]; [by left|right; exists ref|right; exists ref'; by split; [right|]].
      split; [by left|]. injection En as <- <-. by split_and!.
    + intros [?|(ref' & [->|Hin]%elem_of_cons & En & ? & ?)]; [by left; left|left; right|right; by exists ref'].
      split; [done|]. injection En as <- <-. done.
Qed.

(** ** The services, with what is kept of them *)

Definition kept (full : bool) (expiry : string → option time) (fields : gmap string string) : gmap string string :=
  if full then trimmed at_ expiry fields else fields.

(** The services in [L] are trimmed, the others as they were. *)
Record expired (full : bool) (L : string → string → Prop) (w0 w : Servers) : Prop := {
  ex_healthy : healthy w;
  ex_other : ∀ c key, key ∉ written_keys names →
    hash (server_of w c) key = hash (server_of w0 c) key ∧ set_ (server_of w c) key = set_ (server_of w0 c) key;
  ex_fields : ∀ d sv, (d, sv) ∈ names →
    (L d sv → stored_fields s w d sv = kept full (hourly_expiry s) (stored_fields s w0 d sv) ∧
              daily_fields s w d sv = kept full daily_expiry (daily_fields s w0 d sv)) ∧
    (¬ L d sv → stored_fields s w d sv = stored_fields s w0 d sv ∧ daily_fields s w d sv = daily_fields s w0 d sv) }.

Lemma expired_equiv full L w0 w w' : w ≃ w' → expired full L w0 w → expired full L w0 w'.
Proof.
  intros Ew [Hh Ho Hf]. split.
  - by rewrite <-Ew.
  - intros c key Hk. rewrite <-(hash_proper _ _ (Ew c) key _ eq_refl), <-(set_proper _ _ (Ew c) key _ eq_refl). by apply Ho.
  - intros d sv Hn. unfold daily_fields at 1 3. rewrite <-(hash_proper _ _ (Ew _) (RollupDaily d sv) _ eq_refl).
    rewrite <-(stored_fields_proper s _ _ Ew d _ eq_refl sv _ eq_refl). by apply Hf.
Qed.

Lemma expired_iff full L L' w0 w : (∀ d sv, (d, sv) ∈ names → L d sv ↔ L' d sv) → expired full L w0 w → expired full L' w0 w.
Proof. intros HL [Hh Ho Hf]. split; [done|done|]. intros d sv Hn. rewrite <-(HL d sv Hn). by apply Hf. Qed.

Lemma leads_expire full L w0 w d sv :
  expired full L w0 w → (d, sv) ∈ names → ¬ L d sv →
  leads (if full then (_ ← ExpireRollupFields (W:=Runner * Servers) s d sv at_; mret ()) else mret ()) w
    (λ _ w1, expired full (λ d' sv', L d' sv' ∨ (d' = d ∧ sv' = sv)) w0 w1).
Proof.
  intros He Hn HL. assert (∀ w', healthy w' →
    (∀ c k, k ∉ written_keys names → hash (server_of w' c) k = hash (server_of w c) k ∧ set_ (server_of w' c) k = set_ (server_of w c) k) →
    (∀ d' sv', (d', sv') ∈ names → (d', sv') ≠ (d, sv) → stored_fields s w' d' sv' = stored_fields s w d' sv' ∧ daily_fields s w' d' sv' = daily_fields s w d' sv') →
    stored_fields s w' d sv = kept full (hourly_expiry s) (stored_fields s w d sv) →
    daily_fields s w' d sv = kept full daily_expiry (daily_fields s w d sv) →
    expired full (λ d' sv', L d' sv' ∨ (d' = d ∧ sv' = sv)) w0 w') as Hstep.
  { intros w' Hh Ho Hothers Hs Hd. split; [done| |].
    - intros c key Hk. destruct (Ho c key Hk) as [-> ->]. by apply He.
    - intros d' sv' Hn'. destruct (ex_fields _ _ _ _ He d' sv' Hn') as [H1 H2]. destruct (decide ((d', sv') = (d, sv))) as [E|Hne].
      + injection E as -> ->. split; [|intros H; destruct H; by right]. intros _. rewrite Hs, Hd. by destruct (H2 HL) as [-> ->].
      + destruct (Hothers d' sv' Hn' Hne) as [-> ->]. split; [|intros H; apply H2; intros ?; apply H; by left].
        intros [H|[-> ->]]; [by apply H1|done]. }
  destruct full.
  - destruct (does_ExpireRollupFields s d sv at_ w) as (w' & Hdo & Hh & Ho & Hs & Hd); [apply He|by apply (hourly_not_daily names names_plain)|].
    eapply leads_bind; [eapply leads_lift; [apply lifts_ExpireRollupFields|exact Hdo]|]. intros a w1 [_ Ew]. apply leads_ret.
    eapply expired_equiv; [symmetry; exact Ew|]. apply Hstep; [done| | |done|done].
    + intros c k Hk. apply Ho; intros ->; apply Hk, elem_of_app; [left|right]; apply list_elem_of_fmap; by exists (d, sv).
    + intros d' sv' Hn' Hne. destruct (others_keys names names_plain d sv d' sv' Hn Hn' Hne) as (? & ? & ? & ?).
      by split; apply Ho.
  - apply leads_ret. apply Hstep; [apply He|done|done|done|done].
Qed.

(** The service as the backfill sees it, from what is kept of it. *)
Definition ref_for (full : bool) (w0 : Servers) (oldest now : time) (p : string * string) : svcRef :=
  new_ref p.1 p.2 (list_to_map (omap (read_hour oldest now) (map_to_list (kept full (hourly_expiry s) (stored_fields s w0 p.1 p.2))))).

Lemma leads_ref_services full w0 oldest now d services : ∀ L w refs,
  expired full L w0 w → (d,.) <$> services ⊆ names → NoDup services → Forall (λ sv, ¬ L d sv) services →
  leads (ref_services s d services oldest now at_ full refs) w (λ refs' w1,
    refs' = refs ++ (ref_for full w0 oldest now <$> ((d,.) <$> services)) ∧
    expired full (λ d' sv', L d' sv' ∨ (d' = d ∧ sv' ∈ services)) w0 w1).
Proof.
  induction services as [|sv services IH]; intros L w refs He Hsub Hnd HF; cbn [ref_services].
  { apply leads_ret. rewrite app_nil_r. split; [done|]. eapply expired_iff; [|exact He]. intros d' sv' _. split; [by left|].
    by intros [?|[_ ?%elem_of_nil]]. }
  apply NoDup_cons in Hnd as [Hsv Hnd]. apply Forall_cons in HF as [HL HF]. rewrite fmap_cons in Hsub |- *.
  assert ((d, sv) ∈ names) as Hn by (apply Hsub; left).
  eapply leads_bind; [by apply leads_expire|]. intros u w1 He1. cbv beta in He1.
  eapply leads_bind; [eapply leads_lift; [apply lifts_GetAggregateRollups|apply does_GetAggregateRollups, He1]|]. intros r w2 [-> Ew]. cbv iota.
  apply (expired_equiv _ _ _ _ w2) in He1 as He2; [|by symmetry].
  eapply leads_mono; [eapply IH; [exact He2|set_solver|done|]|].
  - apply Forall_forall. intros sv' Hin [H|[_ ->]]; [|done]. by apply (proj1 (Forall_forall _ _) HF sv').
  - intros refs' w3 [-> He3]. split.
    + rewrite <-(assoc_L (++)). f_equal. rewrite fmap_cons. cbn [app]. f_equal. unfold ref_for, hours_of. cbn [fst snd].
      destruct (ex_fields _ _ _ _ He1 d sv Hn) as [H1 _]. by destruct (H1 ltac:(by right)) as [-> _].
    + eapply expired_iff; [|exact He3]. intros d' sv' _. rewrite elem_of_cons. tauto.
Qed.
End fill.
