(* ===== verification/UptimeServers.v ===== *)
(** * Uptime over midnight

    On working servers: what the dashboard counts of a day that a pass has
    summed up is what it counted from the day's hours. *)

From S2P Require Import Prelude GoStd GoTime Errors Trace Keys Ladder Float64 Rollups RollupProps Valkey Store StoreProps Sla.
From S2P Require Import Runner RunnerProps Resp ValkeyServer EndToEnd Servers StoreServers Pipeline RunnerServers FillServers PassServers.

(** ** Days and hours *)

(** The totals of a day depend on the hours that fall on it only. *)
Lemma hours_of_day_same day (m m' : gmap Z AggregateRollup) :
  (∀ z, FormatDate (of_Unix z) = day → m !! z = m' !! z) →
  hours_of_day day (map_to_list m) ≡ₚ hours_of_day day (map_to_list m').
Proof.
  intros H. unfold hours_of_day. apply fmap_Permutation, NoDup_Permutation.
  1,2: apply NoDup_filter, NoDup_map_to_list.
  intros [z a]. rewrite !list_elem_of_filter, !elem_of_map_to_list. simpl. split; intros [E F]; split; try done.
  - by rewrite <-H.
  - by rewrite H.
Qed.

Lemma zsum_hour_total (l : list AggregateRollup) :
  zsum (hour_total <$> l) = zsum (agg_Success <$> l) + zsum (agg_Failure <$> l).
Proof. induction l as [|a l IH]; [done|]. rewrite !fmap_cons. cbn [zsum foldr] in *. unfold hour_total at 1. lia. Qed.

(** The summary of a day counts what its hours count. *)
Lemma hours_count_daily (h : History_) (m : gmap Z AggregateRollup) day dr :
  (∀ z, FormatDate (of_Unix z) = day → Hours h !! z = m !! z) →
  computeDailyFromHours m !! day = Some dr →
  hours_count h day = Some {| dc_Success := dr_Success dr; dc_Total := wrap64 (dr_Success dr + dr_Failure dr) |}.
Proof.
  intros H E. destruct (computeDailyFromHours_partitions m day _ (reflexivity _)) as [_ P]. rewrite E in P.
  pose proof (hours_of_day_same day (Hours h) m H) as Hp. unfold hours_count, day_total in *.
  destruct (hours_of_day day (map_to_list m)) as [|a l] eqn:Em; [done|]. rewrite <-Em in *.
  destruct (hours_of_day day (map_to_list (Hours h))) as [|b k] eqn:Eh.
  { apply Permutation_nil in Hp. congruence. }
  rewrite <-Eh in *. assert (is_nil (hours_of_day day (map_to_list m)) = false) as Nm by by rewrite Em.
  assert (is_nil (hours_of_day day (map_to_list (Hours h))) = false) as Nh by by rewrite Eh.
  rewrite Nm in P. rewrite Nh. injection P as ->. cbn [dr_Success dr_Failure].
  rewrite Hp, zsum_hour_total. do 2 f_equal.
  change (eqm (zsum (agg_Success <$> hours_of_day day (map_to_list m)) + zsum (agg_Failure <$> hours_of_day day (map_to_list m)))
    (wrap64 (zsum (agg_Success <$> hours_of_day day (map_to_list m))) + wrap64 (zsum (agg_Failure <$> hours_of_day day (map_to_list m))))).
  by rewrite !eqm_wrap.
Qed.

(** A summary that counts the same as the hours may as well not be there. *)
Lemma Uptime_without_summary (h : History_) days now key dr :
  Days h !! key = Some dr →
  hours_count h key = Some {| dc_Success := dr_Success dr; dc_Total := wrap64 (dr_Success dr + dr_Failure dr) |} →
  Uptime h days now = Uptime {| Hours := Hours h; Days := delete key (Days h) |} days now.
Proof.
  intros Hd Hc. unfold Uptime.
  assert (ByDay h now = ByDay {| Hours := Hours h; Days := delete key (Days h) |} now) as ->; [|done].
  apply map_eq. intros k. rewrite !lookup_ByDay.
  unfold counted_day, day_count. cbn [Days]. destruct (decide (k = key)) as [->|N].
  - rewrite lookup_delete_eq, Hd. unfold hours_count in *. cbn [Hours]. by destruct (string_lt _ _).
  - by rewrite lookup_delete_ne.
Qed.

Lemma within t from to : from ≤ t ≤ to → Before t from || After t to = false.
Proof. intros H. unfold Before, After. apply orb_false_iff. rewrite !Z.ltb_ge. lia. Qed.

(** What is read of an hour does not depend on the range around it. *)
Lemma hours_of_range `{!Codec AggregateRollup} s w d sv from to from' to' z :
  from ≤ from' → to' ≤ to → from' ≤ of_Unix z ≤ to' →
  hours_of s w d sv from to !! z = hours_of s w d sv from' to' !! z.
Proof.
  intros Hf Ht Hz. unfold hours_of. induction (map_to_list (stored_fields s w d sv)) as [|[f text] l IH]; [done|].
  assert (∀ from to, from ≤ of_Unix z ≤ to → ∀ h r, read_hour from to (f, text) = Some (h, r) → h = z →
    ∀ from' to', from' ≤ of_Unix z ≤ to' → read_hour from' to' (f, text) = Some (h, r)) as Hr.
  { clear. intros from to Hz h r. unfold read_hour. destruct (ParseInt f) as [k [e|]]; [done|].
    destruct (Before (of_Unix k) from || After (of_Unix k) to); [done|]. destruct (unmarshal text) as [a|]; [|done].
    intros [= -> <-] -> from' to' Hz'. cbv zeta.
    by rewrite within. }
  assert (from ≤ of_Unix z ≤ to) as Hz0 by lia.
  cbn [omap list_omap].
  destruct (read_hour from to (f, text)) as [[h r]|] eqn:E; destruct (read_hour from' to' (f, text)) as [[h' r']|] eqn:E'; cbn [list_to_map foldr fst snd].
  - destruct (decide (h = z)) as [->|N].
    + rewrite (Hr _ _ Hz0 _ _ E eq_refl _ _ Hz) in E'. injection E' as <- <-. by rewrite !lookup_insert_eq.
    + destruct (decide (h' = z)) as [->|N'].
      * rewrite (Hr _ _ Hz _ _ E' eq_refl _ _ Hz0) in E. by injection E.
      * by rewrite !lookup_insert_ne.
  - destruct (decide (h = z)) as [->|N]; [|by rewrite lookup_insert_ne].
    by rewrite (Hr _ _ Hz0 _ _ E eq_refl _ _ Hz) in E'.
  - destruct (decide (h' = z)) as [->|N]; [|by rewrite lookup_insert_ne].
    by rewrite (Hr _ _ Hz _ _ E' eq_refl _ _ Hz0) in E.
  - done.
Qed.

(** ** Reading the history *)

(** Where the history starts. *)
Definition history_start (s : Store) (t : time) : time := Truncate (AddDays t (- retentionDays s)) (24 * Hour).

Lemma does_History `{!Codec AggregateRollup, !Codec DailyRollup} s w d sv t :
  healthy w →
  does (History s d sv t) w
    (Ok {| Hours := with_live s w d sv (Unix (Truncate t Hour)) (hours_of s w d sv (history_start s t) t);
           Days := days_in (daily_fields s w d sv) (AddDays t (- 365)) t |}) w.
Proof.
  intros Hw. unfold History. fold (history_start s t).
  eapply does_bind; [by apply does_GetAggregateRollups|]. intros w1 H1. cbv beta iota zeta.
  assert (healthy w1) as Hw1 by by rewrite H1.
  eapply does_bind; [by apply does_liveHour|]. intros w2 H2.
  assert (healthy w2) as Hw2 by by rewrite H2.
  eapply does_bind; [by apply does_GetDailyRollups|]. intros w3 H3.
  assert (w3 ≃ w) as E by by rewrite H3, H2.
  eapply does_equiv; [|exact E]. unfold with_live.
  rewrite (live_of_proper s _ _ H1 d _ eq_refl sv _ eq_refl _ _ eq_refl _ _ eq_refl).
  assert (daily_fields s w2 d sv = daily_fields s w d sv) as ->.
  { unfold daily_fields. apply hash_proper; [|done]. by rewrite H2, H1. }
  destruct (live_of _ _ _ _ _ _); apply does_ret.
Qed.

Section midnight.
Context `{CA : !Codec AggregateRollup, CD : !Codec DailyRollup}.
Variable s : Store.
Variable t : time.
Hypothesis t_plausible : plausible t.
Hypothesis days_kept : 1 ≤ retentionDays s ≤ 365.

(** The day before [t]'s. *)
Let yesterday : time := Truncate t (24 * Hour) - Day.
Let last_second : time := Add yesterday (24 * Hour - Second).

Lemma yesterday_bounds :
  Truncate yesterday Day = yesterday ∧ Truncate t Day = yesterday + Day ∧ yesterday + Day ≤ t < yesterday + 2 * Day ∧
  - Day ≤ yesterday ∧ history_start s t ≤ yesterday ∧ - 366 * Day ≤ history_start s t.
Proof.
  assert (0 < Day) as HD by done.
  assert (Truncate t Day = yesterday + Day) as Et by (unfold yesterday; change (24 * Hour) with Day; lia).
  pose proof (Truncate_le t Day HD) as Ht. unfold history_start. change (24 * Hour) with Day.
  pose proof (Truncate_le (AddDays t (- retentionDays s)) Day HD) as Hs. unfold plausible in t_plausible.
  rewrite Truncate_day in Et. assert (yesterday = (t `div` Day - 1) * Day) as Ey by lia.
  assert (AddDays t (- retentionDays s) `div` Day = t `div` Day - retentionDays s) as Ea.
  { unfold AddDays. rewrite Z.div_add by done. lia. }
  rewrite !Truncate_day, Ea in *. rewrite Ey, Z.div_mul by done. assert (0 ≤ t `div` Day) by (apply Z.div_pos; lia). split_and!; nia.
Qed.

Lemma on_yesterday z :
  FormatDate (of_Unix z) = FormatDate yesterday → history_start s t ≤ of_Unix z ≤ t →
  yesterday ≤ of_Unix z ≤ last_second.
Proof.
  intros E Hz. destruct yesterday_bounds as (Ey & _ & Ht & Hy & _ & Hs). unfold plausible in t_plausible.
  assert (2 * Day < 2 ^ 63) as HD' by done. assert (0 < Day) as HD0 by done.
  apply FormatDate_inj in E; [|apply four_digit_near; lia..]. rewrite Ey in E.
  pose proof (Truncate_le (of_Unix z) Day HD0) as Hle. rewrite E in Hle.
  rewrite Truncate_day in Ey. unfold last_second, Add, of_Unix in *.
  clear -Ey Hle. generalize dependent yesterday. intros y Ey Hle. generalize dependent (y `div` Day). intros k Ey.
  unfold Day, Hour, Minute, Second in *. lia.
Qed.

(** The hours of the day are those the history shows, whatever the hour in
    progress holds. *)
Lemma history_of_yesterday w d sv z :
  FormatDate (of_Unix z) = FormatDate yesterday →
  with_live s w d sv (Unix (Truncate t Hour)) (hours_of s w d sv (history_start s t) t) !! z =
  hours_of s w d sv yesterday last_second !! z.
Proof.
  intros E. destruct yesterday_bounds as (Ey & Et & Ht & Hy & Hs & _). unfold plausible in t_plausible.
  assert (0 < Day) as HD by done. assert (2 * Day < 2 ^ 63) as HD' by done.
  set (hours := hours_of s w d sv (history_start s t) t).
  assert (with_live s w d sv (Unix (Truncate t Hour)) hours !! z = hours !! z) as ->.
  { unfold with_live. destruct (live_of _ _ _ _ _ _); [|done]. apply lookup_insert_ne. intros <-.
    pose proof (aligned_hour t 0) as Ea. rewrite Z.mul_0_l, Z.sub_0_r in Ea. rewrite Ea in E.
    pose proof (Truncate_le t Hour ltac:(done)) as Hh. assert (Hour < Day) by done.
    apply FormatDate_inj in E; [|apply four_digit_near; lia..]. rewrite Ey in E.
    pose proof (this_hour_today t) as Hle. unfold Before, this_hour in Hle. zb. change (24 * Hour) with Day in Hle.
    pose proof (Truncate_le (Truncate t Hour) Day HD). lia. }
  destruct (decide (yesterday ≤ of_Unix z ≤ last_second)) as [Hin|Hout].
  - apply hours_of_range; [done| |done]. unfold last_second, Add. change (24 * Hour) with Day.
    assert (0 < Second) by done. lia.
  - transitivity (@None AggregateRollup); [|symmetry].
    + destruct (hours !! z) as [a|] eqn:Ez; [|done]. apply hours_of_fields in Ez as (_ & Hb & Ha).
      unfold Before, After in *. zb. destruct Hout. by apply on_yesterday.
    + destruct (hours_of s w d sv yesterday last_second !! z) as [a|] eqn:Ez; [|done].
      apply hours_of_fields in Ez as (_ & Hb & Ha). unfold Before, After in *. zb. destruct Hout. lia.
Qed.

(** A stored summary is read back by the history. *)
Lemma history_reads_summary w d sv dr data :
  daily_fields s w d sv !! FormatDate yesterday = Some data → unmarshal data = Some dr →
  days_in (daily_fields s w d sv) (AddDays t (- 365)) t !! FormatDate yesterday = Some dr.
Proof.
  intros E Hu. destruct yesterday_bounds as (Ey & Et & Ht & Hy & _). unfold plausible in t_plausible.
  assert (0 < Day) as HD by done. assert (2 * Day < 2 ^ 63) as HD' by done.
  rewrite lookup_days_in, E. cbn [mbind option_bind]. unfold read_day.
  rewrite ParseDate_FormatDate by (apply four_digit_near; lia). cbn [mbind option_bind].
  change (24 * Hour) with Day. rewrite Ey, Et.
  assert (Truncate (AddDays t (- 365)) Day ≤ yesterday) as Hle.
  { pose proof (Truncate_le (AddDays t (- 365)) Day HD). unfold AddDays in *. lia. }
  rewrite within by lia. by rewrite Hu.
Qed.
End midnight.

(** Past midnight the day before is the last hour's. *)
Lemma last_day_yesterday now : day_over now → last_day now = Truncate now (24 * Hour) - Day.
Proof.
  unfold day_over, last_day, last_hour, Add. change (24 * Hour) with Day. intros Hlt.
  pose proof (this_hour_today now) as Hle. unfold Before, this_hour in Hle. change (24 * Hour) with Day in Hle. zb.
  rewrite !Truncate_day in *. assert (Hour < Day) by done.
  set (n := now `div` Day) in *. set (x := Truncate now Hour) in *.
  replace ((x + - Hour) `div` Day) with (n - 1); [lia|]. apply (Z.div_unique_pos _ _ _ (x + - Hour - (n - 1) * Day)); lia.
Qed.

(** C16: a day that is over reads the same before and after it is summed up: when a
    pass past midnight has summed up the day of a service, what the dashboard
    then shows of any number of days, at any time of the new day, holds that
    summary, and the uptime computed from it is the one computed without it,
    from the hours of the day themselves - the number of checks and of
    successes, to the last one.  (The numbers of the rollups the pass writes must
    be finite: encoding/json refuses the others.) *)
Theorem uptime_over_midnight `{CA : !Codec AggregateRollup, CD : !Codec DailyRollup}
    (s : Store) (now t : time) (r r' : Runner) (w w' : Servers) (launch : option bool) (d sv : string) (dr : DailyRollup) :
  (∀ a : AggregateRollup, all_finite a = true → is_Some (marshal a)) →
  (∀ a : DailyRollup, is_Some (marshal a)) → (∀ data, marshal dr = Some data → unmarshal data = Some dr) →
  plausible now → 7200 < retention s < 2 ^ 62 / Second → 1 ≤ retentionDays s ≤ 365 →
  healthy w → locations s ≠ ∅ → plain_listing s w →
  (∀ d sv, listed s w Dashboards d → listed s w (Services d) sv →
     all_finite (merged_hour s w d sv (Unix (this_hour now))) = true ∧
     all_finite (merged_hour s w d sv (Unix (last_hour now))) = true) →
  (runOnce s now (r, w)).1 = (launch, (r', w')) → day_over now →
  listed s w Dashboards d → listed s w (Services d) sv → day_sum s w' d sv (last_day now) = Some dr →
  plausible t → Truncate t (24 * Hour) = Truncate now (24 * Hour) →
  ∃ h, (History s d sv t w').1.1 = Ok h ∧ Days h !! FormatDate (last_day now) = Some dr ∧
    ∀ days, Uptime h days t = Uptime {| Hours := Hours h; Days := delete (FormatDate (last_day now)) (Days h) |} days t.
Proof.
  intros Hm Hmd Hcodec Hnow Hret Hdays Hw Hl Hplain Hfin Hrun Hover Hd Hs Hsum Ht Et.
  destruct (runOnce_run s now Hm Hmd Hnow Hret w Hw Hl Hplain Hfin r) as (w1 & [Hh _ _ Hday] & E). rewrite Hrun in E.
  assert ((d, sv) ∈ services_listed s w) as Hin by by apply services_listed_spec.
  assert (w1 = w') as ->.
  { destruct (is_nil (services_listed s w)); [by simplify_eq|]. destruct (afterPass r now ∅ false). by simplify_eq. }
  destruct (Hday d sv Hin) as [Hr _]. specialize (Hr (last_day now) ltac:(by split_and!)).
  unfold rebuilt in Hr. rewrite Hsum in Hr. destruct (Hmd dr) as [data Hdata]. pose proof (Hcodec data Hdata) as Hu. rewrite Hdata in Hr.
  rewrite (last_day_yesterday now Hover), <-Et in *.
  destruct (does_History s w' d sv t Hh) as (w2 & EH & _). match type of EH with _ = (Ok ?x, _) => set (h := x) in EH end.
  assert (Days h !! FormatDate (Truncate t (24 * Hour) - Day) = Some dr) as Hread by exact (history_reads_summary s t Ht Hdays w' d sv dr data Hr Hu).
  exists h. split; [by rewrite EH|]. split; [exact Hread|].
  intros days. apply (Uptime_without_summary h _ _ _ dr); [exact Hread|].
  unfold day_sum in Hsum. destruct (computeDailyFromHours _ !! _) as [dr'|] eqn:Ec; [|done]. cbn [mbind option_bind] in Hsum.
  destruct (0 <? dr_Total dr'); [|done]. injection Hsum as ->.
  eapply hours_count_daily; [|exact Ec]. intros z Ez. by apply history_of_yesterday.
Qed.

(** The day of [midnight_server], read an hour after midnight. *)
Definition midnight_summary : DailyRollup := {| dr_Date := "2023-11-14"; dr_Success := 0; dr_Failure := 1; dr_Total := 1 |}.

#[local] Instance summary_hours : Codec AggregateRollup := {|
  marshal := λ r, if all_finite r then Some (if decide (r = midnight_rollup) then "rollup" else "other") else None;
  unmarshal := λ text, if decide (text = "rollup") then Some midnight_rollup else None |}.

#[local] Instance summary_days : Codec DailyRollup := {|
  marshal := λ r, Some (if decide (r = midnight_summary) then "day" else "other");
  unmarshal := λ text, if decide (text = "day") then Some midnight_summary else None |}.

Lemma uptime_over_midnight_witness :
  let w' := (runOnce sim_store midnight (NewRunner Minute Second 7, sim_world midnight_server)).1.2.2 in
  let t := of_Unix 1700010000 in
  ∃ h, (History sim_store "prod" "api" t w').1.1 = Ok h ∧ Days h !! "2023-11-14" = Some midnight_summary ∧
    Uptime h 2 t = Uptime {| Hours := Hours h; Days := delete "2023-11-14" (Days h) |} 2 t.
Proof.
  intros w' t. assert (FormatDate (last_day midnight) = "2023-11-14") as Ef by (vm_compute; reflexivity).
  destruct (uptime_over_midnight sim_store midnight t (NewRunner Minute Second 7)
    (runOnce sim_store midnight (NewRunner Minute Second 7, sim_world midnight_server)).1.2.1 (sim_world midnight_server) w'
    (runOnce sim_store midnight (NewRunner Minute Second 7, sim_world midnight_server)).1.1
    "prod" "api" midnight_summary) as (h & Hh & Hd & Hu).
  - intros a Ha. cbn. rewrite Ha. by eexists.
  - intros a. by eexists.
  - intros data [= <-]. vm_compute. reflexivity.
  - split; vm_compute; [discriminate|reflexivity].
  - split; vm_compute; reflexivity.
  - split; vm_compute; discriminate.
  - by apply sim_healthy.
  - done.
  - intros d ->%midnight_listed. split; [done|]. by intros sv ->%midnight_listed.
  - intros d' sv' ->%midnight_listed ->%midnight_listed. split; vm_compute; reflexivity.
  - unfold w'. by destruct (runOnce sim_store midnight (NewRunner Minute Second 7, sim_world midnight_server)) as [[? [? ?]] ?].
  - vm_compute. reflexivity.
  - by apply midnight_listed.
  - by apply midnight_listed.
  - vm_compute. reflexivity.
  - split; vm_compute; [discriminate|reflexivity].
  - vm_compute. reflexivity.
  - exists h. rewrite Ef in Hd, Hu. split; [exact Hh|]. split; [exact Hd|apply Hu].
Defined.
