(* ===== verification/BackfillServers.v ===== *)
(** * A backfill on working servers

    What a backfill leaves behind when every location answers and nobody
    cancels it: exactly the hours of its window without a complete rollup are
    rolled up, each from the samples the locations hold and what was stored;
    the finished days it wrote to or that had no rollup are the sums of their
    hours; what has expired is gone, and nothing else changes. *)

From S2P Require Import Prelude GoStd GoTime Errors Trace Keys Ladder Float64 Rollups RollupProps.
From S2P Require Import Valkey Store StoreProps Runner RunnerProps BackfillProps Resp ValkeyServer EndToEnd Servers StoreServers.
From S2P Require Import Pipeline RunnerServers PassServers ExpireServers FillServers.

(** ** What a backfill is due to do *)

(** No complete rollup is stored, or, for a backfill that is not full, an
    incomplete one. *)
Definition gap `{!Codec AggregateRollup} (s : Store) (w : Servers) (from to : time) (full : bool) (d sv : string) (h : Z) : Prop :=
  match hours_of s w d sv from to !! h with Some r => ¬ complete r | None => full = true end.

(** The first hour of the window of [n] hours, which ends with the current
    hour. *)
Definition window_start (at_ : time) (n : Z) : time := Truncate at_ Hour - (n - 1) * Hour.

(** The hour is one of the finished hours of the window and has a gap. *)
Definition hour_due `{!Codec AggregateRollup} (s : Store) (w : Servers) (at_ : time) (n : Z) (full : bool) (d sv : string) (h : Z) : Prop :=
  (∃ k, 1 ≤ k < n ∧ h = Unix (Truncate at_ Hour - k * Hour)) ∧ gap s w (window_start at_ n) (Truncate at_ Hour) full d sv h.

(** The day is wholly inside the window and over. *)
Definition day_inside (at_ : time) (n : Z) (day : time) : Prop :=
  Truncate day (24 * Hour) = day ∧ first_full_day (window_start at_ n) ≤ day < Truncate at_ (24 * Hour).

(** Some hour of the day is written, or the backfill is full and finds no
    rollup of the day. *)
Definition day_due `{!Codec AggregateRollup, !Codec DailyRollup} (s : Store) (w : Servers) (at_ : time) (n : Z) (full : bool)
    (d sv : string) (day : time) : Prop :=
  (∃ h, hour_due s w at_ n full d sv h ∧ PerLocation (merged_hour s w d sv h) ≠ ∅ ∧ Truncate (of_Unix h) (24 * Hour) = day) ∨
  (full = true ∧
   days_in (daily_fields s w d sv) (first_full_day (window_start at_ n)) (AddDays (Truncate at_ (24 * Hour)) (- 1)) !! FormatDate day = None).

Lemma new_ref_start d sv rollups : name_of (new_ref d sv rollups) = (d, sv) ∧ touched (new_ref d sv rollups) = ∅.
Proof.
  unfold new_ref. set (ref := {| dash := d |}). assert (name_of ref = (d, sv) ∧ touched ref = ∅) as H by done. revert H.
  generalize ref. clear ref. induction (map_to_list rollups) as [|[h r] l IH]; intros ref H; [done|]. cbn [foldl]. by apply IH.
Qed.

Section whole.
Context `{CA : !Codec AggregateRollup, CD : !Codec DailyRollup, CC : !Runner.Context Servers}.
Variable s : Store.
Variable at_ : time.
Variable full : bool.
Variable n : Z.
Variable w0 : Servers.
Hypothesis marshal_hour : ∀ r : AggregateRollup, all_finite r = true → is_Some (marshal r).
Hypothesis marshal_day : ∀ r : DailyRollup, is_Some (marshal r).
Hypothesis uncancelled : ∀ w : Servers, ctx_done w = (false, w).
Hypothesis w0_healthy : healthy w0.
Hypothesis some_location : locations s ≠ ∅.
Hypothesis w0_plain : plain_listing s w0.
Hypothesis w0_canonical : ∀ d sv, (d, sv) ∈ services_listed s w0 → canonical (stored_fields s w0 d sv).
Hypothesis at_plausible : plausible at_.
(** The last second of an hour is left out: then an hour of the window may
    expire in less than a second. *)
Hypothesis at_second : at_ + Second ≤ Truncate at_ Hour + Hour.
Hypothesis window : 1 ≤ n ≤ 365 * 24.
Hypothesis window_kept : retention s = n * 3600.

Notation names := (services_listed s w0).
Notation now := (Truncate at_ Hour).
Notation oldest := (window_start at_ n).
Notation firstFull := (first_full_day (window_start at_ n)).
Notation today := (Truncate at_ (24 * Hour)).
Notation window_hours := (backfill_hours (Truncate at_ Hour) n).
Notation refs := (ref_for s at_ full w0 (window_start at_ n) (Truncate at_ Hour) <$> services_listed s w0).

Lemma listed_plain : plain_names names.
Proof. by apply plain_services. Qed.

Lemma leads_ref_dashboards ds : ∀ L w rs,
  expired s at_ names full L w0 w → Forall (listed s w0 Dashboards) ds → NoDup ds → (∀ d sv, d ∈ ds → ¬ L d sv) →
  leads (ref_dashboards s ds oldest now at_ full rs) w (λ rs' w1,
    rs' = rs ++ (ref_for s at_ full w0 oldest now <$> (ds ≫= λ d, (d,.) <$> listing s w0 (Services d))) ∧
    expired s at_ names full (λ d sv, L d sv ∨ (d ∈ ds ∧ sv ∈ listing s w0 (Services d))) w0 w1).
Proof.
  induction ds as [|d ds IH]; intros L w rs He HF Hnd HL; cbn [ref_dashboards].
  { apply leads_ret. rewrite app_nil_r. split; [done|]. eapply expired_iff; [|exact He]. intros d sv _. split; [by left|].
    by intros [?|[?%elem_of_nil _]]. }
  apply Forall_cons in HF as [Hd HF]. apply NoDup_cons in Hnd as [Hnin Hnd].
  eapply leads_bind; [eapply leads_lift; [apply lifts_union|apply does_union; [apply He|done]]|]. intros a w1 [-> E1]. cbv iota.
  assert (listing s w (Services d) = listing s w0 (Services d)) as ->.
  { unfold listing. f_equal. apply listing_from_ext. intros c. apply He. apply Services_elsewhere; [done|]. by apply w0_plain. }
  eapply leads_bind.
  { apply (leads_ref_services s at_ marshal_hour marshal_day uncancelled names listed_plain full w0 oldest now d (listing s w0 (Services d)) L w1).
    - eapply expired_equiv; [symmetry; exact E1|exact He].
    - intros [d' sv'] (sv & E & Hs)%list_elem_of_fmap. injection E as -> ->. apply services_listed_spec. split; [done|].
      by apply listing_spec.
    - apply listing_spec.
    - apply Forall_forall. intros sv _. apply HL. by left. }
  intros rs' w2 [-> He2]. eapply leads_mono; [eapply IH; [exact He2|done|done|]|].
  - intros d' sv Hin [H|[-> _]]; [by apply (HL d' sv); [right|]|done].
  - intros rs' w3 [-> He3]. rewrite bind_cons, fmap_app, (assoc_L (++)). split; [done|].
    eapply expired_iff; [|exact He3]. intros d' sv' _. rewrite elem_of_cons. naive_solver.
Qed.

(** *** The three loops one after the other *)

Lemma Hour_pos : 0 < Hour.
Proof. done. Qed.

Lemma oldest_window : Add now (wrap64 (- wrap64 (n - 1) * Hour)) = oldest.
Proof. unfold window_start, Add. rewrite (wrap64_id (n - 1)), wrap64_id; unfold is_int64, Hour, Minute, Second in *; lia. Qed.

Lemma first_full_aligned : Truncate firstFull (24 * Hour) = firstFull ∧ oldest ≤ firstFull < oldest + Day.
Proof.
  pose proof (Truncate_le oldest (24 * Hour) ltac:(done)) as Ht. unfold first_full_day, Before, AddDays. change (24 * Hour) with Day in *.
  rewrite !Truncate_day in *. destruct (_ <? oldest) eqn:E; zb; rewrite ?Truncate_day.
  - split; [|lia]. rewrite <-Z.mul_add_distr_r, Z.div_mul by done. lia.
  - split; [|lia]. by rewrite Z.div_mul.
Qed.

Lemma inside_ready day : day_inside at_ n day → day_ready at_ day.
Proof.
  intros (Hal & Hlo & Hhi). destruct first_full_aligned as [_ Hf]. pose proof (Truncate_le at_ Hour ltac:(done)) as Hh.
  pose proof (Truncate_le at_ (24 * Hour) ltac:(done)) as Hd. unfold window_start in Hf, Hlo. unfold plausible in at_plausible.
  assert (at_ - 365 * 24 * Hour < day) by nia.
  split; [done|]. split.
  - apply four_digit_near. unfold Day, Hour, Minute, Second in *. lia.
  - apply Z.lt_le_trans with (Z.quot Second Second); [done|]. unfold seconds_until. apply Z.quot_le_mono; [done|].
    unfold Sub, Add, dailyRetention. unfold window_start, Hour, Minute, Second in *. lia.
Qed.

Lemma days_ready : Forall (day_ready at_) (days_before firstFull today).
Proof.
  apply Forall_forall. intros day Hin. apply inside_ready. destruct first_full_aligned as [Ha _].
  apply (days_before_spec firstFull at_ Ha) in Hin as [? ?]. by split.
Qed.

Lemma refs_names : name_of <$> refs = names.
Proof.
  rewrite <-list_fmap_compose. transitivity (id <$> names); [|apply list_fmap_id].
  apply list_fmap_ext. intros i [d sv] _. apply new_ref_start.
Qed.

Lemma hours_ready : Forall (ready s at_) window_hours ∧ NoDup (Unix <$> window_hours).
Proof.
  pose proof Hour_pos. split.
  - apply Forall_forall. intros hour Hh. apply (window_ready s at_ n hour); unfold Hour, Minute, Second in *; (done || lia).
  - apply window_distinct; unfold Hour, Minute, Second in *; lia.
Qed.

(** The state [wk] with the expired fields gone, the hours filled from it, and
    then the days. *)
Definition backfilled (wk w' : Servers) : Prop :=
  expired s at_ names full (λ d sv, (d, sv) ∈ names) w0 wk ∧
  ∃ refs', Forall2 (noted s wk full window_hours) refs refs' ∧
    progress s at_ names (λ d sv h, h ∈ Unix <$> window_hours ∧ wanted full refs d sv h)
      (λ d sv day, ∃ ref, ref ∈ refs' ∧ name_of ref = (d, sv) ∧ day ∈ days_before firstFull today ∧
         due full ref (dailies_of s full wk d sv firstFull today) day = true) wk w'.

(** *** Seen from the beginning *)

Lemma kept_lookup expiry fields f :
  kept at_ full expiry fields !! f = if full && negb (live at_ expiry f) then None else fields !! f.
Proof. unfold kept. destruct full; [|done]. rewrite trimmed_lookup. by destruct (live at_ expiry f). Qed.

Lemma window_live hour : hour ∈ window_hours → live at_ (hourly_expiry s) (FormatInt (Unix hour)) = true.
Proof.
  intros Hin. destruct hours_ready as [HF _]. destruct (proj1 (Forall_forall _ _) HF hour Hin) as (Hi & Ha & Ht).
  unfold live, hourly_expiry. rewrite ParseInt_FormatInt, Ha by done. by apply Z.ltb_lt.
Qed.

Lemma day_live day : day_ready at_ day → live at_ daily_expiry (FormatDate day) = true.
Proof.
  intros (Hal & Hy & Ht). unfold live, daily_expiry. rewrite ParseDate_FormatDate by done. cbn [fmap option_fmap option_map].
  change Day with (24 * Hour). rewrite Hal. by apply Z.ltb_lt.
Qed.

Section seen.
Context (wk : Servers) (Hk : expired s at_ names full (λ d sv, (d, sv) ∈ names) w0 wk).
Context (d sv : string) (Hn : (d, sv) ∈ names).

Lemma kept_fields :
  stored_fields s wk d sv = kept at_ full (hourly_expiry s) (stored_fields s w0 d sv) ∧
  daily_fields s wk d sv = kept at_ full daily_expiry (daily_fields s w0 d sv).
Proof. by apply Hk. Qed.

Lemma kept_hour hour :
  hour ∈ window_hours →
  text s wk d sv (Unix hour) = text s w0 d sv (Unix hour) ∧ merged_hour s wk d sv (Unix hour) = merged_hour s w0 d sv (Unix hour) ∧
  rolled_text s at_ wk d sv (Unix hour) = rolled_text s at_ w0 d sv (Unix hour).
Proof.
  intros Hin. destruct hours_ready as [HF _]. destruct (proj1 (Forall_forall _ _) HF hour Hin) as (Hi & _ & _).
  assert (text s wk d sv (Unix hour) = text s w0 d sv (Unix hour)) as Et.
  { unfold text. rewrite (proj1 kept_fields), kept_lookup, window_live by done. by rewrite andb_false_r. }
  split; [done|]. apply (hour_unchanged s at_ names listed_plain); [apply Hk|done|done|done].
Qed.

Lemma kept_hours hour :
  hour ∈ window_hours → hours_of s wk d sv oldest now !! Unix hour = hours_of s w0 d sv oldest now !! Unix hour.
Proof.
  intros Hin. destruct hours_ready as [HF _]. destruct (proj1 (Forall_forall _ _) HF hour Hin) as (Hi & _ & _).
  rewrite !lookup_hours_of; [|done|by apply w0_canonical|done|].
  - f_equal. apply (kept_hour hour Hin).
  - rewrite (proj1 kept_fields). intros f text h. rewrite kept_lookup. case_match; [done|]. by apply w0_canonical.
Qed.

Lemma ref_here : ref_for s at_ full w0 oldest now (d, sv) = new_ref d sv (hours_of s wk d sv oldest now).
Proof. unfold ref_for, hours_of. cbn [fst snd]. by rewrite (proj1 kept_fields). Qed.

Lemma wants_gap hour :
  hour ∈ window_hours →
  wants full (ref_for s at_ full w0 oldest now (d, sv)) (Unix hour) = true ↔ gap s w0 oldest now full d sv (Unix hour).
Proof. intros Hin. rewrite ref_here, wants_spec. unfold gap. by rewrite kept_hours. Qed.

Lemma ref_unique ref : ref ∈ refs → name_of ref = (d, sv) → ref = ref_for s at_ full w0 oldest now (d, sv).
Proof.
  intros ([d' sv'] & -> & _)%list_elem_of_fmap E. unfold ref_for in E at 1. rewrite (proj1 (new_ref_start _ _ _)) in E. by injection E as -> ->.
Qed.

Lemma window_due h :
  h ∈ Unix <$> window_hours ∧ wanted full refs d sv h ↔ hour_due s w0 at_ n full d sv h.
Proof.
  assert (∀ k, 1 ≤ k < n → now - k * Hour ∈ window_hours) as Hw.
  { intros k Hkn. apply window_hour; [lia|unfold Hour, Minute, Second in *; lia|by exists k]. }
  unfold hour_due. split.
  - intros [(hour & -> & Hin)%list_elem_of_fmap (ref & Hr & En & Hwa)]. rewrite (ref_unique ref Hr En) in Hwa.
    split; [|by apply wants_gap]. apply window_hour in Hin as (k & Hkn & ->); [by exists k|lia|unfold Hour, Minute, Second in *; lia].
  - intros [(k & Hkn & ->) Hg]. split; [apply list_elem_of_fmap; exists (now - k * Hour); by split; [|apply Hw]|].
    exists (ref_for s at_ full w0 oldest now (d, sv)). split_and!.
    + apply list_elem_of_fmap. by exists (d, sv).
    + apply new_ref_start.
    + apply wants_gap; [by apply Hw|done].
Qed.

Lemma ready_unix hour : hour ∈ window_hours → of_Unix (Unix hour) = hour.
Proof. intros Hin. destruct hours_ready as [HF _]. by destruct (proj1 (Forall_forall _ _) HF hour Hin) as (_ & Ha & _). Qed.

Lemma same_day day t : Truncate day (24 * Hour) = day → Unix day = Unix (Truncate t (24 * Hour)) ↔ Truncate t (24 * Hour) = day.
Proof.
  intros Hal. split; [|by intros ->]. rewrite <-Hal. change (24 * Hour) with Day. rewrite !Truncate_day. unfold Unix.
  change Day with (86400 * Second). rewrite !Z.mul_assoc, !Z.div_mul by done. intros E. f_equal. lia.
Qed.

Lemma wrote_due day :
  Truncate day (24 * Hour) = day →
  wrote_day s wk full (ref_for s at_ full w0 oldest now (d, sv)) window_hours (Unix day) ↔
  ∃ h, hour_due s w0 at_ n full d sv h ∧ PerLocation (merged_hour s w0 d sv h) ≠ ∅ ∧ Truncate (of_Unix h) (24 * Hour) = day.
Proof.
  intros Hal. unfold wrote_day. destruct (new_ref_start d sv (hours_of s wk d sv oldest now)) as [En _]. rewrite <-ref_here in En.
  injection En as -> ->. split.
  - intros (hour & Hin & Hw & Hm & Eday). exists (Unix hour). rewrite ready_unix by done. destruct (kept_hour hour Hin) as (_ & <- & _).
    split_and!; [|done|by apply same_day]. apply window_due. split; [apply list_elem_of_fmap; by exists hour|].
    exists (ref_for s at_ full w0 oldest now (d, sv)). split_and!; [apply list_elem_of_fmap; by exists (d, sv)|apply new_ref_start|done].
  - intros (h & Hdue & Hm & Eday). apply window_due in Hdue as [(hour & -> & Hin)%list_elem_of_fmap (ref & Hr & En & Hwa)].
    rewrite (ref_unique ref Hr En) in Hwa. exists hour. rewrite ready_unix in Eday by done.
    destruct (kept_hour hour Hin) as (_ & -> & _). split_and!; [done..|]. by apply same_day.
Qed.

Lemma dailies_here day :
  day_ready at_ day → full = true →
  dailies_of s full wk d sv firstFull today !! FormatDate day =
  days_in (daily_fields s w0 d sv) firstFull (AddDays today (- 1)) !! FormatDate day.
Proof.
  intros Hr Hf. unfold dailies_of. rewrite Hf, !lookup_days_in, (proj2 kept_fields), kept_lookup, day_live by done. by rewrite andb_false_r.
Qed.

Lemma due_true ref dailies day :
  due full ref dailies day = true ↔ Unix day ∈ touched ref ∨ (full = true ∧ dailies !! FormatDate day = None).
Proof.
  unfold due. case_bool_decide; [split; [by left|done]|]. cbn [negb andb].
  destruct (dailies !! FormatDate day); cbn [is_None_b negb orb]; destruct full; naive_solver.
Qed.

Lemma days_due refs' day :
  Forall2 (noted s wk full window_hours) refs refs' →
  (∃ ref, ref ∈ refs' ∧ name_of ref = (d, sv) ∧ day ∈ days_before firstFull today ∧
     due full ref (dailies_of s full wk d sv firstFull today) day = true) ↔
  day_inside at_ n day ∧ day_due s w0 at_ n full d sv day.
Proof.
  intros HF. destruct first_full_aligned as [Hal _]. set (ref0 := ref_for s at_ full w0 oldest now (d, sv)).
  assert (∀ ref', noted s wk full window_hours ref0 ref' → day_inside at_ n day →
    due full ref' (dailies_of s full wk d sv firstFull today) day = true ↔ day_due s w0 at_ n full d sv day) as Hdue.
  { intros ref' [_ Ht] Hin. unfold ref0 in Ht. rewrite due_true, Ht, wrote_due by apply Hin. unfold day_due.
    rewrite ref_here, (proj2 (new_ref_start _ _ _)). pose proof (dailies_here day (inside_ready day Hin)) as Ed.
    rewrite elem_of_empty. split.
    - intros [[[]|?]|[Hf ?]]; [by left|right]. split; [done|]. by rewrite <-Ed.
    - intros [?|[Hf ?]]; [by left; right|right]. split; [done|]. by rewrite Ed. }
  split.
  - intros (ref' & Hr & En & Hd & Hdu). apply (days_before_spec firstFull at_ Hal) in Hd as [Ha Hb]. assert (day_inside at_ n day) as Hin by by split.
    split; [done|]. apply list_elem_of_lookup in Hr as [i Hi]. destruct (Forall2_lookup_r _ _ _ _ _ HF Hi) as (ref & Hi' & Hno).
    apply Hdue in Hdu; [done| |done]. assert (ref = ref0) as <-; [|done]. apply ref_unique; [by eapply list_elem_of_lookup_2|].
    by destruct (same_wants full ref ref' 0 (proj1 Hno)) as [<- _].
  - intros [Hin Hd]. assert (ref0 ∈ refs) as [i Hi]%list_elem_of_lookup by (apply list_elem_of_fmap; by exists (d, sv)).
    destruct (Forall2_lookup_l _ _ _ _ _ HF Hi) as (ref' & Hi' & Hno). exists ref'. split_and!.
    + by eapply list_elem_of_lookup_2.
    + destruct (same_wants full ref0 ref' 0 (proj1 Hno)) as [-> _]. apply new_ref_start.
    + apply (days_before_spec firstFull at_ Hal). by destruct Hin.
    + by apply Hdue.
Qed.
End seen.

(** *** The whole backfill *)

Hypothesis w0_finite : ∀ d sv h, (d, sv) ∈ names → hour_due s w0 at_ n full d sv h →
  all_finite (merged_hour s w0 d sv h) = true.

Lemma due_finite wk d sv h :
  expired s at_ names full (λ d sv, (d, sv) ∈ names) w0 wk → h ∈ Unix <$> window_hours → wanted full refs d sv h →
  all_finite (merged_hour s wk d sv h) = true.
Proof.
  intros Hk Hh Hwt. assert ((d, sv) ∈ names) as Hn.
  { destruct Hwt as (ref & Hr & En & _). rewrite <-refs_names, <-En. by apply list_elem_of_fmap_2. }
  assert (hour_due s w0 at_ n full d sv h) as Hdue by by apply (window_due wk Hk d sv Hn).
  apply list_elem_of_fmap in Hh as (hour & -> & Hin).
  destruct (kept_hour wk Hk d sv Hn hour Hin) as (_ & -> & _). by apply w0_finite.
Qed.

Lemma get_hours_run {A} (f : Z → M command (Runner * Servers) A) r w :
  ((get_hours ≫= f) (r, w)).1 = (f (Runner.hours r) (r, w)).1.
Proof. unfold get_hours, mbind, M_bind. cbn [fst]. by destruct (f (Runner.hours r) (r, w)) as [[? ?] ?]. Qed.

Lemma backfill_run r : Runner.hours r = n → ∃ wk w', backfilled wk w' ∧ (backfill s at_ full (r, w0)).1 = ((), (r, w')).
Proof.
  intros Hr. unfold backfill. destruct hours_ready as [Hready Hnd]. set (P := λ x, ∃ wk w', backfilled wk w' ∧ x = ((), (r, w'))).
  refine (leads_step _ _ w0 _ r P (leads_lift _ _ w0 _ _ (lifts_union s Dashboards)
    (does_union s w0 Dashboards w0_healthy some_location)) _). intros a w1 [-> E1]. cbv beta iota.
  rewrite get_hours_run, Hr. cbv zeta. rewrite oldest_window.
  assert (expired s at_ names full (λ _ _, False) w0 w1) as He.
  { eapply expired_equiv; [symmetry; exact E1|]. split; [done|done|]. intros d sv _. by split. }
  refine (leads_step _ _ w1 _ r P (leads_ref_dashboards (listing s w0 Dashboards) _ w1 [] He _ _ _) _).
  { apply Forall_forall. intros d. apply listing_spec. }
  { apply listing_spec. }
  { by intros ? ? _ []. }
  intros rs wk [-> Hk]. apply (expired_iff s at_ names full _ (λ d sv, (d, sv) ∈ names)) in Hk.
  2:{ intros d sv _. rewrite services_listed_spec, <-!(proj2 (listing_spec s w0 _)). tauto. }
  rewrite app_nil_l. fold (services_listed s w0).
  refine (leads_step _ _ wk _ r P (leads_fill_hours s at_ marshal_hour marshal_day uncancelled names listed_plain wk full
    window_hours _ refs wk Hready Hnd (progress_start s at_ names wk (ex_healthy _ _ _ _ _ _ _ Hk)) _ _ _
    (λ d sv h, due_finite wk d sv h Hk)) _).
  { rewrite refs_names. apply services_listed_NoDup. }
  { by rewrite refs_names. }
  { by intros ? ? ? _ []. }
  intros rs w2 (refs' & -> & Hnoted & Hp). cbv iota.
  assert (name_of <$> refs' = names) as En by (rewrite (noted_names _ _ _ _ _ _ Hnoted); apply refs_names).
  destruct (leads_rebuild_refs s at_ marshal_hour marshal_day uncancelled names listed_plain _ wk full firstFull today refs' _ w2
    days_ready ltac:(rewrite En; apply services_listed_NoDup) ltac:(by rewrite En) Hp ltac:(by intros ? ? ? _ []) r)
    as ([] & w' & E & Hp').
  exists wk, w'. split; [|exact E]. split; [exact Hk|]. exists refs'. split; [exact Hnoted|].
  eapply progress_iff; [| |exact Hp'].
  - intros d sv h _ _. tauto.
  - intros d sv day _. tauto.
Qed.
End whole.

(** C15: a backfill on working servers: when every location answers and nobody
    cancels it, a backfill rolls up exactly the finished hours of its window
    without a complete rollup (when it is not full: with an incomplete one),
    each from the samples the locations held when it began and what was stored;
    it then sums up, from their stored hours, exactly the finished days wholly
    inside the window that it wrote an hour of or, when it is full, that had no
    rollup.  A full one also drops the fields whose time has passed.  No other
    hour, day, hash or set changes, on any server, nor does the runner.  (The
    numbers of the rollups it writes must be finite: encoding/json refuses the
    others.) *)
Theorem backfill_on_working_servers `{CA : !Codec AggregateRollup, CD : !Codec DailyRollup, CC : !Runner.Context Servers}
    (s : Store) (at_ : time) (full : bool) (w w' : Servers) (r r' : Runner) :
  (∀ r : AggregateRollup, all_finite r = true → is_Some (marshal r)) → (∀ r : DailyRollup, is_Some (marshal r)) →
  (∀ w : Servers, ctx_done w = (false, w)) → healthy w → locations s ≠ ∅ → plain_listing s w →
  (∀ d sv, (d, sv) ∈ services_listed s w → canonical (stored_fields s w d sv)) → plausible at_ → at_ + Second ≤ Truncate at_ Hour + Hour →
  1 ≤ hours r ≤ 365 * 24 → retention s = hours r * 3600 →
  (∀ d sv h, (d, sv) ∈ services_listed s w → hour_due s w at_ (hours r) full d sv h →
     all_finite (merged_hour s w d sv h) = true) →
  (backfill s at_ full (r, w)).1 = ((), (r', w')) →
  (∀ d sv, listed s w Dashboards d → listed s w (Services d) sv →
     let hour_due := hour_due s w at_ (hours r) full d sv in
     let day_due day := day_inside at_ (hours r) day ∧ day_due s w at_ (hours r) full d sv day in
     (∀ h, is_int64 h →
        (hour_due h → text s w' d sv h = rolled_text s at_ w d sv h) ∧
        (¬ hour_due h → text s w' d sv h = kept at_ full (hourly_expiry s) (stored_fields s w d sv) !! FormatInt h)) ∧
     (∀ day, day_due day →
        daily_fields s w' d sv !! FormatDate day = rebuilt s w' d sv day (daily_fields s w d sv !! FormatDate day)) ∧
     (∀ f, (∀ day, day_due day → FormatDate day ≠ f) →
        daily_fields s w' d sv !! f = kept at_ full daily_expiry (daily_fields s w d sv) !! f)) ∧
  (∀ c key, key ∉ written_keys (services_listed s w) →
     hash (server_of w' c) key = hash (server_of w c) key ∧ set_ (server_of w' c) key = set_ (server_of w c) key) ∧
  r' = r.
Proof.
  intros Hmh Hmd Hctx Hw Hl Hplain Hcan Hat Hsec Hn Hret Hfin Hrun.
  destruct (backfill_run s at_ full (hours r) w Hmh Hmd Hctx Hw Hl Hplain Hcan Hat Hsec Hn Hret Hfin r eq_refl)
    as (wk & w1 & (Hk & refs' & Hnoted & [_ Ho Ht Hday]) & E).
  rewrite Hrun in E. injection E as -> <-. split_and!; [| |done].
  2:{ intros c key Hkey. destruct (Ho c key Hkey) as [-> ->]. by apply Hk. }
  intros d sv Hld Hls. assert ((d, sv) ∈ services_listed s w) as Hin by by apply services_listed_spec.
  destruct (kept_fields s at_ full w wk Hk d sv Hin) as [Eh Ed]. destruct (Hday d sv Hin) as [Hd1 Hd2].
  pose proof (window_due s at_ full (hours r) w Hplain Hcan Hat Hsec Hn Hret wk Hk d sv Hin) as Hwd.
  pose proof (λ day, days_due s at_ full (hours r) w Hl Hplain Hcan Hat Hsec Hn Hret wk Hk d sv Hin refs' day Hnoted) as Hdd.
  split_and!.
  - intros h Hi. destruct (Ht d sv h Hin Hi) as [H1 H2]. rewrite Hwd in H1, H2. split.
    + intros Hdue. rewrite (H1 Hdue). destruct Hdue as [(k & Hkn & ->) _].
      apply (kept_hour s at_ full (hours r) w Hplain Hat Hsec Hn Hret wk Hk d sv Hin).
      apply window_hour; [lia|unfold Hour, Minute, Second in *; lia|by exists k].
    + intros Hdue. rewrite (H2 Hdue). unfold text. by rewrite Eh.
  - intros day Hdue. rewrite Hd1 by (by apply Hdd). unfold rebuilt.
    rewrite Ed, kept_lookup, day_live, andb_false_r; [done|]. by apply (inside_ready at_ (hours r) Hat Hsec Hn), Hdue.
  - intros f Hf. rewrite Hd2, Ed; [done|]. intros day Hdue. by apply Hf, Hdd.
Qed.

(** The check that failed before midnight, an hour later, and nothing rolled
    up yet: the full backfill stores the hour and its day. *)
#[local] Instance never_cancelled : Runner.Context Servers := {| ctx_done := λ w, (false, w) |}.
#[local] Existing Instance midnight_hours.
#[local] Existing Instance midnight_days.

Definition morning : time := of_Unix 1700010300.

Lemma morning_finite k :
  1 ≤ k < 168 →
  all_finite (merged_hour sim_store (sim_world midnight_server) "prod" "api" (Unix (Truncate morning Hour - k * Hour))) = true.
Proof.
  assert (forallb (λ k, all_finite (merged_hour sim_store (sim_world midnight_server) "prod" "api"
    (Unix (Truncate morning Hour - k * Hour)))) (seqZ 1 167) = true) as H by (vm_compute; reflexivity).
  intros Hk. apply (proj1 (forallb_forall _ _) H). apply list_elem_of_In, elem_of_seqZ. lia.
Qed.

Lemma backfill_on_working_servers_witness :
  let w' := (backfill sim_store morning true (NewRunner Minute Second 7, sim_world midnight_server)).1.2.2 in
  text sim_store w' "prod" "api" 1700002800 = Some "rollup" ∧
  daily_fields sim_store w' "prod" "api" !! "2023-11-14" = Some "day".
Proof.
  intros w'. set (w := sim_world midnight_server).
  assert (gap sim_store w (window_start morning 168) (Truncate morning Hour) true "prod" "api" 1700002800) as Hgap.
  { unfold gap. assert (hours_of sim_store w "prod" "api" (window_start morning 168) (Truncate morning Hour) = ∅) as ->
      by (vm_compute; reflexivity). by rewrite lookup_empty. }
  assert (hour_due sim_store w morning 168 true "prod" "api" 1700002800) as Hdue.
  { split; [exists 2; split; [lia|vm_compute; reflexivity]|exact Hgap]. }
  assert (day_inside morning 168 (of_Unix 1699920000)) as Hin.
  { split; [vm_compute; reflexivity|]. split; vm_compute; [intros E; discriminate E|reflexivity]. }
  assert (day_due sim_store w morning 168 true "prod" "api" (of_Unix 1699920000)) as Hday.
  { right. split; [done|]. vm_compute. reflexivity. }
  destruct (backfill_on_working_servers sim_store morning true w w' (NewRunner Minute Second 7)
    (backfill sim_store morning true (NewRunner Minute Second 7, w)).1.2.1) as (H & _).
  - intros r Hr. cbn. rewrite Hr. by eexists.
  - intros r. by eexists.
  - done.
  - by apply sim_healthy.
  - done.
  - intros d ->%midnight_listed. split; [done|]. by intros sv ->%midnight_listed.
  - intros d sv [->%midnight_listed ->%midnight_listed]%services_listed_spec.
    assert (stored_fields sim_store w "prod" "api" = ∅) as -> by (vm_compute; reflexivity). intros f text h E.
    by apply lookup_empty_Some in E.
  - split; vm_compute; [intros E; discriminate E|reflexivity].
  - vm_compute. intros E. discriminate E.
  - split; vm_compute; intros E; discriminate E.
  - reflexivity.
  - intros d sv h [->%midnight_listed ->%midnight_listed]%services_listed_spec [(k & Hk & ->) _].
    by apply morning_finite.
  - unfold w', w. by destruct (backfill sim_store morning true (NewRunner Minute Second 7, sim_world midnight_server)) as [[[] [? ?]] ?].
  - destruct (H "prod" "api") as (H1 & H2 & _); [by apply midnight_listed|by apply midnight_listed|]. split.
    + rewrite (proj1 (H1 1700002800 ltac:(unfold is_int64; lia)) Hdue). vm_compute. reflexivity.
    + specialize (H2 (of_Unix 1699920000) (conj Hin Hday)).
      assert (FormatDate (of_Unix 1699920000) = "2023-11-14") as Ef by (vm_compute; reflexivity). rewrite Ef in H2.
      rewrite H2. vm_compute. reflexivity.
Defined.
