(* ===== verification/Flags.v ===== *)
(** * Command-line flags

    Go's flag package, as far as the two programs use it: string, boolean and
    integer flags, their syntax on the command line, and the end of the
    process on a wrong one. *)

From S2P Require Import Prelude GoStd Errors.

(** ** Values *)

(** [strconv.ParseBool] *)
Definition ParseBool (s : string) : option bool :=
  if decide (s ∈ ["1"; "t"; "T"; "true"; "TRUE"; "True"]) then Some true
  else if decide (s ∈ ["0"; "f"; "F"; "false"; "FALSE"; "False"]) then Some false
  else None.

(** A digit or a letter as a digit above nine. *)
Definition letter_value (c : ascii) : option Z :=
  match digit_value c with
  | Some d => Some d
  | None =>
      let c := lower_byte c in
      if ascii_in "a" "z" c then Some (Z.of_N (N_of_ascii c) - 87) else None
  end.

(** The digits of a number in base [b], underscores skipped. *)
Fixpoint ParseUint_base (b acc : Z) (s : string) : Z * option num_error :=
  match s with
  | "" => (acc, None)
  | String c s =>
      if decide (c = "_"%char) then ParseUint_base b acc s
      else match letter_value c with
           | None => (0, Some ErrSyntax)
           | Some d =>
               if b <=? d then (0, Some ErrSyntax)
               else let n := b * acc + d in
                    if MaxUint64 <? n then (MaxUint64, Some ErrRange) else ParseUint_base b n s
           end
  end.

(** The base a prefix names, and the rest of the number. *)
Definition base_prefix (s : string) : Z * string :=
  match s with
  | String "0" (String c (String _ _ as rest)) =>
      let l := lower_byte c in
      if decide (l = "b"%char) then (2, rest)
      else if decide (l = "o"%char) then (8, rest)
      else if decide (l = "x"%char) then (16, rest)
      else (8, String c rest)
  | String "0" rest => (8, rest)
  | _ => (10, s)
  end.

Definition underscore_prefix (s : string) : bool * bool * string :=
  match s with
  | String "0" (String c rest) =>
      let l := lower_byte c in
      if decide (l ∈ ["b"%char; "o"%char; "x"%char]) then (true, bool_decide (l = "x"%char), rest)
      else (false, false, s)
  | _ => (false, false, s)
  end.

(** [underscoreOK] after the sign: every underscore stands between digits; a
    base prefix counts as a digit. *)
Inductive saw := SawStart | SawDigit | SawUnderscore | SawOther.

Fixpoint underscores (hex : bool) (last_ : saw) (s : string) : bool :=
  match s with
  | "" => match last_ with SawUnderscore => false | _ => true end
  | String c s =>
      if negb (is_None_b (digit_value c)) || (hex && ascii_in "a" "f" (lower_byte c)) then underscores hex SawDigit s
      else if decide (c = "_"%char) then
        match last_ with SawDigit => underscores hex SawUnderscore s | _ => false end
      else match last_ with SawUnderscore => false | _ => underscores hex SawOther s end
  end.

Definition underscoreOK (s : string) : bool :=
  let '(prefix, hex, rest) := underscore_prefix s in
  underscores hex (if prefix then SawDigit else SawStart) rest.

(** [strconv.ParseUint(s, 0, 64)] *)
Definition ParseUint_any (s : string) : Z * option num_error :=
  match s with
  | "" => (0, Some ErrSyntax)
  | _ =>
      let '(b, rest) := base_prefix s in
      match ParseUint_base b 0 rest with
      | (v, None) => if has_byte "_" rest && negb (underscoreOK s) then (0, Some ErrSyntax) else (v, None)
      | o => o
      end
  end.

(** [strconv.ParseInt(s, 0, 64)] *)
Definition signed (neg : bool) (s : string) : Z * option num_error :=
  match ParseUint_any s with
  | (_, Some ErrSyntax) => (0, Some ErrSyntax)
  | (v, _) =>
      if neg then if 2 ^ 63 <? v then (- 2 ^ 63, Some ErrRange) else (- v, None)
      else if 2 ^ 63 - 1 <? v then (2 ^ 63 - 1, Some ErrRange) else (v, None)
  end.

Definition ParseInt_any (s : string) : Z * option num_error :=
  match s with
  | String "-" s => signed true s
  | String "+" s => signed false s
  | _ => signed false s
  end.

Example ParseInt_any_decimal : ParseInt_any "10" = (10, None).
Proof. reflexivity. Qed.
Example ParseInt_any_hex : ParseInt_any "-0x1_f" = (-31, None).
Proof. reflexivity. Qed.
Example ParseInt_any_octal : ParseInt_any "010" = (8, None).
Proof. reflexivity. Qed.
Example ParseInt_any_underscore : ParseInt_any "1__0" = (0, Some ErrSyntax).
Proof. reflexivity. Qed.

(** ** Flags *)

Inductive flag_value := FString (s : string) | FBool (b : bool) | FInt (z : Z) | FOther.

(** What a flag holds.  A flag of another package has its own [Set]; it says
    whether it may stand without a value. *)
Inductive flag_kind :=
| KString | KBool | KInt
| KValue (isBool : bool) (Set_ : string → option error).

Definition is_bool (k : flag_kind) : bool :=
  match k with KBool => true | KValue b _ => b | _ => false end.

Definition parse_error : error := ENew "parse error".
Definition range_error : error := ENew "value out of range".

Definition num_error_text (e : num_error) : error :=
  match e with ErrSyntax => parse_error | ErrRange => range_error end.

(** [flag.Value.Set] *)
Definition Set_value (k : flag_kind) (value : string) : result error flag_value :=
  match k with
  | KString => Ok (FString value)
  | KBool => match ParseBool value with Some b => Ok (FBool b) | None => Err parse_error end
  | KInt => match ParseInt_any value with (z, None) => Ok (FInt z) | (_, Some e) => Err (num_error_text e) end
  | KValue _ Set_ => match Set_ value with Some e => Err e | None => Ok FOther end
  end.

(** How parsing ends: with the values and the remaining arguments, or the
    process exits - with 0 after the help text, with 2 after an error. *)
Inductive parsed :=
| Parsed (values : gmap string flag_value) (args : list string)
| ExitHelp
| ExitError (e : error).

Section flags.
(** [strconv.Quote], the [%q] of the messages. *)
Variable Quote : string → string.

(** The defined flags. *)
Variable formal : gmap string flag_kind.

(** The name and the value after an equals sign, which cannot come first. *)
Definition name_value (s : string) : string * option string :=
  match s with
  | String c rest => match cut "=" rest with Some (a, v) => (String c a, Some v) | None => (s, None) end
  | "" => ("", None)
  end.

(** An argument that begins a flag: the text after one or two minuses. *)
Inductive arg_shape := NotFlag | Terminator | BadSyntax | FlagText (text : string).

Definition shape (s : string) : arg_shape :=
  match s with
  | String "-" (String "-" "") => Terminator
  | String "-" (String "-" (String c _ as text)) => if decide (c = "-"%char ∨ c = "="%char) then BadSyntax else FlagText text
  | String "-" (String c _ as text) => if decide (c = "="%char) then BadSyntax else FlagText text
  | _ => NotFlag
  end.

(** [flag.Parse]: one flag after the other until the first argument that is
    none. *)
Fixpoint Parse (args : list string) (values : gmap string flag_value) : parsed :=
  match args with
  | [] => Parsed values []
  | s :: args' =>
      match shape s with
      | NotFlag => Parsed values args
      | Terminator => Parsed values args'
      | BadSyntax => ExitError (ENew ("bad flag syntax: " +:+ s))
      | FlagText text =>
          let '(name, value) := name_value text in
          match formal !! name with
          | None =>
              if decide (name ∈ ["help"; "h"]) then ExitHelp
              else ExitError (ENew ("flag provided but not defined: -" +:+ name))
          | Some k =>
              if is_bool k then
                match Set_value k (default "true" value) with
                | Ok v => Parse args' (<[name := v]> values)
                | Err e =>
                    ExitError match value with
                              | Some value =>
                                  EWrap ("invalid boolean value " +:+ Quote value +:+ " for -" +:+ name +:+ ": ") e
                              | None => EWrap ("invalid boolean flag " +:+ name +:+ ": ") e
                              end
                end
              else
                match value, args' with
                | Some value, _ =>
                    match Set_value k value with
                    | Ok v => Parse args' (<[name := v]> values)
                    | Err e => ExitError (EWrap ("invalid value " +:+ Quote value +:+ " for flag -" +:+ name +:+ ": ") e)
                    end
                | None, value :: args'' =>
                    match Set_value k value with
                    | Ok v => Parse args'' (<[name := v]> values)
                    | Err e => ExitError (EWrap ("invalid value " +:+ Quote value +:+ " for flag -" +:+ name +:+ ": ") e)
                    end
                | None, [] => ExitError (ENew ("flag needs an argument: -" +:+ name))
                end
          end
      end
  end.
End flags.

(** ** Settings on the command line *)

Section settings.
Variable Quote : string → string.
Variable formal : gmap string flag_kind.

(** A name that can be written after two minuses and before an equals sign. *)
Definition plain_name (name : string) : Prop :=
  match name with "" => False | String c _ => c ≠ "-"%char end ∧ has_byte "=" name = false.

Definition render_flag (p : string * string) : string := "--" +:+ p.1 +:+ "=" +:+ p.2.

(** The value a setting gives. *)
Definition setting (p : string * string) : option flag_value :=
  k ← formal !! p.1; match Set_value k p.2 with Ok v => Some v | Err _ => None end.

Definition settable (p : string * string) : Prop := plain_name p.1 ∧ is_Some (setting p).

(** The settings, the later ones over the earlier ones. *)
Definition after_settings (settings : list (string * string)) (values : gmap string flag_value) : gmap string flag_value :=
  foldl (λ values p, match setting p with Some v => <[p.1 := v]> values | None => values end) values settings.

Lemma shape_render p : plain_name p.1 → shape (render_flag p) = FlagText (p.1 +:+ "=" +:+ p.2).
Proof.
  intros [Hc He]. unfold render_flag. destruct p as [[|c name] value]; [done|]. cbn [fst snd] in *. cbn [has_byte] in He.
  case_decide as Hn; [done|]. cbn. rewrite decide_False by (intros [?|?]; congruence). reflexivity.
Qed.

Lemma name_value_render p : plain_name p.1 → name_value (p.1 +:+ "=" +:+ p.2) = (p.1, Some p.2).
Proof.
  intros [Hc He]. destruct p as [[|c name] value]; [done|]. cbn [fst snd] in *. cbn [has_byte] in He.
  case_decide; [done|]. cbn. by rewrite cut_app.
Qed.

(** Arguments that are no flags end the parsing. *)
Definition ends_flags (args : list string) : Prop :=
  match args with [] => True | s :: _ => shape s = NotFlag end.

Lemma Parse_settings settings args values :
  Forall settable settings → ends_flags args →
  Parse Quote formal ((render_flag <$> settings) ++ args) values = Parsed (after_settings settings values) args.
Proof.
  intros Hs Ha. revert values. induction Hs as [|p settings [Hp [v Hv]] _ IH]; intros values.
  { destruct args as [|s args]; [done|]. cbn [fmap list_fmap app Parse]. by rewrite Ha. }
  cbn [fmap list_fmap app Parse after_settings foldl]. rewrite shape_render, name_value_render by done.
  cbv beta iota zeta. unfold after_settings in IH. rewrite Hv.
  unfold setting in Hv. destruct (formal !! p.1) as [k|]; [|done]. cbn [mbind option_bind] in Hv.
  destruct (Set_value k p.2) as [v'|e] eqn:E; [|done]. injection Hv as ->.
  destruct (is_bool k); [change (default "true" (Some p.2)) with p.2; rewrite E|]; apply IH.
Qed.

(** The last setting of a flag is the one that counts. *)
Lemma after_settings_lookup settings values name :
  after_settings settings values !! name =
  match last (List.filter (λ p, bool_decide (p.1 = name) && negb (is_None_b (setting p))) settings) with
  | Some p => setting p
  | None => values !! name
  end.
Proof.
  unfold after_settings. induction settings as [|p settings IH] using rev_ind; [done|].
  rewrite foldl_app, List.filter_app. cbn [foldl List.filter]. destruct (setting p) as [v|] eqn:E; cbn [is_None_b negb].
  - case_bool_decide as Hn; cbn [andb].
    + rewrite last_snoc, E, <-Hn. by rewrite lookup_insert_eq.
    + rewrite app_nil_r, lookup_insert_ne by done. exact IH.
  - rewrite andb_false_r, app_nil_r. exact IH.
Qed.
End settings.
