(* ===== verification/Wiring.v ===== *)
(** * The operator process

    Start-up of the operator (cmd/main.go, internal/controller/options.go,
    SetupWithManager in internal/controller/endpointmonitor_controller.go):
    the flags, the certificate watchers, the TLS options of the two servers,
    the manager and the controller.  The TLS options are Go slices, which may
    share their array; so they live on a heap of arrays.  The library that
    runs the manager is an interface. *)

From S2P Require Import Prelude GoStd Errors Trace Flags.

(** ** Slices *)

Section slices.
Context {A : Type}.

(** The arrays, each with a fixed number of cells; [None] is the zero value. *)
Record heap := { arrays : gmap nat (list (option A)); fresh_array : nat }.

(** A slice from the start of an array. *)
Record slice := { sl_array : nat; sl_len : nat; sl_cap : nat }.

Definition nil_slice : slice := {| sl_array := 0; sl_len := 0; sl_cap := 0 |}.

Definition empty_heap : heap := {| arrays := ∅; fresh_array := 0 |}.

Definition cells (h : heap) (s : slice) : list (option A) := default [] (arrays h !! sl_array s).

Definition elements_of (h : heap) (s : slice) : list A := omap id (take (sl_len s) (cells h s)).

(** [append(s, x)]: in place while there is room, else in a new array, whose
    size the runtime chooses from the old capacity and the length needed. *)
Definition append (grow : nat → nat → nat) (h : heap) (s : slice) (x : A) : heap * slice :=
  if (sl_len s <? sl_cap s)%nat then
    ({| arrays := <[sl_array s := <[sl_len s := Some x]> (cells h s)]> (arrays h); fresh_array := fresh_array h |},
     {| sl_array := sl_array s; sl_len := S (sl_len s); sl_cap := sl_cap s |})
  else
    let cap := grow (sl_cap s) (S (sl_len s)) in
    ({| arrays := <[fresh_array h := take (sl_len s) (cells h s) ++ Some x :: replicate (cap - S (sl_len s)) None]> (arrays h);
        fresh_array := S (fresh_array h) |},
     {| sl_array := fresh_array h; sl_len := S (sl_len s); sl_cap := cap |}).
End slices.
Arguments heap : clear implicits.

(** ** Paths *)

(** One element of a path on the cleaned ones before it, the last one first. *)
Definition clean_step (rooted : bool) (out : list string) (elem : string) : list string :=
  if decide (elem = "" ∨ elem = ".") then out
  else if decide (elem = "..") then
    match out with
    | last_ :: out' => if decide (last_ = "..") then elem :: out else out'
    | [] => if rooted then [] else [elem]
    end
  else elem :: out.

(** [filepath.Clean] *)
Definition Clean (path : string) : string :=
  let rooted := has_prefix "/" path in
  let out := join "/" (rev (foldl (clean_step rooted) [] (split "/" path))) in
  if rooted then "/" +:+ out else if decide (out = "") then "." else out.

(** [filepath.Join]: the leading empty elements are dropped. *)
Fixpoint Join (elems : list string) : string :=
  match elems with
  | [] => ""
  | elem :: rest => if decide (elem = "") then Join rest else Clean (join "/" elems)
  end.

Example Join_certificate : Join ["/tmp/certs/"; "../tls.crt"] = "/tmp/tls.crt".
Proof. reflexivity. Qed.

(** ** TLS options *)

(** A function that is applied to the configuration of a server. *)
Inductive tls_option := DisableHTTP2 | UseCertificate (watcher : nat).

Record tls_Config := { NextProtos : list string; GetCertificate : option nat }.

Definition apply_option (c : tls_Config) (o : tls_option) : tls_Config :=
  match o with
  | DisableHTTP2 => {| NextProtos := ["http/1.1"]; GetCertificate := GetCertificate c |}
  | UseCertificate w => {| NextProtos := NextProtos c; GetCertificate := Some w |}
  end.

Definition configure (opts : list tls_option) (c : tls_Config) : tls_Config := foldl apply_option c opts.

(** ** Flags *)

Record Flags := {
  metricsAddr : string; metricsCertPath : string; metricsCertName : string; metricsCertKey : string;
  webhookCertPath : string; webhookCertName : string; webhookCertKey : string;
  enableLeaderElection : bool; probeAddr : string; secureMetrics : bool; enableHTTP2 : bool;
  maxConcurrentReconciles : Z }.

(** The flags and their defaults. *)
Definition operator_flags : list (string * flag_kind * flag_value) :=
  [("metrics-bind-address", KString, FString "0");
   ("health-probe-bind-address", KString, FString ":8081");
   ("leader-elect", KBool, FBool false);
   ("metrics-secure", KBool, FBool true);
   ("webhook-cert-path", KString, FString "");
   ("webhook-cert-name", KString, FString "tls.crt");
   ("webhook-cert-key", KString, FString "tls.key");
   ("metrics-cert-path", KString, FString "");
   ("metrics-cert-name", KString, FString "tls.crt");
   ("metrics-cert-key", KString, FString "tls.key");
   ("enable-http2", KBool, FBool false);
   ("max-concurrent-reconciles", KInt, FInt 10)].

Definition operator_formal : gmap string flag_kind :=
  list_to_map ((λ p, (p.1.1, p.1.2)) <$> operator_flags).

Definition operator_defaults : gmap string flag_value :=
  list_to_map ((λ p, (p.1.1, p.2)) <$> operator_flags).

Definition string_flag (values : gmap string flag_value) (name : string) : string :=
  match values !! name with Some (FString s) => s | _ => "" end.
Definition bool_flag (values : gmap string flag_value) (name : string) : bool :=
  match values !! name with Some (FBool b) => b | _ => false end.
Definition int_flag (values : gmap string flag_value) (name : string) : Z :=
  match values !! name with Some (FInt z) => z | _ => 0 end.

Definition flags_of (values : gmap string flag_value) : Flags :=
  {| metricsAddr := string_flag values "metrics-bind-address";
     metricsCertPath := string_flag values "metrics-cert-path";
     metricsCertName := string_flag values "metrics-cert-name";
     metricsCertKey := string_flag values "metrics-cert-key";
     webhookCertPath := string_flag values "webhook-cert-path";
     webhookCertName := string_flag values "webhook-cert-name";
     webhookCertKey := string_flag values "webhook-cert-key";
     enableLeaderElection := bool_flag values "leader-elect";
     probeAddr := string_flag values "health-probe-bind-address";
     secureMetrics := bool_flag values "metrics-secure";
     enableHTTP2 := bool_flag values "enable-http2";
     maxConcurrentReconciles := int_flag values "max-concurrent-reconciles" |}.

(** ** The manager *)

(** The group and version of the API, and the types registered under it. *)
Record GroupVersion := { Group : string; Version : string }.

Definition MonitoringV1 : GroupVersion := {| Group := "monitoring.licious.app"; Version := "v1alpha1" |}.

(** A scheme knows kinds by group, version and name. *)
Notation Scheme := (gset (string * string * string)).

Definition Register (kinds : list string) (more : list string) : list string := kinds ++ more.

(** [SchemeBuilder] after the package's init. *)
Definition SchemeBuilder : list string := Register [] ["EndpointMonitor"; "EndpointMonitorList"].

Definition AddToScheme (scheme : Scheme) : Scheme :=
  list_to_set ((λ kind, (Group MonitoringV1, Version MonitoringV1, kind)) <$> SchemeBuilder) ∪ scheme.

(** [ClientOptions]: the kinds read past the cache. *)
Definition ClientOptions : list string := ["Secret"].

Record metrics_options := {
  BindAddress : string; SecureServing : bool; TLSOpts : slice; FilterProvider : bool }.

Record manager_options := {
  mo_Scheme : Scheme; mo_DisableFor : list string; mo_Metrics : metrics_options; mo_Webhook : slice;
  HealthProbeBindAddress : string; LeaderElection : bool; LeaderElectionID : string }.

(** What [SetupWithManager] registers: the kind it reconciles, on changes of
    the generation only. *)
Record controller_options := {
  co_For : string; co_GenerationChanged : bool; MaxConcurrentReconciles : Z; UsePriorityQueue : option bool }.

Record Reconciler := { rc_Retries : bool; rc_APIReader : bool; rc_MaxConcurrentReconciles : Z }.

Definition SetupWithManager (r : Reconciler) : controller_options :=
  {| co_For := "EndpointMonitor"; co_GenerationChanged := true;
     MaxConcurrentReconciles := rc_MaxConcurrentReconciles r; UsePriorityQueue := Some false |}.

(** What the library is asked for, with its answer. *)
Inductive setup_action :=
| SWatch (cert key : string) (watcher : option nat)     (* certwatcher.New *)
| SWebhookServer (opts : slice)                         (* webhook.NewServer *)
| SNewManager (o : manager_options) (ok : bool)
| SController (o : controller_options) (ok : bool)      (* Complete *)
| SAdd (watcher : nat) (ok : bool)                      (* mgr.Add *)
| SHealthz (name : string) (ok : bool)
| SReadyz (name : string) (ok : bool)
| SStart (ok : bool).

Class Kubernetes (W : Type) := {
  k_certwatcher : string → string → W → result error nat * W;
  k_GetConfig : W → bool * W;                (* ctrl.GetConfigOrDie: false exits *)
  k_NewManager : manager_options → W → option error * W;
  k_Complete : controller_options → W → option error * W;
  k_Add : nat → W → option error * W;
  k_AddHealthzCheck : string → W → option error * W;
  k_AddReadyzCheck : string → W → option error * W;
  k_Start : W → option error * W }.

Section main.
Context {W : Type} `{!Kubernetes W}.
Variable grow : nat → nat → nat.
(** The kinds of Kubernetes itself, [clientgoscheme.AddToScheme]. *)
Variable clientgo : Scheme.

Notation K := (M setup_action W).

Definition certwatcher_New (cert key : string) : K (result error nat) :=
  λ w, let '(r, w) := k_certwatcher cert key w in
       (r, w, [SWatch cert key (match r with Ok id => Some id | Err _ => None end)]).

(** A call of the manager, recorded with its success. *)
Definition call_ok (f : W → option error * W) (a : bool → setup_action) : K (option error) :=
  λ w, let '(e, w) := f w in (e, w, [a (is_None_b e)]).

(** The process exits with the status, and the slices are as they are then. *)
Definition exit (code : Z) (h : heap tls_option) : K (Z * heap tls_option) := mret (code, h).

(** A certificate path given: its watcher, and the option for it appended. *)
Definition watch_certificate (path name key : string) (h : heap tls_option) (opts : slice)
  : K (result error (option nat * heap tls_option * slice)) :=
  if decide (path = "") then mret (Ok (None, h, opts))
  else
    r ← certwatcher_New (Join [path; name]) (Join [path; key]);
    mret (match r with
          | Err e => Err e
          | Ok id => let '(h, opts) := append grow h opts (UseCertificate id) in Ok (Some id, h, opts)
          end).

Definition add_watcher (watcher : option nat) (k : K (Z * heap tls_option)) (h : heap tls_option)
  : K (Z * heap tls_option) :=
  match watcher with
  | None => k
  | Some id => e ← call_ok (k_Add id) (SAdd id); match e with Some _ => exit 1 h | None => k end
  end.

Definition metrics_of (f : Flags) (opts : slice) : metrics_options :=
  {| BindAddress := metricsAddr f; SecureServing := secureMetrics f; TLSOpts := opts;
     FilterProvider := secureMetrics f |}.

Definition manager_of (f : Flags) (metricsOpts webhookOpts : slice) : manager_options :=
  {| mo_Scheme := AddToScheme clientgo; mo_DisableFor := ClientOptions; mo_Metrics := metrics_of f metricsOpts; mo_Webhook := webhookOpts;
     HealthProbeBindAddress := probeAddr f; LeaderElection := enableLeaderElection f;
     LeaderElectionID := "0ef8453e.licious.app" |}.

Definition reconciler_of (f : Flags) : Reconciler :=
  {| rc_Retries := true; rc_APIReader := true; rc_MaxConcurrentReconciles := maxConcurrentReconciles f |}.

(** [main] after [flag.Parse]: the exit status, and the slices as the servers
    read them when the manager starts. *)
Definition main (f : Flags) : K (Z * heap tls_option) :=
  let '(h, tlsOpts) := if enableHTTP2 f then (empty_heap, nil_slice) else append grow empty_heap nil_slice DisableHTTP2 in
  web ← watch_certificate (webhookCertPath f) (webhookCertName f) (webhookCertKey f) h tlsOpts;
  match web with
  | Err _ => exit 1 h
  | Ok (webhookCertWatcher, h, webhookTLSOpts) =>
      _ ← log (SWebhookServer webhookTLSOpts);
      met ← watch_certificate (metricsCertPath f) (metricsCertName f) (metricsCertKey f) h tlsOpts;
      match met with
      | Err _ => exit 1 h
      | Ok (metricsCertWatcher, h, metricsTLSOpts) =>
          config ← lift k_GetConfig;
          if negb config then exit 1 h
          else
            let o := manager_of f metricsTLSOpts webhookTLSOpts in
            e ← call_ok (k_NewManager o) (SNewManager o);
            match e with
            | Some _ => exit 1 h
            | None =>
                let c := SetupWithManager (reconciler_of f) in
                e ← call_ok (k_Complete c) (SController c);
                match e with
                | Some _ => exit 1 h
                | None =>
                    add_watcher metricsCertWatcher (add_watcher webhookCertWatcher (
                      e ← call_ok (k_AddHealthzCheck "healthz") (SHealthz "healthz");
                      match e with
                      | Some _ => exit 1 h
                      | None =>
                          e ← call_ok (k_AddReadyzCheck "readyz") (SReadyz "readyz");
                          match e with
                          | Some _ => exit 1 h
                          | None =>
                              e ← call_ok k_Start SStart;
                              match e with Some _ => exit 1 h | None => exit 0 h end
                          end
                      end) h) h
                end
            end
      end
  end.
End main.

(** The whole process: 0 after the help text, 2 after a wrong flag. *)
Definition operator {W} `{!Kubernetes W} (Quote : string → string) (other : gmap string flag_kind)
    (grow : nat → nat → nat) (clientgo : Scheme) (args : list string) : M setup_action W Z :=
  match Parse Quote (operator_formal ∪ other) args operator_defaults with
  | ExitHelp => mret 0
  | ExitError _ => mret 2
  | Parsed values _ => r ← main grow clientgo (flags_of values); mret r.1
  end.

(** ** What start-up does *)

Section start_up.
Context {W : Type} `{!Kubernetes W}.
Variable grow : nat → nat → nat.
Variable clientgo : Scheme.

Definition is_start (a : setup_action) : bool := match a with SStart _ => true | _ => false end.

Notation no_start t := (Forall (λ a, is_start a = false) t).

(** A certificate path has a watcher, no path none. *)
Definition watched (path name key : string) (watcher : option nat) (t : list setup_action) : Prop :=
  match watcher with
  | None => path = "" ∧ t = []
  | Some id => path ≠ "" ∧ t = [SWatch (Join [path; name]) (Join [path; key]) (Some id)]
  end.

Lemma watched_no_start path name key watcher t : watched path name key watcher t → no_start t.
Proof. destruct watcher; intros [_ ->]; repeat constructor. Qed.

(** The options with a watched certificate. *)
Definition with_certificate (h : heap tls_option) (opts : slice) (watcher : option nat) : heap tls_option * slice :=
  match watcher with None => (h, opts) | Some id => append grow h opts (UseCertificate id) end.

Lemma spec_watch_certificate path name key h opts :
  spec (W:=W) (watch_certificate grow path name key h opts) (λ r t,
    match r with
    | Err _ => no_start t
    | Ok (watcher, h', opts') => watched path name key watcher t ∧ (h', opts') = with_certificate h opts watcher
    end).
Proof.
  unfold watch_certificate. case_decide as Hp; [by apply spec_ret|].
  intros w. unfold certwatcher_New, mbind, M_bind. destruct (k_certwatcher _ _ w) as [[id|e] w1]; cbn [mret M_ret fst snd].
  - destruct (append grow h opts (UseCertificate id)) as [h' opts'] eqn:E. cbn [with_certificate fst snd]. by rewrite E.
  - by repeat constructor.
Qed.

(** The calls after the controller is set up. *)
Definition finishing (met web : option nat) (ok : bool) : list setup_action :=
  ((λ id, SAdd id true) <$> option_list met) ++ ((λ id, SAdd id true) <$> option_list web) ++
  [SHealthz "healthz" true; SReadyz "readyz" true; SStart ok].

(** Start-up went through up to the start of the manager, or it ended before. *)
Definition ends_with (h : heap tls_option) (rest : bool → list setup_action) (r : Z * heap tls_option) (t : list setup_action) : Prop :=
  r.2 = h ∧
  ((r.1 = 1 ∧ no_start t) ∨ ∃ ok, t = rest ok ∧ r.1 = if ok : bool then 0 else 1).

(** One call that must succeed for the next. *)
Lemma spec_call_step f a k h rest :
  is_start (a true) = false → is_start (a false) = false →
  spec (W:=W) k (ends_with h rest) →
  spec (W:=W) (e ← call_ok f a; match e with Some _ => exit 1 h | None => k end) (ends_with h (λ ok, a true :: rest ok)).
Proof.
  intros Ht Hf Hk. eapply (spec_bind _ _ (λ e t, t = [a (is_None_b e)])).
  { intros w. unfold call_ok. by destruct (f w). }
  intros [e|] t ->; cbn [is_None_b].
  - apply spec_ret. split; [done|]. left. split; [done|]. by repeat constructor.
  - eapply spec_mono; [exact Hk|]. intros r t [Hh [[H1 H2]|(ok & -> & H)]]; (split; [done|]).
    + left. split; [done|]. by constructor.
    + right. by exists ok.
Qed.

Lemma spec_add_watcher watcher k h rest :
  spec (W:=W) k (ends_with h rest) →
  spec (W:=W) (add_watcher watcher k h) (ends_with h (λ ok, ((λ id, SAdd id true) <$> option_list watcher) ++ rest ok)).
Proof. intros Hk. destruct watcher as [id|]; [|exact Hk]. by apply (spec_call_step (k_Add id) (SAdd id)). Qed.

Lemma spec_finish h :
  spec (W:=W) (e ← call_ok k_Start SStart; match e with Some _ => exit 1 h | None => exit 0 h end)
    (ends_with h (λ ok, [SStart ok])).
Proof.
  eapply (spec_bind _ _ (λ e t, t = [SStart (is_None_b e)])).
  { intros w. unfold call_ok. by destruct (k_Start w). }
  intros [e|] t ->; apply spec_ret; (split; [done|right]); [by exists false|by exists true].
Qed.

(** The configuration a server starts with. *)
Definition server_config (http2 : bool) (watcher : option nat) (c : tls_Config) : tls_Config :=
  {| NextProtos := if http2 then NextProtos c else ["http/1.1"];
     GetCertificate := match watcher with Some id => Some id | None => GetCertificate c end |}.

Definition options_with (http2 : bool) (watcher : option nat) : list tls_option :=
  (if http2 then [] else [DisableHTTP2]) ++ (UseCertificate <$> option_list watcher).

Lemma configure_options http2 watcher c : configure (options_with http2 watcher) c = server_config http2 watcher c.
Proof. unfold options_with, server_config. destruct http2, watcher, c; reflexivity. Qed.

(** The certificate of the webhook server: its own, unless both servers were
    given one and the array of the option they have in common has room for
    another, which both then write. *)
Definition webhook_watcher (http2 : bool) (web met : option nat) : option nat :=
  match web, met with
  | Some _, Some id => if negb http2 && (1 <? grow 0 1)%nat then Some id else web
  | _, _ => web
  end.

(** The options of the two servers once both are set up. *)
Lemma server_options f web met :
  (∀ cap n, n ≤ grow cap n)%nat →
  let '(h0, opts) := if enableHTTP2 f then (empty_heap, nil_slice) else append grow empty_heap nil_slice DisableHTTP2 in
  let '(h1, webOpts) := with_certificate h0 opts web in
  let '(h2, metOpts) := with_certificate h1 opts met in
  elements_of h2 webOpts = options_with (enableHTTP2 f) (webhook_watcher (enableHTTP2 f) web met) ∧
  elements_of h2 metOpts = options_with (enableHTTP2 f) met.
Proof.
  intros Hg. pose proof (Hg 0 1)%nat as H1. unfold webhook_watcher, options_with, with_certificate.
  destruct (enableHTTP2 f); [by destruct web, met|].
  unfold append, empty_heap, nil_slice. cbn [sl_len sl_cap sl_array arrays fresh_array Nat.ltb Nat.leb].
  destruct (grow 0 1) as [|[|g]]; [lia|by destruct web, met|by destruct web, met].
Qed.

(** What the manager is started with, read off the flags. *)
Definition started (values : gmap string flag_value) (web met : option nat) (webOpts metOpts : slice) (ok : bool)
  : list setup_action :=
  let metrics := {| BindAddress := string_flag values "metrics-bind-address";
                    SecureServing := bool_flag values "metrics-secure"; TLSOpts := metOpts;
                    FilterProvider := bool_flag values "metrics-secure" |} in
  let o := {| mo_Scheme := AddToScheme clientgo; mo_DisableFor := ["Secret"]; mo_Metrics := metrics; mo_Webhook := webOpts;
              HealthProbeBindAddress := string_flag values "health-probe-bind-address";
              LeaderElection := bool_flag values "leader-elect"; LeaderElectionID := "0ef8453e.licious.app" |} in
  let c := {| co_For := "EndpointMonitor"; co_GenerationChanged := true;
              MaxConcurrentReconciles := int_flag values "max-concurrent-reconciles"; UsePriorityQueue := Some false |} in
  SNewManager o true :: SController c true :: finishing met web ok.

Lemma spec_started values web met webOpts metOpts h :
  let f := flags_of values in
  spec (W:=W) (config ← lift k_GetConfig;
    if negb config then exit 1 h
    else
      let o := manager_of clientgo f metOpts webOpts in
      e ← call_ok (k_NewManager o) (SNewManager o);
      match e with
      | Some _ => exit 1 h
      | None =>
          let c := SetupWithManager (reconciler_of f) in
          e ← call_ok (k_Complete c) (SController c);
          match e with
          | Some _ => exit 1 h
          | None =>
              add_watcher met (add_watcher web (
                e ← call_ok (k_AddHealthzCheck "healthz") (SHealthz "healthz");
                match e with
                | Some _ => exit 1 h
                | None =>
                    e ← call_ok (k_AddReadyzCheck "readyz") (SReadyz "readyz");
                    match e with
                    | Some _ => exit 1 h
                    | None => e ← call_ok k_Start SStart; match e with Some _ => exit 1 h | None => exit 0 h end
                    end
                end) h) h
          end
      end) (ends_with h (started values web met webOpts metOpts)).
Proof.
  intros f.
  eapply spec_bind_silent; [apply spec_lift|]. intros []; cbn [negb]; [|by apply spec_ret; split; [|left; repeat constructor]].
  apply (spec_call_step _ (SNewManager _)); [done..|]. apply (spec_call_step _ (SController _)); [done..|].
  apply spec_add_watcher, spec_add_watcher. apply (spec_call_step _ (SHealthz _)); [done..|].
  apply (spec_call_step _ (SReadyz _)); [done..|]. apply spec_finish.
Qed.

(** C17: the operator starts as its flags say: whatever the library answers,
    either the process exits with 1 and no manager was started, or, in this
    order, a watcher was made for each certificate path given, the manager was
    set up with the metrics address, whether metrics are served securely and to
    whom, the probe address and the leader election of the flags of these
    names and the controller with their number of reconciles, the watchers and
    the two health checks were added, and the manager was started, whose end
    is the exit status.  The manager's scheme knows the kind the controller
    watches.  By then each server's TLS options refuse HTTP/2 unless it is
    enabled and use that server's own certificate and no other, with one
    exception that hangs on the runtime: the two servers' options are appended
    to one slice, so if append gave the first option's array room for a second
    one (the language leaves this open) and both servers have a certificate,
    the webhook server serves that of the metrics server. *)
Theorem operator_starts_as_configured (values : gmap string flag_value) :
  (∀ cap n, n ≤ grow cap n)%nat →
  spec (W:=W) (main grow clientgo (flags_of values)) (λ r t,
    (r.1 = 1 ∧ no_start t) ∨
    ∃ web met webOpts metOpts wt mt ok,
      let flag := string_flag values in
      let http2 := bool_flag values "enable-http2" in
      watched (flag "webhook-cert-path") (flag "webhook-cert-name") (flag "webhook-cert-key") web wt ∧
      watched (flag "metrics-cert-path") (flag "metrics-cert-name") (flag "metrics-cert-key") met mt ∧
      t = wt ++ SWebhookServer webOpts :: mt ++ started values web met webOpts metOpts ok ∧
      (Group MonitoringV1, Version MonitoringV1, "EndpointMonitor") ∈ AddToScheme clientgo ∧
      r.1 = (if ok : bool then 0 else 1) ∧
      ∀ c, configure (elements_of r.2 webOpts) c = server_config http2 (webhook_watcher http2 web met) c ∧
           configure (elements_of r.2 metOpts) c = server_config http2 met c).
Proof.
  intros Hg. set (f := flags_of values).
  pose proof (λ web met, server_options f web met Hg) as Hopts. unfold main.
  destruct (if enableHTTP2 f then _ else _) as [h0 opts].
  eapply spec_bind; [by apply spec_watch_certificate|]. intros [[[web h1] webOpts]|e] wt Hw; cbv beta iota in Hw.
  2:{ apply spec_ret. left. by rewrite app_nil_r. }
  destruct Hw as (Hwt & Hwe). eapply spec_bind; [apply spec_log|]. intros _ t0 ->.
  eapply spec_bind; [by apply spec_watch_certificate|]. intros [[[met h2] metOpts]|e] mt Hm; cbv beta iota in Hm.
  2:{ apply spec_ret. left. split; [done|]. apply Forall_app. split; [by eapply watched_no_start|]. constructor; [done|].
      by rewrite app_nil_r. }
  destruct Hm as (Hmt & Hme). specialize (Hopts web met). rewrite <-Hwe, <-Hme in Hopts. destruct Hopts as [How Hom].
  eapply spec_mono; [apply (spec_started values web met webOpts metOpts)|]. intros r t [Hh [[H1 H2]|(ok & -> & Hr)]].
  - left. split; [done|]. apply Forall_app. split; [by eapply watched_no_start|]. constructor; [done|].
    apply Forall_app. split; [by eapply watched_no_start|done].
  - right. exists web, met, webOpts, metOpts, wt, mt, ok. cbv zeta.
    split; [exact Hwt|]. split; [exact Hmt|]. split; [done|]. split; [set_solver|]. split; [done|].
    intros c. rewrite Hh, How, Hom. by rewrite !configure_options.
Qed.
End start_up.

(** ** A runtime that leaves room *)

#[local] Instance Kubernetes_sim : Kubernetes nat := {|
  k_certwatcher := λ _ _ n, (Ok n, S n); k_GetConfig := λ n, (true, n); k_NewManager := λ _ n, (None, n);
  k_Complete := λ _ n, (None, n); k_Add := λ _ n, (None, n); k_AddHealthzCheck := λ _ n, (None, n);
  k_AddReadyzCheck := λ _ n, (None, n); k_Start := λ n, (None, n) |}.

Definition sim_values : gmap string flag_value :=
  <["webhook-cert-path" := FString "/web"]> (<["metrics-cert-path" := FString "/met"]> operator_defaults).
Definition sim_flags : Flags := flags_of sim_values.

Definition sim_config (grow : nat → nat → nat) (server : manager_options → slice) : option tls_Config :=
  let '(r, _, t) := main grow ∅ sim_flags 7%nat in
  o ← List.find (λ a, match a with SNewManager _ _ => true | _ => false end) t;
  match o with
  | SNewManager o _ => Some (configure (elements_of r.2 (server o)) {| NextProtos := ["h2"]; GetCertificate := None |})
  | _ => None
  end.

(** The runtime's own growth: each server its certificate. *)
Example own_certificates :
  sim_config (λ cap n, Nat.max (2 * cap) n) mo_Webhook = Some {| NextProtos := ["http/1.1"]; GetCertificate := Some 7%nat |}.
Proof. reflexivity. Qed.

(** Were there room for a second option, the webhook server would serve the
    metrics server's certificate. *)
Example shared_array :
  sim_config (λ cap n, Nat.max 4 n) mo_Webhook = Some {| NextProtos := ["http/1.1"]; GetCertificate := Some 8%nat |}.
Proof. reflexivity. Qed.

Lemma operator_starts_as_configured_witness :
  let '(r, _, t) := main (λ cap n, Nat.max (2 * cap) n) ∅ sim_flags 7%nat in
  r.1 = 0 ∧ ∃ o web met, SNewManager o true ∈ t ∧
    BindAddress (mo_Metrics o) = "0" ∧ HealthProbeBindAddress o = ":8081" ∧ ∀ c,
    configure (elements_of r.2 (mo_Webhook o)) c = server_config false web c ∧
    configure (elements_of r.2 (TLSOpts (mo_Metrics o))) c = server_config false met c.
Proof.
  pose proof (operator_starts_as_configured (W:=nat) (λ cap n, Nat.max (2 * cap) n) ∅ sim_values
    (λ cap n, Nat.le_max_r _ _) 7%nat) as H. fold sim_flags in H.
  assert ((main (λ cap n, Nat.max (2 * cap) n) ∅ sim_flags 7%nat).1.1.1 = 0) as Hr by (vm_compute; reflexivity).
  destruct (main _ _ _ _) as [[r w] t]. cbn [fst snd] in H, Hr. split; [done|].
  destruct H as [[H _]|(web & met & wo & mo & wt & mt & ok & _ & _ & -> & _ & _ & H)]; [by rewrite H in Hr|].
  eexists _, web, met. split; [apply elem_of_app; right; apply elem_of_cons; right; apply elem_of_app; right; left|].
  split; [reflexivity|]. split; [reflexivity|]. intros c. cbn [mo_Webhook mo_Metrics TLSOpts].
  destruct (H c) as [-> ->]. split; [by destruct web, met|done].
Defined.

(** ** The command line *)

(** flags are read back as they were written: a command line of settings,
    each of a defined flag with a value the flag accepts, is read without an
    error up to the first argument that is no flag, and every flag then has
    the value of its last setting, or its default. *)
Theorem operator_flags_read_back (Quote : string → string) (other : gmap string flag_kind)
    (settings : list (string * string)) (args : list string) :
  Forall (settable (operator_formal ∪ other)) settings → ends_flags args →
  ∃ values,
    Parse Quote (operator_formal ∪ other) ((render_flag <$> settings) ++ args) operator_defaults = Parsed values args ∧
    ∀ name, values !! name =
      match last (List.filter (λ p, bool_decide (p.1 = name)) settings) with
      | Some p => setting (operator_formal ∪ other) p
      | None => operator_defaults !! name
      end.
Proof.
  intros Hs Ha. eexists. split; [by apply Parse_settings|]. intros name. rewrite after_settings_lookup.
  assert (List.filter (λ p, bool_decide (p.1 = name) && negb (is_None_b (setting (operator_formal ∪ other) p))) settings =
    List.filter (λ p, bool_decide (p.1 = name)) settings) as ->; [|done].
  induction Hs as [|p settings [_ [v Hv]] _ IH]; [done|]. cbn [List.filter]. rewrite Hv. cbn [is_None_b negb].
  rewrite andb_true_r. by rewrite IH.
Qed.

Lemma operator_flags_read_back_witness :
  match Parse id operator_formal ["--enable-http2=t"; "--max-concurrent-reconciles=0x10"; "--enable-http2=0"] operator_defaults with
  | Parsed values args =>
      values !! "enable-http2" = Some (FBool false) ∧ values !! "max-concurrent-reconciles" = Some (FInt 16) ∧
      values !! "metrics-bind-address" = Some (FString "0")
  | _ => False
  end.
Proof.
  destruct (operator_flags_read_back id ∅
    [("enable-http2", "t"); ("max-concurrent-reconciles", "0x10"); ("enable-http2", "0")] [])
    as (values & Hp & Hv); [|done|].
  { repeat (constructor; [split; [by split|vm_compute; by eexists]|]). constructor. }
  rewrite (right_id_L ∅ (∪)) in Hp. cbn [fmap list_fmap app] in Hp.
  change (render_flag ("enable-http2", "t")) with "--enable-http2=t" in Hp.
  change (render_flag ("max-concurrent-reconciles", "0x10")) with "--max-concurrent-reconciles=0x10" in Hp.
  change (render_flag ("enable-http2", "0")) with "--enable-http2=0" in Hp. rewrite Hp.
  rewrite !Hv. by vm_compute.
Defined.
