(* ===== verification/E2E.v ===== *)
(** * The helpers of the end-to-end tests (test/utils/utils.go)

    They run kubectl and minikube against the throwaway cluster of the tests.
    The host - its environment, files and commands - is an interface.  Proved:
    no command is started before a kubeconfig of the test profile was read, and
    every command gets that one. *)

From S2P Require Import Prelude GoStd Errors Trace.

Definition prometheusOperatorVersion : string := "v0.77.1".
Definition prometheusOperatorURL (version : string) : string :=
  "https://github.com/prometheus-operator/prometheus-operator/" +:+ "releases/download/" +:+ version +:+ "/bundle.yaml".
Definition certmanagerVersion : string := "v1.16.3".
Definition certmanagerURL (version : string) : string :=
  "https://github.com/cert-manager/cert-manager/releases/download/" +:+ version +:+ "/cert-manager.yaml".
Definition TestProfile : string := "endpoint-monitoring-operator-e2e".

(** The host, as it answers. *)
Class Host (W : Type) := {
  h_Getenv : string → W → string * W;
  h_Abs : string → W → result error string * W;
  h_ReadFile : string → W → result error string * W;
  h_Getwd : W → (string * option error) * W;
  h_Chdir : string → W → option error * W;
  h_Environ : W → list string * W;
  h_CombinedOutput : list string → string → list string → W → (string * option error) * W;   (* args, dir, env *)
  h_WriteFile : string → string → W → option error * W }.

(** What the helpers do to the host. *)
Inductive host_action :=
| ReadConfig (path data : string)
| Started (args : list string) (dir : string) (env : list string)
| WroteFile (path data : string).

(** ** Strings *)

Fixpoint Index (sub s : string) : option nat :=
  if has_prefix sub s then Some 0%nat
  else match s with "" => None | String _ s => S <$> Index sub s end.

(** [strings.Replace(s, old, "", -1)] for an [old] that is not empty; each round
    reads at least one byte. *)
Fixpoint remove_all (fuel : nat) (old s : string) : string :=
  match fuel, s with
  | S fuel, String c s' =>
      if has_prefix old s then remove_all fuel old (sdrop (String.length old) s)
      else String c (remove_all fuel old s')
  | _, _ => s
  end.

Lemma has_prefix_app p s : has_prefix p (p +:+ s) = true.
Proof. unfold has_prefix. induction p as [|c p IH]; [by destruct s|]. simpl. by destruct (ascii_dec c c). Qed.

Definition GetNonEmptyLines (output : string) : list string := filter (λ line, line ≠ "") (split LF output).

(** [bufio.Scanner] over lines: a carriage return before the newline goes, what
    follows the last newline is a line unless it is empty, and a line that does
    not fit the buffer ends the scan. *)
Definition MaxScanTokenSize : Z := 64 * 1024.

Definition drop_CR (line : string) : string := trim_suffix (String CR "") line.

Fixpoint scan_fit (lines : list string) : list string :=
  match lines with
  | line :: lines => if slen line <? MaxScanTokenSize then drop_CR line :: scan_fit lines else []
  | [] => []
  end.

Definition scan_lines (s : string) : list string :=
  let lines := split LF s in
  scan_fit (if decide (last lines = Some "") then removelast lines else lines).

Section helpers.
Context {W : Type} `{!Host W}.
(** The part of [yaml.Unmarshal] that is asked for, and [%q]. *)
Variable CurrentContext : string → result error string.
Variable Quote : string → string.

(** The global [testKubeconfig] beside the host. *)
Notation H := (M host_action (string * W)).

Definition ask {A} (f : W → A * W) : H A := λ x, let '(a, w) := f x.2 in (a, (x.1, w), []).

Definition get_kubeconfig : H string := λ x, (x.1, x, []).
Definition set_kubeconfig (path : string) : H () := λ x, ((), (path, x.2), []).

Definition UseTestKubeconfig : H (option error) :=
  path ← ask (h_Getenv "E2E_KUBECONFIG");
  if decide (path = "") then
    mret (Some (ENew ("E2E_KUBECONFIG is not set; run the e2e tests with make test-e2e, " +:+
                      "which creates a throwaway minikube cluster for them")))
  else
    r ← ask (h_Abs path);
    match r with
    | Err e => mret (Some (EWrap "resolving the e2e kubeconfig path: " e))
    | Ok path =>
        r ← ask (h_ReadFile path);
        match r with
        | Err e => mret (Some (EWrap "reading the e2e kubeconfig: " e))
        | Ok data =>
            _ ← log (ReadConfig path data);
            match CurrentContext data with
            | Err e => mret (Some (EWrap ("parsing the e2e kubeconfig " +:+ path +:+ ": ") e))
            | Ok context =>
                if decide (context = TestProfile) then
                  _ ← set_kubeconfig path; mret None
                else
                  mret (Some (ENew ("the e2e kubeconfig " +:+ path +:+ " has current-context " +:+ Quote context +:+
                                    ", not the minikube profile " +:+ Quote TestProfile)))
            end
        end
    end.

Definition GetProjectDir : H (string * option error) :=
  r ← ask h_Getwd;
  let '(wd, err) := r in
  mret match err with
       | Some e => (wd, Some e)
       | None => (remove_all (String.length wd) "/test/e2e" wd, None)
       end.

Definition Run (args : list string) : H (string * option error) :=
  let command := join " " args in
  kubeconfig ← get_kubeconfig;
  if decide (kubeconfig = "") then
    mret ("", Some (ENew ("refusing to run " +:+ command +:+ ": the e2e test kubeconfig is not set")))
  else
    d ← GetProjectDir;
    let dir := d.1 in
    _ ← ask (h_Chdir dir);
    environ ← ask h_Environ;
    let env := environ ++ ["GO111MODULE=on"; "KUBECONFIG=" +:+ kubeconfig; "KUBECTL=kubectl"; "MAKEFLAGS="; "MFLAGS=";
                           "GNUMAKEFLAGS="; "MAKEFILES="] in
    _ ← log (Started args dir env);
    r ← ask (h_CombinedOutput args dir env);
    let '(output, err) := r in
    mret match err with
         | Some e => (output, Some (ENew (command +:+ " failed with error: (" +:+ error_text e +:+ ") " +:+ output)))
         | None => (output, None)
         end.

Definition InstallPrometheusOperator : H (option error) :=
  r ← Run ["kubectl"; "create"; "-f"; prometheusOperatorURL prometheusOperatorVersion]; mret r.2.

(** An error is only warned of. *)
Definition UninstallPrometheusOperator : H () :=
  _ ← Run ["kubectl"; "delete"; "-f"; prometheusOperatorURL prometheusOperatorVersion]; mret ().

(** Whether a line of the output names one of the CRDs. *)
Definition names_any (crds : list string) (output : string) : bool :=
  existsb (λ crd, existsb (contains crd) (GetNonEmptyLines output)) crds.

Definition installed (args crds : list string) : H bool :=
  r ← Run args; mret match r.2 with Some _ => false | None => names_any crds r.1 end.

Definition IsPrometheusCRDsInstalled : H bool :=
  installed ["kubectl"; "get"; "crds"; "-o"; "custom-columns=NAME:.metadata.name"]
    ["prometheuses.monitoring.coreos.com"; "prometheusrules.monitoring.coreos.com"; "prometheusagents.monitoring.coreos.com"].

Definition UninstallCertManager : H () :=
  _ ← Run ["kubectl"; "delete"; "-f"; certmanagerURL certmanagerVersion]; mret ().

Definition InstallCertManager : H (option error) :=
  r ← Run ["kubectl"; "apply"; "-f"; certmanagerURL certmanagerVersion];
  match r.2 with
  | Some e => mret (Some e)
  | None =>
      r ← Run ["kubectl"; "wait"; "deployment.apps/cert-manager-webhook"; "--for"; "condition=Available";
               "--namespace"; "cert-manager"; "--timeout"; "5m"];
      mret r.2
  end.

Definition IsCertManagerCRDsInstalled : H bool :=
  installed ["kubectl"; "get"; "crds"]
    ["certificates.cert-manager.io"; "issuers.cert-manager.io"; "clusterissuers.cert-manager.io";
     "certificaterequests.cert-manager.io"; "orders.acme.cert-manager.io"; "challenges.acme.cert-manager.io"].

Definition LoadImageToMinikube (name : string) : H (option error) :=
  r ← Run ["minikube"; "-p"; TestProfile; "image"; "load"; name]; mret r.2.

Definition UncommentCode (filename target prefix : string) : H (option error) :=
  r ← ask (h_ReadFile filename);
  match r with
  | Err e => mret (Some e)
  | Ok content =>
      match Index target content with
      | None => mret (Some (ENew ("unable to find the code " +:+ target +:+ " to be uncomment")))
      | Some idx =>
          match scan_lines target with
          | [] => mret None
          | lines =>
              let out := stake idx content +:+ join (String LF "") (trim_prefix prefix <$> lines) +:+
                         sdrop (idx + String.length target) content in
              _ ← log (WroteFile filename out);
              ask (h_WriteFile filename out)
          end
      end
  end.

(** What a test may call, in any order. *)
Inductive helper :=
| CallUseTestKubeconfig | CallInstallPrometheusOperator | CallUninstallPrometheusOperator | CallIsPrometheusCRDsInstalled
| CallInstallCertManager | CallUninstallCertManager | CallIsCertManagerCRDsInstalled
| CallRun (args : list string) | CallLoadImageToMinikube (name : string) | CallUncommentCode (filename target prefix : string).

Definition call_helper (h : helper) : H () :=
  match h with
  | CallUseTestKubeconfig => _ ← UseTestKubeconfig; mret ()
  | CallInstallPrometheusOperator => _ ← InstallPrometheusOperator; mret ()
  | CallUninstallPrometheusOperator => UninstallPrometheusOperator
  | CallIsPrometheusCRDsInstalled => _ ← IsPrometheusCRDsInstalled; mret ()
  | CallInstallCertManager => _ ← InstallCertManager; mret ()
  | CallUninstallCertManager => UninstallCertManager
  | CallIsCertManagerCRDsInstalled => _ ← IsCertManagerCRDsInstalled; mret ()
  | CallRun args => _ ← Run args; mret ()
  | CallLoadImageToMinikube name => _ ← LoadImageToMinikube name; mret ()
  | CallUncommentCode filename target prefix => _ ← UncommentCode filename target prefix; mret ()
  end.

Fixpoint call_helpers (hs : list helper) : H () :=
  match hs with [] => mret () | h :: hs => _ ← call_helper h; call_helpers hs end.

(** ** The cluster the commands reach *)

(** What a command finds in its environment: the last value counts. *)
Definition env_value (name : string) (env : list string) : option string :=
  last (omap (λ e, if has_prefix (name +:+ "=") e then Some (sdrop (String.length (name +:+ "=")) e) else None) env).

(** A kubeconfig of the test profile was read. *)
Definition of_profile (path : string) (seen : list host_action) : Prop :=
  ∃ data, ReadConfig path data ∈ seen ∧ CurrentContext data = Ok TestProfile.

Definition harmless (seen t : list host_action) : Prop :=
  ∀ pre args dir env post, t = pre ++ Started args dir env :: post →
    ∃ path, env_value "KUBECONFIG" env = Some path ∧ of_profile path (seen ++ pre).

Definition guarded {A} (m : H A) : Prop := ∀ x seen,
  (x.1 = "" ∨ of_profile x.1 seen) →
  ((m x).1.2.1 = "" ∨ of_profile (m x).1.2.1 (seen ++ (m x).2)) ∧ harmless seen (m x).2.

Lemma of_profile_app path seen t : of_profile path seen → of_profile path (seen ++ t).
Proof. intros (data & Hin & Hc). exists data. split; [apply elem_of_app; by left|done]. Qed.

Lemma harmless_app seen t t' : harmless seen t → harmless (seen ++ t) t' → harmless seen (t ++ t').
Proof.
  intros H H' pre args dir env post E.
  apply app_eq_inv in E as [(k & -> & E)|(k & -> & E)].
  - destruct k as [|a k]; cbn [app] in E.
    + destruct (H' [] args dir env post) as (path & Hp & Hof); [done|]. exists path. by rewrite !app_nil_r in Hof.
    + injection E as <- ->. by apply (H pre args dir env k).
  - destruct (H' k args dir env post E) as (path & Hp & Hof). exists path. by rewrite (assoc_L (++)).
Qed.

Lemma harmless_none seen t : Forall (λ a, match a with Started _ _ _ => False | _ => True end) t → harmless seen t.
Proof. intros HF pre args dir env post ->. apply Forall_app in HF as [_ HF]. by apply Forall_cons in HF as [[] _]. Qed.

Lemma guarded_ret {A} (a : A) : guarded (mret a).
Proof. intros x seen Hx. cbn. rewrite app_nil_r. split; [done|]. by apply harmless_none. Qed.

Lemma guarded_bind {A B} (m : H A) (f : A → H B) : guarded m → (∀ a, guarded (f a)) → guarded (m ≫= f).
Proof.
  intros Hm Hf x seen Hx. specialize (Hm x seen Hx). unfold mbind, M_bind. destruct (m x) as [[a x1] t].
  cbn [fst snd] in Hm. destruct Hm as [Hx1 Ht]. specialize (Hf a x1 (seen ++ t) Hx1).
  destruct (f a x1) as [[b x2] t']. cbn [fst snd] in *. rewrite (assoc_L (++)). split; [apply Hf|]. apply harmless_app; [done|apply Hf].
Qed.

Lemma guarded_ask {A} (f : W → A * W) : guarded (ask f).
Proof.
  intros x seen Hx. unfold ask. destruct (f x.2). cbn [fst snd]. rewrite app_nil_r. split; [done|]. by apply harmless_none.
Qed.

Lemma guarded_log a : (match a with Started _ _ _ => False | _ => True end) → guarded (log a).
Proof.
  intros Ha x seen Hx. change ((log a x).1.2.1) with x.1. change ((log a x).2) with [a]. split; [|apply harmless_none; by constructor].
  destruct Hx as [Hx|Hx]; [by left|right; by apply of_profile_app].
Qed.
End helpers.

#[export] Hint Resolve guarded_ret guarded_ask guarded_log : go.
Ltac guard_step :=
  match goal with
  | |- guarded _ (_ ≫= _) => apply guarded_bind; [|intros ?]
  | |- guarded _ (match ?x with _ => _ end) => destruct x
  | |- guarded _ (if ?x then _ else _) => destruct x
  | |- guarded _ _ => by auto with go
  end.

Section cluster.
Context {W : Type} `{!Host W}.
Variable CurrentContext : string → result error string.
Variable Quote : string → string.

Notation guarded := (guarded CurrentContext).

Lemma guarded_commit path data :
  CurrentContext data = Ok TestProfile →
  guarded ((_ ← log (ReadConfig path data); _ ← set_kubeconfig path; mret None) : M host_action (string * W) (option error)).
Proof.
  intros Hc x seen _. cbn. split; [|apply harmless_none; by repeat constructor].
  right. exists data. split; [|done]. apply elem_of_app. right. by left.
Qed.

Lemma guarded_Use : guarded (UseTestKubeconfig (W:=W) CurrentContext Quote).
Proof.
  unfold UseTestKubeconfig. guard_step; [guard_step|]. guard_step; [guard_step|].
  apply guarded_bind; [guard_step|intros [path'|e]]; [|guard_step].
  apply guarded_bind; [guard_step|intros [data|e]]; [|guard_step].
  destruct (CurrentContext data) as [context|e] eqn:Ec; [destruct (decide (context = TestProfile)) as [->|]|].
  - by apply guarded_commit.
  - guard_step; [by apply guarded_log|guard_step].
  - guard_step; [by apply guarded_log|guard_step].
Qed.

Lemma env_value_last name env value more :
  omap (λ e, if has_prefix (name +:+ "=") e then Some (sdrop (String.length (name +:+ "=")) e) else None) more = [] →
  env_value name (env ++ (name +:+ "=" +:+ value) :: more) = Some value.
Proof.
  intros Hm. unfold env_value. rewrite omap_app. cbn [omap list_omap]. rewrite sapp_assoc.
  rewrite has_prefix_app, sdrop_app, Hm. apply last_snoc.
Qed.

(** With the kubeconfig [k] set, the computation keeps it and hands it on. *)
Definition hands_on {A} (k : string) (m : M host_action (string * W) A) : Prop := ∀ w,
  (m (k, w)).1.2.1 = k ∧
  Forall (λ a, match a with Started _ _ env => env_value "KUBECONFIG" env = Some k | _ => True end) (m (k, w)).2.

Lemma hands_on_ret {A} k (a : A) : hands_on k (mret a).
Proof. by intros w. Qed.

Lemma hands_on_ask {A} k (f : W → A * W) : hands_on k (ask f).
Proof. intros w. unfold ask. cbn [snd fst]. by destruct (f w). Qed.

Lemma hands_on_bind {A B} k (m : M host_action (string * W) A) (f : A → M host_action (string * W) B) :
  hands_on k m → (∀ a, hands_on k (f a)) → hands_on k (m ≫= f).
Proof.
  intros Hm Hf w. specialize (Hm w). unfold mbind, M_bind. destruct (m (k, w)) as [[a [k1 w1]] t]. cbn [fst snd] in Hm.
  destruct Hm as [-> Ht]. specialize (Hf a w1). destruct (f a (k, w1)) as [[b x] t']. cbn [fst snd] in *.
  split; [apply Hf|]. apply Forall_app. by split; [|apply Hf].
Qed.

Lemma hands_on_started k args dir environ :
  hands_on k (log (Started args dir (environ ++ ["GO111MODULE=on"; "KUBECONFIG=" +:+ k; "KUBECTL=kubectl"; "MAKEFLAGS="; "MFLAGS=";
    "GNUMAKEFLAGS="; "MAKEFILES="]))).
Proof.
  intros w. split; [done|]. apply Forall_singleton.
  pose proof (env_value_last "KUBECONFIG" (environ ++ ["GO111MODULE=on"]) k
    ["KUBECTL=kubectl"; "MAKEFLAGS="; "MFLAGS="; "GNUMAKEFLAGS="; "MAKEFILES="] eq_refl) as H.
  by rewrite <-(assoc_L (++)) in H.
Qed.

Lemma guarded_hands_on {A} (m : string → M host_action (string * W) A) :
  (∀ k, k ≠ "" → hands_on k (m k)) → (∀ w, ((m "") ("", w)).1.2.1 = "" ∧ ((m "") ("", w)).2 = []) →
  guarded (get_kubeconfig ≫= m).
Proof.
  intros Hm H0 [k w] seen Hx. cbn [fst] in Hx.
  assert (∀ x, ((get_kubeconfig ≫= m) x).1 = (m x.1 x).1 ∧ ((get_kubeconfig ≫= m) x).2 = (m x.1 x).2) as E.
  { intros x. unfold get_kubeconfig, mbind, M_bind. by destruct (m x.1 x) as [[? ?] ?]. }
  destruct (E (k, w)) as [-> ->]. cbn [fst]. destruct (decide (k = "")) as [->|Hk].
  - destruct (H0 w) as [-> ->]. split; [by left|by apply harmless_none].
  - destruct Hx as [|Hof]; [done|]. destruct (Hm k Hk w) as [-> HF]. split; [right; by apply of_profile_app|].
    intros pre args dir env post Et. rewrite Et in HF. apply Forall_app in HF as [_ HF]. apply Forall_cons in HF as [He _].
    exists k. split; [done|by apply of_profile_app].
Qed.

Lemma guarded_Run args : guarded (Run (W:=W) args).
Proof.
  unfold Run. cbv zeta. apply guarded_hands_on.
  - intros k Hk. rewrite decide_False by done. apply hands_on_bind.
    { unfold GetProjectDir. apply hands_on_bind; [apply hands_on_ask|]. intros [? ?]. apply hands_on_ret. }
    intros d. apply hands_on_bind; [apply hands_on_ask|]. intros _. apply hands_on_bind; [apply hands_on_ask|]. intros environ.
    apply hands_on_bind; [apply hands_on_started|]. intros _. apply hands_on_bind; [apply hands_on_ask|].
    intros [output err]. apply hands_on_ret.
  - intros w. by rewrite decide_True.
Qed.

Lemma guarded_helper h : guarded (call_helper (W:=W) CurrentContext Quote h).
Proof.
  pose proof guarded_Run as HR. destruct h; cbn [call_helper];
    unfold InstallPrometheusOperator, UninstallPrometheusOperator, IsPrometheusCRDsInstalled, InstallCertManager, UninstallCertManager,
      IsCertManagerCRDsInstalled, installed, LoadImageToMinikube, UncommentCode;
    repeat first [apply HR|apply guarded_Use|apply guarded_ask|apply guarded_ret|by apply guarded_log|apply guarded_bind; [|intros ?]
      |case_match].
Qed.

(** the helpers reach the cluster of the tests only: whatever tests call them
    in whatever order, and whatever the host answers, every command they start
    finds a KUBECONFIG in its environment that was read before and whose
    current context is the profile of the tests. *)
Theorem commands_reach_the_test_cluster (hs : list helper) (w : W) (pre post : list host_action) args dir env :
  (call_helpers CurrentContext Quote hs ("", w)).2 = pre ++ Started args dir env :: post →
  ∃ path data, env_value "KUBECONFIG" env = Some path ∧ ReadConfig path data ∈ pre ∧ CurrentContext data = Ok TestProfile.
Proof.
  intros E. assert (guarded (call_helpers (W:=W) CurrentContext Quote hs)) as Hg.
  { clear E. induction hs as [|h hs IH]; cbn [call_helpers]; [apply guarded_ret|]. apply guarded_bind; [apply guarded_helper|done]. }
  destruct (Hg ("", w) [] (or_introl eq_refl)) as [_ Ht]. destruct (Ht pre args dir env post E) as (path & Hp & data & Hin & Hc).
  by exists path, data.
Qed.
End cluster.

(** ** Uncommenting *)

(** A line the scanner gives back as it is. *)
Definition plain_line (line : string) : Prop :=
  has_byte LF line = false ∧ drop_CR line = line ∧ slen line < MaxScanTokenSize.

Lemma split_join_lines ls : ls ≠ [] → Forall plain_line ls → split LF (join (String LF "") ls) = ls.
Proof.
  intros Hne HF. induction HF as [|line ls (Hl & _) HF IH]; [done|]. destruct ls as [|line' ls].
  - by apply split_plain.
  - cbn [join] in *. change (String LF "" +:+ ?s) with (String LF s). rewrite split_cons by done. f_equal. by apply IH.
Qed.

Lemma scan_lines_join ls : last ls ≠ Some "" → ls ≠ [] → Forall plain_line ls → scan_lines (join (String LF "") ls) = ls.
Proof.
  intros Hlast Hne HF. unfold scan_lines. rewrite split_join_lines by done. rewrite decide_False by done.
  clear Hlast Hne. induction HF as [|line ls (_ & Hcr & Hs) _ IH]; [done|]. cbn [scan_fit].
  rewrite (proj2 (Z.ltb_lt _ _)) by done. by rewrite Hcr, IH.
Qed.

(** commenting is undone: when the target is what one gets by putting the
    prefix before each of some lines, the file is written with the target's
    first occurrence replaced by those lines. *)
Theorem UncommentCode_uncomments `{!Host W} (filename prefix before after : string) (lines : list string) (k : string) (w w1 : W) :
  let target := join (String LF "") (String.append prefix <$> lines) in
  lines ≠ [] → last (String.append prefix <$> lines) ≠ Some "" → Forall plain_line (String.append prefix <$> lines) →
  h_ReadFile filename w = (Ok (before +:+ target +:+ after), w1) →
  Index target (before +:+ target +:+ after) = Some (String.length before) →
  (UncommentCode filename target prefix (k, w)).2 = [WroteFile filename (before +:+ join (String LF "") lines +:+ after)].
Proof.
  intros target Hne Hlast HF Hr Hi. unfold UncommentCode, ask. unfold mbind at 1, M_bind at 1. cbn [snd]. rewrite Hr. cbv beta iota. rewrite Hi.
  unfold target at 1. rewrite scan_lines_join; [|done|by destruct lines|done].
  assert (trim_prefix prefix <$> (String.append prefix <$> lines) = lines) as El.
  { rewrite <-list_fmap_compose. transitivity (id <$> lines); [|apply list_fmap_id]. apply list_fmap_ext. intros i line _.
    unfold trim_prefix, compose. by rewrite has_prefix_app, sdrop_app. }
  destruct (String.append prefix <$> lines) as [|line more] eqn:Em; [by destruct lines|]. rewrite El, stake_app, sapp_assoc.
  rewrite <-slength_app, (sapp_assoc before target after), sdrop_app. unfold mbind, M_bind, log. cbn [snd fst]. rewrite <-sapp_assoc. by destruct (h_WriteFile _ _ _).
Qed.

(** ** A small host *)

Definition sim_config : string := "current-context: endpoint-monitoring-operator-e2e".

(** Nothing changes; commands print what they are given. *)
#[export] Instance sim_host : Host () := {|
  h_Getenv := λ _ w, ("kubeconfig", w); h_Abs := λ p w, (Ok ("/src/" +:+ p), w);
  h_ReadFile := λ p w, (Ok (if decide (p = "/src/kubeconfig") then sim_config else "a" +:+ String LF "//b" +:+ String LF "c"), w);
  h_Getwd := λ w, (("/src/test/e2e", None), w); h_Chdir := λ _ w, (None, w); h_Environ := λ w, (["KUBECONFIG=/home/me"], w);
  h_CombinedOutput := λ args _ _ w, ((join " " args, None), w); h_WriteFile := λ _ _ w, (None, w) |}.

Definition sim_context (data : string) : result error string :=
  if decide (data = sim_config) then Ok TestProfile else Ok "production".

Lemma commands_reach_the_test_cluster_witness :
  env_value "KUBECONFIG" ["KUBECONFIG=/home/me"; "GO111MODULE=on"; "KUBECONFIG=/src/kubeconfig"; "KUBECTL=kubectl"; "MAKEFLAGS=";
    "MFLAGS="; "GNUMAKEFLAGS="; "MAKEFILES="] = Some "/src/kubeconfig".
Proof.
  destruct (commands_reach_the_test_cluster sim_context id [CallUseTestKubeconfig; CallRun ["make"]] () [ReadConfig "/src/kubeconfig" sim_config] []
    ["make"] "/src" ["KUBECONFIG=/home/me"; "GO111MODULE=on"; "KUBECONFIG=/src/kubeconfig"; "KUBECTL=kubectl"; "MAKEFLAGS=";
    "MFLAGS="; "GNUMAKEFLAGS="; "MAKEFILES="]) as (path & data & Hp & Hin & _); [vm_compute; reflexivity|].
  apply list_elem_of_singleton in Hin. injection Hin as -> _. exact Hp.
Defined.

Lemma UncommentCode_uncomments_witness :
  (UncommentCode "main.go" "//b" "//" ("", ())).2 = [WroteFile "main.go" ("a" +:+ String LF "b" +:+ String LF "c")].
Proof.
  apply (UncommentCode_uncomments "main.go" "//" ("a" +:+ String LF "") (String LF "c") ["b"] "" () ()); [done|done| |reflexivity|reflexivity].
  repeat constructor.
Defined.

(** A target that ends in a newline loses it: the line after it is joined to
    the last one. *)
Example trailing_newline_lost :
  (UncommentCode "main.go" ("//b" +:+ String LF "") "//" ("", ())).2 = [WroteFile "main.go" ("a" +:+ String LF "bc")].
Proof. reflexivity. Qed.
