(* ===== verification/Middleware.v ===== *)
(** * The dashboard's HTTP plumbing (dashboard/internal/server/server.go)

    What a handler does to its [http.ResponseWriter] is a list of operations;
    [recorder] is the writer net/http gives it, as far as a client sees it.
    [compressResponseWriter] stands between the two.  Proved: compression is
    transparent - the status is the handler's, and the bytes it wrote are what
    the reader of the package that compressed them (compress/gzip or
    compress/flate) makes of the body sent.  For deflate that is a raw DEFLATE
    stream, where HTTP means a zlib stream by that name. *)

From S2P Require Import Prelude GoStd.

(** ** Headers *)

(** [http.Header]; the code's keys are in canonical form. *)
Notation header := (gmap string (list string)) (only parsing).

Definition header_Get (h : header) (k : string) : string := default "" (h !! k ≫= head).
Definition header_Set (h : header) (k v : string) : header := <[k := [v]]> h.
Definition header_Add (h : header) (k v : string) : header := <[k := default [] (h !! k) ++ [v]]> h.

(** ** What a handler does to its writer *)

Inductive wop :=
| HSet (k v : string)
| HAdd (k v : string)
| HDel (k : string)
| HWriteHeader (code : Z)
| HWrite (b : string)
| HFlush.

Definition header_op (o : wop) (h : header) : header :=
  match o with
  | HSet k v => header_Set h k v
  | HAdd k v => header_Add h k v
  | HDel k => delete k h
  | _ => h
  end.

(** *** The writer of net/http *)

(** The headers so far, the status and headers once they are sent, and the
    body; the answer to HEAD has none. *)
Record recorder := {
  rc_head : bool; rc_header : header; rc_sent : option (Z * header); rc_body : string }.

Definition with_header (r : recorder) (h : header) : recorder :=
  {| rc_head := rc_head r; rc_header := h; rc_sent := rc_sent r; rc_body := rc_body r |}.

Definition informational (code : Z) : bool := (100 <=? code) && (code <=? 199) && negb (code =? 101).

(** Informational headers are sent on the side. *)
Definition rc_WriteHeader (code : Z) (r : recorder) : recorder :=
  match rc_sent r with
  | Some _ => r
  | None =>
      if informational code then r
      else {| rc_head := rc_head r; rc_header := rc_header r; rc_sent := Some (code, rc_header r); rc_body := rc_body r |}
  end.

Definition body_allowed (r : recorder) : bool :=
  negb (rc_head r) &&
  match rc_sent r with Some (code, _) => negb ((code =? 204) || (code =? 304)) | None => true end.

Definition rc_Write (b : string) (r : recorder) : recorder :=
  let r := rc_WriteHeader 200 r in
  if body_allowed r
  then {| rc_head := rc_head r; rc_header := rc_header r; rc_sent := rc_sent r; rc_body := rc_body r +:+ b |} else r.

Definition rc_op (r : recorder) (o : wop) : recorder :=
  match o with
  | HWriteHeader code => rc_WriteHeader code r
  | HWrite b => rc_Write b r
  | HFlush => rc_WriteHeader 200 r
  | o => with_header r (header_op o (rc_header r))
  end.

Definition fresh (head : bool) (h : header) : recorder :=
  {| rc_head := head; rc_header := h; rc_sent := None; rc_body := "" |}.

(** ** Compression *)

(** [isCompressible]. *)
Definition compressible_types : list string :=
  ["text/html"; "text/css"; "text/plain"; "text/xml"; "text/javascript"; "application/javascript";
   "application/x-javascript"; "application/json"; "application/xml"; "image/svg+xml"].

Definition isCompressible (contentType : string) : bool :=
  bool_decide (trim_space (default "" (head (split ";" contentType))) ∈ compressible_types).

(** What is written to a compressor: data, and flushes. *)
Inductive piece := Data (b : string) | Sync.

Definition plain (l : list piece) : string :=
  foldr (λ p s, match p with Data b => b +:+ s | Sync => s end) "" l.

(** The writers of compress/gzip and compress/flate, with the stream each has
    made of what it was given when it is closed, the packages' readers, and
    net/http's guess of a type.  The streams of compress/flate are raw DEFLATE
    (RFC 1951). *)
Class Encodings := {
  gzip_Writer : list piece → string;
  gzip_Reader : string → option string;
  flate_Writer : list piece → string;
  flate_Reader : string → option string;
  DetectContentType : string → string }.

(** What the packages document: each reader reads back what its writer was
    given. *)
Definition readers_invert `{!Encodings} : Prop :=
  (∀ pieces, gzip_Reader (gzip_Writer pieces) = Some (plain pieces)) ∧
  (∀ pieces, flate_Reader (flate_Writer pieces) = Some (plain pieces)).

(** The stream the code sends under a Content-Encoding. *)
Definition encode `{!Encodings} (encoding : string) (pieces : list piece) : string :=
  if decide (encoding = "gzip") then gzip_Writer pieces else flate_Writer pieces.

(** A client that takes gzip for what it is and deflate for raw DEFLATE.  HTTP
    means a zlib stream (RFC 1950) by deflate; clients that insist on one
    cannot read the code's. *)
Definition decode `{!Encodings} (encoding body : string) : option string :=
  if decide (encoding = "gzip") then gzip_Reader body
  else if decide (encoding = "deflate") then flate_Reader body else None.

Lemma reader_reads_back `{!Encodings} encoding pieces :
  readers_invert → encoding = "gzip" ∨ encoding = "deflate" →
  decode encoding (encode encoding pieces) = Some (plain pieces).
Proof. intros [Hg Hf] [-> | ->]; unfold decode, encode; simpl; [apply Hg|apply Hf]. Qed.

Section compress.
Context `{EN : !Encodings}.

Record compressResponseWriter := {
  cw_ResponseWriter : recorder;
  cw_compressor : option (list piece);
  cw_wroteHeader : bool;
  cw_encoding : string }.

Definition cw_under (w : compressResponseWriter) (f : recorder → recorder) : compressResponseWriter :=
  {| cw_ResponseWriter := f (cw_ResponseWriter w); cw_compressor := cw_compressor w;
     cw_wroteHeader := cw_wroteHeader w; cw_encoding := cw_encoding w |}.

(** Whether an answer with these headers is sent as it is. *)
Definition not_encoded (code : Z) (h : header) : bool :=
  (code =? 204) || (code =? 304) || negb (bool_decide (header_Get h "Content-Encoding" = ""))
  || negb (isCompressible (header_Get h "Content-Type")).

Definition encoded_header (encoding : string) (h : header) : header :=
  delete "Content-Length" (header_Add (header_Set h "Content-Encoding" encoding) "Vary" "Accept-Encoding").

Definition cw_WriteHeader (code : Z) (w : compressResponseWriter) : compressResponseWriter :=
  if cw_wroteHeader w then w
  else
    let r := cw_ResponseWriter w in
    if not_encoded code (rc_header r) then
      {| cw_ResponseWriter := rc_WriteHeader code r; cw_compressor := cw_compressor w; cw_wroteHeader := true;
         cw_encoding := "" |}
    else
      {| cw_ResponseWriter := rc_WriteHeader code (with_header r (encoded_header (cw_encoding w) (rc_header r)));
         cw_compressor := if bool_decide (cw_encoding w = "gzip" ∨ cw_encoding w = "deflate")
                          then Some [] else cw_compressor w;
         cw_wroteHeader := true; cw_encoding := cw_encoding w |}.

Definition sniffed (b : string) (h : header) : header :=
  if decide (header_Get h "Content-Type" = "") then header_Set h "Content-Type" (DetectContentType b) else h.

Definition cw_Write (b : string) (w : compressResponseWriter) : compressResponseWriter :=
  let w := if cw_wroteHeader w then w
           else cw_WriteHeader 200 (cw_under w (λ r, with_header r (sniffed b (rc_header r)))) in
  match cw_compressor w with
  | Some pieces =>
      if decide (cw_encoding w = "") then cw_under w (rc_Write b)
      else {| cw_ResponseWriter := cw_ResponseWriter w; cw_compressor := Some (pieces ++ [Data b]);
              cw_wroteHeader := cw_wroteHeader w; cw_encoding := cw_encoding w |}
  | None => cw_under w (rc_Write b)
  end.

Definition cw_Flush (w : compressResponseWriter) : compressResponseWriter :=
  {| cw_ResponseWriter := rc_op (cw_ResponseWriter w) HFlush;
     cw_compressor := (λ pieces, pieces ++ [Sync]) <$> cw_compressor w;
     cw_wroteHeader := cw_wroteHeader w; cw_encoding := cw_encoding w |}.

Definition cw_op (w : compressResponseWriter) (o : wop) : compressResponseWriter :=
  match o with
  | HWriteHeader code => cw_WriteHeader code w
  | HWrite b => cw_Write b w
  | HFlush => cw_Flush w
  | o => cw_under w (λ r, with_header r (header_op o (rc_header r)))
  end.

(** [compressor.Close()]: what was written to it has arrived, encoded. *)
Definition cw_finish (w : compressResponseWriter) : recorder :=
  match cw_compressor w with
  | Some pieces =>
      if decide (cw_encoding w = "") then cw_ResponseWriter w
      else rc_Write (encode (cw_encoding w) pieces) (cw_ResponseWriter w)
  | None => cw_ResponseWriter w
  end.

Definition chosen_encoding (accept : string) : string :=
  if contains "gzip" accept then "gzip" else if contains "deflate" accept then "deflate" else "".

(** [Compress]: what a handler that does [ops] makes the client see. *)
Definition Compress (connection accept : string) (ops : list wop) (r : recorder) : recorder :=
  let encoding := chosen_encoding accept in
  if contains "Upgrade" connection || bool_decide (encoding = "") then foldl rc_op r ops
  else
    cw_finish (foldl cw_op {| cw_ResponseWriter := r; cw_compressor := None; cw_wroteHeader := false;
                              cw_encoding := encoding |} ops).
End compress.

(** [NoCache]: the headers when the handler runs. *)
Definition NoCache (path : string) : header :=
  header_Set ∅ "Cache-Control"
    (if has_prefix "/.well-known/" path || has_prefix "/static/" path || has_prefix "/robots.txt" path
     then "public, max-age=2600000" else "no-cache, no-store, must-revalidate").

(** ** Compression is transparent *)

(** Headers that agree but at some keys. *)
Definition same_but (ks : list string) (h h' : header) : Prop := ∀ k, k ∉ ks → h' !! k = h !! k.

(** What a client is sent instead of an answer [p]: the same status, and either
    the same body, with at most a Content-Type filled in, or the encoded body
    under headers that say so. *)
Definition transparent `{!Encodings} (enc : string) (p c : recorder) : Prop :=
  match rc_sent p, rc_sent c with
  | None, None => rc_body p = "" ∧ rc_body c = ""
  | Some (code, h), Some (code', h') =>
      code' = code ∧ (header_Get h "Content-Type" ≠ "" → h' !! "Content-Type" = h !! "Content-Type") ∧
      (same_but ["Content-Type"] h h' ∧ rc_body c = rc_body p ∨
       enc ≠ "" ∧ header_Get h "Content-Encoding" = "" ∧
       same_but ["Content-Type"; "Content-Encoding"; "Content-Length"; "Vary"] h h' ∧
       h' !! "Content-Encoding" = Some [enc] ∧ h' !! "Content-Length" = None ∧
       (∃ vs, h' !! "Vary" = Some (vs ++ ["Accept-Encoding"])) ∧
       (if rc_head p then rc_body c = "" else decode enc (rc_body c) = Some (rc_body p)))
  | _, _ => False
  end.

(** Final status codes only, and something written before the first flush. *)
Definition final_codes (ops : list wop) : Prop :=
  Forall (λ o, match o with HWriteHeader code => 200 ≤ code | _ => True end) ops.

Fixpoint no_early_flush (ops : list wop) : Prop :=
  match ops with
  | [] => True
  | HFlush :: _ => False
  | (HWriteHeader _ | HWrite _) :: _ => True
  | _ :: ops => no_early_flush ops
  end.

Section transparent.
Context `{EN : !Encodings}.
Variable enc : string.
Hypothesis Henc : enc = "gzip" ∨ enc = "deflate".

(** The writers while a handler runs. *)
Inductive related : recorder → compressResponseWriter → Prop :=
| rel_open p :
    rc_sent p = None → rc_body p = "" →
    related p {| cw_ResponseWriter := p; cw_compressor := None; cw_wroteHeader := false; cw_encoding := enc |}
| rel_plain p r code h h' :
    rc_head r = rc_head p → rc_sent p = Some (code, h) → rc_sent r = Some (code, h') → rc_body r = rc_body p →
    same_but ["Content-Type"] h h' → (header_Get h "Content-Type" ≠ "" → h' !! "Content-Type" = h !! "Content-Type") →
    related p {| cw_ResponseWriter := r; cw_compressor := None; cw_wroteHeader := true; cw_encoding := "" |}
| rel_encoded p r code h h' pieces :
    rc_head r = rc_head p → rc_sent p = Some (code, h) → rc_sent r = Some (code, h') → rc_body r = "" →
    code ≠ 204 → code ≠ 304 →
    (header_Get h "Content-Type" ≠ "" → h' !! "Content-Type" = h !! "Content-Type") →
    header_Get h "Content-Encoding" = "" →
    same_but ["Content-Type"; "Content-Encoding"; "Content-Length"; "Vary"] h h' →
    h' !! "Content-Encoding" = Some [enc] → h' !! "Content-Length" = None →
    (∃ vs, h' !! "Vary" = Some (vs ++ ["Accept-Encoding"])) →
    (if rc_head p then rc_body p = "" else plain pieces = rc_body p) →
    related p {| cw_ResponseWriter := r; cw_compressor := Some pieces; cw_wroteHeader := true; cw_encoding := enc |}.

Lemma enc_ne : enc ≠ "".
Proof. by destruct Henc as [-> | ->]. Qed.

Lemma plain_snoc l p : plain (l ++ [p]) = plain l +:+ plain [p].
Proof.
  induction l as [|[b|] l IH]; simpl.
  - done.
  - rewrite IH. simpl. by rewrite sapp_assoc.
  - by rewrite IH.
Qed.

Lemma encoded_header_spec h :
  same_but ["Content-Type"; "Content-Encoding"; "Content-Length"; "Vary"] h (encoded_header enc h) ∧
  encoded_header enc h !! "Content-Encoding" = Some [enc] ∧ encoded_header enc h !! "Content-Length" = None ∧
  (∃ vs, encoded_header enc h !! "Vary" = Some (vs ++ ["Accept-Encoding"])) ∧
  encoded_header enc h !! "Content-Type" = h !! "Content-Type".
Proof.
  unfold encoded_header, header_Add, header_Set. split_and!.
  - intros k Hk. rewrite lookup_delete_ne, !lookup_insert_ne; set_solver.
  - by rewrite lookup_delete_ne, lookup_insert_ne, lookup_insert by done.
  - by rewrite lookup_delete.
  - eexists. rewrite lookup_delete_ne, lookup_insert by done. done.
  - by rewrite lookup_delete_ne, !lookup_insert_ne by done.
Qed.

(** Sending the headers, which the wrapper may have filled in. *)
Lemma related_WriteHeader p h1 code :
  rc_sent p = None → rc_body p = "" → 200 ≤ code → same_but ["Content-Type"] (rc_header p) h1 →
  (header_Get (rc_header p) "Content-Type" ≠ "" → h1 !! "Content-Type" = rc_header p !! "Content-Type") →
  related (rc_WriteHeader code p)
    (cw_WriteHeader code {| cw_ResponseWriter := with_header p h1; cw_compressor := None; cw_wroteHeader := false;
                            cw_encoding := enc |}).
Proof.
  intros Hs Hb Hcode Hh Hct. unfold cw_WriteHeader, rc_WriteHeader. cbn [cw_wroteHeader cw_ResponseWriter with_header rc_header rc_sent].
  rewrite Hs. assert (informational code = false) as -> by (unfold informational; lia).
  assert (header_Get h1 "Content-Encoding" = header_Get (rc_header p) "Content-Encoding") as Hce.
  { unfold header_Get. rewrite Hh by set_solver. done. }
  destruct (not_encoded code h1) eqn:Hn; [by econstructor|].
  unfold not_encoded in Hn. zb. rewrite bool_decide_eq_true in *. cbn [cw_encoding].
  rewrite bool_decide_true by done. destruct (encoded_header_spec h1) as (E1 & E2 & E3 & E4 & E5).
  econstructor; cbn [rc_head rc_sent rc_body]; try done.
  - intros Hne. rewrite E5. by apply Hct.
  - congruence.
  - intros k Hk. rewrite E1 by done. apply Hh. set_solver.
  - destruct (rc_head p); done.
Qed.
Lemma rc_WriteHeader_sent code p x : rc_sent p = Some x → rc_WriteHeader code p = p.
Proof. intros H. unfold rc_WriteHeader. by rewrite H. Qed.

Lemma related_sent p w : related p w → cw_wroteHeader w = negb (is_None_b (rc_sent p)).
Proof. intros [p' H|????? H1 H|?????? H1 H]; cbn [cw_wroteHeader]; by rewrite H. Qed.

(** A write once the headers are sent. *)
Lemma related_Write_sent b p w : related p w → rc_sent p ≠ None → related (rc_Write b p) (cw_Write b w).
Proof.
  intros [p' H|p' r code h h' Hh Hp Hr Hb Hsame Hct|p' r code h h' pieces Hh Hp Hr Hb Hn1 Hn2 Hct Hce Hsame E1 E2 E3 Hpl] Hs;
    [done| |]; unfold cw_Write, cw_under; cbn [cw_wroteHeader cw_compressor cw_encoding cw_ResponseWriter].
  - unfold rc_Write. rewrite (rc_WriteHeader_sent _ p' (code, h)), (rc_WriteHeader_sent _ r (code, h')) by done.
    assert (body_allowed r = body_allowed p') as -> by (unfold body_allowed; by rewrite Hh, Hp, Hr).
    destruct (body_allowed p'); [|by econstructor]. econstructor; cbn [rc_head rc_sent rc_body]; try done. by rewrite Hb.
  - rewrite decide_False by apply enc_ne. unfold rc_Write. rewrite (rc_WriteHeader_sent _ _ (code, h)) by done.
    assert (body_allowed p' = negb (rc_head p')) as ->.
    { unfold body_allowed. rewrite Hp. rewrite (proj2 (Z.eqb_neq _ _) Hn1), (proj2 (Z.eqb_neq _ _) Hn2).
      apply andb_true_r. }
    destruct (rc_head p') eqn:Ehead; cbn [negb].
    + econstructor; try done; by rewrite Ehead.
    + econstructor; cbn [rc_head rc_sent rc_body]; try done.
      rewrite plain_snoc, Hpl. simpl. by rewrite sapp_nil_r.
Qed.

Lemma related_header p w o :
  match o with HSet _ _ | HAdd _ _ | HDel _ => True | _ => False end → related p w → related (rc_op p o) (cw_op w o).
Proof.
  intros Ho Hr. assert (rc_op p o = with_header p (header_op o (rc_header p))) as -> by (by destruct o).
  assert (cw_op w o = cw_under w (λ r, with_header r (header_op o (rc_header r)))) as -> by (by destruct o).
  destruct Hr; unfold cw_under; cbn [cw_ResponseWriter cw_compressor cw_wroteHeader cw_encoding];
    econstructor; done.
Qed.

Lemma sniffed_spec b h :
  same_but ["Content-Type"] h (sniffed b h) ∧
  (header_Get h "Content-Type" ≠ "" → sniffed b h !! "Content-Type" = h !! "Content-Type").
Proof.
  unfold sniffed. case_decide; [|by split]. split; [|done]. intros k Hk. unfold header_Set.
  rewrite lookup_insert_ne; [done|set_solver].
Qed.

Lemma related_step p w o :
  related p w → (o = HFlush → rc_sent p ≠ None) → match o with HWriteHeader code => 200 ≤ code | _ => True end →
  related (rc_op p o) (cw_op w o).
Proof.
  intros Hr Hflush Hcode. destruct o as [k v|k v|k|code|b|]; [by apply related_header..| | |].
  - destruct Hr as [p Hs Hb|p r code' h h' Hh Hp ????|p r code' h h' pieces Hh Hp]; cbn [rc_op cw_op].
    + pose proof (related_WriteHeader p (rc_header p) code Hs Hb Hcode) as H. destruct p as [hd hh sn bd].
      apply H; [by intros ? ?|done].
    + rewrite (rc_WriteHeader_sent _ _ (code', h)) by done. by econstructor.
    + rewrite (rc_WriteHeader_sent _ _ (code', h)) by done. by econstructor.
  - destruct (rc_sent p) as [x|] eqn:Hs; [apply related_Write_sent; congruence|]. cbn [rc_op cw_op].
    destruct Hr as [p _ Hb|p r code' h h' Hh Hp ????|p r code' h h' pieces Hh Hp]; [|congruence..].
    destruct (sniffed_spec b (rc_header p)) as [H1 H2].
    pose proof (related_WriteHeader p _ 200 Hs Hb ltac:(lia) H1 H2) as H.
    assert (rc_Write b p = rc_Write b (rc_WriteHeader 200 p)) as ->.
    { unfold rc_Write. destruct (rc_sent (rc_WriteHeader 200 p)) as [x|] eqn:Es.
      - rewrite (rc_WriteHeader_sent _ (rc_WriteHeader 200 p) x) by done. by rewrite ?Es.
      - unfold rc_WriteHeader in Es. by rewrite Hs in Es. }
    set (w1 := cw_WriteHeader 200 _) in H.
    assert (cw_wroteHeader w1 = true) as Hw.
    { rewrite (related_sent _ _ H). unfold rc_WriteHeader. by rewrite Hs. }
    match goal with |- related _ ?w => assert (w = cw_Write b w1) as -> end.
    { unfold cw_Write. rewrite Hw. reflexivity. }
    apply related_Write_sent; [done|]. unfold rc_WriteHeader. by rewrite Hs.
  - destruct (rc_sent p) as [x|] eqn:Hs; [|by destruct Hflush]. cbn [rc_op cw_op].
    rewrite (rc_WriteHeader_sent _ _ x) by done.
    destruct Hr as [p Hs' Hb|p r code' h h' Hh Hp Hr ???|p r code' h h' pieces Hh Hp Hr Hb ?????????]; [congruence|..];
      unfold cw_Flush; cbn [cw_ResponseWriter cw_compressor cw_wroteHeader cw_encoding fmap option_fmap option_map rc_op];
      rewrite (rc_WriteHeader_sent _ _ (code', h')) by done; econstructor; try done.
    destruct (rc_head p); [done|]. rewrite plain_snoc. simpl. by rewrite sapp_nil_r.
Qed.

Lemma related_ops ops p w :
  related p w → final_codes ops → (rc_sent p = None → no_early_flush ops) →
  related (foldl rc_op p ops) (foldl cw_op w ops).
Proof.
  revert p w. induction ops as [|o ops IH]; intros p w Hr Hf Hn; cbn [foldl]; [done|].
  apply Forall_cons in Hf as [Ho Hf]. apply IH; [|done|].
  - apply related_step; [done| |done]. intros ->. intros Hs. by apply Hn in Hs.
  - destruct (rc_sent p) as [x|] eqn:Hs.
    + intros H. destruct o; cbn in H; unfold rc_Write in H; rewrite ?(rc_WriteHeader_sent _ p x) in H by done;
        try (simpl in H; congruence). destruct (body_allowed p); simpl in H; congruence.
    + specialize (Hn eq_refl). destruct o; try done; cbn [rc_op].
      * unfold rc_WriteHeader. rewrite Hs.
        assert (informational code = false) as -> by (unfold informational; lia). done.
      * unfold rc_Write, rc_WriteHeader. rewrite Hs. cbn. by destruct (body_allowed _).
Qed.

Lemma related_finish p w :
  (∀ pieces, decode enc (encode enc pieces) = Some (plain pieces)) → related p w → transparent enc p (cw_finish w).
Proof.
  intros Hd [p' Hs Hb|p' r code h h' Hh Hp Hr Hb Hsame Hct|p' r code h h' pieces Hh Hp Hr Hb Hn1 Hn2 Hct Hce Hsame E1 E2 E3 Hpl];
    unfold transparent, cw_finish; cbn [cw_compressor cw_encoding cw_ResponseWriter].
  - by rewrite Hs.
  - rewrite Hp, Hr. split; [done|]. split; [done|]. by left.
  - rewrite decide_False by apply enc_ne. unfold rc_Write. rewrite (rc_WriteHeader_sent _ r (code, h')) by done.
    assert (body_allowed r = negb (rc_head p')) as ->.
    { unfold body_allowed. rewrite Hr, Hh, (proj2 (Z.eqb_neq _ _) Hn1), (proj2 (Z.eqb_neq _ _) Hn2). apply andb_true_r. }
    destruct (rc_head p') eqn:Ehead; cbn [negb rc_sent rc_body]; rewrite Hp, Hr;
      (split; [done|]; split; [done|]; right; split_and!; try done; try apply enc_ne).
    rewrite Hb. simpl. by rewrite Hd, Hpl.
Qed.
End transparent.

(** Headers that are sent stay sent, and nothing is written before. *)
Lemma ops_keep_sent ops r : rc_sent r ≠ None → rc_sent (foldl rc_op r ops) ≠ None.
Proof.
  revert r. induction ops as [|o ops IH]; intros r Hr; cbn [foldl]; [done|]. apply IH.
  destruct (rc_sent r) as [x|] eqn:Ex; [|done].
  destruct o; cbn; unfold rc_Write; rewrite ?(rc_WriteHeader_sent _ r x) by done; try congruence.
  destruct (body_allowed r); simpl; congruence.
Qed.

Lemma unsent_no_body ops r :
  rc_sent (foldl rc_op r ops) = None → rc_body r = "" → rc_body (foldl rc_op r ops) = "".
Proof.
  revert r. induction ops as [|o ops IH]; intros r Hs Hb; cbn [foldl] in *; [done|].
  destruct (rc_sent (rc_op r o)) as [x|] eqn:Ex; [by destruct (ops_keep_sent ops (rc_op r o)); [congruence|]|].
  apply IH; [done|]. destruct o; cbn in *; try done; unfold rc_Write, rc_WriteHeader in *;
    destruct (rc_sent r) eqn:E; cbn in *; repeat case_match; simpl in *; congruence.
Qed.

Lemma Compress_relates `{EN : !Encodings} (connection accept : string) (ops : list wop) (head : bool) (h : header) :
  readers_invert →
  final_codes ops → no_early_flush ops →
  ∃ enc, (enc ≠ "" → contains enc accept = true) ∧
    transparent enc (foldl rc_op (fresh head h) ops) (Compress connection accept ops (fresh head h)).
Proof.
  intros Hd Hf Hn. exists (chosen_encoding accept). split.
  { unfold chosen_encoding. destruct (contains "gzip" accept) eqn:E1; [done|].
    destruct (contains "deflate" accept) eqn:E2; done. }
  assert (chosen_encoding accept ≠ "" → chosen_encoding accept = "gzip" ∨ chosen_encoding accept = "deflate") as Henc.
  { unfold chosen_encoding. destruct (contains "gzip" accept); [by left|]. destruct (contains "deflate" accept); [by right|done]. }
  unfold Compress. destruct (contains "Upgrade" connection || _) eqn:E.
  - unfold transparent. destruct (rc_sent (foldl rc_op (fresh head h) ops)) as [[code h']|] eqn:Es.
    + split; [done|]. split; [done|]. left. by split.
    + by split; apply unsent_no_body.
  - zb. rewrite bool_decide_eq_false in *.
    apply related_finish; [by apply Henc|by intros; apply reader_reads_back, Henc|].
    apply related_ops; [by apply Henc|by constructor|done|done].
Qed.

(** The header is searched as a text: a quality of zero does not count. *)
Example refused_encoding_chosen : chosen_encoding "gzip;q=0, identity" = "gzip".
Proof. reflexivity. Qed.

(** compressing is transparent: whatever a handler writes - with final
    status codes, and something written before it flushes - and whatever
    encodings Accept-Encoding names, the client is sent the status and the bytes
    the handler wrote: as they are, or encoded under a Content-Encoding that
    is one of those - gzip, or raw DEFLATE as deflate -, with Vary set and no stale Content-Length;
    an answer the handler has encoded itself is not encoded again. *)
Theorem Compress_transparent `{EN : !Encodings} (connection accept : string) (ops : list wop)
    (head : bool) (h : header) :
  readers_invert →
  final_codes ops → no_early_flush ops →
  ∃ enc, (enc ≠ "" → contains enc accept = true) ∧
    transparent enc (foldl rc_op (fresh head h) ops) (Compress connection accept ops (fresh head h)).
Proof. apply Compress_relates. Qed.

(** A client for whom encoding is the identity, but for a mark. *)
#[export] Instance Encodings_sim : Encodings := {|
  gzip_Writer := plain; gzip_Reader := Some; flate_Writer := plain; flate_Reader := Some;
  DetectContentType := λ _, "text/plain; charset=utf-8" |}.

Lemma Compress_transparent_witness :
  ∃ enc, (enc ≠ "" → contains enc "br, deflate" = true) ∧
    transparent enc
      (foldl rc_op (fresh false ∅) [HSet "Content-Type" "text/html"; HWrite "<p>"; HFlush; HWrite "hi"; HWriteHeader 500])
      (Compress "keep-alive" "br, deflate"
         [HSet "Content-Type" "text/html"; HWrite "<p>"; HFlush; HWrite "hi"; HWriteHeader 500] (fresh false ∅)).
Proof.
  apply (Compress_transparent "keep-alive" "br, deflate"
           [HSet "Content-Type" "text/html"; HWrite "<p>"; HFlush; HWrite "hi"; HWriteHeader 500] false ∅).
  - by split.
  - repeat (constructor; [try done; lia|]). constructor.
  - done.
Defined.

(** A flush before anything is written sends the headers without the
    Content-Encoding the wrapper then uses. *)
Example early_flush_loses_encoding :
  let r := Compress "" "gzip" [HSet "Content-Type" "text/html"; HFlush; HWrite "x"] (fresh false ∅) in
  ((λ p, p.2 !! "Content-Encoding") <$> rc_sent r, rc_header r !! "Content-Encoding") = (Some None, Some ["gzip"]).
Proof. vm_compute. reflexivity. Qed.
