(* ===== verification/Config.v ===== *)
(** * Configuration of the dashboard

    Defaults, validation (dashboard/internal/config/config.go) and the store
    built from a configuration ([store.New]). *)

From S2P Require Import Prelude GoStd GoTime Errors Trace Valkey Store.

Record Location := {
  loc_Name : string; loc_Addr : string; loc_TLS : bool; loc_Username : string;
  loc_Password : string; loc_DB : Z; loc_Primary : bool }.

Record Config := {
  HTTPAddr : string; RollupInterval : string; BackfillPace : string;
  DefaultRetentionDays : Z; Locations : list Location }.

(** [envKey]: dashes become underscores, letters upper case. *)
Definition env_byte (c : ascii) : ascii :=
  if decide (c = "-"%char) then "_"%char
  else if ascii_in "a" "z" c then upper_byte c else c.

Definition envKey (name : string) : string := smap env_byte name.

Section defaults.
(** [os.Getenv]. *)
Variable Getenv : string → string.

Definition default_string (v d : string) : string := if decide (v = "") then d else v.

Definition with_password (l : Location) : Location :=
  if decide (loc_Password l = "") then
    let v := Getenv ("VALKEY_PASSWORD_" +:+ envKey (loc_Name l)) in
    {| loc_Name := loc_Name l; loc_Addr := loc_Addr l; loc_TLS := loc_TLS l;
       loc_Username := loc_Username l; loc_Password := v; loc_DB := loc_DB l;
       loc_Primary := loc_Primary l |}
  else l.

Definition applyDefaults (c : Config) : Config :=
  {| HTTPAddr := default_string (HTTPAddr c) ":8080";
     RollupInterval := default_string (RollupInterval c) "5m";
     BackfillPace := default_string (BackfillPace c) "10ms";
     DefaultRetentionDays := if DefaultRetentionDays c =? 0 then 90 else DefaultRetentionDays c;
     Locations := with_password <$> Locations c |}.

End defaults.

Definition Primary (c : Config) : option Location := List.find loc_Primary (Locations c).

Section validation.
(** [time.ParseDuration] and [strconv.Quote], the [%q] of the messages. *)
Variable ParseDuration : string → result error duration.
Variable Quote : string → string.

Definition RollupDuration (c : Config) : result error duration := ParseDuration (RollupInterval c).
Definition BackfillPaceDuration (c : Config) : result error duration := ParseDuration (BackfillPace c).

(** The loop over the locations: the number of primaries, or the error. *)
Fixpoint validate_locations (names : gset string) (primary : Z) (locs : list Location)
  : result error Z :=
  match locs with
  | [] => Ok primary
  | loc :: locs =>
      if decide (loc_Name loc = "" ∨ loc_Addr loc = "") then
        Err (ENew "each location requires name and addr")
      else if decide (loc_Name loc ∈ names) then
        Err (ENew ("location name " +:+ Quote (loc_Name loc) +:+ " is used twice"))
      else validate_locations ({[loc_Name loc]} ∪ names)
             (if loc_Primary loc then primary + 1 else primary) locs
  end.

Definition validate (c : Config) : option error :=
  if is_nil (Locations c) then Some (ENew "at least one location is required")
  else
    match validate_locations ∅ 0 (Locations c) with
    | Err e => Some e
    | Ok primary =>
        if negb (primary =? 1) then Some (ENew "exactly one location must be marked primary")
        else if DefaultRetentionDays c <? 1 then
          Some (ENew ("defaultRetentionDays must be at least 1, got " +:+
                      FormatInt (DefaultRetentionDays c)))
        else
          match RollupDuration c with
          | Err e => Some (EWrap "rollupInterval: " e)
          | Ok interval =>
              if interval <=? 0 then
                Some (ENew ("rollupInterval must be a positive duration, got " +:+ RollupInterval c))
              else
                match BackfillPaceDuration c with
                | Err e => Some (EWrap "backfillPace: " e)
                | Ok pace =>
                    if pace <? 0 then
                      Some (ENew ("backfillPace must not be negative, got " +:+ BackfillPace c))
                    else None
                end
          end
    end.

(** [os.ReadFile], [yaml.Unmarshal] and [os.Getenv] of [Load]. *)
Definition Load (ReadFile : string → result error string) (Unmarshal : string → result error Config)
    (Getenv : string → string) (path : string) : result error Config :=
  match ReadFile path with
  | Err e => Err (EWrap "read config: " e)
  | Ok data =>
      match Unmarshal data with
      | Err e => Err (EWrap "parse config: " e)
      | Ok cfg =>
          let cfg := applyDefaults Getenv cfg in
          match validate cfg with Some e => Err e | None => Ok cfg end
      end
  end.

(** What a valid configuration satisfies. *)
Definition valid (c : Config) : Prop :=
  Locations c ≠ [] ∧ Forall (λ l, loc_Name l ≠ "" ∧ loc_Addr l ≠ "") (Locations c) ∧
  NoDup (loc_Name <$> Locations c) ∧ countb loc_Primary (Locations c) = 1 ∧
  1 ≤ DefaultRetentionDays c ∧
  (∃ d, RollupDuration c = Ok d ∧ 0 < d) ∧ (∃ d, BackfillPaceDuration c = Ok d ∧ 0 ≤ d).

Lemma validate_locations_spec names n locs :
  match validate_locations names n locs with
  | Ok m => m = n + countb loc_Primary locs ∧
      Forall (λ l, loc_Name l ≠ "" ∧ loc_Addr l ≠ "") locs ∧ NoDup (loc_Name <$> locs) ∧
      Forall (λ l, loc_Name l ∉ names) locs
  | Err _ => ¬ (Forall (λ l, loc_Name l ≠ "" ∧ loc_Addr l ≠ "") locs ∧ NoDup (loc_Name <$> locs) ∧
      Forall (λ l, loc_Name l ∉ names) locs)
  end.
Proof.
  revert names n. induction locs as [|l locs IH]; intros names n; cbn [validate_locations].
  { unfold countb. simpl. split_and!; [lia|constructor..]. }
  case_decide as He.
  { intros (HF & _). apply Forall_cons in HF as [[Hn Ha] _]. by destruct He. }
  case_decide as Hn.
  { intros (_ & _ & HF). by apply Forall_cons in HF as [? _]. }
  specialize (IH ({[loc_Name l]} ∪ names) (if loc_Primary l then n + 1 else n)).
  assert (Forall (λ l', loc_Name l' ∉ {[loc_Name l]} ∪ names) locs ↔
    loc_Name l ∉ (loc_Name <$> locs) ∧ Forall (λ l', loc_Name l' ∉ names) locs) as Hiff.
  { rewrite !Forall_forall, list_elem_of_fmap. set_solver. }
  destruct (validate_locations _ _ locs); rewrite Hiff in IH;
    rewrite fmap_cons, NoDup_cons, !Forall_cons; rewrite ?countb_cons.
  - destruct IH as (-> & ? & ? & ? & ?). split_and!; try done; [|naive_solver..].
    destruct (loc_Primary l); lia.
  - tauto.
Qed.

(** a configuration is accepted exactly when it names at least one
    location, every location has a name of its own and an address, exactly one
    is primary, the retention is at least a day, the rollup interval is a
    positive duration and the backfill pace one that is not negative. *)
Theorem validate_accepts_valid (c : Config) : validate c = None ↔ valid c.
Proof.
  unfold validate, valid. pose proof (validate_locations_spec ∅ 0 (Locations c)) as Hl.
  assert (Forall (λ l, loc_Name l ∉ (∅ : gset string)) (Locations c)) as Hempty.
  { apply Forall_true. set_solver. }
  destruct (is_nil (Locations c)) eqn:En.
  { destruct (Locations c); [|done]. split; [done|naive_solver]. }
  assert (Locations c ≠ []) as Hne by (by destruct (Locations c)).
  destruct (validate_locations ∅ 0 (Locations c)) as [n|e]; [|split; [done|tauto]].
  destruct Hl as (-> & Hf & Hnd & _). rewrite Z.add_0_l.
  destruct (Z.eqb_spec (countb loc_Primary (Locations c)) 1) as [H1|H1]; cbn [negb];
    [|split; [done|tauto]].
  destruct (DefaultRetentionDays c <? 1) eqn:Er; zb; [split; [done|lia]|].
  destruct (RollupDuration c) as [d|e]; [|split; [done|naive_solver]].
  destruct (d <=? 0) eqn:Ed; zb; [split; [done|naive_solver lia]|].
  destruct (BackfillPaceDuration c) as [p|e]; [|split; [done|naive_solver]].
  destruct (p <? 0) eqn:Ep; zb; [split; [done|naive_solver lia]|].
  split; [intros _; split_and!; eauto|done].
Qed.
End validation.

(** ** The store of a configuration *)

(** [valkey.ClientOption]; [TLSConfig] is its least version. *)
Record ClientOption := {
  InitAddress : list string; Username : string; Password : string; SelectDB : Z; TLSConfig : option string }.

Definition client_option (loc : Location) : ClientOption :=
  {| InitAddress := [loc_Addr loc]; Username := loc_Username loc; Password := loc_Password loc;
     SelectDB := loc_DB loc; TLSConfig := if loc_TLS loc then Some "TLS 1.2" else None |}.

Section build.
(** The client library connects or fails. *)
Variable NewClient : ClientOption → option error.

Definition dial (loc : Location) : option error := NewClient (client_option loc).

Fixpoint connect (i : nat) (locs : list Location) (clients : gmap string Client)
    (primary : option Client) : result error (gmap string Client * option Client) :=
  match locs with
  | [] => Ok (clients, primary)
  | loc :: locs =>
      match dial loc with
      | Some e => Err (EWrap ("location " +:+ loc_Name loc +:+ ": ") e)
      | None =>
          let client := {| cl_name := loc_Name loc; cl_id := i |} in
          connect (S i) locs (<[loc_Name loc := client]> clients)
            (if loc_Primary loc then Some client else primary)
      end
  end.

Definition New (c : Config) : result error Store :=
  match connect 0 (Locations c) ∅ None with
  | Err e => Err e
  | Ok (clients, None) => Err (ENew "no primary location configured")
  | Ok (clients, Some p) =>
      Ok {| locations := clients; primary := p;
            retention := wrap64 (DefaultRetentionDays c * 24 * 3600);
            retentionDays := DefaultRetentionDays c |}
  end.

Lemma connect_spec i locs clients primary :
  Forall (λ l, dial l = None) locs → NoDup (loc_Name <$> locs) →
  ∃ clients' primary', connect i locs clients primary = Ok (clients', primary') ∧
    (∀ name, is_Some (clients' !! name) ↔ is_Some (clients !! name) ∨ name ∈ (loc_Name <$> locs)) ∧
    (∀ name, name ∉ (loc_Name <$> locs) → clients' !! name = clients !! name) ∧
    ((Forall (λ l, loc_Primary l = false) locs ∧ primary' = primary) ∨
     ∃ l client, l ∈ locs ∧ loc_Primary l = true ∧ primary' = Some client ∧
       cl_name client = loc_Name l ∧ clients' !! loc_Name l = Some client).
Proof.
  revert i clients primary. induction locs as [|l locs IH]; intros i clients primary Hd Hnd.
  { exists clients, primary. cbn [connect]. split_and!; [done|set_solver|done|left; by split]. }
  apply Forall_cons in Hd as [Hl Hd]. rewrite fmap_cons in Hnd |- *.
  apply NoDup_cons in Hnd as [Hn Hnd]. cbn [connect]. rewrite Hl.
  set (client := {| cl_name := loc_Name l; cl_id := i |}).
  destruct (IH (S i) (<[loc_Name l := client]> clients) (if loc_Primary l then Some client else primary)
    Hd Hnd) as (clients' & primary' & -> & Hdom & Hkeep & Hp).
  exists clients', primary'. split_and!; [done| | |].
  - intros name. rewrite Hdom, lookup_insert_is_Some, elem_of_cons.
    destruct (decide (loc_Name l = name)); naive_solver.
  - intros name Hname. rewrite Hkeep by set_solver. apply lookup_insert_ne. set_solver.
  - destruct Hp as [[Hf ->]|(l' & c' & Hl' & ?)]; [|right; exists l', c'; split; [by right|done]].
    destruct (loc_Primary l) eqn:El; [|left; split; [by constructor|done]].
    right. exists l, client. split_and!; [by left|done..|].
    rewrite Hkeep by done. apply lookup_insert_eq.
Qed.

(** a valid configuration whose servers can be reached gives a store
    with one client per configured location, whose primary is the client of
    the location marked primary. *)
Theorem New_of_valid (ParseDuration : string → result error duration) (c : Config) :
  valid ParseDuration c → Forall (λ l, dial l = None) (Locations c) →
  ∃ s l, New c = Ok s ∧ l ∈ Locations c ∧ loc_Primary l = true ∧
    cl_name (primary s) = loc_Name l ∧ locations s !! loc_Name l = Some (primary s) ∧
    (∀ name, is_Some (locations s !! name) ↔ name ∈ (loc_Name <$> Locations c)) ∧
    retentionDays s = DefaultRetentionDays c.
Proof.
  intros (Hne & _ & Hnd & Hone & _) Hd. unfold New.
  destruct (connect_spec 0 (Locations c) ∅ None Hd Hnd)
    as (clients & primary' & -> & Hdom & _ & [[Hf ->]|(l & client & Hl & Hp & -> & Hn & Hc)]).
  { assert (0 < countb loc_Primary (Locations c)) as Hpos by lia. apply countb_pos in Hpos.
    apply Exists_exists in Hpos as (l & Hl & Hp). rewrite Forall_forall in Hf.
    by rewrite (Hf l Hl) in Hp. }
  eexists _, l. split; [done|]. split_and!; [done..| |done]. simpl. intros name.
  rewrite Hdom, lookup_empty, is_Some_None_iff || rewrite Hdom.
  split; [intros [[? [=]]|?]; done|by right].
Qed.

(** [Store.Close]: the clients closed, in the order of a [range] over the map. *)
Definition Store_Close (s : Store) : list Client := (map_to_list (locations s)).*2.

Lemma connect_names i locs : ∀ clients primary clients' primary',
  connect i locs clients primary = Ok (clients', primary') →
  map_Forall (λ name c, cl_name c = name) clients → map_Forall (λ name c, cl_name c = name) clients'.
Proof.
  revert i. induction locs as [|l locs IH]; intros i clients primary clients' primary'; cbn [connect].
  { by intros [= -> ->]. }
  destruct (dial l); [done|]. intros H Hc. eapply IH; [exact H|]. by apply map_Forall_insert_2.
Qed.

(** Closing a store closes each client it has opened, the primary's among
    them, and none twice. *)
Lemma Store_Close_closes_each c s :
  New c = Ok s → NoDup (Store_Close s) ∧ ∀ client, client ∈ Store_Close s ↔ ∃ name, locations s !! name = Some client.
Proof.
  unfold New. intros H. destruct (connect 0 (Locations c) ∅ None) as [[clients [p|]]|e] eqn:E; [|done..].
  injection H as <-. unfold Store_Close. cbn [locations]. apply connect_names in E; [|apply map_Forall_empty]. split.
  - apply (NoDup_fmap_1 cl_name).
    assert (cl_name <$> (map_to_list clients).*2 = (map_to_list clients).*1) as ->; [|apply NoDup_fst_map_to_list].
    rewrite <-list_fmap_compose. apply list_fmap_ext. intros k [name client] Hk.
    apply list_elem_of_lookup_2, elem_of_map_to_list in Hk. by apply E in Hk.
  - intros client. rewrite list_elem_of_fmap. split.
    + intros ([name client'] & -> & H%elem_of_map_to_list). by exists name.
    + intros (name & H). exists (name, client). by rewrite elem_of_map_to_list.
Qed.
End build.

Definition sim_config : Config :=
  {| HTTPAddr := ":8080"; RollupInterval := "5m"; BackfillPace := "10ms"; DefaultRetentionDays := 90;
     Locations := [{| loc_Name := "eu"; loc_Addr := "valkey:6379"; loc_TLS := true; loc_Username := "";
                      loc_Password := "x"; loc_DB := 0; loc_Primary := true |};
                   {| loc_Name := "us"; loc_Addr := "valkey-us:6379"; loc_TLS := true; loc_Username := "";
                      loc_Password := "x"; loc_DB := 0; loc_Primary := false |}] |}.

Lemma New_of_valid_witness :
  ∃ s l, New (λ _, None) sim_config = Ok s ∧ l ∈ Locations sim_config ∧ loc_Primary l = true ∧
    cl_name (primary s) = loc_Name l ∧ locations s !! loc_Name l = Some (primary s) ∧
    (∀ name, is_Some (locations s !! name) ↔ name ∈ (loc_Name <$> Locations sim_config)) ∧
    retentionDays s = DefaultRetentionDays sim_config.
Proof.
  apply (New_of_valid (λ _, None) (λ d, Ok (if decide (d = "5m") then 5 * Minute else 10 * 10 ^ 6))).
  - unfold valid. split_and!; [done| | |reflexivity|simpl; lia|eexists; split; [reflexivity|reflexivity]
      |eexists; split; [reflexivity|by vm_compute]].
    + repeat constructor; done.
    + apply (bool_decide_unpack _). by vm_compute.
  - repeat constructor.
Defined.
