(* ===== verification/Server.v ===== *)
(** * The dashboard's web server

    What the pages and the API show (dashboard/internal/server/server.go).
    The handlers run against the store; a result that cannot be read becomes
    the 503 answer of [unavailable].  What the answers do to the connection is
    in Handler, the compressing middleware in Middleware. *)

From S2P Require Import Prelude GoStd GoTime Errors Trace Keys Ladder Float64 Rollups Valkey Store.
From S2P Require Import Incidents Sla Latency.

(** ** Names, ranges and durations *)

Definition splitGroup (id : string) : string * string :=
  match cut "_" id with
  | None | Some ("", _) => ("", id)
  | Some (group, rest) =>
      if decide (rest = "") then ("", id)
      else if has_byte "_" rest then ("", id)
      else (group, rest)
  end.

Record rangeOption := { ro_Key : string; ro_Label : string; ro_Days : Z }.

#[export] Instance rangeOption_eq_dec : EqDecision rangeOption.
Proof. solve_decision. Defined.

Definition fixed_ranges : list rangeOption :=
  [{| ro_Key := "1d"; ro_Label := "24 hours"; ro_Days := 1 |};
   {| ro_Key := "7d"; ro_Label := "7 days"; ro_Days := 7 |};
   {| ro_Key := "30d"; ro_Label := "30 days"; ro_Days := 30 |}].

(** [None]: [opts[len(opts)-1]] is out of range. *)
Definition rangeOptions (retention : Z) : option (list rangeOption) :=
  let opts := filter (λ o, ro_Days o ≤ retention) fixed_ranges in
  last_ ← last opts;
  Some (if ro_Days last_ <? retention then
          opts ++ [{| ro_Key := FormatInt retention +:+ "d"; ro_Label := FormatInt retention +:+ " days";
                      ro_Days := retention |}]
        else opts).

Definition parseRange (retention : Z) (key : string) : option rangeOption :=
  opts ← rangeOptions retention;
  match List.find (λ o, bool_decide (ro_Key o = key)) opts with
  | Some o => Some o
  | None => head opts
  end.

(** [d.Seconds()] *)
Definition Seconds (d : duration) : float64 :=
  fadd (float_of_int (Z.quot d Second)) (fdiv (float_of_int (Z.rem d Second)) (float_of_int (10 ^ 9))).

Definition humanDuration (d : duration) : string :=
  if d <? Minute then FormatInt (int_of_float (Seconds d)) +:+ "s"
  else
    let d := Round d Minute in
    let h := Z.quot d Hour in
    let m := Z.quot (Z.rem d Hour) Minute in
    if h =? 0 then FormatInt m +:+ "m"
    else FormatInt h +:+ "h" +:+ FormatInt m +:+ "m".

(** ** Status and day bars *)

Definition latest_hour (since : Z) (latest : Z) (p : Z * AggregateRollup) : Z :=
  if (since <=? p.1) && (latest <? p.1) then p.1 else latest.

Definition currentStatus (hist : History_) (now : time) : string :=
  let since := Unix (Add now (- StatusMaxAge)) in
  let latestEpoch := foldl (latest_hour since) (-1) (map_to_list (Hours hist)) in
  if latestEpoch <? 0 then AggregateUnknown
  else match Hours hist !! latestEpoch with
       | Some r => agg_Status r
       | None => ""
       end.

Record dayBar := {
  db_Date : string; db_Status : string; db_Label : string; db_Uptime : string;
  db_Failed : Z; db_Total : Z; db_Color : string }.

Section bars.
(** [fmt.Sprintf("%.1f", f)]. *)
Variable format_1f : float64 → string.

(** The thresholds 100, 99.9, 99, 95 and 90. *)
Definition anchors : list float64 :=
  [float_of_int 100; fdec 999 1; float_of_int 99; float_of_int 95; float_of_int 90].

Fixpoint uptime_step (i : Z) (prev : float64) (rest : list float64) (up step : float64) : float64 :=
  match rest with
  | [] => step
  | a :: rest =>
      if fleb a up
      then fadd (float_of_int (i - 1)) (fdiv (fsub prev up) (fsub prev a))
      else uptime_step (i + 1) a rest up step
  end.

Definition uptimeColor (success total : Z) : string :=
  if total <=? success then "var(--operational)"
  else
    let up := fdiv (fmul (float_of_int 100) (float_of_int success)) (float_of_int total) in
    let step := uptime_step 1 (float_of_int 100) (tail anchors) up (float_of_int 4) in
    let two := float_of_int 2 in
    let '(from, to, mix) :=
      if fltb two step then ("degraded", "major_outage", fdiv (fsub step two) two)
      else ("operational", "degraded", fdiv step two) in
    "color-mix(in srgb, var(--" +:+ to +:+ ") " +:+ format_1f (fmul (float_of_int 100) mix) +:+
    "%, var(--" +:+ from +:+ "))".

Definition worst_of_day (from : Z) (byDay : gmap string string) (p : Z * AggregateRollup)
  : gmap string string :=
  if p.1 <? from then byDay
  else
    let day := FormatDate (of_Unix p.1) in
    <[day := WorstAggregate (default "" (byDay !! day)) (agg_Status p.2)]> byDay.

Definition bar_of (byDay : gmap string string) (counts : gmap string DayCount) (key : string) : dayBar :=
  let st := default "" (byDay !! key) in
  let c := default zero_DayCount (counts !! key) in
  let has := 0 <? dc_Total c in
  {| db_Date := key; db_Status := if decide (st = "") then AggregateUnknown else st; db_Label := key;
     db_Uptime := if has then FormatPercent (dc_Success c) (dc_Total c) else "";
     db_Failed := if has then wrap64 (dc_Total c - dc_Success c) else 0;
     db_Total := if has then dc_Total c else 0;
     db_Color := if has then uptimeColor (dc_Success c) (dc_Total c) else "" |}.

Definition bars_from (retention : Z) (now : time) : time :=
  Truncate (AddDays now (- (retention - 1))) (24 * Hour).

Definition bar_days (retention : Z) (now : time) : list string :=
  (λ d, FormatDate (AddDays (bars_from retention now) d)) <$> seqZ 0 retention.

Definition dailyBars (retention : Z) (hist : History_) (now : time) : list dayBar :=
  let from := Unix (bars_from retention now) in
  let byDay := foldl (worst_of_day from) ∅ (map_to_list (Hours hist)) in
  bar_of byDay (ByDay hist now) <$> bar_days retention now.

Definition sla (hist : History_) (days : Z) (now : time) : string :=
  let '(success, total) := Uptime hist days now in FormatPercent success total.

(** ** The overview page *)

Record serviceOverview := {
  so_ID : string; so_Display : string; so_Meta : Meta; so_Status : string; so_SLA : string;
  so_Daily : list dayBar }.

Record serviceGroup := { sg_Name : string; sg_Services : list serviceOverview }.

(** [groupIndex] and [groups]. *)
Record grouped := { gr_index : gmap string nat; gr_groups : list serviceGroup }.

Definition add_service (g : serviceGroup) (ov : serviceOverview) : serviceGroup :=
  {| sg_Name := sg_Name g; sg_Services := sg_Services g ++ [ov] |}.

Definition add_overview (gs : grouped) (group : string) (ov : serviceOverview) : grouped :=
  let gs :=
    match gr_index gs !! group with
    | Some _ => gs
    | None => {| gr_index := <[group := length (gr_groups gs)]> (gr_index gs);
                 gr_groups := gr_groups gs ++ [{| sg_Name := group; sg_Services := [] |}] |}
    end in
  let idx := default O (gr_index gs !! group) in
  {| gr_index := gr_index gs;
     gr_groups := alter (λ g, add_service g ov) idx (gr_groups gs) |}.

(** The answer of a handler: the data it renders, or 503. *)
Inductive response (A : Type) :=
| Render (data : A)
| Unavailable (err : error).
Arguments Render {A}. Arguments Unavailable {A}.

Definition or_zero (m : result error Meta) : Meta :=
  match m with Ok m => m | Err _ => zero_Meta end.

Definition display_name (sv : string) (meta : Meta) : string :=
  if decide (m_Name meta = "") then sv else m_Name meta.

Definition overview_of (retention : Z) (sv : string) (meta : Meta) (hist : History_) (now : time)
  : string * serviceOverview :=
  let '(group, display) := splitGroup (display_name sv meta) in
  (group, {| so_ID := sv; so_Display := display; so_Meta := meta;
             so_Status := currentStatus hist now; so_SLA := sla hist 30 now;
             so_Daily := dailyBars retention hist now |}).

Section handlers.
Context {W : Type} `{!Valkey W, !Codec AggregateRollup, !Codec DailyRollup}.
Variable s : Store.
Variable server_retention : Z.

Notation V := (M command W).

Fixpoint dashboard_services (d : string) (now : time) (services : list string) (gs : grouped)
  : V (response grouped) :=
  match services with
  | [] => mret (Render gs)
  | sv :: services =>
      h ← History s d sv now;
      match h with
      | Err e => mret (Unavailable (verror_error e))
      | Ok hist =>
          m ← GetMeta s d sv;
          let '(group, ov) := overview_of server_retention sv (or_zero m) hist now in
          dashboard_services d now services (add_overview gs group ov)
      end
  end.

Definition no_groups : grouped := {| gr_index := ∅; gr_groups := [] |}.

Definition handleDashboard (d : string) (now : time) : V (response (list serviceGroup)) :=
  r ← ListServices s d;
  match r with
  | Err e => mret (Unavailable e)
  | Ok services =>
      gs ← dashboard_services d now (sort_strings services) no_groups;
      mret match gs with Render gs => Render (gr_groups gs) | Unavailable e => Unavailable e end
  end.

(** ** The service page *)

Record windowView := {
  wv_Locations : string; wv_Message : string; wv_Start : string; wv_End : string;
  wv_Duration : string; wv_Count : Z; wv_Ongoing : bool }.

(** [t.Format("2006-01-02 15:04:05 UTC")] of a UTC time. *)
Definition FormatDateTime (t : time) : string :=
  let sec := (Unix t) `mod` 86400 in
  FormatDate t +:+ " " +:+ pad 2 (sec / 3600) +:+ ":" +:+ pad 2 (sec `mod` 3600 / 60) +:+ ":" +:+
  pad 2 (sec `mod` 60) +:+ " UTC".

Definition window_view (now : time) (w : FailureWindow) : windowView :=
  let start := of_Unix (fw_Start w) in
  let end_ := of_Unix (fw_End w) in
  {| wv_Locations := join ", " (fw_Locations w);
     wv_Message := if decide (fw_Message w = "") then "(no message)" else fw_Message w;
     wv_Start := FormatDateTime start;
     wv_End := if fw_Ongoing w then "ongoing" else FormatDateTime end_;
     wv_Duration := if fw_Ongoing w then humanDuration (Sub now start)
                    else let d := Sub end_ start in if 0 <? d then humanDuration d else "";
     wv_Count := fw_Count w; wv_Ongoing := fw_Ongoing w |}.

(** [None]: an index was out of range. *)
Definition failureWindows (d sv : string) (from to now : time) (live : bool)
  : V (result verror (option (list windowView))) :=
  r ← FailureWindows s d sv from to now live;
  mret match r with
       | Err e => Err e
       | Ok None => Ok None
       | Ok (Some raw) => Ok (Some (window_view now <$> raw))
       end.

(** The range of the issues list: the chosen rolling range, or a day. *)
Record issueRange := {
  ir_from : time; ir_to : time; ir_title : string; ir_day : string }.

Definition issue_range (rng : rangeOption) (day : string) (now : time) : issueRange :=
  match ParseDate day with
  | Some from =>
      {| ir_from := from; ir_to := Add from (24 * Hour - Second);
         ir_title := "Issues on " +:+ FormatDate from; ir_day := FormatDate from |}
  | None =>
      {| ir_from := Truncate (Add now (wrap64 (wrap64 (- ro_Days rng * 24) * Hour))) Hour; ir_to := now;
         ir_title := "Issues (last " +:+ ro_Label rng +:+ ")"; ir_day := "" |}
  end.

Record serviceData := {
  sd_Dashboard : string; sd_ServiceID : string; sd_Display : string; sd_Group : string;
  sd_Meta : Meta; sd_SLA7 : string; sd_SLA30 : string; sd_SLA365 : string;
  sd_SelectedDay : string; sd_Ranges : list rangeOption; sd_IssueRange : string;
  sd_WindowsTitle : string; sd_Windows : list windowView; sd_Daily : list dayBar }.

(** [None]: an index was out of range. *)
Definition handleService (d sv range day : string) (now : time)
  : V (option (response serviceData)) :=
  h ← History s d sv now;
  match h with
  | Err e => mret (Some (Unavailable (verror_error e)))
  | Ok hist =>
      m ← GetMeta s d sv;
      let meta := or_zero m in
      let '(group, display) := splitGroup (display_name sv meta) in
      match parseRange server_retention range, rangeOptions server_retention with
      | Some rng, Some ranges =>
          let ir := issue_range rng day now in
          let live := negb (Before (ir_to ir) (Truncate now Hour)) in
          r ← failureWindows d sv (ir_from ir) (ir_to ir) now live;
          mret match r with
               | Err e => Some (Unavailable (verror_error e))
               | Ok None => None
               | Ok (Some windows) =>
                   Some (Render
                     {| sd_Dashboard := d; sd_ServiceID := sv; sd_Display := display; sd_Group := group;
                        sd_Meta := meta; sd_SLA7 := sla hist 7 now; sd_SLA30 := sla hist 30 now;
                        sd_SLA365 := sla hist 365 now; sd_SelectedDay := ir_day ir;
                        sd_Ranges := ranges; sd_IssueRange := ro_Key rng;
                        sd_WindowsTitle := ir_title ir; sd_Windows := windows;
                        sd_Daily := dailyBars server_retention hist now |})
               end
      | _, _ => mret None
      end
  end.

(** ** The API *)

Definition maxPlotPoints : Z := 1440.

Definition handleAPIDashboards : V (response (list string)) :=
  r ← ListDashboards s;
  mret match r with Ok l => Render l | Err e => Unavailable e end.

Fixpoint overview_items (d : string) (now : time) (services : list string)
    (out : list (string * Meta * list dayBar)) : V (response (list (string * Meta * list dayBar))) :=
  match services with
  | [] => mret (Render out)
  | sv :: services =>
      h ← History s d sv now;
      match h with
      | Err e => mret (Unavailable (verror_error e))
      | Ok hist =>
          m ← GetMeta s d sv;
          overview_items d now services
            (out ++ [(sv, or_zero m, dailyBars server_retention hist now)])
      end
  end.

Definition handleAPIOverview (d : string) (now : time)
  : V (response (list (string * Meta * list dayBar))) :=
  r ← ListServices s d;
  match r with
  | Err e => mret (Unavailable e)
  | Ok services => overview_items d now services []
  end.

Record serviceAnswer := {
  sa_service : string; sa_meta : Meta; sa_rollups : gmap Z AggregateRollup; sa_daily : list dayBar }.

Definition handleAPIService (d sv : string) (now : time) : V (response serviceAnswer) :=
  h ← History s d sv now;
  match h with
  | Err e => mret (Unavailable (verror_error e))
  | Ok hist =>
      m ← GetMeta s d sv;
      mret (Render {| sa_service := sv; sa_meta := or_zero m; sa_rollups := Hours hist;
                      sa_daily := dailyBars server_retention hist now |})
  end.

(** [None]: an index was out of range. *)
Definition handleAPILatency (d sv range : string) (now : time) : V (option (response Latency_)) :=
  match parseRange server_retention range with
  | None => mret None
  | Some rng =>
      let maxPoints := if ro_Days rng <=? 1 then 0 else maxPlotPoints in
      r ← Latency s d sv (Add now (wrap64 (wrap64 (- ro_Days rng * 24) * Hour))) now maxPoints;
      mret (Some match r with Ok lat => Render lat | Err e => Unavailable (verror_error e) end)
  end.
End handlers.
End bars.
