(* ===== verification/ServerProps.v ===== *)
(** * Properties of the web server *)

From S2P Require Import Prelude GoStd GoTime Errors Trace Keys Ladder Float64 Rollups Valkey Store.
From S2P Require Import StoreProps Incidents Sla Latency Server.

(** ** Names and ranges *)

Lemma cut_Some c s a b : cut c s = Some (a, b) ↔ s = a +:+ String c b ∧ has_byte c a = false.
Proof.
  split.
  - revert a. induction s as [|d s IH]; intros a; simpl; [done|]. case_decide as E.
    + subst d. intros [= <- <-]. done.
    + destruct (cut c s) as [[a' b']|]; [|done]. intros [= <- <-].
      destruct (IH a' eq_refl) as [-> Hb]. simpl. by rewrite decide_False.
  - intros [-> H]. by apply cut_app.
Qed.

(** grouping never changes a name: a name is split exactly when it is two
    nonempty parts without an underscore, joined by one underscore, and is
    then those two parts; any other name is ungrouped and shown as it is. *)
Theorem splitGroup_spec (id : string) :
  let '(group, display) := splitGroup id in
  (group = "" ∧ display = id ∨ group ≠ "" ∧ id = group +:+ "_" +:+ display) ∧
  (group ≠ "" ↔ ∃ g d, g ≠ "" ∧ d ≠ "" ∧ has_byte "_" g = false ∧ has_byte "_" d = false ∧
                       id = g +:+ "_" +:+ d).
Proof.
  unfold splitGroup. destruct (cut "_" id) as [[g d]|] eqn:E.
  - apply cut_Some in E as [-> Hg].
    assert (∀ g' d', has_byte "_" g' = false →
      g +:+ String "_" d = g' +:+ "_" +:+ d' → g = g' ∧ d = d') as Hinj.
    { intros g' d' Hg' H. change ("_" +:+ d') with (String "_" d') in H.
      assert (cut "_" (g +:+ String "_" d) = cut "_" (g' +:+ String "_" d')) as Hc by by rewrite H.
      rewrite !cut_app in Hc by done. by simplify_eq. }
    destruct g as [|c g]; [split; [by left|]|].
    { split; [done|]. intros (g' & d' & Hg' & _ & Hb & _ & H).
      by destruct (Hinj g' d' Hb H) as [<- _]. }
    case_decide as Hd.
    { split; [by left|]. split; [done|]. intros (g' & d' & _ & Hd' & Hb & _ & H).
      destruct (Hinj g' d' Hb H) as [_ <-]. done. }
    destruct (has_byte "_" d) eqn:Hb.
    { split; [by left|]. split; [done|]. intros (g' & d' & _ & _ & Hb' & Hd' & H).
      destruct (Hinj g' d' Hb' H) as [_ <-]. congruence. }
    split; [right; split; [done|done]|]. split; [|done]. intros _. by exists (String c g), d.
  - apply cut_none in E. split; [by left|]. split; [done|].
    intros (g & d & _ & _ & _ & _ & ->). rewrite has_byte_app in E. simpl in E.
    by rewrite orb_true_r in E.
Qed.

(** the ranges on offer never reach past the retention: with a retention
    of at least a day, the ranges are never an out-of-range index, every one
    of them spans between a day and the retention, one spans the whole
    retention or the last fixed range equals it, and every key in a request
    selects one of them. *)
Theorem parseRange_within_retention (retention : Z) (key : string) :
  if 1 <=? retention then
    ∃ opts o, rangeOptions retention = Some opts ∧ parseRange retention key = Some o ∧ o ∈ opts ∧
      Forall (λ o, 1 ≤ ro_Days o ≤ retention) opts ∧ ro_Days <$> last opts = Some retention
  else rangeOptions retention = None.
Proof.
  assert (∀ opts, opts ≠ [] → Forall (λ o, 1 ≤ ro_Days o ≤ retention) opts →
    ro_Days <$> last opts = Some retention → rangeOptions retention = Some opts →
    ∃ opts o, rangeOptions retention = Some opts ∧ parseRange retention key = Some o ∧ o ∈ opts ∧
      Forall (λ o, 1 ≤ ro_Days o ≤ retention) opts ∧ ro_Days <$> last opts = Some retention) as Hgo.
  { intros opts Hne HF Hl Ho. unfold parseRange. rewrite Ho. simpl.
    destruct (List.find _ opts) as [o|] eqn:Ef.
    - apply find_some in Ef as [Hin _]. exists opts, o. split_and!; try done. by apply list_elem_of_In.
    - destruct opts as [|o opts]; [done|]. exists (o :: opts), o. split_and!; try done. by left. }
  unfold rangeOptions, fixed_ranges in *. rewrite !filter_cons, !filter_nil in *. cbn [ro_Days] in *.
  destruct (1 <=? retention) eqn:E1; zb.
  - rewrite (decide_True (P := 1 ≤ retention)) in * by done.
    repeat case_decide; try lia; cbn [last mbind option_bind ro_Days] in *;
      case_match eqn:E; zb; eapply Hgo; try reflexivity; try done;
      rewrite ?E; try done; cbn [app];
      try (repeat constructor; cbn [ro_Days]; lia);
      simpl; f_equal; lia.
  - repeat case_decide; try lia. done.
Qed.

(** a duration of at least a minute reads as its nearest whole number of
    minutes, split into hours and minutes below sixty. *)
Theorem humanDuration_minutes (d : duration) :
  Minute ≤ d →
  ∃ h m, 0 ≤ h ∧ 0 ≤ m < 60 ∧
    humanDuration d = (if h =? 0 then "" else FormatInt h +:+ "h") +:+ FormatInt m +:+ "m" ∧
    2 * Z.abs ((h * 60 + m) * Minute - d) ≤ Minute.
Proof.
  intros Hd. unfold humanDuration. rewrite (proj2 (Z.ltb_ge _ _)) by done.
  assert (0 < Minute) as Hm by (unfold Minute, Second; lia).
  unfold Round. rewrite (proj2 (Z.leb_gt _ _)), (proj2 (Z.ltb_ge _ _)) by lia.
  set (n := (d + Minute / 2) / Minute).
  assert (0 ≤ n) as Hn by (apply Z.div_pos; [pose proof (Z.div_pos Minute 2); lia|done]).
  assert (2 * Z.abs (n * Minute - d) ≤ Minute) as Hnear.
  { subst n. unfold Minute, Second in *. Z.div_mod_to_equations. lia. }
  assert (Z.quot (n * Minute) Hour = n / 60) as Hh.
  { unfold Hour. rewrite Z.quot_div_nonneg by lia. by rewrite Z.div_mul_cancel_r by lia. }
  assert (Z.quot (Z.rem (n * Minute) Hour) Minute = n `mod` 60) as Hmm.
  { unfold Hour. rewrite Z.rem_mod_nonneg by lia. rewrite Z.mul_mod_distr_r by lia.
    rewrite Z.quot_mul by lia. done. }
  rewrite Hh, Hmm. exists (n / 60), (n `mod` 60).
  pose proof (Z.div_pos n 60 Hn ltac:(lia)). pose proof (Z.mod_pos_bound n 60 ltac:(lia)).
  split_and!; [done|lia|lia| |].
  - destruct (n / 60 =? 0); [done|]. by rewrite sapp_assoc.
  - replace (n / 60 * 60 + n `mod` 60) with n; [done|].
    pose proof (Z.div_mod n 60 ltac:(lia)). lia.
Qed.

Lemma humanDuration_minutes_witness :
  ∃ h m, 0 ≤ h ∧ 0 ≤ m < 60 ∧
    humanDuration (150 * Minute) = (if h =? 0 then "" else FormatInt h +:+ "h") +:+ FormatInt m +:+ "m" ∧
    2 * Z.abs ((h * 60 + m) * Minute - 150 * Minute) ≤ Minute.
Proof. apply (humanDuration_minutes (150 * Minute)). unfold Minute, Second. lia. Defined.

(** ** Status *)

Lemma foldl_latest since l latest :
  let r := foldl (latest_hour since) latest l in
  latest ≤ r ∧ (r = latest ∨ since ≤ r ∧ r ∈ l.*1) ∧ Forall (λ p, since ≤ p.1 → p.1 ≤ r) l.
Proof.
  revert latest. induction l as [|p l IH]; intros latest; cbn [foldl].
  { split_and!; [lia|by left|constructor]. }
  specialize (IH (latest_hour since latest p)). cbv zeta in *. destruct IH as (H1 & H2 & H3).
  rewrite fmap_cons. unfold latest_hour in *.
  destruct ((since <=? p.1) && (latest <? p.1)) eqn:E; zb.
  - split_and!; [lia| |by constructor].
    right. destruct H2 as [->|[? ?]]; (split; [lia|]); [by left|by right].
  - split_and!; [done| |].
    + destruct H2 as [?|[? ?]]; [by left|right; split; [done|by right]].
    + constructor; [|done]. intros Hp. apply andb_false_iff in E as [E|E]; zb; lia.
Qed.

(** the current status is that of the service's most recent hour, if it
    began in the last six hours, and unknown when there is none. *)
Theorem currentStatus_is_latest (hist : History_) (now : time) :
  let since := Unix (Add now (- StatusMaxAge)) in
  0 ≤ since →
  (∃ h r, Hours hist !! h = Some r ∧ since ≤ h ∧ currentStatus hist now = agg_Status r ∧
     map_Forall (λ h' _, h' ≤ h) (Hours hist)) ∨
  (currentStatus hist now = AggregateUnknown ∧ map_Forall (λ h _, h < since) (Hours hist)).
Proof.
  intros since Hs. unfold currentStatus. fold since.
  destruct (foldl_latest since (map_to_list (Hours hist)) (-1)) as (H1 & H2 & H3).
  set (r := foldl _ _ _) in *.
  assert (map_Forall (λ h _, since ≤ h → h ≤ r) (Hours hist)) as H3'.
  { intros h x Hx. rewrite Forall_forall in H3.
    apply (H3 (h, x)). by apply elem_of_map_to_list. }
  destruct H2 as [E|[Hr Hin]].
  - rewrite E. simpl. right. split; [done|]. intros h x Hx. specialize (H3' h x Hx). simpl in *. lia.
  - rewrite (proj2 (Z.ltb_ge _ _)) by lia. left.
    apply list_elem_of_fmap in Hin as ([h x] & Hh & Hx%elem_of_map_to_list). simpl in Hh. subst h.
    exists r, x. rewrite Hx. split_and!; [done|done|done|].
    intros h' x' Hx'. specialize (H3' h' x' Hx'). simpl in *. lia.
Qed.

Lemma currentStatus_is_latest_witness :
  let hist := {| Hours := {[3600 * 24 := aggregate ∅]}; Days := ∅ |} in
  let now := of_Unix (3600 * 25) in
  (∃ h r, Hours hist !! h = Some r ∧ 3600 * 19 ≤ h ∧ currentStatus hist now = agg_Status r ∧
     map_Forall (λ h' _, h' ≤ h) (Hours hist)) ∨
  (currentStatus hist now = AggregateUnknown ∧ map_Forall (λ h _, h < 3600 * 19) (Hours hist)).
Proof.
  apply (currentStatus_is_latest {| Hours := {[3600 * 24 := aggregate ∅]}; Days := ∅ |}
           (of_Unix (3600 * 25))).
  vm_compute. discriminate.
Defined.
