(* ===== verification/Handler.v ===== *)
(** * Requests to the dashboard (dashboard/internal/server/server.go)

    The whole of [Handler]: routing, static assets, the answers of the pages
    and the API as what they do to the writer, and the functions the templates
    call.  The templates themselves, JSON and the compressors are interfaces.
    Proved: every answer the server gives reaches the client through the
    compressing middleware unchanged, as it is or as a stream the reader of the
    package that wrote it reads back, and static assets arrive byte for byte. *)

From S2P Require Import Prelude GoStd GoTime Errors Trace Ladder Float64 Rollups Valkey Store Incidents Sla Latency.
From S2P Require Import IncidentProps Server ServerProps Middleware.

(** ** Paths *)

(** [path.Clean]: the segments kept, last first. *)
Definition clean_step (rooted : bool) (out : list string) (seg : string) : list string :=
  if decide (seg = "" ∨ seg = ".") then out
  else if decide (seg = "..") then
    match out with
    | last :: out' => if decide (last = "..") then ".." :: out else out'
    | [] => if rooted then [] else [".."]
    end
  else seg :: out.

Definition path_Clean (p : string) : string :=
  if decide (p = "") then "."
  else
    let rooted := has_prefix "/" p in
    let body := join "/" (rev (foldl (clean_step rooted) [] (split "/" p))) in
    if rooted then "/" +:+ body else if decide (body = "") then "." else body.

Example path_Clean_samples :
  path_Clean <$> [""; "a/c"; "a//c"; "a/c/."; "a/c/b/.."; "/../a/c"; "/../a/b/../././/c"; "../../a"; "a/../.."; "/"] =
  ["."; "a/c"; "a/c"; "a/c"; "a/c"; "/a/c"; "/a/c"; "../../a"; ".."; "/"].
Proof. vm_compute. reflexivity. Qed.

(** [path.Ext] *)
Definition path_Ext (name : string) : string :=
  match cut_last "." name with
  | Some (_, ext) => if has_byte "/" ext then "" else "." +:+ ext
  | None => ""
  end.

(** [cleanPath] of net/http. *)
Definition cleanPath (p : string) : string :=
  if decide (p = "") then "/"
  else
    let p := if has_prefix "/" p then p else "/" +:+ p in
    let np := path_Clean p in
    if has_suffix "/" p && negb (bool_decide (np = "/")) then np +:+ "/" else np.

(** ** Answers every handler can give *)

(** [http.Error] *)
Definition http_Error (text : string) (code : Z) : list wop :=
  [HDel "Content-Length"; HSet "Content-Type" "text/plain; charset=utf-8";
   HSet "X-Content-Type-Options" "nosniff"; HWriteHeader code; HWrite (text +:+ String LF "")].

Definition NotFound : list wop := http_Error "404 page not found" 404.

Definition unavailable : list wop := http_Error "status data is unavailable" 503.

(** [writeJSON]: the encoder ends the text with a line feed. *)
Definition writeJSON (text : string) : list wop :=
  [HSet "Content-Type" "application/json"; HWrite (text +:+ String LF "")].

(** [render]: what the template writes until it ends or fails. *)
Definition render (out : list string * option error) : list wop :=
  HSet "Content-Type" "text/html; charset=utf-8" ::
  (HWrite <$> out.1) ++ match out.2 with Some e => http_Error (error_text e) 500 | None => [] end.

(** ** Static assets *)

Record staticAsset := { content : string; gzipped : string; contentType : string }.

Section assets.
Context `{EN : !Encodings}.
(** [mime.TypeByExtension], and the checksum in hexadecimal. *)
Variable TypeByExtension : string → string.
Variable crc32_hex : string → string.

Definition asset_of (name body : string) : staticAsset :=
  let mime := TypeByExtension (path_Ext name) in
  {| content := body; gzipped := gzip_Writer [Data body];
     contentType := if decide (mime = "") then DetectContentType body else mime |}.

(** The files of the walk, each with what reading it gives. *)
Fixpoint loadStaticAssets (files : list (string * result error string)) : result error (gmap string staticAsset) :=
  match files with
  | [] => Ok ∅
  | (name, body) :: files =>
      match body with
      | Err e => Err e
      | Ok body =>
          rest ← loadStaticAssets files;
          Ok (<[name := asset_of name body]> rest)
      end
  end.

Definition asset_hashes (assets : gmap string staticAsset) : gmap string string := (λ a, crc32_hex (content a)) <$> assets.

Definition assetURL (name : string) (hashes : gmap string string) : string :=
  match hashes !! name with
  | Some hash => "/static/" +:+ name +:+ "?v=" +:+ hash
  | None => "/static/" +:+ name
  end.

(** The name a path asks for, unless it leads out of the assets. *)
Definition asset_name (path : string) : option string :=
  let clean := trim_prefix "/" (path_Clean (trim_prefix "/static/" path)) in
  if bool_decide (clean = "." ∨ clean = "") || has_prefix "../" clean || contains ".." clean then None else Some clean.

Definition send_asset (asset : staticAsset) (method accept : string) : list wop :=
  let zip := isCompressible (contentType asset) && contains "gzip" accept in
  let selected := if zip then gzipped asset else content asset in
  [HSet "Content-Type" (contentType asset); HSet "Content-Length" (FormatInt (slen selected))] ++
  (if zip then [HSet "Content-Encoding" "gzip"; HAdd "Vary" "Accept-Encoding"] else []) ++
  (if decide (method = "HEAD") then [HWriteHeader 200] else [HWrite selected]).

Definition staticHandler (assets : gmap string staticAsset) (method path accept : string) : list wop :=
  match asset_name path ≫= (assets !!.) with
  | None => NotFound
  | Some asset => send_asset asset method accept
  end.
End assets.

(** ** Routing *)

Inductive page :=
| PageDashboard (dash : string)
| PageService (dash name : string)
| APIDashboards
| APIOverview (dash : string)
| APIService (dash name : string)
| APILatency (dash name : string).

Inductive routed := ToPage (p : page) | ToStatic | ToRedirect (path : string) | NoMethod | NoRoute | NoPath.

Definition pageMux (segs : list string) : option page :=
  match segs with
  | [d] => if decide (d = "") then None else Some (PageDashboard d)
  | [d; n] => if decide (d = "" ∨ n = "") then None else Some (PageService d n)
  | _ => None
  end.

Definition apiMux (segs : list string) : option page :=
  match segs with
  | ["dashboards"] => Some APIDashboards
  | ["dashboard"; d; n] =>
      if decide (d = "" ∨ n = "") then None
      else if decide (n = "overview") then Some (APIOverview d) else Some (APIService d n)
  | ["dashboard"; d; n; "latency"] => if decide (d = "" ∨ n = "") then None else Some (APILatency d n)
  | _ => None
  end.

(** [ServeMux], for paths without percent escapes: all patterns are for GET,
    which includes HEAD; a CONNECT request is not redirected, and the request
    [*] has no path to match. *)
Definition serve_mux (mux : list string → option page) (method path : string) : routed :=
  let clean := cleanPath path in
  if decide (path = "*") then NoPath
  else if decide (method ≠ "CONNECT" ∧ clean ≠ path) then ToRedirect clean
  else
    match mux (split "/" (trim_prefix "/" path)) with
    | Some p => if decide (method = "GET" ∨ method = "HEAD") then ToPage p else NoMethod
    | None => NoRoute
    end.

Definition route (method path : string) : routed :=
  if has_prefix "/static/" path then ToStatic
  else if has_prefix "/api/" path then serve_mux apiMux method (trim_prefix "/api" path)
  else serve_mux pageMux method path.

Example routes :
  route "GET" <$> ["/prod"; "/prod/api"; "/api/dashboards"; "/api/dashboard/prod/overview"; "/api/dashboard/prod/x/latency";
                   "/static/service.js"; "/"; "/prod/"; "/prod//api"] =
  [ToPage (PageDashboard "prod"); ToPage (PageService "prod" "api"); ToPage APIDashboards; ToPage (APIOverview "prod");
   ToPage (APILatency "prod" "x"); ToStatic; NoRoute; NoRoute; ToRedirect "/prod/api"].
Proof. vm_compute. reflexivity. Qed.

(** The inner mux redirects to the path it was given, which lacks [/api]. *)
Example api_redirect_loses_prefix : route "GET" "/api//dashboards" = ToRedirect "/dashboards".
Proof. vm_compute. reflexivity. Qed.

Example uncleaned_routes :
  (route "CONNECT" <$> ["/prod//api"; "/prod"; ""], route "GET" <$> ["*"; ""]) =
  ([NoRoute; NoMethod; NoRoute], [NoPath; ToRedirect "/"]).
Proof. vm_compute. reflexivity. Qed.

(** ** What the templates call *)

(** [html.EscapeString]. *)
Fixpoint EscapeString (s : string) : string :=
  match s with
  | "" => ""
  | String c s =>
      (if decide (c = "&"%char) then "&amp;"
       else if decide (c = "'"%char) then "&#39;"
       else if decide (c = "<"%char) then "&lt;"
       else if decide (c = ">"%char) then "&gt;"
       else if decide (c = "034"%char) then "&#34;"
       else String c "") +:+ EscapeString s
  end.

Definition dq : string := String "034" "".

Section templates.
(** [strconv.ParseFloat(s, 64)]. *)
Variable ParseFloat : string → option float64.

Definition sla_class (num : string) : string :=
  match ParseFloat num with
  | Some n => if fleb (fdec 999 1) n then "sla-good" else if fleb (fdec 995 1) n then "sla-warning" else "sla-danger"
  | None => "sla-good"
  end.

Definition formatSLA (s : string) : string :=
  if decide (s = "") then "&mdash;"
  else if has_suffix "%" s then
    let num := trim_suffix "%" s in
    "<span class=" +:+ dq +:+ sla_class num +:+ dq +:+ "><span class=" +:+ dq +:+ "sla-num" +:+ dq +:+ ">" +:+
    EscapeString num +:+ "</span><span class=" +:+ dq +:+ "sla-percent" +:+ dq +:+ ">%</span></span>"
  else EscapeString s.

Definition formatStatus (s : string) : string := replace_byte "_" " " s.

Definition barClass (now : time) (status date : string) : string :=
  let base := "bar-" +:+ status in
  if decide (status = "" ∨ status = "unknown") then base
  else
    match ParseDate date with
    | Some parsed => if Before parsed (AddDays now (-30)) then base +:+ " bar-old" else base
    | None => base
    end.
End templates.

Lemma EscapeString_app s1 s2 : EscapeString (s1 +:+ s2) = EscapeString s1 +:+ EscapeString s2.
Proof. induction s1 as [|c s1 IH]; [done|]. cbn [EscapeString String.append]. by rewrite IH, sapp_assoc. Qed.

(** Escaped text has no markup. *)
Lemma EscapeString_plain s c : c ∈ ["<"; ">"; "'"; "034"]%char → has_byte c (EscapeString s) = false.
Proof.
  intros Hc. induction s as [|d s IH]; [done|]. cbn [EscapeString]. rewrite has_byte_app, IH, orb_false_r.
  repeat (apply elem_of_cons in Hc as [->|Hc]; [repeat case_decide; try done; simpl; by rewrite decide_False by congruence|]).
  by apply elem_of_nil in Hc.
Qed.

(** ** The whole server *)

(** encoding/json and html/template for what the handlers answer with. *)
Class Renderers := {
  json_dashboards : list string → string;
  json_overview : list (string * Meta * list dayBar) → string;
  json_service : serviceAnswer → string;
  json_latency : Latency_ → string;
  page_dashboard : string → list serviceGroup → list string * option error;
  page_service : serviceData → list string * option error }.

(** A request: [hr_Query] is [URL.Query().Get], [hr_HTTP11] whether the protocol
    is at least HTTP/1.1. *)
Record http_request := {
  hr_Method : string; hr_Path : string; hr_RawQuery : string; hr_Query : string → string;
  hr_Header : string → string; hr_HTTP11 : bool }.

(** [hexEscapeNonASCII] of net/http. *)
Definition hex_digit (n : nat) : ascii := default "0"%char (String.get n "0123456789abcdef").

Fixpoint hexEscapeNonASCII (s : string) : string :=
  match s with
  | "" => ""
  | String c s =>
      let n := nat_of_ascii c in
      (if (n <? 128)%nat then String c "" else String "%" (String (hex_digit (n / 16)) (String (hex_digit (n mod 16)) "")))
      +:+ hexEscapeNonASCII s
  end.

Section serve.
Context {W : Type} `{VA : !Valkey W, CA : !Codec AggregateRollup, CD : !Codec DailyRollup, EN : !Encodings, RE : !Renderers}.
Variable format_1f : float64 → string.
Variable s : Store.
Variable retention : Z.
Variable assets : gmap string staticAsset.
(** The status a redirect of [ServeMux] has, which changed between releases. *)
Variable moved : bool.

Notation V := (M command W).

(** A handler's answer on the writer. *)
Definition respond {A} (f : A → list wop) (r : response A) : list wop :=
  match r with Render _ a => f a | Unavailable _ _ => unavailable end.

Definition opt_respond {A} (f : A → list wop) (r : option (response A)) : option (list wop) := respond f <$> r.

(** [None]: a panic. *)
Definition answer_page (p : page) (query : string → string) (now : time) : V (option (list wop)) :=
  match p with
  | PageDashboard d =>
      r ← handleDashboard format_1f s retention d now;
      mret (Some (respond (λ groups, render (page_dashboard d groups)) r))
  | PageService d n =>
      r ← handleService format_1f s retention d n (query "range") (query "day") now;
      mret (opt_respond (λ data, render (page_service data)) r)
  | APIDashboards => r ← handleAPIDashboards s; mret (Some (respond (λ l, writeJSON (json_dashboards l)) r))
  | APIOverview d =>
      r ← handleAPIOverview format_1f s retention d now;
      mret (Some (respond (λ l, writeJSON (json_overview l)) r))
  | APIService d n =>
      r ← handleAPIService format_1f s retention d n now;
      mret (Some (respond (λ a, writeJSON (json_service a)) r))
  | APILatency d n =>
      r ← handleAPILatency s retention d n (query "range") now;
      mret (opt_respond (λ l, writeJSON (json_latency l)) r)
  end.

(** [http.Redirect] of the mux: the query goes along. *)
Definition redirect (method path query : string) : list wop :=
  let url := if decide (query = "") then path else path +:+ "?" +:+ query in
  let '(code, text) := if moved then (301, "Moved Permanently") else (307, "Temporary Redirect") in
  [HSet "Location" (hexEscapeNonASCII url)] ++
  (if decide (method = "GET" ∨ method = "HEAD") then [HSet "Content-Type" "text/html; charset=utf-8"] else []) ++
  [HWriteHeader code] ++
  (if decide (method = "GET")
   then [HWrite ("<a href=" +:+ dq +:+ EscapeString url +:+ dq +:+ ">" +:+ text +:+ "</a>." +:+ String LF (String LF ""))]
   else []).

Definition handle (rq : http_request) (now : time) : V (option (list wop)) :=
  match route (hr_Method rq) (hr_Path rq) with
  | ToStatic => mret (Some (staticHandler assets (hr_Method rq) (hr_Path rq) (hr_Header rq "Accept-Encoding")))
  | ToPage p => answer_page p (hr_Query rq) now
  | ToRedirect path => mret (Some (redirect (hr_Method rq) path (hr_RawQuery rq)))
  | NoMethod => mret (Some (HSet "Allow" "GET, HEAD" :: http_Error "Method Not Allowed" 405))
  | NoRoute => mret (Some NotFound)
  | NoPath => mret (Some ((if hr_HTTP11 rq then [HSet "Connection" "close"] else []) ++ [HWriteHeader 400]))
  end.

(** [Handler()]: NoCache around Compress around the routes. *)
Definition Handler (rq : http_request) (now : time) : V (option recorder) :=
  ops ← handle rq now;
  mret ((λ ops, Compress (hr_Header rq "Connection") (hr_Header rq "Accept-Encoding") ops
                  (fresh (bool_decide (hr_Method rq = "HEAD")) (NoCache (hr_Path rq)))) <$> ops).

(** ** With a retention of at least a day no page panics *)

Lemma answer_page_total p query now :
  1 ≤ retention → spec (W:=W) (answer_page p query now) (λ r _, r ≠ None).
Proof.
  intros Hr. unfold answer_page.
  destruct p; try (eapply (spec_bind _ _ (λ _ _, True)); [by intros w|]; intros r t _; by apply spec_ret).
  - eapply (spec_bind _ _ (λ r _, r ≠ None)); [|intros [r|] t H; [by apply spec_ret|done]].
    unfold handleService. eapply (spec_bind _ _ (λ _ _, True)); [by intros w|].
    intros [hist|e] t _; [|by apply spec_ret].
    eapply (spec_bind _ _ (λ _ _, True)); [by intros w|]. intros m t' _.
    destruct (splitGroup _) as [group display].
    pose proof (parseRange_within_retention retention (query "range")) as Hp.
    rewrite (proj2 (Z.leb_le _ _) Hr) in Hp. destruct Hp as (opts & o & -> & -> & _).
    eapply (spec_bind _ _ (λ r _, r ≠ Ok None)); [|intros [[l|]|e] t'' H; [|done|]; by apply spec_ret].
    unfold failureWindows. eapply spec_bind; [apply FailureWindows_total|].
    intros [[l|]|e] t'' H; [|done|]; by apply spec_ret.
  - eapply (spec_bind _ _ (λ r _, r ≠ None)); [|intros [r|] t H; [by apply spec_ret|done]].
    unfold handleAPILatency. pose proof (parseRange_within_retention retention (query "range")) as Hp.
    rewrite (proj2 (Z.leb_le _ _) Hr) in Hp. destruct Hp as (opts & o & _ & -> & _).
    eapply (spec_bind _ _ (λ _ _, True)); [by intros w|]. intros r t _. by apply spec_ret.
Qed.

Lemma Handler_total rq now :
  1 ≤ retention → spec (W:=W) (Handler rq now) (λ r _, r ≠ None).
Proof.
  intros Hr. unfold Handler. eapply (spec_bind _ _ (λ r _, r ≠ None)).
  - unfold handle. destruct (route _ _); try by apply spec_ret. by apply answer_page_total.
  - intros [ops|] t H; [by apply spec_ret|done].
Qed.

(** ** No handler flushes early or sends an informational status *)

Definition orderly (ops : list wop) : Prop :=
  Forall (λ o, match o with HFlush => False | HWriteHeader code => 200 ≤ code | _ => True end) ops.

Lemma orderly_final ops : orderly ops → final_codes ops ∧ no_early_flush ops.
Proof.
  intros H. split.
  - eapply Forall_impl; [exact H|]. by intros [].
  - induction H as [|[] ops Ho _ IH]; done.
Qed.

Lemma http_Error_orderly text code : 200 ≤ code → orderly (http_Error text code).
Proof. by repeat constructor. Qed.

Lemma render_orderly out : orderly (render out).
Proof.
  unfold render. constructor; [done|]. apply Forall_app. split.
  - apply Forall_fmap, Forall_true. done.
  - destruct out.2; [by apply http_Error_orderly|constructor].
Qed.

Lemma writeJSON_orderly text : orderly (writeJSON text).
Proof. by repeat constructor. Qed.

Lemma respond_orderly {A} (f : A → list wop) r : (∀ a, orderly (f a)) → orderly (respond f r).
Proof. intros Hf. destruct r; [apply Hf|by apply http_Error_orderly]. Qed.

Lemma staticHandler_orderly method path accept : orderly (staticHandler assets method path accept).
Proof.
  unfold staticHandler. destruct (asset_name path ≫= _) as [a|]; [|by apply http_Error_orderly].
  unfold send_asset. repeat (apply Forall_cons; split; [done|]). apply Forall_app. split.
  - destruct (_ && _); by repeat constructor.
  - case_decide; by repeat constructor.
Qed.

Lemma handle_orderly rq now : spec (W:=W) (handle rq now) (λ r _, match r with Some ops => orderly ops | None => True end).
Proof.
  unfold handle. destruct (route _ _) as [p| |path| | |].
  - unfold answer_page. destruct p; (eapply (spec_bind _ _ (λ _ _, True)); [by intros w|]; intros r t _; apply spec_ret);
      unfold opt_respond; try destruct r as [r|]; cbn [fmap option_fmap option_map]; try done; apply respond_orderly;
      intros; first [apply render_orderly|apply writeJSON_orderly].
  - apply spec_ret, staticHandler_orderly.
  - apply spec_ret. unfold redirect. destruct moved; repeat case_decide; by repeat constructor.
  - apply spec_ret. constructor; [done|]. by apply http_Error_orderly.
  - apply spec_ret. by apply http_Error_orderly.
  - apply spec_ret. destruct (hr_HTTP11 rq); by repeat constructor.
Qed.

(** C23: whatever a client asks the dashboard for and whatever the store
    answers, the client is sent what the handler of its request wrote: the
    same status and the same bytes, as they are or as a compressed stream
    under a Content-Encoding that Accept-Encoding names: a gzip stream as gzip,
    a raw DEFLATE stream as deflate (not the zlib stream HTTP means by it), each
    read back by the reader of its package. *)
Theorem Handler_transparent (rq : http_request) (now : time) (w : W) :
  readers_invert →
  match (handle rq now w).1.1, (Handler rq now w).1.1 with
  | Some ops, Some c =>
      ∃ enc, (enc ≠ "" → contains enc (hr_Header rq "Accept-Encoding") = true) ∧
        transparent enc (foldl rc_op (fresh (bool_decide (hr_Method rq = "HEAD")) (NoCache (hr_Path rq))) ops) c
  | None, None => True
  | _, _ => False
  end.
Proof.
  intros Hd. pose proof (handle_orderly rq now w) as Ho. unfold Handler, mbind, M_bind.
  destruct (handle rq now w) as [[[ops|] w1] t]; cbn [fst] in *; [|done].
  destruct (orderly_final ops Ho) as [H1 H2]. by apply Compress_relates.
Qed.
End serve.

(** ** Static assets arrive *)

Section static.
Context `{EN : !Encodings}.
Variable TypeByExtension : string → string.

(** What a client makes of an answer: its body, decoded. *)
Definition client_body (h : header) (body : string) : option string :=
  let e := header_Get h "Content-Encoding" in
  if decide (e = "") then Some body else decode e body.

Lemma send_asset_plain a accept (h0 : header) :
  h0 !! "Content-Encoding" = None →
  let zip := isCompressible (contentType a) && contains "gzip" accept in
  ∃ h, foldl rc_op (fresh false h0) (send_asset a "GET" accept) =
         {| rc_head := false; rc_header := h; rc_sent := Some (200, h);
            rc_body := if zip then gzipped a else content a |} ∧
    header_Get h "Content-Encoding" = (if zip then "gzip" else "") ∧
    h !! "Content-Length" = Some [FormatInt (slen (if zip then gzipped a else content a))].
Proof.
  intros H0 zip. unfold send_asset. fold zip. destruct zip; eexists; (split; [reflexivity|]);
    cbn [rc_op header_op fresh rc_header with_header]; unfold header_Get, header_Add, header_Set; split.
  - by rewrite lookup_insert_ne, lookup_insert by done.
  - by rewrite !lookup_insert_ne, lookup_insert by done.
  - by rewrite !lookup_insert_ne, H0 by done.
  - by rewrite lookup_insert.
Qed.

Lemma loaded_asset files assets name body :
  loadStaticAssets TypeByExtension files = Ok assets → NoDup files.*1 → (name, Ok body) ∈ files →
  assets !! name = Some (asset_of TypeByExtension name body).
Proof.
  revert assets. induction files as [|[n b] files IH]; intros assets; cbn [loadStaticAssets fmap list_fmap].
  { intros _ _ []%elem_of_nil. }
  destruct b as [b|e]; [|done]. destruct (loadStaticAssets TypeByExtension files) as [rest|e]; [|done].
  intros [= <-] [Hn Hnd]%NoDup_cons [Heq|Hin]%elem_of_cons.
  - injection Heq as -> ->. by rewrite lookup_insert_eq.
  - rewrite lookup_insert_ne; [by apply IH|]. intros <-. apply Hn. by apply (list_elem_of_fmap_2 fst) in Hin.
Qed.

(** a static asset arrives byte for byte: a GET of a path that names an
    asset is answered with 200, decoding the body as its Content-Encoding says
    gives the file, that encoding is named in Accept-Encoding - gzip is applied
    once, not twice - and a Content-Length, when there is one, is the number
    of bytes sent. *)
Theorem static_assets_arrive (files : list (string * result error string)) (assets : gmap string staticAsset)
    (connection accept path name body : string) :
  readers_invert →
  loadStaticAssets TypeByExtension files = Ok assets → NoDup files.*1 → (name, Ok body) ∈ files →
  asset_name path = Some name →
  let c := Compress connection accept (staticHandler assets "GET" path accept) (fresh false (NoCache path)) in
  ∃ h, rc_sent c = Some (200, h) ∧ client_body h (rc_body c) = Some body ∧
    (header_Get h "Content-Encoding" ≠ "" → contains (header_Get h "Content-Encoding") accept = true) ∧
    (h !! "Content-Length" = None ∨ h !! "Content-Length" = Some [FormatInt (slen (rc_body c))]).
Proof.
  intros Hd Hload Hnd Hfile Hname. pose proof (loaded_asset _ _ _ _ Hload Hnd Hfile) as Hasset. cbv zeta. unfold staticHandler. rewrite Hname. cbn [mbind option_bind]. rewrite Hasset.
  set (a := asset_of TypeByExtension name body).
  assert (orderly (send_asset a "GET" accept)) as Ho.
  { unfold send_asset. repeat (apply Forall_cons; split; [done|]). apply Forall_app. split; [|by repeat constructor].
    destruct (_ && _); by repeat constructor. }
  destruct (orderly_final _ Ho) as [H1 H2].
  destruct (Compress_relates connection accept _ false (NoCache path) Hd H1 H2) as (enc & Hacc & Ht).
  destruct (send_asset_plain a accept (NoCache path)) as (h & Hp & Hce & Hcl).
  { unfold NoCache, header_Set. by rewrite lookup_insert_ne by done. }
  rewrite Hp in Ht. unfold transparent in Ht. cbn [rc_sent rc_head rc_body] in Ht.
  destruct (rc_sent (Compress _ _ _ _)) as [[code' h']|]; [|done]. destruct Ht as (-> & _ & Ht).
  exists h'. split; [done|]. unfold client_body. destruct Ht as [[Hsame Hb]|(Henc & Hne & Hsame & Hce' & Hcl' & _ & Hb)].
  - assert (header_Get h' "Content-Encoding" = header_Get h "Content-Encoding") as ->.
    { unfold header_Get. by rewrite (Hsame "Content-Encoding") by set_solver. }
    rewrite Hce, Hb, (Hsame "Content-Length"), Hcl by set_solver.
    destruct (isCompressible (contentType a) && contains "gzip" accept) eqn:Ez.
    + rewrite decide_False by done. split; [|split; [|by right]].
      * simpl. unfold decode. rewrite decide_True, (proj1 Hd) by done. simpl. by rewrite sapp_nil_r.
      * intros _. by apply andb_true_iff in Ez as [_ ->].
    + rewrite decide_True by done. split; [done|]. split; [done|by right].
  - assert (header_Get h' "Content-Encoding" = enc) as -> by (unfold header_Get; by rewrite Hce').
    rewrite Hne in Hce. destruct (isCompressible (contentType a) && contains "gzip" accept) eqn:Ez; [done|].
    split; [|split; [done|by left]]. rewrite Hb. by rewrite decide_False.
Qed.
End static.

Lemma static_assets_arrive_witness :
  let c := Compress "" "gzip, deflate"
             (staticHandler {[ "style.css" := asset_of (λ _, "text/css; charset=utf-8") "style.css" "body {}" ]} "GET"
                "/static/css/../style.css" "gzip, deflate")
             (fresh false (NoCache "/static/css/../style.css")) in
  ∃ h, rc_sent c = Some (200, h) ∧ client_body h (rc_body c) = Some "body {}" ∧
    (header_Get h "Content-Encoding" ≠ "" → contains (header_Get h "Content-Encoding") "gzip, deflate" = true) ∧
    (h !! "Content-Length" = None ∨ h !! "Content-Length" = Some [FormatInt (slen (rc_body c))]).
Proof.
  apply (static_assets_arrive (λ _, "text/css; charset=utf-8") [("style.css", Ok "body {}")]
           {[ "style.css" := asset_of (λ _, "text/css; charset=utf-8") "style.css" "body {}" ]} "" "gzip, deflate"
           "/static/css/../style.css" "style.css" "body {}").
  - by split.
  - reflexivity.
  - apply NoDup_singleton.
  - left.
  - vm_compute. reflexivity.
Defined.

(** A store that is down, and the error page it gives. *)
#[export] Instance Valkey_down : Valkey () := {|
  vk_Smembers := λ _ _ w, (Err (VErr (ENew "down")), w); vk_Hgetall := λ _ _ w, (Err (VErr (ENew "down")), w);
  vk_Hkeys := λ _ _ w, (Err (VErr (ENew "down")), w); vk_Hget := λ _ _ _ w, (Err (VErr (ENew "down")), w);
  vk_Hset := λ _ _ _ _ w, (Some (VErr (ENew "down")), w); vk_Hexpire := λ _ _ _ _ w, (Some (VErr (ENew "down")), w);
  vk_Hdel := λ _ _ _ w, (Some (VErr (ENew "down")), w); vk_Persist := λ _ _ w, (Some (VErr (ENew "down")), w) |}.
#[local] Instance no_codec {A} : Codec A := {| marshal := λ _, None; unmarshal := λ _, None |}.

#[export] Instance Renderers_sim : Renderers := {|
  json_dashboards := join ","; json_overview := λ _, ""; json_service := λ _, ""; json_latency := λ _, "";
  page_dashboard := λ d _, ([d], None); page_service := λ _, ([], None) |}.

Definition sim_request : http_request :=
  {| hr_Method := "GET"; hr_Path := "/prod"; hr_RawQuery := ""; hr_Query := λ _, ""; hr_HTTP11 := true;
     hr_Header := λ k, if decide (k = "Accept-Encoding") then "gzip" else "" |}.

Definition sim_store : Store :=
  {| locations := ∅; primary := {| cl_name := "a"; cl_id := 0 |}; Store.retention := 90; retentionDays := 90 |}.

Lemma Handler_transparent_witness :
  match (handle (λ _, "") sim_store 90 ∅ true sim_request 0 ()).1.1,
        (Handler (λ _, "") sim_store 90 ∅ true sim_request 0 ()).1.1 with
  | Some ops, Some c =>
      ∃ enc, (enc ≠ "" → contains enc (hr_Header sim_request "Accept-Encoding") = true) ∧
        transparent enc (foldl rc_op (fresh (bool_decide (hr_Method sim_request = "HEAD")) (NoCache (hr_Path sim_request))) ops) c
  | None, None => True
  | _, _ => False
  end.
Proof.
  apply (Handler_transparent (λ _, "") sim_store 90 ∅ true sim_request 0 ()). done.
Defined.
