(* ===== verification/Dashboard.v ===== *)
(** * The dashboard process (dashboard/cmd/dashboard/main.go)

    Start-up: the configuration is loaded, the servers are dialed, the runner
    and the web server are built, in the order and with the errors of [main].
    Proved: a dashboard that started never panics, neither when the runner
    starts nor in any request. *)

From S2P Require Import Prelude GoStd GoTime Errors Trace Ladder Float64 Rollups Valkey Store.
From S2P Require Import Runner Config Server Middleware Handler.

Record Dashboard := {
  da_HTTPAddr : string; da_Store : Store; da_Runner : Runner;
  da_Assets : gmap string staticAsset; da_Retention : Z }.

Section main.
Context `{EN : !Encodings}.
(** What the configuration is read with. *)
Variable ReadFile : string → result error string.
Variable Unmarshal : string → result error Config.
Variable Getenv : string → string.
Variable ParseDuration : string → result error duration.
Variable Quote : string → string.
(** The client library connects to a location or fails. *)
Variable NewClient : ClientOption → option error.
(** The embedded files: the static ones, and whether the templates parse. *)
Variable TypeByExtension : string → string.
Variable staticFS : result error (list (string * result error string)).
Variable templates : option error.

(** [server.New]: the assets. *)
Definition server_New : result error (gmap string staticAsset) :=
  files ← staticFS;
  assets ← loadStaticAssets TypeByExtension files;
  match templates with Some e => Err e | None => Ok assets end.

(** [log.Fatalf] with the text and the error. *)
Definition fatal {A} (text : string) (r : result error A) : result error A :=
  match r with Err e => Err (EWrap text e) | Ok a => Ok a end.

Definition main (path : string) : result error Dashboard :=
  cfg ← fatal "load config: " (Load ParseDuration Quote ReadFile Unmarshal Getenv path);
  st ← fatal "connect valkey: " (New NewClient cfg);
  rollupInterval ← fatal "rollup interval: " (RollupDuration ParseDuration cfg);
  backfillPace ← fatal "backfill pace: " (BackfillPaceDuration ParseDuration cfg);
  let runner := NewRunner rollupInterval backfillPace (DefaultRetentionDays cfg) in
  assets ← fatal "server: " server_New;
  Ok {| da_HTTPAddr := HTTPAddr cfg; da_Store := st; da_Runner := runner; da_Assets := assets;
        da_Retention := DefaultRetentionDays cfg |}.

Lemma Load_valid path cfg :
  Load ParseDuration Quote ReadFile Unmarshal Getenv path = Ok cfg → valid ParseDuration cfg.
Proof.
  unfold Load. destruct (ReadFile path) as [data|e]; [|done]. destruct (Unmarshal data) as [cfg0|e]; [|done].
  cbv zeta. destruct (validate _ _ _) eqn:E; [done|]. intros [= <-]. by apply validate_accepts_valid in E.
Qed.

Lemma fatal_Ok {A} text (r : result error A) a : fatal text r = Ok a → r = Ok a.
Proof. by destruct r. Qed.

Lemma main_started path d :
  main path = Ok d → 1 ≤ da_Retention d ∧ 0 < interval (da_Runner d) ∧ 0 ≤ pace (da_Runner d).
Proof.
  unfold main. destruct (fatal _ (Load _ _ _ _ _ _)) as [cfg|e] eqn:El; [|done]. apply fatal_Ok, Load_valid in El.
  destruct El as (_ & _ & _ & _ & Hr & (i & Hi & Hi0) & (p & Hp & Hp0)).
  cbn [mbind result_bind]. destruct (fatal _ (New NewClient cfg)) as [st|e]; [|done].
  cbn [mbind result_bind]. rewrite Hi, Hp. cbn [fatal mbind result_bind].
  destruct (fatal _ server_New) as [assets|e]; [|done]. by intros [= <-].
Qed.

(** C22: a dashboard that started never panics: whatever configuration file,
    environment and embedded files it was built from, the ticker of the
    runner's loop is created, and every request - any method, path, query and
    header, at any time, in any state of the servers - gets an answer. *)
Theorem started_dashboard_never_panics (path : string) (d : Dashboard) :
  main path = Ok d →
  (∀ now, is_Some (Start (da_Runner d) now)) ∧
  ∀ (W : Type) (VA : Valkey W) (CA : Codec AggregateRollup) (CD : Codec DailyRollup) (RE : Renderers)
    (format_1f : float64 → string) (moved : bool) (rq : http_request) (now : time) (w : W),
    is_Some (Handler format_1f (da_Store d) (da_Retention d) (da_Assets d) moved rq now w).1.1.
Proof.
  intros (Hr & Hi & _)%main_started. split.
  - intros now. unfold Start, NewTicker. rewrite (proj2 (Z.leb_gt _ _) Hi). by eexists.
  - intros W VA CA CD RE format_1f moved rq now w. apply not_eq_None_Some.
    by apply (Handler_total format_1f (da_Store d) (da_Retention d) (da_Assets d) moved rq now Hr w).
Qed.
End main.

Definition sim_duration (d : string) : result error duration :=
  Ok (if decide (d = "5m") then 5 * Minute else 10 * 10 ^ 6).

Definition sim_main : result error Dashboard :=
  main (λ _, Ok "") (λ _, Ok sim_config) (λ _, "") sim_duration id (λ _, None) (λ _, "text/css; charset=utf-8")
    (Ok [("css/style.css", Ok "body {}")]) None "config.yaml".

Lemma started_dashboard_never_panics_witness :
  match sim_main with
  | Ok d =>
      (∀ now, is_Some (Start (da_Runner d) now)) ∧
      ∀ (W : Type) (VA : Valkey W) (CA : Codec AggregateRollup) (CD : Codec DailyRollup) (RE : Renderers)
        (format_1f : float64 → string) (moved : bool) (rq : http_request) (now : time) (w : W),
        is_Some (Handler format_1f (da_Store d) (da_Retention d) (da_Assets d) moved rq now w).1.1
  | Err _ => False
  end.
Proof.
  apply (started_dashboard_never_panics (λ _, Ok "") (λ _, Ok sim_config) (λ _, "") sim_duration id (λ _, None)
           (λ _, "text/css; charset=utf-8") (Ok [("css/style.css", Ok "body {}")]) None "config.yaml").
  vm_compute. reflexivity.
Defined.
